(** * d3d12book demos: frame loop, fence synchronisation and per-frame data

    A shallow embedding of the three demo applications of the repository
    (BoxApp, CrateApp, BlendApp) and of the parts of the Direct3D 12 runtime
    they talk to (command queue, fence, upload buffers).

    - Part I   machine integers, IEEE binary32, the Direct3D objects
    - Part II  the data records and the code shared by CrateApp and BlendApp
    - Part III BoxApp, CrateApp, BlendApp
    - Part IV  lemmas and the properties of the specification

    C++ pointers into owned containers are modelled by the key they point
    at ([Material*] is a key of [mMaterials], [RenderItem*] an index of
    [mAllRitems], [FrameResource*] an index of [mFrameResources]), so that
    a write through one alias is seen through the others. *)

From Stdlib Require Import ZArith Lia Bool List Sorted.
From Stdlib Require Import Floats.SpecFloat.
From stdpp Require Import base option list numbers strings pretty gmap.

Open Scope Z_scope.

(* ===================================================================== *)
(** * Part I.  Machine level                                             *)
(* ===================================================================== *)

(** ** Fixed-width integers: [UINT] (32 bit), [UINT64], [int] (32 bit). *)

Definition to_UINT (z : Z) : Z := z mod 2 ^ 32.
Definition to_UINT64 (z : Z) : Z := z mod 2 ^ 64.
Definition to_int (z : Z) : Z := (z + 2 ^ 31) mod 2 ^ 32 - 2 ^ 31.

(** C++ [%] on [int] truncates towards zero. *)
Definition int_rem (a b : Z) : Z := Z.rem a b.

(** ** IEEE 754 binary32, round to nearest even ([float]). *)

Module f32.
Definition prec : Z := 24.
Definition emax : Z := 128.

Definition add : spec_float -> spec_float -> spec_float := SFadd prec emax.
Definition sub : spec_float -> spec_float -> spec_float := SFsub prec emax.
Definition mul : spec_float -> spec_float -> spec_float := SFmul prec emax.
Definition div : spec_float -> spec_float -> spec_float := SFdiv prec emax.
Definition neg : spec_float -> spec_float := SFopp.

(** [x < y], [x <= y]; both are false as soon as one side is a NaN. *)
Definition ltb : spec_float -> spec_float -> bool := SFltb.
Definition leb : spec_float -> spec_float -> bool := SFleb.

(** [static_cast<float>(n)] for an integer [n]. *)
Definition of_int (n : Z) : spec_float := binary_normalize prec emax n 0 false.

(** The literal [p/q] written in decimal in the source ([0.1f] is
    [lit 1 10]): the quotient is rounded once, to nearest even. *)
Definition lit (p q : positive) : spec_float :=
  SFdiv prec emax (S754_finite false p 0) (S754_finite false q 0).

Definition zero : spec_float := S754_zero false.
Definition one : spec_float := of_int 1.

Definition is_nan (x : spec_float) : bool :=
  match x with S754_nan => true | _ => false end.

(** Finite and different from zero. *)
Definition is_finite_nonzero (x : spec_float) : bool :=
  match x with S754_finite _ _ _ => true | _ => false end.
End f32.

Abbreviation float := spec_float.

(** ** DirectXMath storage types: row-major lists of [float]. *)

Definition XMFLOAT3 := list float.
Definition XMFLOAT4 := list float.
Definition XMFLOAT4X4 := list float.

(** [m(r, c)] *)
Definition mat_get (m : XMFLOAT4X4) (r c : nat) : float :=
  nth (4 * r + c)%nat m f32.zero.
Definition mat_set (m : XMFLOAT4X4) (r c : nat) (x : float) : XMFLOAT4X4 :=
  <[(4 * r + c)%nat := x]> m.

Definition Identity4x4 : XMFLOAT4X4 :=
  let o := f32.one in let z := f32.zero in
  [o; z; z; z;  z; o; z; z;  z; z; o; z;  z; z; z; o].

Definition XMMatrixScaling (sx sy sz : float) : XMFLOAT4X4 :=
  let o := f32.one in let z := f32.zero in
  [sx; z; z; z;  z; sy; z; z;  z; z; sz; z;  z; z; z; o].

Definition XMMatrixTranslation (x y z' : float) : XMFLOAT4X4 :=
  let o := f32.one in let z := f32.zero in
  [o; z; z; z;  z; o; z; z;  z; z; o; z;  x; y; z'; o].

Definition XMMatrixTranspose (m : XMFLOAT4X4) : XMFLOAT4X4 :=
  map (fun i => mat_get m (i mod 4) (i / 4))%nat (seq 0 16).

(** The DirectXMath routines whose result depends on the library's own
    evaluation order and polynomial approximations are parameters. *)
Class DirectXMath := {
  XMMatrixMultiply : XMFLOAT4X4 -> XMFLOAT4X4 -> XMFLOAT4X4;
  XMMatrixRotationZ : float -> XMFLOAT4X4
}.

(** [XM_PI], and [XMConvertToRadians(d) = d * (XM_PI / 180.0f)]. *)
Definition XM_PI : float := f32.lit 3141592654 1000000000.
Definition XMConvertToRadians (fDegrees : float) : float :=
  f32.mul fDegrees (f32.div XM_PI (f32.of_int 180)).

(** ** The observable calls of one run. *)

Inductive Kind :=
| KRenderItem | KMaterial | KMeshGeometry | KTexture | KFrameResource
| KUploadBuffer
| KRootSignature | KDescriptorHeap | KDescriptor | KShader
| KPipelineState | KResource.

(** The data entities of the data model. *)
Definition is_data_entity (k : Kind) : bool :=
  match k with
  | KRenderItem | KMaterial | KMeshGeometry | KTexture | KFrameResource
  | KUploadBuffer => true
  | _ => false
  end.

Inductive Buffer := BufPass | BufObject | BufMaterial | BufWaves.

(** Commands recorded into [mCommandList].  Addresses and descriptor
    handles are kept as byte offsets from the start of the buffer or of
    the heap they point into. *)
Inductive Cmd :=
| RSSetViewports | RSSetScissorRects
| ResourceBarrier (resource : string)
| ClearRenderTargetView | ClearDepthStencilView | OMSetRenderTargets
| SetDescriptorHeaps
| SetGraphicsRootSignature (name : string)
| SetPipelineState (name : string)
| SetGraphicsRootConstantBufferView (slot : Z) (b : Buffer) (offset : Z)
| SetGraphicsRootDescriptorTable (slot : Z) (heap : string) (offset : Z)
| IASetVertexBuffers (geo : string) | IASetIndexBuffer (geo : string)
| IASetPrimitiveTopology
| DrawIndexedInstanced (what : string)
| CopyTextureRegion
| CopyBufferRegion (what : string).

Inductive Event :=
| EvCreate (k : Kind) (name : string)
| EvCopyData (b : Buffer) (fr : option nat) (i : Z)
| EvAllocReset (fr : option nat)
| EvListReset
| EvCmd (c : Cmd)
| EvClose
| EvExecute
| EvPresent
| EvSignal (v : Z)
| EvWait (v : Z).

Definition is_wait (e : Event) : bool :=
  match e with EvWait _ => true | _ => false end.
Definition is_create_entity (e : Event) : bool :=
  match e with EvCreate k _ => is_data_entity k | _ => false end.
(** Events of command recording: resets, recorded commands, and the
    creation of objects whose upload is recorded into the list. *)
Definition is_recording (e : Event) : bool :=
  match e with
  | EvAllocReset _ | EvListReset | EvCmd _ | EvCreate _ _ => true
  | _ => false
  end.
Definition is_submission (e : Event) : bool :=
  match e with
  | EvClose | EvExecute | EvPresent | EvSignal _ => true
  | _ => false
  end.

(** ** Command queue and fence.

    The queue executes in order.  A submitted command list is a [QWork]
    item that remembers which frame resource its commands read; a
    [Signal(fence, v)] is a [QSignal v] item, and the fence's completed
    value becomes [v] when the GPU reaches it. *)

Inductive QueueItem :=
| QWork (fr : option nat)
| QSignal (v : Z).

Record GPU := mkGPU {
  completed : Z;                (* ID3D12Fence::GetCompletedValue *)
  pending : list QueueItem      (* submitted, not yet executed *)
}.

(** The GPU retires the item at the head of the queue. *)
Definition gpu_step (g : GPU) : GPU :=
  match pending g with
  | [] => g
  | QWork _ :: q => mkGPU (completed g) q
  | QSignal v :: q => mkGPU v q
  end.

(** [SetEventOnCompletion(v, h); WaitForSingleObject(h, INFINITE)]: the
    CPU sleeps until the completed value has reached [v]; [None] when
    nothing in the queue will ever signal that much. *)
Fixpoint wait_items (v c : Z) (q : list QueueItem) : option (Z * list QueueItem) :=
  match q with
  | [] => if v <=? c then Some (c, []) else None
  | QWork fr :: q' =>
      if v <=? c then Some (c, q) else wait_items v c q'
  | QSignal w :: q' =>
      if v <=? c then Some (c, q) else wait_items v w q'
  end.

Definition gpu_wait (v : Z) (g : GPU) : option GPU :=
  match wait_items v (completed g) (pending g) with
  | Some (c, q) => Some (mkGPU c q)
  | None => None
  end.

Definition gpu_submit (it : QueueItem) (g : GPU) : GPU :=
  mkGPU (completed g) (pending g ++ [it]).

(** The GPU still has a command list in flight that reads frame resource [i]. *)
Definition gpu_reads (i : nat) (g : GPU) : Prop := In (QWork (Some i)) (pending g).

(** ** Values fixed by the device and by headers outside these sources. *)

Record Env := mkEnv {
  SwapChainBufferCount : Z;     (* d3dApp.h *)
  CbvSrvUavDescriptorSize : Z;  (* GetDescriptorHandleIncrementSize *)
  objCBByteSize : Z;            (* CalcConstantBufferByteSize(sizeof(ObjectConstants)) *)
  matCBByteSize : Z             (* CalcConstantBufferByteSize(sizeof(MaterialConstants)) *)
}.

(** ** The members of the base class [D3DApp] the demos use. *)

Record D3DApp := mkD3DApp {
  mCurrentFence : Z;            (* UINT64 *)
  mCurrBackBuffer : Z;          (* int *)
  mGPU : GPU                    (* mCommandQueue and mFence *)
}.

Definition set_mCurrentFence (v : Z) (b : D3DApp) : D3DApp :=
  mkD3DApp v (mCurrBackBuffer b) (mGPU b).
Definition set_mCurrBackBuffer (v : Z) (b : D3DApp) : D3DApp :=
  mkD3DApp (mCurrentFence b) v (mGPU b).
Definition set_mGPU (g : GPU) (b : D3DApp) : D3DApp :=
  mkD3DApp (mCurrentFence b) (mCurrBackBuffer b) g.

(** ** Methods as state transformers that may crash and that log their calls.

    [None] is a null pointer dereferenced, a container lookup that finds
    nothing, a remainder by zero or a wait for a fence value that is
    never signalled.  The Direct3D calls themselves always succeed here:
    [ThrowIfFailed] never throws and [D3DApp::Initialize] returns [true].
    A method that returns stands for the run of the source in which no
    [HRESULT] is a failure; nothing is said of the runs in which one
    is. *)

Definition M (S A : Type) : Type :=
  D3DApp * S -> option (A * (D3DApp * S) * list Event).

Definition ret {S A} (a : A) : M S A := fun st => Some (a, st, []).

Definition bind {S A B} (m : M S A) (k : A -> M S B) : M S B :=
  fun st =>
    match m st with
    | None => None
    | Some (a, st1, t1) =>
        match k a st1 with
        | None => None
        | Some (b, st2, t2) => Some (b, st2, t1 ++ t2)
        end
    end.

Declare Scope method_scope.
Delimit Scope method_scope with method.
Notation "x <- m ;; k" := (bind m (fun x => k))
  (at level 100, m at next level, right associativity) : method_scope.
Notation "m ;;; k" := (bind m (fun _ => k))
  (at level 100, right associativity) : method_scope.
Open Scope method_scope.

Definition crash {S A} : M S A := fun _ => None.
Definition emit {S} (e : Event) : M S unit := fun st => Some (tt, st, [e]).
Definition emits {S} (es : list Event) : M S unit := fun st => Some (tt, st, es).
Definition record {S} (c : Cmd) : M S unit := emit (EvCmd c).
Definition base {S} : M S D3DApp := fun st => Some (fst st, st, []).
Definition this {S} : M S S := fun st => Some (snd st, st, []).
Definition set_base {S} (f : D3DApp -> D3DApp) : M S unit :=
  fun st => Some (tt, (f (fst st), snd st), []).
Definition set_this {S} (f : S -> S) : M S unit :=
  fun st => Some (tt, (fst st, f (snd st)), []).
Definition when {S} (b : bool) (m : M S unit) : M S unit :=
  if b then m else ret tt.

(** [mCommandQueue->ExecuteCommandLists], [mCommandQueue->Signal],
    [mSwapChain->Present] and the blocking wait on the fence event. *)
Definition ExecuteCommandLists {S} (fr : option nat) : M S unit :=
  set_base (fun b => set_mGPU (gpu_submit (QWork fr) (mGPU b)) b) ;;;
  emit EvExecute.

Definition Signal {S} (v : Z) : M S unit :=
  set_base (fun b => set_mGPU (gpu_submit (QSignal v) (mGPU b)) b) ;;;
  emit (EvSignal v).

Definition Present {S} : M S unit := emit EvPresent.

Definition WaitForFence {S} (v : Z) : M S unit :=
  b <- base ;;
  match gpu_wait v (mGPU b) with
  | None => crash
  | Some g => set_base (set_mGPU g) ;;; emit (EvWait v)
  end.

(** Modelled from the spec: [D3DApp::FlushCommandQueue] (Common/d3dApp.cpp
    is not among the sources).  The flush is the fence signal followed by
    the one blocking wait for it. *)
Definition FlushCommandQueue {S} : M S unit :=
  b <- base ;;
  let v := to_UINT64 (mCurrentFence b + 1) in
  set_base (set_mCurrentFence v) ;;;
  Signal v ;;;
  b' <- base ;;
  when (completed (mGPU b') <? v) (WaitForFence v).

(** [mSwapChain->Present(0, 0);
     mCurrBackBuffer = (mCurrBackBuffer + 1) % SwapChainBufferCount;] *)
Definition PresentAndSwap {S} (env : Env) : M S unit :=
  Present ;;;
  set_base (fun b =>
    set_mCurrBackBuffer
      (int_rem (to_int (mCurrBackBuffer b + 1)) (SwapChainBufferCount env)) b).

(* ===================================================================== *)
(** * Part II.  Data records and the code CrateApp and BlendApp share     *)
(* ===================================================================== *)

Definition gNumFrameResources : Z := 3.

Record GameTimer := mkGameTimer { TotalTime : float; DeltaTime : float }.

(** ** [struct RenderItem] (part_000 lines 22-52 and 1200-1230).
    The draw arguments copied from the geometry are not tracked. *)
Module RenderItem.
Record t := mk {
  World : XMFLOAT4X4;
  TexTransform : XMFLOAT4X4;
  NumFramesDirty : Z;            (* int *)
  ObjCBIndex : Z;                (* UINT *)
  Mat : option string;           (* Material*, a key of mMaterials *)
  Geo : option string            (* MeshGeometry*, a key of mGeometries *)
}.
Definition default : t :=
  mk Identity4x4 Identity4x4 gNumFrameResources (to_UINT (-1)) None None.
Definition set_World v (e : t) :=
  mk v (TexTransform e) (NumFramesDirty e) (ObjCBIndex e) (Mat e) (Geo e).
Definition set_TexTransform v (e : t) :=
  mk (World e) v (NumFramesDirty e) (ObjCBIndex e) (Mat e) (Geo e).
Definition set_NumFramesDirty v (e : t) :=
  mk (World e) (TexTransform e) v (ObjCBIndex e) (Mat e) (Geo e).
Definition set_ObjCBIndex v (e : t) :=
  mk (World e) (TexTransform e) (NumFramesDirty e) v (Mat e) (Geo e).
Definition set_Mat v (e : t) :=
  mk (World e) (TexTransform e) (NumFramesDirty e) (ObjCBIndex e) v (Geo e).
Definition set_Geo v (e : t) :=
  mk (World e) (TexTransform e) (NumFramesDirty e) (ObjCBIndex e) (Mat e) v.
End RenderItem.

(** ** Modelled from the spec: [struct Material] (Common/d3dUtil.h is not
    among the sources): a plain record mirroring a GPU material, created
    dirty for every frame resource. *)
Module Material.
Record t := mk {
  Name : string;
  MatCBIndex : Z;                (* int *)
  DiffuseSrvHeapIndex : Z;       (* int *)
  AlphaSrvHeapIndex : Z;         (* int *)
  NumFramesDirty : Z;            (* int *)
  DiffuseAlbedo : XMFLOAT4;
  FresnelR0 : XMFLOAT3;
  Roughness : float;
  MatTransform : XMFLOAT4X4
}.
Definition default : t :=
  mk "" (-1) (-1) (-1) gNumFrameResources
     [f32.one; f32.one; f32.one; f32.one]
     [f32.lit 1 100; f32.lit 1 100; f32.lit 1 100]
     (f32.lit 1 4) Identity4x4.
Definition set_Name v (m : t) :=
  mk v (MatCBIndex m) (DiffuseSrvHeapIndex m) (AlphaSrvHeapIndex m)
     (NumFramesDirty m) (DiffuseAlbedo m) (FresnelR0 m) (Roughness m) (MatTransform m).
Definition set_MatCBIndex v (m : t) :=
  mk (Name m) v (DiffuseSrvHeapIndex m) (AlphaSrvHeapIndex m)
     (NumFramesDirty m) (DiffuseAlbedo m) (FresnelR0 m) (Roughness m) (MatTransform m).
Definition set_DiffuseSrvHeapIndex v (m : t) :=
  mk (Name m) (MatCBIndex m) v (AlphaSrvHeapIndex m)
     (NumFramesDirty m) (DiffuseAlbedo m) (FresnelR0 m) (Roughness m) (MatTransform m).
Definition set_AlphaSrvHeapIndex v (m : t) :=
  mk (Name m) (MatCBIndex m) (DiffuseSrvHeapIndex m) v
     (NumFramesDirty m) (DiffuseAlbedo m) (FresnelR0 m) (Roughness m) (MatTransform m).
Definition set_NumFramesDirty v (m : t) :=
  mk (Name m) (MatCBIndex m) (DiffuseSrvHeapIndex m) (AlphaSrvHeapIndex m)
     v (DiffuseAlbedo m) (FresnelR0 m) (Roughness m) (MatTransform m).
Definition set_DiffuseAlbedo v (m : t) :=
  mk (Name m) (MatCBIndex m) (DiffuseSrvHeapIndex m) (AlphaSrvHeapIndex m)
     (NumFramesDirty m) v (FresnelR0 m) (Roughness m) (MatTransform m).
Definition set_FresnelR0 v (m : t) :=
  mk (Name m) (MatCBIndex m) (DiffuseSrvHeapIndex m) (AlphaSrvHeapIndex m)
     (NumFramesDirty m) (DiffuseAlbedo m) v (Roughness m) (MatTransform m).
Definition set_Roughness v (m : t) :=
  mk (Name m) (MatCBIndex m) (DiffuseSrvHeapIndex m) (AlphaSrvHeapIndex m)
     (NumFramesDirty m) (DiffuseAlbedo m) (FresnelR0 m) v (MatTransform m).
Definition set_MatTransform v (m : t) :=
  mk (Name m) (MatCBIndex m) (DiffuseSrvHeapIndex m) (AlphaSrvHeapIndex m)
     (NumFramesDirty m) (DiffuseAlbedo m) (FresnelR0 m) (Roughness m) v.
End Material.

(** ** The constant-buffer elements, as [UpdateObjectCBs] and
    [UpdateMaterialCBs] fill them. *)
Record ObjectConstants := mkObjectConstants {
  oc_World : XMFLOAT4X4;
  oc_TexTransform : XMFLOAT4X4
}.

Record MaterialConstants := mkMaterialConstants {
  mc_DiffuseAlbedo : XMFLOAT4;
  mc_FresnelR0 : XMFLOAT3;
  mc_Roughness : float;
  mc_MatTransform : XMFLOAT4X4
}.

(** ** [UploadBuffer<T>]: an array of elements in an upload heap, [None]
    where nothing was copied yet.  [CopyData] with an element index out of
    the array writes outside the mapped buffer; the array is unchanged. *)
Definition UploadBuffer (T : Type) := list (option T).

Definition new_UploadBuffer {T} (elementCount : Z) : UploadBuffer T :=
  replicate (Z.to_nat elementCount) None.

Definition CopyData {T} (elementIndex : Z) (data : T) (b : UploadBuffer T)
  : UploadBuffer T :=
  if decide (0 <= elementIndex) then <[Z.to_nat elementIndex := Some data]> b
  else b.

(** ** Modelled from the spec: [struct FrameResource] (FrameResource.h is
    not among the sources): the per-in-flight-frame bundle of a command
    allocator and constant buffers, with the fence value that marks the
    commands recorded with it.  The pass constants and the wave vertices
    are written every frame and their contents are not tracked. *)
Module FrameResource.
Record t := mk {
  Fence : Z;                                 (* UINT64 Fence = 0 *)
  ObjectCB : UploadBuffer ObjectConstants;
  MaterialCB : UploadBuffer MaterialConstants
}.
Definition new (passCount objectCount materialCount : Z) : t :=
  mk 0 (new_UploadBuffer objectCount) (new_UploadBuffer materialCount).
Definition set_Fence v (f : t) := mk v (ObjectCB f) (MaterialCB f).
Definition set_ObjectCB v (f : t) := mk (Fence f) v (MaterialCB f).
Definition set_MaterialCB v (f : t) := mk (Fence f) (ObjectCB f) v.
End FrameResource.

(** ** The orbit camera every demo keeps. *)
Record Camera := mkCamera {
  mTheta : float;
  mPhi : float;
  mRadius : float;
  mLastMousePos : Z * Z
}.

(** ** The members CrateApp and BlendApp declare alike; [ext] holds the
    members only one of them has. *)
Record App (X : Type) := mkApp {
  mFrameResources : list FrameResource.t;
  mCurrFrameResource : option nat;         (* FrameResource*, nullptr at first *)
  mCurrFrameResourceIndex : Z;             (* int *)
  mCbvSrvDescriptorSize : Z;               (* UINT *)
  mSrvDescriptorHeap : option Z;           (* NumDescriptors of the heap *)
  mGeometries : gset string;
  mMaterials : gmap string Material.t;
  mTextures : gset string;
  mAllRitems : list RenderItem.t;
  mCamera : Camera;
  ext : X
}.
Arguments mkApp {X}.
Arguments mFrameResources {X}.
Arguments mCurrFrameResource {X}.
Arguments mCurrFrameResourceIndex {X}.
Arguments mCbvSrvDescriptorSize {X}.
Arguments mSrvDescriptorHeap {X}.
Arguments mGeometries {X}.
Arguments mMaterials {X}.
Arguments mTextures {X}.
Arguments mAllRitems {X}.
Arguments mCamera {X}.
Arguments ext {X}.

Section AppSetters.
Context {X : Type}.
Implicit Type a : App X.
Definition set_mFrameResources v a :=
  mkApp v (mCurrFrameResource a) (mCurrFrameResourceIndex a) (mCbvSrvDescriptorSize a)
    (mSrvDescriptorHeap a) (mGeometries a) (mMaterials a) (mTextures a) (mAllRitems a)
    (mCamera a) (ext a).
Definition set_mCurrFrameResource v a :=
  mkApp (mFrameResources a) v (mCurrFrameResourceIndex a) (mCbvSrvDescriptorSize a)
    (mSrvDescriptorHeap a) (mGeometries a) (mMaterials a) (mTextures a) (mAllRitems a)
    (mCamera a) (ext a).
Definition set_mCurrFrameResourceIndex v a :=
  mkApp (mFrameResources a) (mCurrFrameResource a) v (mCbvSrvDescriptorSize a)
    (mSrvDescriptorHeap a) (mGeometries a) (mMaterials a) (mTextures a) (mAllRitems a)
    (mCamera a) (ext a).
Definition set_mCbvSrvDescriptorSize v a :=
  mkApp (mFrameResources a) (mCurrFrameResource a) (mCurrFrameResourceIndex a) v
    (mSrvDescriptorHeap a) (mGeometries a) (mMaterials a) (mTextures a) (mAllRitems a)
    (mCamera a) (ext a).
Definition set_mSrvDescriptorHeap v a :=
  mkApp (mFrameResources a) (mCurrFrameResource a) (mCurrFrameResourceIndex a)
    (mCbvSrvDescriptorSize a) v (mGeometries a) (mMaterials a) (mTextures a)
    (mAllRitems a) (mCamera a) (ext a).
Definition set_mGeometries v a :=
  mkApp (mFrameResources a) (mCurrFrameResource a) (mCurrFrameResourceIndex a)
    (mCbvSrvDescriptorSize a) (mSrvDescriptorHeap a) v (mMaterials a) (mTextures a)
    (mAllRitems a) (mCamera a) (ext a).
Definition set_mMaterials v a :=
  mkApp (mFrameResources a) (mCurrFrameResource a) (mCurrFrameResourceIndex a)
    (mCbvSrvDescriptorSize a) (mSrvDescriptorHeap a) (mGeometries a) v (mTextures a)
    (mAllRitems a) (mCamera a) (ext a).
Definition set_mTextures v a :=
  mkApp (mFrameResources a) (mCurrFrameResource a) (mCurrFrameResourceIndex a)
    (mCbvSrvDescriptorSize a) (mSrvDescriptorHeap a) (mGeometries a) (mMaterials a) v
    (mAllRitems a) (mCamera a) (ext a).
Definition set_mAllRitems v a :=
  mkApp (mFrameResources a) (mCurrFrameResource a) (mCurrFrameResourceIndex a)
    (mCbvSrvDescriptorSize a) (mSrvDescriptorHeap a) (mGeometries a) (mMaterials a)
    (mTextures a) v (mCamera a) (ext a).
Definition set_mCamera v a :=
  mkApp (mFrameResources a) (mCurrFrameResource a) (mCurrFrameResourceIndex a)
    (mCbvSrvDescriptorSize a) (mSrvDescriptorHeap a) (mGeometries a) (mMaterials a)
    (mTextures a) (mAllRitems a) v (ext a).
Definition set_ext (v : X) a :=
  mkApp (mFrameResources a) (mCurrFrameResource a) (mCurrFrameResourceIndex a)
    (mCbvSrvDescriptorSize a) (mSrvDescriptorHeap a) (mGeometries a) (mMaterials a)
    (mTextures a) (mAllRitems a) (mCamera a) v.
End AppSetters.

(** ** Modelled from the spec: [MathHelper::Clamp] and [MathHelper::Pi]
    (Common/MathHelper.h is not among the sources): the value is
    restricted to the interval between [low] and [high]. *)
Module MathHelper.
Definition Pi : float := f32.lit 31415926535 10000000000.
Definition Clamp (x low high : float) : float :=
  if f32.ltb x low then low else if f32.ltb high x then high else x.
End MathHelper.

(** [WinUser.h] *)
Definition MK_LBUTTON : Z := 1.
Definition MK_RBUTTON : Z := 2.
Definition VK_F1 : Z := 112.
Definition VK_F2 : Z := 113.

(** ** [OnMouseMove], the same text in the three demos up to the zoom
    factor and the bounds of the radius (BoxApp.cpp lines 351-381,
    part_000 lines 442-472 and 1643-1673). *)
Definition phi_low : float := f32.lit 1 10.
Definition phi_high : float := f32.sub MathHelper.Pi (f32.lit 1 10).

Definition OrbitCamera (zoom rlow rhigh : float) (btnState x y : Z) (c : Camera)
  : Camera :=
  let lx := fst (mLastMousePos c) in
  let ly := snd (mLastMousePos c) in
  if negb (Z.land btnState MK_LBUTTON =? 0) then
    let dx := XMConvertToRadians (f32.mul (f32.lit 1 4) (f32.of_int (to_int (x - lx)))) in
    let dy := XMConvertToRadians (f32.mul (f32.lit 1 4) (f32.of_int (to_int (y - ly)))) in
    let theta := f32.add (mTheta c) dx in
    let phi := f32.add (mPhi c) dy in
    mkCamera theta (MathHelper.Clamp phi phi_low phi_high) (mRadius c) (x, y)
  else if negb (Z.land btnState MK_RBUTTON =? 0) then
    let dx := f32.mul zoom (f32.of_int (to_int (x - lx))) in
    let dy := f32.mul zoom (f32.of_int (to_int (y - ly))) in
    let radius := f32.add (mRadius c) (f32.sub dx dy) in
    mkCamera (mTheta c) (mPhi c) (MathHelper.Clamp radius rlow rhigh) (x, y)
  else
    mkCamera (mTheta c) (mPhi c) (mRadius c) (x, y).

Definition OnMouseDown (x y : Z) (c : Camera) : Camera :=
  mkCamera (mTheta c) (mPhi c) (mRadius c) (x, y).

(** ** The dirty-counter loops [UpdateObjectCBs] and [UpdateMaterialCBs]
    (part_000 lines 623-671 and 1761-1809): one loop body, over the
    render items and over the materials. *)
Section DirtyLoop.
Context {E T : Type}.
Variables (dirty : E -> Z) (set_dirty : Z -> E -> E).
Variables (index : E -> Z) (constants : E -> T) (buf : Buffer).

(** [if (e->NumFramesDirty > 0) { cb->CopyData(index, constants);
     e->NumFramesDirty--; }] *)
Definition copy_if_dirty (fr : nat) (e : E) (cb : UploadBuffer T)
  : E * UploadBuffer T * list Event :=
  if 0 <? dirty e then
    (set_dirty (to_int (dirty e - 1)) e,
     CopyData (index e) (constants e) cb,
     [EvCopyData buf (Some fr) (index e)])
  else (e, cb, []).

Fixpoint update_dirty (fr : nat) (es : list E) (cb : UploadBuffer T)
  : list E * UploadBuffer T * list Event :=
  match es with
  | [] => ([], cb, [])
  | e :: es' =>
      let '(e1, cb1, t1) := copy_if_dirty fr e cb in
      let '(es1, cb2, t2) := update_dirty fr es' cb1 in
      (e1 :: es1, cb2, t1 ++ t2)
  end.

(** What the loop body leaves in the entity itself. *)
Definition after_visit (e : E) : E :=
  if 0 <? dirty e then set_dirty (to_int (dirty e - 1)) e else e.
End DirtyLoop.

Definition object_constants (e : RenderItem.t) : ObjectConstants :=
  mkObjectConstants (XMMatrixTranspose (RenderItem.World e))
                    (XMMatrixTranspose (RenderItem.TexTransform e)).

Definition material_constants (m : Material.t) : MaterialConstants :=
  mkMaterialConstants (Material.DiffuseAlbedo m) (Material.FresnelR0 m)
                      (Material.Roughness m)
                      (XMMatrixTranspose (Material.MatTransform m)).

Definition update_items :=
  update_dirty RenderItem.NumFramesDirty RenderItem.set_NumFramesDirty
               (fun e => to_int (RenderItem.ObjCBIndex e)) object_constants BufObject.

Definition update_materials :=
  update_dirty Material.NumFramesDirty Material.set_NumFramesDirty
               Material.MatCBIndex material_constants BufMaterial.

Section SharedMethods.
Context {X : Type}.

(** [mCurrFrameResource->...]: the current frame resource and its index;
    dereferencing [nullptr] crashes. *)
Definition CurrFrameResource : M (App X) (nat * FrameResource.t) :=
  a <- this ;;
  match mCurrFrameResource a with
  | None => crash
  | Some fr =>
      match mFrameResources a !! fr with
      | None => crash
      | Some f => ret (fr, f)
      end
  end.

Definition set_frame (fr : nat) (f : FrameResource.t) : M (App X) unit :=
  set_this (fun a => set_mFrameResources (<[fr := f]> (mFrameResources a)) a).

(** The head of [Update] (part_000 lines 244-256 and 1466-1478): move to
    the next frame resource of the ring and wait until the GPU has
    finished the commands recorded with it.  Returns whether the CPU
    blocked. *)
Definition CycleFrameResources : M (App X) bool :=
  a <- this ;;
  let i := int_rem (to_int (mCurrFrameResourceIndex a + 1)) gNumFrameResources in
  set_this (set_mCurrFrameResourceIndex i) ;;;
  (if decide (0 <= i < Z.of_nat (length (mFrameResources a)))
   then set_this (set_mCurrFrameResource (Some (Z.to_nat i)))
   else crash) ;;;
  cur <- CurrFrameResource ;;
  b <- base ;;
  let fence := FrameResource.Fence (snd cur) in
  if negb (fence =? 0) && (completed (mGPU b) <? fence) then
    WaitForFence fence ;;; ret true
  else ret false.

Definition UpdateObjectCBs : M (App X) unit :=
  cur <- CurrFrameResource ;;
  a <- this ;;
  let '(items, cb, copies) :=
    update_items (fst cur) (mAllRitems a) (FrameResource.ObjectCB (snd cur)) in
  set_this (set_mAllRitems items) ;;;
  set_frame (fst cur) (FrameResource.set_ObjectCB cb (snd cur)) ;;;
  emits copies.

(** The iteration order of [std::unordered_map] is not specified; every
    material is visited once, here in the order of [map_to_list].
    [UpdateMaterialCBs_in] (Part IV) is the same loop in any given
    order; the order changes neither the state the loop ends in nor the
    copies it makes, only the order of the copies. *)
Definition UpdateMaterialCBs : M (App X) unit :=
  cur <- CurrFrameResource ;;
  a <- this ;;
  let '(_, cb, copies) :=
    update_materials (fst cur) (snd <$> map_to_list (mMaterials a))
                     (FrameResource.MaterialCB (snd cur)) in
  set_this (set_mMaterials
    (after_visit Material.NumFramesDirty Material.set_NumFramesDirty
       <$> mMaterials a)) ;;;
  set_frame (fst cur) (FrameResource.set_MaterialCB cb (snd cur)) ;;;
  emits copies.

(** [currPassCB->CopyData(0, mMainPassCB)] *)
Definition UpdateMainPassCB : M (App X) unit :=
  cur <- CurrFrameResource ;;
  emit (EvCopyData BufPass (Some (fst cur)) 0).

(** The tail of [Draw] (part_000 lines 416-426 and 1616-1627):
    [Present], the back-buffer swap,
    [mCurrFrameResource->Fence = ++mCurrentFence] and the [Signal]. *)
Definition PresentAndSignal (env : Env) : M (App X) unit :=
  PresentAndSwap env ;;;
  b <- base ;;
  let v := to_UINT64 (mCurrentFence b + 1) in
  set_base (set_mCurrentFence v) ;;;
  cur <- CurrFrameResource ;;
  set_frame (fst cur) (FrameResource.set_Fence v (snd cur)) ;;;
  Signal v.

(** The body of the loop of [DrawRenderItems] (part_000 lines 1101-1117
    and 2396-2412), also written out twice in [CrateApp::Draw].  The
    offsets are the [UINT] products of the source. *)
Definition tex_offset (a : App X) (m : Material.t) : Z :=
  to_UINT (Material.DiffuseSrvHeapIndex m * mCbvSrvDescriptorSize a).
Definition objCB_offset (env : Env) (ri : RenderItem.t) : Z :=
  to_UINT (RenderItem.ObjCBIndex ri * objCBByteSize env).
Definition matCB_offset (env : Env) (m : Material.t) : Z :=
  to_UINT (Material.MatCBIndex m * matCBByteSize env).

Definition material_of (a : App X) (ri : RenderItem.t) : option Material.t :=
  match RenderItem.Mat ri with
  | None => None
  | Some k => mMaterials a !! k
  end.

Definition DrawRenderItem (env : Env) (i : nat) : M (App X) unit :=
  a <- this ;;
  match mAllRitems a !! i with
  | None => crash
  | Some ri =>
      match RenderItem.Geo ri, material_of a ri with
      | Some geo, Some mat =>
          record (IASetVertexBuffers geo) ;;;
          record (IASetIndexBuffer geo) ;;;
          record IASetPrimitiveTopology ;;;
          record (SetGraphicsRootDescriptorTable 0 "mSrvDescriptorHeap" (tex_offset a mat)) ;;;
          record (SetGraphicsRootConstantBufferView 1 BufObject (objCB_offset env ri)) ;;;
          record (SetGraphicsRootConstantBufferView 3 BufMaterial (matCB_offset env mat)) ;;;
          record (DrawIndexedInstanced geo)
      | _, _ => crash
      end
  end.

Fixpoint DrawRenderItems (env : Env) (ritems : list nat) : M (App X) unit :=
  match ritems with
  | [] => ret tt
  | i :: rest => DrawRenderItem env i ;;; DrawRenderItems env rest
  end.

(** The head of [Draw]: allocator and list reset, viewport, barrier,
    clears and render targets. *)
Definition BeginDraw : M (App X) unit :=
  cur <- CurrFrameResource ;;
  emit (EvAllocReset (Some (fst cur))) ;;;
  emit EvListReset ;;;
  record RSSetViewports ;;;
  record RSSetScissorRects ;;;
  record (ResourceBarrier "CurrentBackBuffer") ;;;
  record ClearRenderTargetView ;;;
  record ClearDepthStencilView ;;;
  record OMSetRenderTargets ;;;
  record SetDescriptorHeaps.

(** Barrier back to present, [Close], [ExecuteCommandLists]. *)
Definition CloseAndExecute : M (App X) unit :=
  cur <- CurrFrameResource ;;
  record (ResourceBarrier "CurrentBackBuffer") ;;;
  emit EvClose ;;;
  ExecuteCommandLists (Some (fst cur)).
End SharedMethods.

(** Float constants of DirectXMath used by the member initialisers. *)
Definition XM_PIDIV2 : float := f32.lit 1570796327 1000000000.
Definition XM_PIDIV4 : float := f32.lit 785398163 1000000000.

(** [max(a, b)] of [minwindef.h]: [((a) > (b)) ? (a) : (b)]. *)
Definition fmax (a b : float) : float := if f32.ltb b a then a else b.

(** [new T] followed by the recorded upload of its data. *)
Definition CreateDefaultBuffer {S} (name : string) : M S unit :=
  emit (EvCreate KResource name) ;;;
  record (CopyBufferRegion name).

(* ===================================================================== *)
(** * Part III.  The demos                                               *)
(* ===================================================================== *)

(** ** CrateApp (part_000 lines 1-1176) *)
Module CrateApp.

Inductive Filter :=
| FILTER_MIN_MAG_MIP_POINT | FILTER_MIN_MAG_MIP_LINEAR | FILTER_ANISOTROPIC.
Inductive AddressMode :=
| ADDRESS_MODE_WRAP | ADDRESS_MODE_CLAMP | ADDRESS_MODE_BORDER | ADDRESS_MODE_MIRROR.

Global Instance Filter_eq_dec : EqDecision Filter.
Proof. solve_decision. Defined.
Global Instance AddressMode_eq_dec : EqDecision AddressMode.
Proof. solve_decision. Defined.

Record Ext := mkExt {
  mOpaqueRitems : list nat;              (* RenderItem* into mAllRitems *)
  mOpaqueDraw : bool;
  mTexTransformScale : float;
  mCurrentSamplerFilter : Filter;
  mCurrentSamplerAddressMode : AddressMode;
  mSamplerDirty : bool
}.

Definition t := App Ext.

Definition set_mOpaqueRitems v (e : Ext) :=
  mkExt v (mOpaqueDraw e) (mTexTransformScale e) (mCurrentSamplerFilter e)
        (mCurrentSamplerAddressMode e) (mSamplerDirty e).
Definition set_mOpaqueDraw v (e : Ext) :=
  mkExt (mOpaqueRitems e) v (mTexTransformScale e) (mCurrentSamplerFilter e)
        (mCurrentSamplerAddressMode e) (mSamplerDirty e).
Definition set_mTexTransformScale v (e : Ext) :=
  mkExt (mOpaqueRitems e) (mOpaqueDraw e) v (mCurrentSamplerFilter e)
        (mCurrentSamplerAddressMode e) (mSamplerDirty e).
Definition set_mCurrentSamplerFilter v (e : Ext) :=
  mkExt (mOpaqueRitems e) (mOpaqueDraw e) (mTexTransformScale e) v
        (mCurrentSamplerAddressMode e) (mSamplerDirty e).
Definition set_mCurrentSamplerAddressMode v (e : Ext) :=
  mkExt (mOpaqueRitems e) (mOpaqueDraw e) (mTexTransformScale e)
        (mCurrentSamplerFilter e) v (mSamplerDirty e).
Definition set_mSamplerDirty v (e : Ext) :=
  mkExt (mOpaqueRitems e) (mOpaqueDraw e) (mTexTransformScale e)
        (mCurrentSamplerFilter e) (mCurrentSamplerAddressMode e) v.

Definition upd_ext (f : Ext -> Ext) : M t unit :=
  set_this (fun a => set_ext (f (ext a)) a).

Definition mTexTransformScaleDelta : float := f32.lit 1 100.

(** The object as the member initialisers leave it; [mLastMousePos] is
    not initialised. *)
Definition construct (mouse : Z * Z) : t :=
  mkApp [] None 0 0 None ∅ ∅ ∅ []
    (mkCamera (f32.mul (f32.lit 13 10) XM_PI) (f32.mul (f32.lit 2 5) XM_PI)
              (f32.of_int 5) mouse)
    (mkExt [] true f32.one FILTER_MIN_MAG_MIP_POINT ADDRESS_MODE_WRAP false).

(** *** One-time set-up *)

Definition LoadTexture (name : string) : M t unit :=
  emit (EvCreate KTexture name) ;;;
  CreateDefaultBuffer name ;;;
  set_this (fun a => set_mTextures ({[name]} ∪ mTextures a) a).

Definition LoadTextures : M t unit :=
  LoadTexture "woodCrateTex" ;;;
  LoadTexture "flareTex" ;;;
  LoadTexture "flareAlphaTex".

Definition BuildRootSignature : M t unit :=
  emit (EvCreate KRootSignature "mRootSignature") ;;;
  emit (EvCreate KRootSignature "mFlareRootSignature").

Definition CreateSamplerDescriptor : M t unit :=
  emit (EvCreate KDescriptor "sampler").

(** [mTextures[name]->Resource]: a missing key yields a null pointer. *)
Definition TextureResource (name : string) : M t unit :=
  a <- this ;;
  if decide (name ∈ mTextures a) then ret tt else crash.

Definition BuildDescriptorHeaps : M t unit :=
  emit (EvCreate KDescriptorHeap "mSrvDescriptorHeap") ;;;
  set_this (set_mSrvDescriptorHeap (Some 3)) ;;;
  TextureResource "woodCrateTex" ;;;
  emit (EvCreate KDescriptor "srv0") ;;;
  TextureResource "flareTex" ;;;
  emit (EvCreate KDescriptor "srv1") ;;;
  TextureResource "flareAlphaTex" ;;;
  emit (EvCreate KDescriptor "srv2") ;;;
  emit (EvCreate KDescriptorHeap "mSamplerDescriptorHeap") ;;;
  CreateSamplerDescriptor.

Definition BuildShadersAndInputLayout : M t unit :=
  emit (EvCreate KShader "standardVS") ;;;
  emit (EvCreate KShader "opaquePS") ;;;
  emit (EvCreate KShader "flareVS") ;;;
  emit (EvCreate KShader "flarePS").

Definition BuildShapeGeometry : M t unit :=
  emit (EvCreate KMeshGeometry "boxGeo") ;;;
  CreateDefaultBuffer "boxGeo.VertexBufferGPU" ;;;
  CreateDefaultBuffer "boxGeo.IndexBufferGPU" ;;;
  set_this (fun a => set_mGeometries ({[ "boxGeo" ]} ∪ mGeometries a) a).

Definition BuildPSOs : M t unit :=
  emit (EvCreate KPipelineState "mOpaquePSO") ;;;
  emit (EvCreate KPipelineState "mWireFramePSO") ;;;
  emit (EvCreate KPipelineState "mOpaqueFlarePSO") ;;;
  emit (EvCreate KPipelineState "mWireFrameFlarePSO").

Definition NewFrameResource (i : string) : M t unit :=
  a <- this ;;
  emit (EvCreate KFrameResource i) ;;;
  emit (EvCreate KUploadBuffer "PassCB") ;;;
  emit (EvCreate KUploadBuffer "ObjectCB") ;;;
  emit (EvCreate KUploadBuffer "MaterialCB") ;;;
  set_this (set_mFrameResources
    (mFrameResources a ++
     [FrameResource.new 1 (to_UINT (Z.of_nat (length (mAllRitems a))))
                          (to_UINT (Z.of_nat (size (mMaterials a))))])).

Definition BuildFrameResources : M t unit :=
  NewFrameResource "0" ;;; NewFrameResource "1" ;;; NewFrameResource "2".

Definition AddMaterial (m : Material.t) : M t unit :=
  emit (EvCreate KMaterial (Material.Name m)) ;;;
  set_this (fun a => set_mMaterials (<[Material.Name m := m]> (mMaterials a)) a).

Definition crate_albedo : XMFLOAT4 := [f32.one; f32.one; f32.one; f32.one].
Definition crate_fresnel : XMFLOAT3 := [f32.lit 1 20; f32.lit 1 20; f32.lit 1 20].

Definition BuildMaterials : M t unit :=
  AddMaterial
    (Material.mk "woodCrate" 0 0 (-1) gNumFrameResources
                 crate_albedo crate_fresnel (f32.lit 1 5) Identity4x4) ;;;
  AddMaterial
    (Material.mk "flareBox" 1 1 2 gNumFrameResources
                 crate_albedo crate_fresnel (f32.lit 1 5) Identity4x4).

Definition AddRenderItem (name : string) (ri : RenderItem.t) : M t unit :=
  emit (EvCreate KRenderItem name) ;;;
  set_this (fun a => set_mAllRitems (mAllRitems a ++ [ri]) a).

Definition BuildRenderItems : M t unit :=
  AddRenderItem "boxRitem"
    (RenderItem.mk (XMMatrixTranslation (f32.neg (f32.lit 3 4)) f32.zero f32.zero)
                   Identity4x4 gNumFrameResources 0
                   (Some "woodCrate") (Some "boxGeo")) ;;;
  AddRenderItem "flareBox"
    (RenderItem.mk (XMMatrixTranslation (f32.lit 3 4) f32.zero f32.zero)
                   Identity4x4 gNumFrameResources 1
                   (Some "flareBox") (Some "boxGeo")) ;;;
  a <- this ;;
  upd_ext (set_mOpaqueRitems (seq 0 (length (mAllRitems a)))).

(** [CrateApp::Initialize] after [D3DApp::Initialize] has succeeded:
    the objects are built (part_000 lines 206-217), then the
    initialisation commands are executed and waited for. *)
Definition BuildAll (env : Env) : M t unit :=
  set_this (set_mCbvSrvDescriptorSize (CbvSrvUavDescriptorSize env)) ;;;
  LoadTextures ;;;
  BuildRootSignature ;;;
  BuildDescriptorHeaps ;;;
  BuildShadersAndInputLayout ;;;
  BuildShapeGeometry ;;;
  BuildMaterials ;;;
  BuildRenderItems ;;;
  BuildFrameResources ;;;
  BuildPSOs.

(** The path on which [D3DApp::Initialize] returns [true] and no
    [ThrowIfFailed] throws (the texture loads of [LoadTextures]
    included); the early [return false] has no counterpart. *)
Definition Initialize (env : Env) : M t unit :=
  emit EvListReset ;;;
  BuildAll env ;;;
  emit EvClose ;;;
  ExecuteCommandLists None ;;;
  FlushCommandQueue.

(** *** Events *)

Definition OnMouseMove (btnState x y : Z) : M t unit :=
  set_this (fun a =>
    set_mCamera (OrbitCamera (f32.lit 1 20) (f32.of_int 5) (f32.of_int 150)
                             btnState x y (mCamera a)) a).

Definition ScaleTexTransform (newScaleDelta : float) : M t unit :=
  a <- this ;;
  let s := fmax (f32.add (mTexTransformScale (ext a)) newScaleDelta) (f32.lit 1 10) in
  upd_ext (set_mTexTransformScale s) ;;;
  set_this (fun a =>
    set_mAllRitems
      (map (fun e => RenderItem.set_NumFramesDirty gNumFrameResources
                       (RenderItem.set_TexTransform (XMMatrixScaling s s f32.one) e))
           (mAllRitems a)) a).

Definition MarkSamplerDirty : M t unit := upd_ext (set_mSamplerDirty true).

Definition ChangeSamplerFilter (newFilter : Filter) : M t unit :=
  a <- this ;;
  if decide (newFilter <> mCurrentSamplerFilter (ext a)) then
    upd_ext (set_mCurrentSamplerFilter newFilter) ;;; MarkSamplerDirty
  else ret tt.

Definition ChangeSamplerAddressMode (newAddressMode : AddressMode) : M t unit :=
  a <- this ;;
  if decide (newAddressMode <> mCurrentSamplerAddressMode (ext a)) then
    upd_ext (set_mCurrentSamplerAddressMode newAddressMode) ;;; MarkSamplerDirty
  else ret tt.

(** The keys ['1'] to ['9'] are the codes 49 to 57. *)
Definition OnKeyDown (wParam : Z) : M t unit :=
  if wParam =? 49 then ScaleTexTransform mTexTransformScaleDelta
  else if wParam =? 50 then ScaleTexTransform (f32.neg mTexTransformScaleDelta)
  else if wParam =? 51 then ChangeSamplerFilter FILTER_MIN_MAG_MIP_POINT
  else if wParam =? 52 then ChangeSamplerFilter FILTER_MIN_MAG_MIP_LINEAR
  else if wParam =? 53 then ChangeSamplerFilter FILTER_ANISOTROPIC
  else if wParam =? 54 then ChangeSamplerAddressMode ADDRESS_MODE_WRAP
  else if wParam =? 55 then ChangeSamplerAddressMode ADDRESS_MODE_CLAMP
  else if wParam =? 56 then ChangeSamplerAddressMode ADDRESS_MODE_BORDER
  else if wParam =? 57 then ChangeSamplerAddressMode ADDRESS_MODE_MIRROR
  else if wParam =? VK_F1 then upd_ext (set_mOpaqueDraw true)
  else if wParam =? VK_F2 then upd_ext (set_mOpaqueDraw false)
  else ret tt.

(** *** Per frame *)

Section PerFrame.
Context `{DirectXMath}.

(** [auto item = mOpaqueRitems[1]]: spin the texture of the flare box
    about the centre of its UV square and mark it dirty. *)
Definition AnimateMaterials (gt : GameTimer) : M t unit :=
  a <- this ;;
  match mOpaqueRitems (ext a) !! 1%nat with
  | None => crash
  | Some i =>
      match mAllRitems a !! i with
      | None => crash
      | Some item =>
          let half := f32.lit 1 2 in
          let m1 := XMMatrixMultiply
                      (XMMatrixTranslation (f32.neg half) (f32.neg half) f32.zero)
                      (XMMatrixRotationZ (f32.mul f32.one (TotalTime gt))) in
          let m2 := XMMatrixMultiply m1 (XMMatrixTranslation half half f32.zero) in
          set_this (set_mAllRitems
            (<[i := RenderItem.set_NumFramesDirty gNumFrameResources
                      (RenderItem.set_TexTransform m2 item)]> (mAllRitems a)))
      end
  end.

Definition UpdateSampler (gt : GameTimer) : M t unit :=
  a <- this ;;
  if mSamplerDirty (ext a) then
    CreateSamplerDescriptor ;;; upd_ext (set_mSamplerDirty false)
  else ret tt.

(** [OnKeyboardInput] is empty and [UpdateCamera] only recomputes the
    view matrix from the camera.  [UpdateBuffers] is what [Update]
    does once the frame resource is free (part_000 lines 258-262). *)
Definition UpdateBuffers (gt : GameTimer) : M t unit :=
  AnimateMaterials gt ;;;
  UpdateObjectCBs ;;;
  UpdateMaterialCBs ;;;
  UpdateMainPassCB ;;;
  UpdateSampler gt.

Definition Update (gt : GameTimer) : M t unit :=
  CycleFrameResources ;;;
  UpdateBuffers gt.

(** The two blocks of [Draw] that draw [mOpaqueRitems[0]] and
    [mOpaqueRitems[1]], each with its own pipeline state and root
    signature. *)
Definition DrawOpaqueItem (env : Env) (k : nat) (pso wire sig : string)
  : M t unit :=
  a <- this ;;
  match mOpaqueRitems (ext a) !! k with
  | None => crash
  | Some i =>
      record (SetPipelineState (if mOpaqueDraw (ext a) then pso else wire)) ;;;
      record (SetGraphicsRootSignature sig) ;;;
      record (SetGraphicsRootConstantBufferView 2 BufPass 0) ;;;
      record (SetGraphicsRootDescriptorTable 4 "mSamplerDescriptorHeap" 0) ;;;
      DrawRenderItem env i
  end.

(** [Draw] up to the last draw call (part_000 lines 267-368), and
    the whole of it. *)
Definition RecordScene (env : Env) : M t unit :=
  BeginDraw ;;;
  DrawOpaqueItem env 0 "mOpaquePSO" "mWireFramePSO" "mRootSignature" ;;;
  DrawOpaqueItem env 1 "mOpaqueFlarePSO" "mWireFrameFlarePSO" "mFlareRootSignature".

Definition Draw (env : Env) (gt : GameTimer) : M t unit :=
  RecordScene env ;;;
  CloseAndExecute ;;;
  PresentAndSignal env.

(** Modelled from the spec: the body of the frame loop of [D3DApp::Run]
    (Common/d3dApp.cpp is not among the sources): per-frame Update,
    then per-frame Draw. *)
Definition Frame (env : Env) (gt : GameTimer) : M t unit :=
  Update gt ;;; Draw env gt.
End PerFrame.
End CrateApp.

(** ** BlendApp (part_000 lines 1178-2751) *)
Module BlendApp.

Inductive RenderLayer := Opaque | Transparent | AnimatedBolt | AlphaTested.
Inductive RenderMode := Normal | PixelOverdraw.

Global Instance RenderMode_eq_dec : EqDecision RenderMode.
Proof. solve_decision. Defined.

(** [struct PixelOverdrawResources]; its [renderItem] is never set. *)
Record PixelOverdrawResources := mkPOR {
  quadGeo : string;
  srvOffsetInHeap : Z            (* UINT *)
}.

(** Modelled from the spec: [class Waves] (Waves.h is not among the
    sources); only the size of the grid is used. *)
Record Waves := mkWaves { RowCount : Z; ColumnCount : Z }.
Definition VertexCount (w : Waves) : Z := RowCount w * ColumnCount w.

Record Ext := mkExt {
  mBoltAnimTextures : list string;
  mBoltAnimSrvOffsetInHeap : Z;              (* UINT *)
  mWavesRitem : option nat;                  (* RenderItem* *)
  mRitemLayer : RenderLayer -> list nat;     (* RenderItem* per layer *)
  mWaves : option Waves;
  mDrawTransparentFirst : bool;
  mRenderMode : RenderMode;
  mPixelOverdrawResources : option PixelOverdrawResources;
  lastUpdatedTime : option float;            (* static in AnimateMaterials *)
  t_base : float                             (* static in UpdateWaves *)
}.

Definition t := App Ext.

Definition set_mBoltAnimTextures v (e : Ext) :=
  mkExt v (mBoltAnimSrvOffsetInHeap e) (mWavesRitem e) (mRitemLayer e) (mWaves e)
        (mDrawTransparentFirst e) (mRenderMode e) (mPixelOverdrawResources e)
        (lastUpdatedTime e) (t_base e).
Definition set_mBoltAnimSrvOffsetInHeap v (e : Ext) :=
  mkExt (mBoltAnimTextures e) v (mWavesRitem e) (mRitemLayer e) (mWaves e)
        (mDrawTransparentFirst e) (mRenderMode e) (mPixelOverdrawResources e)
        (lastUpdatedTime e) (t_base e).
Definition set_mWavesRitem v (e : Ext) :=
  mkExt (mBoltAnimTextures e) (mBoltAnimSrvOffsetInHeap e) v (mRitemLayer e) (mWaves e)
        (mDrawTransparentFirst e) (mRenderMode e) (mPixelOverdrawResources e)
        (lastUpdatedTime e) (t_base e).
Definition set_mRitemLayer v (e : Ext) :=
  mkExt (mBoltAnimTextures e) (mBoltAnimSrvOffsetInHeap e) (mWavesRitem e) v (mWaves e)
        (mDrawTransparentFirst e) (mRenderMode e) (mPixelOverdrawResources e)
        (lastUpdatedTime e) (t_base e).
Definition set_mWaves v (e : Ext) :=
  mkExt (mBoltAnimTextures e) (mBoltAnimSrvOffsetInHeap e) (mWavesRitem e) (mRitemLayer e) v
        (mDrawTransparentFirst e) (mRenderMode e) (mPixelOverdrawResources e)
        (lastUpdatedTime e) (t_base e).
Definition set_mDrawTransparentFirst v (e : Ext) :=
  mkExt (mBoltAnimTextures e) (mBoltAnimSrvOffsetInHeap e) (mWavesRitem e) (mRitemLayer e)
        (mWaves e) v (mRenderMode e) (mPixelOverdrawResources e)
        (lastUpdatedTime e) (t_base e).
Definition set_mRenderMode v (e : Ext) :=
  mkExt (mBoltAnimTextures e) (mBoltAnimSrvOffsetInHeap e) (mWavesRitem e) (mRitemLayer e)
        (mWaves e) (mDrawTransparentFirst e) v (mPixelOverdrawResources e)
        (lastUpdatedTime e) (t_base e).
Definition set_mPixelOverdrawResources v (e : Ext) :=
  mkExt (mBoltAnimTextures e) (mBoltAnimSrvOffsetInHeap e) (mWavesRitem e) (mRitemLayer e)
        (mWaves e) (mDrawTransparentFirst e) (mRenderMode e) v
        (lastUpdatedTime e) (t_base e).
Definition set_lastUpdatedTime v (e : Ext) :=
  mkExt (mBoltAnimTextures e) (mBoltAnimSrvOffsetInHeap e) (mWavesRitem e) (mRitemLayer e)
        (mWaves e) (mDrawTransparentFirst e) (mRenderMode e) (mPixelOverdrawResources e)
        v (t_base e).
Definition set_t_base v (e : Ext) :=
  mkExt (mBoltAnimTextures e) (mBoltAnimSrvOffsetInHeap e) (mWavesRitem e) (mRitemLayer e)
        (mWaves e) (mDrawTransparentFirst e) (mRenderMode e) (mPixelOverdrawResources e)
        (lastUpdatedTime e) v.

Definition upd_ext (f : Ext -> Ext) : M t unit :=
  set_this (fun a => set_ext (f (ext a)) a).

Definition push_layer (l : RenderLayer) (i : nat) (f : RenderLayer -> list nat)
  : RenderLayer -> list nat :=
  fun l' =>
    match l, l' with
    | Opaque, Opaque | Transparent, Transparent
    | AnimatedBolt, AnimatedBolt | AlphaTested, AlphaTested => f l' ++ [i]
    | _, _ => f l'
    end.

Definition construct (mouse : Z * Z) : t :=
  mkApp [] None 0 0 None ∅ ∅ ∅ []
    (mkCamera (f32.mul (f32.lit 3 2) XM_PI) (f32.sub XM_PIDIV2 (f32.lit 1 10))
              (f32.of_int 50) mouse)
    (mkExt [] 0 None (fun _ => []) None false Normal None None f32.zero).

(** *** One-time set-up *)

Definition AnimTexturesCount : nat := 60.

Definition LoadTexture (name : string) : M t unit :=
  emit (EvCreate KTexture name) ;;;
  CreateDefaultBuffer name ;;;
  set_this (fun a => set_mTextures ({[name]} ∪ mTextures a) a).

(** [for (int i = 1; i <= AnimTexturesCount; ++i)]: the frames of the
    bolt animation are pushed to [mBoltAnimTextures]. *)
Definition bolt_name (i : nat) : string := "BoltAnim_" +:+ pretty i.

Fixpoint LoadBoltTextures (i n : nat) : M t unit :=
  match n with
  | O => ret tt
  | S n' =>
      emit (EvCreate KTexture (bolt_name i)) ;;;
      CreateDefaultBuffer (bolt_name i) ;;;
      upd_ext (fun e => set_mBoltAnimTextures (mBoltAnimTextures e ++ [bolt_name i]) e) ;;;
      LoadBoltTextures (S i) n'
  end.

Definition LoadTextures : M t unit :=
  emit (EvCreate KTexture "grassTex") ;;; CreateDefaultBuffer "grassTex" ;;;
  emit (EvCreate KTexture "waterTex") ;;; CreateDefaultBuffer "waterTex" ;;;
  emit (EvCreate KTexture "fenceTex") ;;; CreateDefaultBuffer "fenceTex" ;;;
  set_this (fun a =>
    set_mTextures ({[ "grassTex" ]} ∪ {[ "waterTex" ]} ∪ {[ "fenceTex" ]} ∪ mTextures a) a) ;;;
  LoadBoltTextures 1 AnimTexturesCount.

Definition BuildRootSignature : M t unit :=
  emit (EvCreate KRootSignature "mRootSignature").

Definition TextureResource (name : string) : M t unit :=
  a <- this ;;
  if decide (name ∈ mTextures a) then ret tt else crash.

Definition CreateBoltViews (names : list string) : M t unit :=
  emits (map (fun n => EvCreate KDescriptor n) names).

(** [NumDescriptors = 3 + (UINT)mBoltAnimTextures.size() + 1] *)
Definition BuildDescriptorHeaps : M t unit :=
  a <- this ;;
  emit (EvCreate KDescriptorHeap "mSrvDescriptorHeap") ;;;
  set_this (set_mSrvDescriptorHeap
    (Some (to_UINT (3 + to_UINT (Z.of_nat (length (mBoltAnimTextures (ext a)))) + 1)))) ;;;
  TextureResource "grassTex" ;;;
  TextureResource "waterTex" ;;;
  TextureResource "fenceTex" ;;;
  emit (EvCreate KDescriptor "srv0") ;;;
  emit (EvCreate KDescriptor "srv1") ;;;
  emit (EvCreate KDescriptor "srv2") ;;;
  upd_ext (set_mBoltAnimSrvOffsetInHeap 3) ;;;
  CreateBoltViews (mBoltAnimTextures (ext a)).

Definition BuildShadersAndInputLayout : M t unit :=
  emit (EvCreate KShader "standardVS") ;;;
  emit (EvCreate KShader "opaquePS") ;;;
  emit (EvCreate KShader "alphaTestedPS") ;;;
  emit (EvCreate KShader "animatedBoltPS") ;;;
  emit (EvCreate KShader "fullScreenQuadVS") ;;;
  emit (EvCreate KShader "pixelOverdrawPS").

Definition BuildGeometry (name : string) (vertices : bool) : M t unit :=
  emit (EvCreate KMeshGeometry name) ;;;
  when vertices (CreateDefaultBuffer (name +:+ ".VertexBufferGPU")) ;;;
  CreateDefaultBuffer (name +:+ ".IndexBufferGPU") ;;;
  set_this (fun a => set_mGeometries ({[name]} ∪ mGeometries a) a).

Definition BuildLandGeometry : M t unit := BuildGeometry "landGeo" true.
(** The vertex buffer of the water is set per frame. *)
Definition BuildWavesGeometry : M t unit := BuildGeometry "waterGeo" false.
Definition BuildBoxGeometry : M t unit := BuildGeometry "boxGeo" true.
Definition BuildBoltGeometry : M t unit := BuildGeometry "boltGeo" true.

Definition BuildPSOsForSceneRendering (targetRenderMode : RenderMode) : M t unit :=
  let tag := match targetRenderMode with Normal => "default." | PixelOverdraw => "overdraw." end in
  emit (EvCreate KPipelineState (tag +:+ "opaque")) ;;;
  emit (EvCreate KPipelineState (tag +:+ "transparent")) ;;;
  emit (EvCreate KPipelineState (tag +:+ "alphaTested")) ;;;
  emit (EvCreate KPipelineState (tag +:+ "animatedBolt")).

Definition BuildPSOs : M t unit := BuildPSOsForSceneRendering Normal.

Definition NewFrameResource (i : string) : M t unit :=
  a <- this ;;
  emit (EvCreate KFrameResource i) ;;;
  emit (EvCreate KUploadBuffer "PassCB") ;;;
  emit (EvCreate KUploadBuffer "ObjectCB") ;;;
  emit (EvCreate KUploadBuffer "MaterialCB") ;;;
  emit (EvCreate KUploadBuffer "WavesVB") ;;;
  set_this (set_mFrameResources
    (mFrameResources a ++
     [FrameResource.new 1 (to_UINT (Z.of_nat (length (mAllRitems a))))
                          (to_UINT (Z.of_nat (size (mMaterials a))))])).

Definition BuildFrameResources : M t unit :=
  NewFrameResource "0" ;;; NewFrameResource "1" ;;; NewFrameResource "2".

Definition AddMaterial (m : Material.t) : M t unit :=
  set_this (fun a => set_mMaterials (<[Material.Name m := m]> (mMaterials a)) a).

Definition white (alpha : float) : XMFLOAT4 := [f32.one; f32.one; f32.one; alpha].
Definition grey (x : float) : XMFLOAT3 := [x; x; x].

Definition BuildMaterials : M t unit :=
  a <- this ;;
  let grass := Material.mk "grass" 0 0 (-1) gNumFrameResources
                 (white f32.one) (grey (f32.lit 1 100)) (f32.lit 1 8) Identity4x4 in
  let water := Material.mk "water" 1 1 (-1) gNumFrameResources
                 (white (f32.lit 1 2)) (grey (f32.lit 1 10)) f32.zero Identity4x4 in
  let wirefence := Material.mk "wirefence" 2 2 (-1) gNumFrameResources
                 (white f32.one) (grey (f32.lit 1 10)) (f32.lit 1 4) Identity4x4 in
  let boltAnim := Material.mk "boltAnim" 3
                 (to_int (mBoltAnimSrvOffsetInHeap (ext a))) (-1) gNumFrameResources
                 (white f32.one) (grey (f32.lit 1 10)) f32.zero Identity4x4 in
  emits (map (EvCreate KMaterial) ["grass"; "water"; "wirefence"; "boltAnim"]) ;;;
  AddMaterial grass ;;;
  AddMaterial water ;;;
  AddMaterial wirefence ;;;
  AddMaterial boltAnim.

Definition scale5 : XMFLOAT4X4 := XMMatrixScaling (f32.of_int 5) (f32.of_int 5) f32.one.

(** The four render items are created, filed under their layer, and
    then moved into [mAllRitems] in the order waves, grid, box, bolt. *)
Definition BuildRenderItems : M t unit :=
  a <- this ;;
  let n := length (mAllRitems a) in
  let wavesRitem := RenderItem.mk Identity4x4 scale5 gNumFrameResources 0
                      (Some "water") (Some "waterGeo") in
  let gridRitem := RenderItem.mk Identity4x4 scale5 gNumFrameResources 1
                      (Some "grass") (Some "landGeo") in
  let boxRitem := RenderItem.mk
                      (XMMatrixTranslation (f32.of_int 3) (f32.of_int 2) (f32.of_int (-9)))
                      Identity4x4 gNumFrameResources 2
                      (Some "wirefence") (Some "boxGeo") in
  let animatedBoltItem := RenderItem.mk
                      (XMMatrixTranslation (f32.of_int 3) (f32.of_int 11) (f32.of_int (-9)))
                      (XMMatrixScaling f32.one (f32.of_int 4) f32.one)
                      gNumFrameResources 3
                      (Some "boltAnim") (Some "boltGeo") in
  emits (map (EvCreate KRenderItem)
             ["wavesRitem"; "gridRitem"; "boxRitem"; "animatedBoltItem"]) ;;;
  upd_ext (set_mWavesRitem (Some n)) ;;;
  upd_ext (fun e => set_mRitemLayer (push_layer Transparent n (mRitemLayer e)) e) ;;;
  upd_ext (fun e => set_mRitemLayer (push_layer Opaque (n + 1) (mRitemLayer e)) e) ;;;
  upd_ext (fun e => set_mRitemLayer (push_layer AlphaTested (n + 2) (mRitemLayer e)) e) ;;;
  upd_ext (fun e => set_mRitemLayer (push_layer AnimatedBolt (n + 3) (mRitemLayer e)) e) ;;;
  set_this (set_mAllRitems
    (mAllRitems a ++ [wavesRitem; gridRitem; boxRitem; animatedBoltItem])).

(** [BlendApp::Initialize] after [D3DApp::Initialize] has succeeded:
    the objects are built (part_000 lines 1424-1439), then the
    initialisation commands are executed and waited for. *)
Definition BuildAll (env : Env) : M t unit :=
  set_this (set_mCbvSrvDescriptorSize (CbvSrvUavDescriptorSize env)) ;;;
  upd_ext (set_mWaves (Some (mkWaves 128 128))) ;;;
  LoadTextures ;;;
  BuildRootSignature ;;;
  BuildDescriptorHeaps ;;;
  BuildShadersAndInputLayout ;;;
  BuildLandGeometry ;;;
  BuildWavesGeometry ;;;
  BuildBoxGeometry ;;;
  BuildBoltGeometry ;;;
  BuildMaterials ;;;
  BuildRenderItems ;;;
  BuildFrameResources ;;;
  BuildPSOs.

(** The path on which [D3DApp::Initialize] returns [true] and no
    [ThrowIfFailed] throws (the texture loads of [LoadTextures]
    included); the early [return false] has no counterpart. *)
Definition Initialize (env : Env) : M t unit :=
  emit EvListReset ;;;
  BuildAll env ;;;
  emit EvClose ;;;
  ExecuteCommandLists None ;;;
  FlushCommandQueue.

(** *** Events *)

Definition OnMouseMove (btnState x y : Z) : M t unit :=
  set_this (fun a =>
    set_mCamera (OrbitCamera (f32.lit 1 5) (f32.of_int 5) (f32.of_int 150)
                             btnState x y (mCamera a)) a).

Definition ChangeRenderMode (newMode : RenderMode) : M t unit :=
  a <- this ;;
  if decide (newMode = mRenderMode (ext a)) then ret tt
  else upd_ext (set_mRenderMode newMode).

Definition OnKeyDown (wParam : Z) : M t unit :=
  if wParam =? 49 then
    upd_ext (fun e => set_mDrawTransparentFirst (negb (mDrawTransparentFirst e)) e)
  else if wParam =? VK_F1 then ChangeRenderMode Normal
  else if wParam =? VK_F2 then ChangeRenderMode PixelOverdraw
  else ret tt.

(** *** Per frame *)

Definition set_material (k : string) (m : Material.t) : M t unit :=
  set_this (fun a => set_mMaterials (<[k := m]> (mMaterials a)) a).

(** The rule that moves the bolt animation to its next frame; 3 is the
    first heap slot of the animation ([UINT] and [size_t] arithmetic). *)
Definition next_bolt_offset (currentOffset n : Z) : Z :=
  to_UINT (to_UINT (to_UINT (currentOffset - 3) + 1) mod n + 3).

Definition AnimateMaterials (gt : GameTimer) : M t unit :=
  (* the water scrolls *)
  a <- this ;;
  match mMaterials a !! "water" with
  | None => crash
  | Some waterMat =>
      let tu := mat_get (Material.MatTransform waterMat) 3 0 in
      let tv := mat_get (Material.MatTransform waterMat) 3 1 in
      let tu := f32.add tu (f32.mul (f32.lit 1 10) (DeltaTime gt)) in
      let tv := f32.add tv (f32.mul (f32.lit 1 50) (DeltaTime gt)) in
      let tu := if f32.leb f32.one tu then f32.sub tu f32.one else tu in
      let tv := if f32.leb f32.one tv then f32.sub tv f32.one else tv in
      set_material "water"
        (Material.set_NumFramesDirty gNumFrameResources
           (Material.set_MatTransform
              (mat_set (mat_set (Material.MatTransform waterMat) 3 0 tu) 3 1 tv)
              waterMat))
  end ;;;
  (* the bolt steps to its next texture thirty times a second *)
  a <- this ;;
  let last := default (TotalTime gt) (lastUpdatedTime (ext a)) in
  upd_ext (set_lastUpdatedTime (Some last)) ;;;
  let updateInterval := f32.div f32.one (f32.of_int 30) in
  let currentTime := TotalTime gt in
  if f32.leb updateInterval (f32.sub currentTime last) then
    match mMaterials a !! "boltAnim" with
    | None => crash
    | Some boltAnimMat =>
        let currentOffset := mBoltAnimSrvOffsetInHeap (ext a) in
        let n := Z.of_nat (length (mBoltAnimTextures (ext a))) in
        if n =? 0 then crash
        else
          let offset := next_bolt_offset currentOffset n in
          upd_ext (set_mBoltAnimSrvOffsetInHeap offset) ;;;
          set_material "boltAnim"
            (Material.set_DiffuseSrvHeapIndex (to_int offset) boltAnimMat) ;;;
          upd_ext (set_lastUpdatedTime (Some currentTime))
    end
  else ret tt.

(** [for (int i = 0; i < mWaves->VertexCount(); ++i) currWavesVB->CopyData(i, v)] *)
Fixpoint wave_copies_from (fr : nat) (i : Z) (n : nat) : list Event :=
  match n with
  | O => []
  | S n' => EvCopyData BufWaves (Some fr) i :: wave_copies_from fr (i + 1) n'
  end.
Definition wave_copies (fr n : nat) : list Event := wave_copies_from fr 0 n.

(** The random disturbance and the simulation step do not leave
    [mWaves]; every vertex is copied to the current [WavesVB]. *)
Definition UpdateWaves (gt : GameTimer) : M t unit :=
  a <- this ;;
  when (f32.leb (f32.lit 1 4) (f32.sub (TotalTime gt) (t_base (ext a))))
       (upd_ext (fun e => set_t_base (f32.add (t_base e) (f32.lit 1 4)) e)) ;;;
  cur <- CurrFrameResource ;;
  match mWaves (ext a), mWavesRitem (ext a) with
  | Some w, Some _ => emits (wave_copies (fst cur) (Z.to_nat (VertexCount w)))
  | _, _ => crash
  end.

Definition UpdateBuffers (gt : GameTimer) : M t unit :=
  AnimateMaterials gt ;;;
  UpdateObjectCBs ;;;
  UpdateMaterialCBs ;;;
  UpdateMainPassCB ;;;
  UpdateWaves gt.

Definition Update (gt : GameTimer) : M t unit :=
  CycleFrameResources ;;;
  UpdateBuffers gt.

(** Created on the first use, kept afterwards. *)
Definition CreateResourcesForPixelOverdrawMode : M t unit :=
  a <- this ;;
  match mPixelOverdrawResources (ext a) with
  | Some _ => ret tt
  | None =>
      emit (EvCreate KMeshGeometry "quadGeo") ;;;
      CreateDefaultBuffer "quadGeo.VertexBufferGPU" ;;;
      CreateDefaultBuffer "quadGeo.IndexBufferGPU" ;;;
      BuildPSOsForSceneRendering PixelOverdraw ;;;
      emit (EvCreate KPipelineState "quadPSO") ;;;
      emit (EvCreate KResource "quadTexture") ;;;
      upd_ext (set_mPixelOverdrawResources
        (Some (mkPOR "quadGeo"
                 (to_UINT (3 + Z.of_nat (length (mBoltAnimTextures (ext a)))))))) ;;;
      emit (EvCreate KDescriptor "quadTexture")
  end.

Definition GetPsoForSceneRendering (psoName : string) : M t string :=
  a <- this ;;
  if decide (mRenderMode (ext a) = PixelOverdraw) then
    match mPixelOverdrawResources (ext a) with
    | None => crash
    | Some _ => ret ("overdraw." +:+ psoName)
    end
  else ret ("default." +:+ psoName).

Definition DrawLayer (env : Env) (psoName : string) (l : RenderLayer) : M t unit :=
  pso <- GetPsoForSceneRendering psoName ;;
  record (SetPipelineState pso) ;;;
  a <- this ;;
  DrawRenderItems env (mRitemLayer (ext a) l).

(** The stencil buffer is copied to the quad texture and drawn. *)
Definition DrawOverdrawQuad : M t unit :=
  a <- this ;;
  match mPixelOverdrawResources (ext a) with
  | None => crash
  | Some r =>
      record (ResourceBarrier "mDepthStencilBuffer") ;;;
      record (ResourceBarrier "quadTexture") ;;;
      record CopyTextureRegion ;;;
      record (ResourceBarrier "mDepthStencilBuffer") ;;;
      record (ResourceBarrier "quadTexture") ;;;
      record (SetPipelineState "quadPSO") ;;;
      record (IASetVertexBuffers (quadGeo r)) ;;;
      record (IASetIndexBuffer (quadGeo r)) ;;;
      record IASetPrimitiveTopology ;;;
      record (SetGraphicsRootDescriptorTable 0 "mSrvDescriptorHeap"
                (to_UINT (srvOffsetInHeap r * mCbvSrvDescriptorSize a))) ;;;
      record (DrawIndexedInstanced (quadGeo r))
  end.

(** [Draw] up to the last draw call (part_000 lines 1489-1603), and the
    whole of it. *)
Definition RecordScene (env : Env) : M t unit :=
  BeginDraw ;;;
  record (SetGraphicsRootSignature "mRootSignature") ;;;
  record (SetGraphicsRootConstantBufferView 2 BufPass 0) ;;;
  a <- this ;;
  let overdraw := bool_decide (mRenderMode (ext a) = PixelOverdraw) in
  let first := mDrawTransparentFirst (ext a) in
  when overdraw CreateResourcesForPixelOverdrawMode ;;;
  when first (DrawLayer env "transparent" Transparent ;;;
              DrawLayer env "animatedBolt" AnimatedBolt) ;;;
  DrawLayer env "opaque" Opaque ;;;
  DrawLayer env "alphaTested" AlphaTested ;;;
  when (negb first) (DrawLayer env "transparent" Transparent ;;;
                     DrawLayer env "animatedBolt" AnimatedBolt) ;;;
  when overdraw DrawOverdrawQuad.

Definition Draw (env : Env) (gt : GameTimer) : M t unit :=
  RecordScene env ;;;
  CloseAndExecute ;;;
  PresentAndSignal env.

(** Modelled from the spec: the body of the frame loop of [D3DApp::Run]
    (Common/d3dApp.cpp is not among the sources): per-frame Update,
    then per-frame Draw. *)
Definition Frame (env : Env) (gt : GameTimer) : M t unit :=
  Update gt ;;; Draw env gt.
End BlendApp.

(** ** BoxApp (Chapter 6 Drawing in Direct3D/Box/BoxApp.cpp; part_002 is
    the variant with separate position and colour buffers and the same
    frame loop) *)
Module BoxApp.

Record t := mk { mCamera : Camera }.

Definition construct (mouse : Z * Z) : t :=
  mk (mkCamera (f32.mul (f32.lit 3 2) XM_PI) XM_PIDIV4 (f32.of_int 6) mouse).

Definition BuildDescriptorHeaps : M t unit :=
  emit (EvCreate KDescriptorHeap "mCbvHeap").

Definition BuildConstantBuffers : M t unit :=
  emit (EvCreate KUploadBuffer "mObjectCB") ;;;
  emit (EvCreate KDescriptor "cbv0") ;;;
  emit (EvCreate KDescriptor "cbv1").

Definition BuildRootSignature : M t unit :=
  emit (EvCreate KRootSignature "mRootSignature").

Definition BuildShadersAndInputLayout : M t unit :=
  emit (EvCreate KShader "VS") ;;; emit (EvCreate KShader "PS").

Definition BuildBoxGeometry : M t unit :=
  emit (EvCreate KMeshGeometry "boxGeo") ;;;
  CreateDefaultBuffer "boxGeo.VertexBufferGPU" ;;;
  CreateDefaultBuffer "boxGeo.IndexBufferGPU".

Definition BuildPSO : M t unit := emit (EvCreate KPipelineState "mPSO").

Definition BuildAll : M t unit :=
  BuildDescriptorHeaps ;;;
  BuildConstantBuffers ;;;
  BuildRootSignature ;;;
  BuildShadersAndInputLayout ;;;
  BuildBoxGeometry ;;;
  BuildPSO.

(** The path on which [D3DApp::Initialize] returns [true] and no
    [ThrowIfFailed] throws; the early [return false] has no
    counterpart. *)
Definition Initialize : M t unit :=
  emit EvListReset ;;;
  BuildAll ;;;
  emit EvClose ;;;
  ExecuteCommandLists None ;;;
  FlushCommandQueue.

Definition OnMouseMove (btnState x y : Z) : M t unit :=
  set_this (fun a =>
    mk (OrbitCamera (f32.lit 1 200) (f32.of_int 3) (f32.of_int 15)
                    btnState x y (mCamera a))).

(** The view matrix is rebuilt from the camera and the two constant
    buffer elements (box, pyramid) are rewritten. *)
Definition Update (gt : GameTimer) : M t unit :=
  emit (EvCopyData BufObject None 0) ;;;
  emit (EvCopyData BufObject None 1).

(** [Draw] up to the last draw call (BoxApp.cpp lines 246-315), and the
    whole of it. *)
Definition RecordScene (env : Env) : M t unit :=
  emit (EvAllocReset None) ;;;
  emit EvListReset ;;;
  record RSSetViewports ;;;
  record RSSetScissorRects ;;;
  record (ResourceBarrier "CurrentBackBuffer") ;;;
  record ClearRenderTargetView ;;;
  record ClearDepthStencilView ;;;
  record OMSetRenderTargets ;;;
  record IASetPrimitiveTopology ;;;
  record SetDescriptorHeaps ;;;
  record (SetGraphicsRootSignature "mRootSignature") ;;;
  record (SetGraphicsRootDescriptorTable 0 "mCbvHeap" 0) ;;;
  record (IASetVertexBuffers "boxGeo") ;;;
  record (IASetIndexBuffer "boxGeo") ;;;
  record (DrawIndexedInstanced "box") ;;;
  record (SetGraphicsRootDescriptorTable 0 "mCbvHeap"
            (to_UINT (1 * CbvSrvUavDescriptorSize env))) ;;;
  record (DrawIndexedInstanced "pyramid").

Definition Draw (env : Env) (gt : GameTimer) : M t unit :=
  RecordScene env ;;;
  record (ResourceBarrier "CurrentBackBuffer") ;;;
  emit EvClose ;;;
  ExecuteCommandLists None ;;;
  PresentAndSwap env ;;;
  FlushCommandQueue.

(** Modelled from the spec: the body of the frame loop of [D3DApp::Run]
    (Common/d3dApp.cpp is not among the sources): per-frame Update,
    then per-frame Draw. *)
Definition Frame (env : Env) (gt : GameTimer) : M t unit :=
  Update gt ;;; Draw env gt.
End BoxApp.

(** A fresh device: nothing submitted, nothing signalled. *)
Definition idle (b : D3DApp) : Prop :=
  pending (mGPU b) = [] /\ completed (mGPU b) = mCurrentFence b /\
  0 <= mCurrentFence b < 2 ^ 64.

(* ===================================================================== *)
(** * Part IV.  Runs                                                     *)
(* ===================================================================== *)

(** What can happen between two instants of a run: the two halves of a
    frame, the window messages the demos handle, and the GPU retiring the
    head of its queue. *)
Inductive Action :=
| AUpdate (gt : GameTimer)
| ADraw (gt : GameTimer)
| AMouseDown (x y : Z)
| AMouseMove (btnState x y : Z)
| AKeyDown (wParam : Z)
| AGpu.

Definition GpuProgress {S} : M S unit :=
  set_base (fun b => set_mGPU (gpu_step (mGPU b)) b).

Fixpoint run {S} (step : Action -> M S unit) (acts : list Action) : M S unit :=
  match acts with
  | [] => ret tt
  | act :: rest => step act ;;; run step rest
  end.

Definition crate_step `{DirectXMath} (env : Env) (act : Action) : M CrateApp.t unit :=
  match act with
  | AUpdate gt => CrateApp.Update gt
  | ADraw gt => CrateApp.Draw env gt
  | AMouseDown x y => set_this (fun a => set_mCamera (OnMouseDown x y (mCamera a)) a)
  | AMouseMove btnState x y => CrateApp.OnMouseMove btnState x y
  | AKeyDown wParam => CrateApp.OnKeyDown wParam
  | AGpu => GpuProgress
  end.

Definition blend_step (env : Env) (act : Action) : M BlendApp.t unit :=
  match act with
  | AUpdate gt => BlendApp.Update gt
  | ADraw gt => BlendApp.Draw env gt
  | AMouseDown x y => set_this (fun a => set_mCamera (OnMouseDown x y (mCamera a)) a)
  | AMouseMove btnState x y => BlendApp.OnMouseMove btnState x y
  | AKeyDown wParam => BlendApp.OnKeyDown wParam
  | AGpu => GpuProgress
  end.

Definition box_step (env : Env) (act : Action) : M BoxApp.t unit :=
  match act with
  | AUpdate gt => BoxApp.Update gt
  | ADraw gt => BoxApp.Draw env gt
  | AMouseDown x y => set_this (fun a => BoxApp.mk (OnMouseDown x y (BoxApp.mCamera a)))
  | AMouseMove btnState x y => BoxApp.OnMouseMove btnState x y
  | AKeyDown wParam => ret tt
  | AGpu => GpuProgress
  end.

Definition is_update (act : Action) : bool :=
  match act with AUpdate _ => true | _ => false end.
Definition is_draw (act : Action) : bool :=
  match act with ADraw _ => true | _ => false end.
Definition count_updates (acts : list Action) : Z :=
  Z.of_nat (length (List.filter is_update acts)).
Definition count_draws (acts : list Action) : Z :=
  Z.of_nat (length (List.filter is_draw acts)).

(** The fence values signalled and waited for in a trace, in order. *)
Definition signals (t : list Event) : list Z :=
  omap (fun e => match e with EvSignal v => Some v | _ => None end) t.
Definition waits (t : list Event) : list Z :=
  omap (fun e => match e with EvWait v => Some v | _ => None end) t.

(** ** Ways a method can be unobtrusive. *)

(** It leaves the part [f] of the state alone. *)
Definition preserves {S A V} (f : D3DApp * S -> V) (m : M S A) : Prop :=
  forall st a st' t, m st = Some (a, st', t) -> f st' = f st.

(** It only reads the state. *)
Definition readonly {S A} (m : M S A) : Prop :=
  forall st a st' t, m st = Some (a, st', t) -> st' = st.

(** Its calls all satisfy [P]. *)
Definition calls {S A} (P : Event -> bool) (m : M S A) : Prop :=
  forall st a st' t, m st = Some (a, st', t) -> forallb P t = true.

(** It keeps [I] true. *)
Definition keeps {S A} (I : D3DApp * S -> Prop) (m : M S A) : Prop :=
  forall st a st' t, I st -> m st = Some (a, st', t) -> I st'.

Definition is_cmd (e : Event) : bool :=
  match e with EvCmd _ => true | _ => false end.
Definition is_copy (e : Event) : bool :=
  match e with EvCopyData _ _ _ => true | _ => false end.

(** ** The frame ring seen from outside.

    The synchronisation of the frame resources only involves the base
    object, the fence value stored in each frame resource, the ring index
    and the current frame resource.  [sview] extracts them; [ring_cycle],
    [ring_draw] and [ring_gpu] are what the head of [Update], the tail of
    [Draw] and the GPU do to them (proved of the methods in Part V). *)

Record SView := mkSView {
  sv_base : D3DApp;
  sv_fences : list Z;
  sv_index : Z;
  sv_cur : option nat
}.

Definition fences {X} (a : App X) : list Z :=
  map FrameResource.Fence (mFrameResources a).

Definition sview {X} (st : D3DApp * App X) : SView :=
  mkSView (fst st) (fences (snd st))
          (mCurrFrameResourceIndex (snd st)) (mCurrFrameResource (snd st)).

Definition next_index (i : Z) : Z := int_rem (to_int (i + 1)) gNumFrameResources.

(** The CPU blocks at the head of [Update]. *)
Definition must_wait (fence : Z) (g : GPU) : bool :=
  negb (fence =? 0) && (completed g <? fence).

Definition ring_cycle (v : SView) : option (SView * list Event) :=
  let i := next_index (sv_index v) in
  if decide (0 <= i < Z.of_nat (length (sv_fences v))) then
    match sv_fences v !! Z.to_nat i with
    | None => None
    | Some fence =>
        if must_wait fence (mGPU (sv_base v)) then
          match gpu_wait fence (mGPU (sv_base v)) with
          | None => None
          | Some g =>
              Some (mkSView (set_mGPU g (sv_base v)) (sv_fences v) i (Some (Z.to_nat i)),
                    [EvWait fence])
          end
        else Some (mkSView (sv_base v) (sv_fences v) i (Some (Z.to_nat i)), [])
    end
  else None.

Definition ring_draw (env : Env) (v : SView) : option (SView * list Event) :=
  match sv_cur v with
  | None => None
  | Some i =>
      match sv_fences v !! i with
      | None => None
      | Some _ =>
          let b := sv_base v in
          let val := to_UINT64 (mCurrentFence b + 1) in
          Some (mkSView
                  (mkD3DApp val
                     (int_rem (to_int (mCurrBackBuffer b + 1)) (SwapChainBufferCount env))
                     (gpu_submit (QSignal val) (gpu_submit (QWork (Some i)) (mGPU b))))
                  (<[i := val]> (sv_fences v)) (sv_index v) (sv_cur v),
                [EvSignal val])
      end
  end.

Definition ring_gpu (v : SView) : SView :=
  mkSView (set_mGPU (gpu_step (mGPU (sv_base v))) (sv_base v))
          (sv_fences v) (sv_index v) (sv_cur v).

Definition ring_step (env : Env) (act : Action) (v : SView)
  : option (SView * list Event) :=
  match act with
  | AUpdate _ => ring_cycle v
  | ADraw _ => ring_draw env v
  | AGpu => Some (ring_gpu v, [])
  | _ => Some (v, [])
  end.

Fixpoint ring_run (env : Env) (acts : list Action) (v : SView)
  : option (SView * list Event) :=
  match acts with
  | [] => Some (v, [])
  | act :: rest =>
      match ring_step env act v with
      | None => None
      | Some (v1, t1) =>
          match ring_run env rest v1 with
          | None => None
          | Some (v2, t2) => Some (v2, t1 ++ t2)
          end
      end
  end.

(** The fence events of a trace. *)
Definition is_fence_event (e : Event) : bool :=
  match e with EvSignal _ | EvWait _ => true | _ => false end.

(** ** The invariant of the frame ring.

    [chain c q cf]: the values signalled in the queue [q] increase
    strictly from the completed value [c] to the last value handed out,
    [cf].  [covered fs q]: every command list in [q] that reads frame
    resource [i] is followed in [q] by a signal of at most the fence value
    stored in that frame resource. *)
Fixpoint chain (c : Z) (q : list QueueItem) (cf : Z) : Prop :=
  match q with
  | [] => c = cf
  | QWork _ :: q' => chain c q' cf
  | QSignal v :: q' => c < v /\ chain v q' cf
  end.

Fixpoint covered (fs : list Z) (q : list QueueItem) : Prop :=
  match q with
  | [] => True
  | QWork (Some i) :: q' =>
      (exists v f, In (QSignal v) q' /\ fs !! i = Some f /\ v <= f) /\ covered fs q'
  | _ :: q' => covered fs q'
  end.

Definition SyncOK (v : SView) : Prop :=
  let b := sv_base v in
  length (sv_fences v) = 3%nat /\
  0 <= sv_index v < 3 /\
  0 <= completed (mGPU b) /\
  mCurrentFence b < 2 ^ 64 /\
  chain (completed (mGPU b)) (pending (mGPU b)) (mCurrentFence b) /\
  covered (sv_fences v) (pending (mGPU b)) /\
  Forall (fun f => 0 <= f <= mCurrentFence b) (sv_fences v).

(** ** Filling the buffers of the current frame resource *)

(** The calls [Update] makes once the frame resource is free: copies into
    the buffers of the frame resource [cur], and the sampler descriptor
    CrateApp rewrites when its sampler changed. *)
Definition writes_to (cur : option nat) (e : Event) : bool :=
  match e with
  | EvCopyData _ fr _ => bool_decide (fr = cur)
  | EvCreate KDescriptor _ => true
  | _ => false
  end.

(** The method leaves the frame ring alone and writes to the current
    frame resource only. *)
Definition fills_current {X A} (m : M (App X) A) : Prop :=
  forall st a st' t,
    m st = Some (a, st', t) ->
    sview st' = sview st /\
    forallb (writes_to (mCurrFrameResource (snd st))) t = true.

(** The closed forms of the dirty-counter loop. *)
Section DirtyLoopSpec.
Context {E T : Type}.
Variables (dirty : E -> Z) (index : E -> Z) (constants : E -> T) (buf : Buffer).

Definition copy_step (cb : UploadBuffer T) (e : E) : UploadBuffer T :=
  if 0 <? dirty e then CopyData (index e) (constants e) cb else cb.

Definition copy_events (fr : nat) (e : E) : list Event :=
  if 0 <? dirty e then [EvCopyData buf (Some fr) (index e)] else [].
End DirtyLoopSpec.

Definition item_index (e : RenderItem.t) : Z := to_int (RenderItem.ObjCBIndex e).

Definition visit_item : RenderItem.t -> RenderItem.t :=
  after_visit RenderItem.NumFramesDirty RenderItem.set_NumFramesDirty.
Definition visit_material : Material.t -> Material.t :=
  after_visit Material.NumFramesDirty Material.set_NumFramesDirty.

Definition no_fence_event (e : Event) : bool := negb (is_fence_event e).

(** The demos refine the frame ring: every action does to the view what
    [ring_step] says, and shows the fence events [ring_step] says. *)
Definition refines_ring {X} (env : Env) (step : Action -> M (App X) unit) : Prop :=
  forall act st st' t,
    step act st = Some (tt, st', t) ->
    exists tv,
      ring_step env act (sview st) = Some (sview st', tv) /\
      List.filter is_fence_event t = tv.

(** ** The objects [Initialize] builds. *)

Definition fresh_base : D3DApp := mkD3DApp 0 0 (mkGPU 0 []).

Definition built {S} (m : M S unit) (s : S) : S :=
  match m (fresh_base, s) with
  | Some (_, (_, s'), _) => s'
  | None => s
  end.

Definition crate_built (env : Env) (mouse : Z * Z) : CrateApp.t :=
  built (CrateApp.BuildAll env) (CrateApp.construct mouse).
Definition blend_built (env : Env) (mouse : Z * Z) : BlendApp.t :=
  built (BlendApp.BuildAll env) (BlendApp.construct mouse).

(** The fence values [n] draws hand out after [c]: [c+1], ..., [c+n]. *)
Fixpoint fence_values (c : Z) (n : nat) : list Z :=
  match n with
  | O => []
  | S n' => (c + 1) :: fence_values (c + 1) n'
  end.

(** The fence value stored in a frame resource only grows. *)
Definition fences_grow (fs fs' : list Z) : Prop :=
  forall i f, fs !! i = Some f -> exists f', fs' !! i = Some f' /\ f <= f'.

(** ** What the claims say of one [Update] and of one [Draw]. *)

(** [Update], started in [st], ended in [st'] with the calls [tu]: it
    moved to frame resource [i], blocked on the fence exactly when the
    fence value stored there was not 0 and not yet completed, and then
    wrote only to buffers of frame resource [i], none of which a command
    list still in the queue reads.  The order is part of it: the calls
    are those of the head of [Update] ([tw], the wait or nothing)
    followed by the writes [tc], with no wait among them; when the head
    has returned, in [s1], no command list in the queue reads frame
    resource [i], and the device is in that same state when [Update]
    returns. *)
Definition update_waits_then_writes {X} (st st' : D3DApp * App X) (tu : list Event)
  : Prop :=
  exists (i : nat) (fence : Z),
    Z.of_nat i = (mCurrFrameResourceIndex (snd st) + 1) mod 3 /\
    mCurrFrameResource (snd st') = Some i /\
    fences (snd st) !! i = Some fence /\
    ((waits tu = [fence] /\ fence <> 0 /\ completed (mGPU (fst st)) < fence) \/
     (waits tu = [] /\ ~ (fence <> 0 /\ completed (mGPU (fst st)) < fence))) /\
    (forall buf fr k, In (EvCopyData buf fr k) tu -> fr = Some i) /\
    ~ gpu_reads i (mGPU (fst st')) /\
    exists r s1 tw tc,
      CycleFrameResources st = Some (r, s1, tw) /\
      tu = tw ++ tc /\
      tw = (if must_wait fence (mGPU (fst st)) then [EvWait fence] else []) /\
      forallb (writes_to (Some i)) tc = true /\
      ~ gpu_reads i (mGPU (fst s1)) /\
      fst st' = fst s1.

(** [Draw], started in [st], ended in [st'] with the calls [t]: the fence
    counter went up by one, the new value is stored in the current frame
    resource and is the one value signalled, last in the queue. *)
Definition draw_advances_fence {X} (st st' : D3DApp * App X) (t : list Event)
  : Prop :=
  mCurrentFence (fst st') = mCurrentFence (fst st) + 1 /\
  (exists i f,
     mCurrFrameResource (snd st') = Some i /\
     mFrameResources (snd st') !! i = Some f /\
     FrameResource.Fence f = mCurrentFence (fst st')) /\
  signals t = [mCurrentFence (fst st')] /\
  last (pending (mGPU (fst st'))) = Some (QSignal (mCurrentFence (fst st'))).

(** ** The order of the calls of one frame. *)

(** What [Update] calls: the wait, copies into upload buffers, and the
    sampler descriptor CrateApp rewrites. *)
Definition is_update_call (e : Event) : bool :=
  match e with
  | EvWait _ | EvCopyData _ _ _ | EvCreate KDescriptor _ => true
  | _ => false
  end.

(** The end of every [Draw]: the barrier back to the present state is the
    last command recorded, then [Close], [ExecuteCommandLists], [Present]
    and the signal of fence value [v]. *)
Definition draw_tail (v : Z) : list Event :=
  [EvCmd (ResourceBarrier "CurrentBackBuffer"); EvClose; EvExecute; EvPresent;
   EvSignal v].

Definition next_back_buffer (env : Env) (b : D3DApp) : Z :=
  int_rem (to_int (mCurrBackBuffer b + 1)) (SwapChainBufferCount env).

(** A frame from [st] to [st'] with the calls [t]: the calls of [Update],
    then the recording, then the tail of [Draw], then [flush]; the back
    buffer index has moved on by one. *)
Definition frame_in_order {S} (env : Env) (st st' : D3DApp * S)
    (t flush : list Event) : Prop :=
  exists tu rec,
    t = tu ++ rec ++ draw_tail (mCurrentFence (fst st')) ++ flush /\
    forallb is_update_call tu = true /\
    forallb is_recording rec = true /\
    mCurrBackBuffer (fst st') = next_back_buffer env (fst st).

(** The calls on the fence, in order. *)
Definition fence_calls (t : list Event) : list Event := List.filter is_fence_event t.

Definition is_copy_or_descriptor (e : Event) : bool :=
  match e with
  | EvCopyData _ _ _ | EvCreate KDescriptor _ => true
  | _ => false
  end.

(** ** Creations of data entities during a run. *)

Definition entity_creations (t : list Event) : list Event :=
  List.filter is_create_entity t.

Definition no_entity (e : Event) : bool := negb (is_create_entity e).

Definition overdraw_resources (st : D3DApp * BlendApp.t)
  : option BlendApp.PixelOverdrawResources :=
  BlendApp.mPixelOverdrawResources (ext (snd st)).

(** What a stretch of a run of BlendApp creates, given
    [mPixelOverdrawResources] before and after: the quad geometry when
    the pointer went from null to set, nothing otherwise. *)
Definition lazy_creations (p p' : option BlendApp.PixelOverdrawResources)
  : list Event :=
  match p, p' with
  | None, Some _ => [EvCreate KMeshGeometry "quadGeo"]
  | _, _ => []
  end.

Definition creates_lazily {A} (m : M BlendApp.t A) : Prop :=
  forall st a st' t,
    m st = Some (a, st', t) ->
    entity_creations t = lazy_creations (overdraw_resources st) (overdraw_resources st') /\
    (is_Some (overdraw_resources st) -> is_Some (overdraw_resources st')).

(** ** A device, a timer and a matrix library to run the demos on. *)

Definition sample_env : Env := mkEnv 2 32 256 256.

Definition sample_timer : GameTimer := mkGameTimer f32.one (f32.lit 1 60).

(** The matrix product in binary32; the rotation is left out (there is no
    sine here), which the properties below do not look at. *)
Definition mat_mul (m1 m2 : XMFLOAT4X4) : XMFLOAT4X4 :=
  flat_map (fun i =>
    map (fun j =>
      foldr (fun k acc => f32.add (f32.mul (mat_get m1 i k) (mat_get m2 k j)) acc)
            f32.zero (seq 0 4))
      (seq 0 4))
    (seq 0 4).

Definition sample_math : DirectXMath :=
  {| XMMatrixMultiply := mat_mul; XMMatrixRotationZ := fun _ => Identity4x4 |}.

(** The demos right after [Initialize] on a fresh device. *)
Definition crate_start : D3DApp * CrateApp.t :=
  (mkD3DApp 1 0 (mkGPU 1 []), crate_built sample_env (0, 0)).
Definition blend_start : D3DApp * BlendApp.t :=
  (mkD3DApp 1 0 (mkGPU 1 []), blend_built sample_env (0, 0)).
Definition box_start : D3DApp * BoxApp.t :=
  (mkD3DApp 1 0 (mkGPU 1 []), BoxApp.construct (0, 0)).

(** The calls a method makes from a state, none if it does not return. *)
Definition trace_of {S A} (r : option (A * (D3DApp * S) * list Event)) : list Event :=
  match r with
  | Some (_, _, t) => t
  | None => []
  end.

Definition returns {S A} (r : option (A * (D3DApp * S) * list Event)) : bool :=
  match r with
  | Some _ => true
  | None => false
  end.

(** The state a method ends in from [st], [st] itself if it does not
    return. *)
Definition state_after {S A} (st : D3DApp * S)
    (r : option (A * (D3DApp * S) * list Event)) : D3DApp * S :=
  match r with
  | Some (_, st', _) => st'
  | None => st
  end.

(** Three frames, with the GPU one item further after the first. *)
Definition three_frames : list Action :=
  [AUpdate sample_timer; ADraw sample_timer; AGpu;
   AUpdate sample_timer; ADraw sample_timer;
   AUpdate sample_timer; ADraw sample_timer].

Definition crate_sample_step : Action -> M CrateApp.t unit :=
  @crate_step sample_math sample_env.
Definition crate_sample_Update : GameTimer -> M CrateApp.t unit :=
  @CrateApp.Update sample_math.
Definition crate_sample_Frame : GameTimer -> M CrateApp.t unit :=
  @CrateApp.Frame sample_math sample_env.

Definition crate_after_three : D3DApp * CrateApp.t :=
  state_after crate_start (run crate_sample_step three_frames crate_start).

(** F2, then two frames. *)
Definition overdraw_frames : list Action :=
  [AKeyDown VK_F2; AUpdate sample_timer; ADraw sample_timer;
   AUpdate sample_timer; ADraw sample_timer].

(** ** The indices a draw call uses.

    What [DrawRenderItems] reads of the data records: per render item its
    [ObjCBIndex], material and geometry; per material its [MatCBIndex] and
    [DiffuseSrvHeapIndex]; per frame resource the element counts of its
    object and material buffers; [NumDescriptors] of the SRV heap and the
    descriptor size. *)

Definition item_view (ri : RenderItem.t) : Z * option string * option string :=
  (RenderItem.ObjCBIndex ri, RenderItem.Mat ri, RenderItem.Geo ri).
Definition material_view (m : Material.t) : Z * Z :=
  (Material.MatCBIndex m, Material.DiffuseSrvHeapIndex m).
Definition frame_view (f : FrameResource.t) : nat * nat :=
  (length (FrameResource.ObjectCB f), length (FrameResource.MaterialCB f)).

Record IndexView := mkIndexView {
  ix_items : list (Z * option string * option string);
  ix_materials : gmap string (Z * Z);
  ix_frames : list (nat * nat);
  ix_heap : option Z;
  ix_descsize : Z
}.

Definition index_view {X} (st : D3DApp * App X) : IndexView :=
  mkIndexView (item_view <$> mAllRitems (snd st))
              (material_view <$> mMaterials (snd st))
              (frame_view <$> mFrameResources (snd st))
              (mSrvDescriptorHeap (snd st))
              (mCbvSrvDescriptorSize (snd st)).

(** The buffers of every frame resource have one element per render item
    and one per material, and there are few enough of them for the [UINT]
    products of the offsets. *)
Definition buffers_fit (v : IndexView) : bool :=
  forallb (fun c => bool_decide (c = (length (ix_items v), size (ix_materials v))))
          (ix_frames v)
  && bool_decide (length (ix_items v) <= 256)%nat
  && bool_decide (size (ix_materials v) <= 256)%nat
  && match ix_heap v with
     | Some n => bool_decide (0 <= n <= 256)
     | None => false
     end.

(** The render item [i] (an index into [mAllRitems]) has a geometry and a
    material, and its three indices are within the buffers and the heap. *)
Definition item_indices_valid (v : IndexView) (i : nat) : bool :=
  match ix_items v !! i with
  | Some (obj, Some k, Some _) =>
      match ix_materials v !! k, ix_heap v with
      | Some (mat, tex), Some n =>
          bool_decide (0 <= obj < Z.of_nat (length (ix_items v)))
          && bool_decide (0 <= mat < Z.of_nat (size (ix_materials v)))
          && bool_decide (0 <= tex < n)
      | _, _ => false
      end
  | _ => false
  end.

(** The sizes the device reports are positive and of a plausible
    magnitude. *)
Definition small_sizes (env : Env) (v : IndexView) : Prop :=
  0 < objCBByteSize env < 2 ^ 24 /\
  0 < matCBByteSize env < 2 ^ 24 /\
  0 < ix_descsize v < 2 ^ 24.

(** A recorded address or descriptor handle lies within what was
    allocated: the element it points to ends before the buffer of every
    frame resource does, the descriptor before the heap does. *)
Definition cmd_in_bounds (env : Env) (v : IndexView) (c : Cmd) : bool :=
  match c with
  | SetGraphicsRootConstantBufferView _ BufObject off =>
      forallb (fun c => bool_decide
                 (0 <= off /\
                  off + objCBByteSize env <= Z.of_nat (fst c) * objCBByteSize env))
              (ix_frames v)
  | SetGraphicsRootConstantBufferView _ BufMaterial off =>
      forallb (fun c => bool_decide
                 (0 <= off /\
                  off + matCBByteSize env <= Z.of_nat (snd c) * matCBByteSize env))
              (ix_frames v)
  | SetGraphicsRootDescriptorTable _ heap off =>
      if decide (heap = "mSrvDescriptorHeap") then
        match ix_heap v with
        | Some n => bool_decide (0 <= off /\ off + ix_descsize v <= n * ix_descsize v)
        | None => false
        end
      else true
  | _ => true
  end.

Definition event_in_bounds (env : Env) (v : IndexView) (e : Event) : bool :=
  match e with
  | EvCmd c => cmd_in_bounds env v c
  | _ => true
  end.

(** Started where [I] holds, the method keeps [I] and its calls all
    satisfy [P]. *)
Definition maintains {S A} (I : D3DApp * S -> Prop) (P : Event -> bool) (m : M S A)
  : Prop :=
  forall st a st' t,
    I st -> m st = Some (a, st', t) -> I st' /\ forallb P t = true.

(** The render items CrateApp draws. *)
Definition crate_drawn (st : D3DApp * CrateApp.t) : list nat :=
  CrateApp.mOpaqueRitems (ext (snd st)).

(** The state shows the indices [v] and draws the items [l]. *)
Definition crate_draws (v : IndexView) (l : list nat) (st : D3DApp * CrateApp.t)
  : Prop :=
  index_view st = v /\ crate_drawn st = l.

(** All is well with the indices [v] and the drawn items [l]. *)
Definition indices_ok (env : Env) (v : IndexView) (l : list nat) : Prop :=
  buffers_fit v = true /\
  forallb (item_indices_valid v) l = true /\
  small_sizes env v.

(** The sizes the device reports, as the demos use them. *)
Definition env_small (env : Env) : Prop :=
  0 < objCBByteSize env < 2 ^ 24 /\
  0 < matCBByteSize env < 2 ^ 24 /\
  0 < CbvSrvUavDescriptorSize env < 2 ^ 24.

(** ** The bolt animation of BlendApp and the items BlendApp draws. *)

Definition bolt_offset (st : D3DApp * BlendApp.t) : Z :=
  BlendApp.mBoltAnimSrvOffsetInHeap (ext (snd st)).
Definition bolt_count (st : D3DApp * BlendApp.t) : Z :=
  Z.of_nat (length (BlendApp.mBoltAnimTextures (ext (snd st)))).

(** The heap slot [k] animation steps after [off]. *)
Definition bolt_after (k off : Z) : Z := 3 + (off - 3 + k) mod 60.

(** The indices [v], with the bolt material showing heap slot [off]. *)
Definition with_bolt (off : Z) (v : IndexView) : IndexView :=
  mkIndexView (ix_items v) (<["boltAnim" := (3, off)]> (ix_materials v))
              (ix_frames v) (ix_heap v) (ix_descsize v).

Definition blend_drawn (st : D3DApp * BlendApp.t) : BlendApp.RenderLayer -> list nat :=
  BlendApp.mRitemLayer (ext (snd st)).

(** The members of BlendApp the draw calls read besides the records. *)
Definition blend_members (e : BlendApp.Ext) :=
  (BlendApp.mBoltAnimSrvOffsetInHeap e, BlendApp.mBoltAnimTextures e,
   BlendApp.mRitemLayer e, BlendApp.mPixelOverdrawResources e).

Definition blend_static (st : D3DApp * BlendApp.t) :=
  (index_view st, blend_members (ext (snd st))).

(** The quad texture has the heap slot after the bolt textures. *)
Definition overdraw_slot_ok (st : D3DApp * BlendApp.t) : Prop :=
  forall r, overdraw_resources st = Some r ->
            BlendApp.srvOffsetInHeap r = 3 + bolt_count st.

Definition blend_draws (v : IndexView) (layers : BlendApp.RenderLayer -> list nat)
    (st : D3DApp * BlendApp.t) : Prop :=
  3 <= bolt_offset st < 3 + bolt_count st /\
  bolt_count st = 60 /\
  index_view st = with_bolt (bolt_offset st) v /\
  blend_drawn st = layers /\
  overdraw_slot_ok st.

Definition blend_indices_ok (env : Env) (v : IndexView)
    (layers : BlendApp.RenderLayer -> list nat) : Prop :=
  buffers_fit v = true /\
  (forall l, forallb (item_indices_valid v) (layers l) = true) /\
  small_sizes env v /\
  ix_materials v !! "boltAnim" = Some (3, 3) /\
  ix_heap v = Some 64.

(** The bolt animation moved on by at most [n] textures. *)
Definition bolt_moves (n : Z) (st st' : D3DApp * BlendApp.t) : Prop :=
  exists k, 0 <= k <= n /\ bolt_offset st' = bolt_after k (bolt_offset st).

Definition crate_after_three_view : IndexView := index_view crate_after_three.

(** ** The dirty counters. *)

(** Every render item and every material has a dirty counter between 0
    and [gNumFrameResources]. *)
Definition dirty_ok {X} (st : D3DApp * App X) : Prop :=
  Forall (fun e => 0 <= RenderItem.NumFramesDirty e <= gNumFrameResources)
         (mAllRitems (snd st)) /\
  map_Forall (fun _ m => 0 <= Material.NumFramesDirty m <= gNumFrameResources)
             (mMaterials (snd st)).

(** The records the dirty counters live in. *)
Definition records {X} (st : D3DApp * App X)
  : list RenderItem.t * gmap string Material.t :=
  (mAllRitems (snd st), mMaterials (snd st)).

(** The frame resource [Update] has moved to, a fresh one if there is
    none. *)
Definition current_frame {X} (st : D3DApp * App X) : FrameResource.t :=
  match mCurrFrameResource (snd st) with
  | Some fr => default (FrameResource.new 1 0 0) (mFrameResources (snd st) !! fr)
  | None => FrameResource.new 1 0 0
  end.

(** What [UpdateObjectCBs] and [UpdateMaterialCBs] leave in an element of
    a constant buffer: the constants of the entity if it was dirty, what
    was there if not. *)
Definition element_after {T} (dirty : Z) (c : T) (before : option (option T))
  : option (option T) :=
  if 0 <? dirty then Some (Some c) else before.

(** ** The window messages. *)

(** What a mouse move with the buttons [btnState] to [(x, y)] does to the
    camera: the position is remembered; the left button (bit 0) leaves
    the radius alone; without it the angles stay, and the radius too
    unless the right button (bit 1) is down. *)
Definition orbit_effect (btnState x y : Z) (c c' : Camera) : Prop :=
  mLastMousePos c' = (x, y) /\
  (Z.testbit btnState 0 = true -> mRadius c' = mRadius c) /\
  (Z.testbit btnState 0 = false -> mTheta c' = mTheta c /\ mPhi c' = mPhi c) /\
  (Z.testbit btnState 0 = false -> Z.testbit btnState 1 = false ->
   mRadius c' = mRadius c).

(** The sampler descriptor of CrateApp is written. *)
Definition is_sampler_create (e : Event) : bool :=
  match e with
  | EvCreate KDescriptor name => String.eqb name "sampler"
  | _ => false
  end.

Definition sampler_creations (t : list Event) : list Event :=
  List.filter is_sampler_create t.

(** The sampler settings of CrateApp and whether they have changed since
    the descriptor was written. *)
Definition sampler_dirty (st : D3DApp * CrateApp.t) : bool :=
  CrateApp.mSamplerDirty (ext (snd st)).
Definition sampler_settings (st : D3DApp * CrateApp.t)
  : CrateApp.Filter * CrateApp.AddressMode :=
  (CrateApp.mCurrentSamplerFilter (ext (snd st)),
   CrateApp.mCurrentSamplerAddressMode (ext (snd st))).

Definition sampler_state (st : D3DApp * CrateApp.t) :=
  (sampler_dirty st, sampler_settings st).
Definition no_sampler_create (e : Event) : bool := negb (is_sampler_create e).

(** The crate demo after key 4 (linear filtering) was pressed. *)
Definition crate_after_key4 : D3DApp * CrateApp.t :=
  state_after crate_start (CrateApp.OnKeyDown 52 crate_start).

(** ** Methods that return. *)

(** A frame resource is current, and it is one of the ring. *)
Definition frame_set (v : SView) : Prop :=
  exists i, sv_cur v = Some i /\ (i < length (sv_fences v))%nat.

(** No [Draw] comes before the first [Update]. *)
Fixpoint update_first (acts : list Action) : bool :=
  match acts with
  | [] => true
  | AUpdate _ :: _ => true
  | ADraw _ :: _ => false
  | _ :: rest => update_first rest
  end.

(** Started where [I] holds, the method returns: it dereferences no null
    pointer, finds what it looks up and does not wait for a fence value
    that is never signalled. *)
Definition succeeds {S A} (I : D3DApp * S -> Prop) (m : M S A) : Prop :=
  forall st, I st -> is_Some (m st).

(** [Draw] can be called: [Update] has set the current frame resource. *)
Definition can_draw {X} (act : Action) (st : D3DApp * App X) : Prop :=
  is_draw act = true -> frame_set (sview st).
(** CrateApp between [Update] and [Draw]: a frame resource is current and
    the state shows the indices [v] and draws the items [l]. *)
Definition crate_ready (v : IndexView) (l : list nat) (st : D3DApp * CrateApp.t)
  : Prop :=
  frame_set (sview st) /\ crate_draws v l st.
(** BlendApp has its waves, and the render item that shows them. *)
Definition waves_members (e : BlendApp.Ext) :=
  (BlendApp.mWaves e, BlendApp.mWavesRitem e).
Definition waves_set (st : D3DApp * BlendApp.t) : Prop :=
  is_Some (BlendApp.mWaves (ext (snd st))) /\
  is_Some (BlendApp.mWavesRitem (ext (snd st))).

(** BlendApp as [Initialize] leaves it and as every step keeps it, and
    between [Update] and [Draw]. *)
Definition blend_live (v : IndexView) (layers : BlendApp.RenderLayer -> list nat)
    (st : D3DApp * BlendApp.t) : Prop :=
  blend_draws v layers st /\ waves_set st.
Definition blend_ready (v : IndexView) (layers : BlendApp.RenderLayer -> list nat)
    (st : D3DApp * BlendApp.t) : Prop :=
  frame_set (sview st) /\ blend_live v layers st.

(** In the overdraw mode the resources of the mode exist. *)
Definition overdraw_ready (st : D3DApp * BlendApp.t) : Prop :=
  BlendApp.mRenderMode (ext (snd st)) = BlendApp.PixelOverdraw ->
  is_Some (overdraw_resources st).

(** ** The constants of the render items on their way to the frame
    resources. *)

Definition object_cbs {X} (st : D3DApp * App X) : list (UploadBuffer ObjectConstants) :=
  FrameResource.ObjectCB <$> mFrameResources (snd st).

(** What [UpdateObjectCBs] reads and writes. *)
Definition object_state {X} (st : D3DApp * App X) :=
  (mAllRitems (snd st), object_cbs st,
   (mCurrFrameResourceIndex (snd st), mCurrFrameResource (snd st))).

(** The element of the object buffers a render item has, and what is to
    be found there. *)
Definition item_consts (items : list RenderItem.t) : list (Z * ObjectConstants) :=
  (fun e => (item_index e, object_constants e)) <$> items.

Definition consts_wf (cs : list (Z * ObjectConstants)) : Prop :=
  NoDup (cs.*1) /\ Forall (fun p => 0 <= p.1 < Z.of_nat (length cs)) cs.

Definition holds_consts (cs : list (Z * ObjectConstants))
    (cb : UploadBuffer ObjectConstants) : Prop :=
  forall i c, (i, c) ∈ cs -> cb !! Z.to_nat i = Some (Some c).

Definition is_object_copy (e : Event) : bool :=
  match e with
  | EvCopyData BufObject _ _ => true
  | _ => false
  end.
Definition no_object_copy (e : Event) : bool := negb (is_object_copy e).
Definition object_copies (t : list Event) : list Event :=
  List.filter is_object_copy t.

(** The render items have the constants [cs] and are to be copied
    [3 - k] more times. *)
Definition items_pending {X} (cs : list (Z * ObjectConstants)) (k : Z)
    (st : D3DApp * App X) : Prop :=
  item_consts (mAllRitems (snd st)) = cs /\
  Forall (fun e => RenderItem.NumFramesDirty e = 3 - k) (mAllRitems (snd st)) /\
  0 <= mCurrFrameResourceIndex (snd st) < 3 /\
  length (object_cbs st) = 3%nat /\
  Forall (fun cb => length cb = length cs) (object_cbs st).

(** The frame resource [j] places before the current one in the ring
    holds the constants [cs]. *)
Definition frame_holds {X} (cs : list (Z * ObjectConstants)) (j : Z)
    (st : D3DApp * App X) : Prop :=
  exists cb,
    object_cbs st !! Z.to_nat ((mCurrFrameResourceIndex (snd st) - j) mod 3)
      = Some cb /\
    holds_consts cs cb.

(** [k] updates after the render items were made dirty: the current
    frame resource and the [k - 1] before it hold their constants. *)
Definition uploaded {X} (cs : list (Z * ObjectConstants)) (k : Z)
    (st : D3DApp * App X) : Prop :=
  items_pending cs k st /\ forall j, 0 <= j < k -> frame_holds cs j st.

(** The number of [Update]s that still copy the render items. *)
Definition uploads (k : Z) (acts : list Action) : Z :=
  Z.min (k + count_updates acts) 3.

(** ** The pipeline states a frame is drawn with. *)

Definition pipeline_state (e : Event) : option string :=
  match e with
  | EvCmd (SetPipelineState name) => Some name
  | _ => None
  end.
Definition pipeline_states (t : list Event) : list string := omap pipeline_state t.
Definition no_pipeline_state (e : Event) : bool :=
  match pipeline_state e with
  | Some _ => false
  | None => true
  end.

(** CrateApp: solid or wireframe, the crate and then the flare. *)
Definition crate_psos (opaque : bool) : list string :=
  if opaque then ["mOpaquePSO"; "mOpaqueFlarePSO"]
  else ["mWireFramePSO"; "mWireFrameFlarePSO"].

(** BlendApp: the blended layers after the opaque and alpha-tested ones
    unless [mDrawTransparentFirst]; in the overdraw mode with the
    pipeline states of that mode, and the quad at the end. *)
Definition blend_psos (mode : BlendApp.RenderMode) (first : bool) : list string :=
  let p := match mode with
           | BlendApp.PixelOverdraw => "overdraw."
           | BlendApp.Normal => "default."
           end in
  let solid := [p +:+ "opaque"; p +:+ "alphaTested"] in
  let blended := [p +:+ "transparent"; p +:+ "animatedBolt"] in
  (if first then blended ++ solid else solid ++ blended) ++
  match mode with
  | BlendApp.PixelOverdraw => ["quadPSO"]
  | BlendApp.Normal => []
  end.

(** Started where [I] holds, the method keeps [I] and sets the pipeline
    states [l], in this order. *)
Definition sets_pipeline_states {S A} (I : D3DApp * S -> Prop) (l : list string)
    (m : M S A) : Prop :=
  forall st a st' t,
    I st -> m st = Some (a, st', t) -> I st' /\ pipeline_states t = l.

Definition crate_mode (opaque : bool) (st : D3DApp * CrateApp.t) : Prop :=
  CrateApp.mOpaqueDraw (ext (snd st)) = opaque.
Definition blend_mode (mode : BlendApp.RenderMode) (first : bool)
    (st : D3DApp * BlendApp.t) : Prop :=
  BlendApp.mRenderMode (ext (snd st)) = mode /\
  BlendApp.mDrawTransparentFirst (ext (snd st)) = first.

(** The crate demo after its first [Update]. *)
Definition crate_updated : D3DApp * CrateApp.t :=
  state_after crate_start (crate_sample_Update sample_timer crate_start).

(** The pointer [mCurrFrameResource] is at the frame resource the index
    [mCurrFrameResourceIndex] names, and that one exists. *)
Definition points_at_index {X} (st : D3DApp * App X) : Prop :=
  mCurrFrameResource (snd st) = Some (Z.to_nat (mCurrFrameResourceIndex (snd st))) /\
  is_Some (mFrameResources (snd st) !! Z.to_nat (mCurrFrameResourceIndex (snd st))).

(** ** [UpdateMaterialCBs] in any order

    [for (auto& e : mMaterials)] (part_000 lines 649 and 1787) walks an
    [std::unordered_map], whose order the standard leaves open.
    [UpdateMaterialCBs_in order] is the loop with the materials walked in
    the order [order]; [UpdateMaterialCBs] above is the walk in the order
    of [map_to_list]. *)
Definition UpdateMaterialCBs_in {X} (order : list (string * Material.t))
  : M (App X) unit :=
  cur <- CurrFrameResource ;;
  a <- this ;;
  let '(_, cb, copies) :=
    update_materials (fst cur) (snd <$> order)
                     (FrameResource.MaterialCB (snd cur)) in
  set_this (set_mMaterials
    (after_visit Material.NumFramesDirty Material.set_NumFramesDirty
       <$> mMaterials a)) ;;;
  set_frame (fst cur) (FrameResource.set_MaterialCB cb (snd cur)) ;;;
  emits copies.

(** [order] walks the materials of [st]: every entry of the map, once. *)
Definition walks_materials {X} (order : list (string * Material.t))
    (st : D3DApp * App X) : Prop :=
  order ≡ₚ map_to_list (mMaterials (snd st)).

(* ===================================================================== *)
(** * Part V.  Lemmas and properties                                     *)
(* ===================================================================== *)

(** ** Reasoning about methods *)

Lemma bind_Some {S A B} (m : M S A) (k : A -> M S B) st b st2 t :
  bind m k st = Some (b, st2, t) <->
  exists a st1 t1 t2,
    m st = Some (a, st1, t1) /\ k a st1 = Some (b, st2, t2) /\ t = t1 ++ t2.
Proof.
  unfold bind. split.
  - destruct (m st) as [[[a st1] t1]|]; [|discriminate].
    destruct (k a st1) as [[[b' st2'] t2]|] eqn:E; [|discriminate].
    intros [= -> -> <-]. exists a, st1, t1, t2. auto.
  - intros (a & st1 & t1 & t2 & -> & -> & ->). reflexivity.
Qed.

Section Rules.
Context {S : Type}.
Implicit Types st : D3DApp * S.

Lemma preserves_bind {A B V} (f : D3DApp * S -> V) (m : M S A) (k : A -> M S B) :
  preserves f m -> (forall a, preserves f (k a)) -> preserves f (bind m k).
Proof.
  intros Hm Hk st b st2 t (a & st1 & t1 & t2 & H1 & H2 & _)%bind_Some.
  rewrite (Hk _ _ _ _ _ H2). eauto.
Qed.

Lemma readonly_bind {A B} (m : M S A) (k : A -> M S B) :
  readonly m -> (forall a, readonly (k a)) -> readonly (bind m k).
Proof.
  intros Hm Hk st b st2 t (a & st1 & t1 & t2 & H1 & H2 & _)%bind_Some.
  rewrite (Hk _ _ _ _ _ H2). eauto.
Qed.

Lemma calls_bind {A B} P (m : M S A) (k : A -> M S B) :
  calls P m -> (forall a, calls P (k a)) -> calls P (bind m k).
Proof.
  intros Hm Hk st b st2 t (a & st1 & t1 & t2 & H1 & H2 & ->)%bind_Some.
  rewrite forallb_app, (Hm _ _ _ _ H1), (Hk _ _ _ _ _ H2). reflexivity.
Qed.

Lemma keeps_bind {A B} I (m : M S A) (k : A -> M S B) :
  keeps I m -> (forall a, keeps I (k a)) -> keeps I (bind m k).
Proof.
  intros Hm Hk st b st2 t HI (a & st1 & t1 & t2 & H1 & H2 & _)%bind_Some.
  eapply Hk; [|exact H2]. eapply Hm; eauto.
Qed.

Lemma readonly_preserves {A V} (f : D3DApp * S -> V) (m : M S A) :
  readonly m -> preserves f m.
Proof. intros Hm st a st' t H. rewrite (Hm _ _ _ _ H). reflexivity. Qed.

Lemma readonly_keeps {A} I (m : M S A) : readonly m -> keeps I m.
Proof. intros Hm st a st' t HI H. rewrite (Hm _ _ _ _ H). exact HI. Qed.

Lemma preserves_keeps {A} (I : D3DApp * S -> Prop) (m : M S A) :
  preserves I m -> keeps I m.
Proof. intros Hm st a st' t HI H. rewrite (Hm _ _ _ _ H). exact HI. Qed.

Lemma calls_weaken {A} (P Q : Event -> bool) (m : M S A) :
  (forall e, P e = true -> Q e = true) -> calls P m -> calls Q m.
Proof.
  intros HPQ Hm st a st' t H. specialize (Hm _ _ _ _ H).
  rewrite forallb_forall in *. auto.
Qed.

(** The primitives. *)
Lemma readonly_ret {A} (a : A) : readonly (S:=S) (ret a).
Proof. intros st a' st' t [= _ <- _]. reflexivity. Qed.
Lemma readonly_crash {A} : readonly (S:=S) (A:=A) crash.
Proof. intros st a st' t [=]. Qed.
Lemma readonly_emit e : readonly (S:=S) (emit e).
Proof. intros st a st' t [= _ <- _]. reflexivity. Qed.
Lemma readonly_emits es : readonly (S:=S) (emits es).
Proof. intros st a st' t [= _ <- _]. reflexivity. Qed.
Lemma readonly_record c : readonly (S:=S) (record c).
Proof. apply readonly_emit. Qed.
Lemma readonly_base : readonly (S:=S) base.
Proof. intros st a st' t [= _ <- _]. reflexivity. Qed.
Lemma readonly_this : readonly (S:=S) this.
Proof. intros st a st' t [= _ <- _]. reflexivity. Qed.

Lemma calls_ret {A} P (a : A) : calls (S:=S) P (ret a).
Proof. intros st a' st' t [= _ _ <-]. reflexivity. Qed.
Lemma calls_crash {A} P : calls (S:=S) (A:=A) P crash.
Proof. intros st a st' t [=]. Qed.
Lemma calls_emit P e : P e = true -> calls (S:=S) P (emit e).
Proof. intros HP st a st' t [= _ _ <-]. simpl. rewrite HP. reflexivity. Qed.
Lemma calls_emits P es : forallb P es = true -> calls (S:=S) P (emits es).
Proof. intros HP st a st' t [= _ _ <-]. exact HP. Qed.
Lemma calls_record P c : P (EvCmd c) = true -> calls (S:=S) P (record c).
Proof. apply calls_emit. Qed.
Lemma calls_base P : calls (S:=S) P base.
Proof. intros st a st' t [= _ _ <-]. reflexivity. Qed.
Lemma calls_this P : calls (S:=S) P this.
Proof. intros st a st' t [= _ _ <-]. reflexivity. Qed.
Lemma calls_set_base P g : calls (S:=S) P (set_base g).
Proof. intros st a st' t [= _ _ <-]. reflexivity. Qed.
Lemma calls_set_this P g : calls (S:=S) P (set_this g).
Proof. intros st a st' t [= _ _ <-]. reflexivity. Qed.

Lemma preserves_set_base {V} (f : D3DApp * S -> V) g :
  (forall b s, f (g b, s) = f (b, s)) -> preserves f (set_base g).
Proof. intros Hg [b s] a st' t [= _ <- _]. apply Hg. Qed.
Lemma preserves_set_this {V} (f : D3DApp * S -> V) g :
  (forall b s, f (b, g s) = f (b, s)) -> preserves f (set_this g).
Proof. intros Hg [b s] a st' t [= _ <- _]. apply Hg. Qed.

Lemma keeps_set_base (I : D3DApp * S -> Prop) g :
  (forall b s, I (b, s) -> I (g b, s)) -> keeps I (set_base g).
Proof. intros Hg [b s] a st' t HI [= _ <- _]. auto. Qed.
Lemma keeps_set_this (I : D3DApp * S -> Prop) g :
  (forall b s, I (b, s) -> I (b, g s)) -> keeps I (set_this g).
Proof. intros Hg [b s] a st' t HI [= _ <- _]. auto. Qed.
End Rules.

Section FillRules.
Context {X : Type}.

Lemma fills_current_bind {A B} (m : M (App X) A) (k : A -> M (App X) B) :
  fills_current m -> (forall a, fills_current (k a)) -> fills_current (bind m k).
Proof.
  intros Hm Hk st b st2 t (a & st1 & t1 & t2 & H1 & H2 & ->)%bind_Some.
  destruct (Hm _ _ _ _ H1) as [Hv1 Ht1]. destruct (Hk _ _ _ _ _ H2) as [Hv2 Ht2].
  split; [congruence|].
  rewrite forallb_app, Ht1. simpl.
  replace (mCurrFrameResource (snd st)) with (mCurrFrameResource (snd st1)); [exact Ht2|].
  change (sv_cur (sview st1) = sv_cur (sview st)). congruence.
Qed.

(** A method that changes nothing and calls nothing. *)
Lemma fills_current_quiet {A} (m : M (App X) A) :
  readonly m -> calls (fun _ => false) m -> fills_current m.
Proof.
  intros Hr Hc st a st' t H. rewrite (Hr _ _ _ _ H). split; [reflexivity|].
  specialize (Hc _ _ _ _ H). destruct t; [reflexivity | discriminate].
Qed.

Lemma fills_current_set_this (g : App X -> App X) :
  (forall b a, sview (b, g a) = sview (b, a)) -> fills_current (set_this g).
Proof. intros Hg [b a] u st' t [= _ <- <-]. split; [apply Hg | reflexivity]. Qed.

Lemma fills_current_emit e :
  (forall cur, writes_to cur e = true) -> fills_current (X:=X) (emit e).
Proof.
  intros He st u st' t [= _ <- <-]. split; [reflexivity|].
  simpl. rewrite He. reflexivity.
Qed.
End FillRules.

Create HintDb method discriminated.

Ltac head_of t := lazymatch t with ?f _ => head_of f | _ => t end.

Ltac unfold_method :=
  lazymatch goal with
  | |- preserves _ ?m => let h := head_of m in unfold h
  | |- readonly ?m => let h := head_of m in unfold h
  | |- calls _ ?m => let h := head_of m in unfold h
  | |- keeps _ ?m => let h := head_of m in unfold h
  | |- fills_current ?m => let h := head_of m in unfold h
  end.

Ltac is_method_goal :=
  lazymatch goal with
  | |- preserves _ _ => idtac
  | |- readonly _ => idtac
  | |- calls _ _ => idtac
  | |- keeps _ _ => idtac
  | |- fills_current _ => idtac
  end.

(** Walks through the binds and the case distinctions of a method and
    closes the leaves it knows; what it cannot close is left. *)
Ltac method :=
  idtac;
  repeat first
    [ progress intros
    | progress cbv beta
    | solve [eauto 2 with method nocore]
    | lazymatch goal with
      | |- preserves _ (bind _ _) => apply preserves_bind
      | |- readonly (bind _ _) => apply readonly_bind
      | |- calls _ (bind _ _) => apply calls_bind
      | |- keeps _ (bind _ _) => apply keeps_bind
      | |- readonly (ret _) => apply readonly_ret
      | |- readonly crash => apply readonly_crash
      | |- readonly (emit _) => apply readonly_emit
      | |- readonly (emits _) => apply readonly_emits
      | |- readonly (record _) => apply readonly_record
      | |- readonly base => apply readonly_base
      | |- readonly this => apply readonly_this
      | |- calls _ (ret _) => apply calls_ret
      | |- calls _ crash => apply calls_crash
      | |- calls _ base => apply calls_base
      | |- calls _ this => apply calls_this
      | |- calls _ (set_base _) => apply calls_set_base
      | |- calls _ (set_this _) => apply calls_set_this
      | |- calls _ (emit _) => solve [apply calls_emit; reflexivity]
      | |- calls _ (record _) => solve [apply calls_record; reflexivity]
      | |- calls _ (emits _) => solve [apply calls_emits; reflexivity]
      | |- preserves _ (set_this _) =>
          solve [apply preserves_set_this; intros; reflexivity]
      | |- preserves _ (set_base _) =>
          solve [apply preserves_set_base; intros; reflexivity]
      | |- keeps _ (set_this _) =>
          solve [apply keeps_set_this; intros ? ? HI; exact HI]
      | |- keeps _ (set_base _) =>
          solve [apply keeps_set_base; intros ? ? HI; exact HI]
      | |- fills_current (bind _ _) => apply fills_current_bind
      | |- fills_current (set_this _) =>
          solve [apply fills_current_set_this; intros; reflexivity]
      | |- fills_current (emit _) =>
          solve [apply fills_current_emit; intros; reflexivity]
      end
    | solve [lazymatch goal with |- preserves _ _ => apply readonly_preserves end; method]
    | solve [lazymatch goal with |- keeps _ _ => apply readonly_keeps end; method]
    | solve [lazymatch goal with |- fills_current _ => apply fills_current_quiet end;
             method]
    | (is_method_goal; case_match)
    | unfold_method ].

Section SharedFacts.
Context {X : Type}.

Lemma readonly_CurrFrameResource : readonly (@CurrFrameResource X).
Proof. method. Qed.

Lemma readonly_DrawRenderItem env i : readonly (@DrawRenderItem X env i).
Proof. method. Qed.

Lemma readonly_DrawRenderItems env l : readonly (@DrawRenderItems X env l).
Proof.
  induction l as [|i l IH]; simpl.
  - apply readonly_ret.
  - apply readonly_bind; [apply readonly_DrawRenderItem | intros; exact IH].
Qed.

Lemma calls_DrawRenderItem P env i :
  (forall c, P (EvCmd c) = true) -> calls P (@DrawRenderItem X env i).
Proof. intros HP. unfold DrawRenderItem. method; apply calls_record, HP. Qed.

Lemma calls_DrawRenderItems P env l :
  (forall c, P (EvCmd c) = true) -> calls P (@DrawRenderItems X env l).
Proof.
  intros HP. induction l as [|i l IH]; simpl.
  - apply calls_ret.
  - apply calls_bind; [apply calls_DrawRenderItem, HP | intros; exact IH].
Qed.

Lemma readonly_BeginDraw : readonly (@BeginDraw X).
Proof. method. Qed.
End SharedFacts.

#[export] Hint Resolve readonly_CurrFrameResource readonly_DrawRenderItem
  readonly_DrawRenderItems readonly_BeginDraw : method.

(** ** The command queue *)

Lemma chain_le c q cf : chain c q cf -> c <= cf.
Proof.
  revert c. induction q as [|[fr|v] q IH]; simpl; intros c H.
  - lia.
  - auto.
  - destruct H as [Hc H]. apply IH in H. lia.
Qed.

Lemma chain_signal c q cf v :
  chain c q cf -> In (QSignal v) q -> c < v <= cf.
Proof.
  revert c. induction q as [|[fr|w] q IH]; simpl; intros c H Hin.
  - contradiction.
  - destruct Hin as [Hin|Hin]; [discriminate | eauto].
  - destruct H as [Hc H]. destruct Hin as [[= ->]|Hin].
    + apply chain_le in H. lia.
    + specialize (IH _ H Hin). lia.
Qed.

Lemma chain_app_work c q cf fr :
  chain c q cf -> chain c (q ++ [QWork fr]) cf.
Proof.
  revert c. induction q as [|[fr'|w] q IH]; simpl; intros c H; auto.
  destruct H. auto.
Qed.

Lemma chain_app_signal c q cf v :
  chain c q cf -> cf < v -> chain c (q ++ [QSignal v]) v.
Proof.
  revert c. induction q as [|[fr'|w] q IH]; simpl; intros c H Hv.
  - subst. auto.
  - auto.
  - destruct H. auto.
Qed.

Lemma covered_app fs q q2 :
  covered fs q -> covered fs q2 -> covered fs (q ++ q2).
Proof.
  intros H H2. induction q as [|[[i|]|w] q IH]; simpl in *; auto.
  destruct H as [(v & f & Hin & Hf & Hle) H]. split; auto.
  exists v, f. rewrite in_app_iff. auto.
Qed.

Lemma covered_mono fs fs' q :
  (forall i f, fs !! i = Some f -> exists f', fs' !! i = Some f' /\ f <= f') ->
  covered fs q -> covered fs' q.
Proof.
  intros Hfs. induction q as [|[[i|]|w] q IH]; simpl; auto.
  intros [(v & f & Hin & Hf & Hle) H]. split; auto.
  destruct (Hfs _ _ Hf) as (f' & Hf' & Hle'). exists v, f'. repeat split; auto. lia.
Qed.

(** Once the completed value has reached the fence value stored in a
    frame resource, no command list reading that frame resource is left
    in the queue. *)
Lemma retired c q cf fs i f :
  chain c q cf -> covered fs q -> fs !! i = Some f -> f <= c ->
  ~ In (QWork (Some i)) q.
Proof.
  intros Hch Hcov Hf Hle. revert c Hch Hle.
  induction q as [|[[j|]|w] q IH]; simpl in *; intros c Hch Hle.
  - tauto.
  - destruct Hcov as [(v & f' & Hin & Hf' & Hv) Hcov].
    intros [[= ->]|Hin'].
    + rewrite Hf in Hf'. injection Hf' as <-.
      pose proof (chain_signal _ _ _ _ Hch Hin). lia.
    + exact (IH Hcov c Hch Hle Hin').
  - intros [[=]|Hin']. exact (IH Hcov c Hch Hle Hin').
  - destruct Hch as [Hc Hch]. intros [[=]|Hin'].
    apply (IH Hcov w Hch); [lia | exact Hin'].
Qed.

(** The wait ends as soon as the value waited for has been handed out. *)
Lemma wait_items_ends v c q cf fs :
  chain c q cf -> v <= cf -> covered fs q ->
  exists c' q',
    wait_items v c q = Some (c', q') /\ v <= c' /\ c <= c' /\
    chain c' q' cf /\ covered fs q' /\ (forall x, In x q' -> In x q).
Proof.
  revert c. induction q as [|[fr|w] q IH]; simpl; intros c Hch Hv Hcov.
  - subst. destruct (Z.leb_spec v cf); [|lia].
    exists cf, []. simpl. repeat split; auto; lia.
  - destruct (Z.leb_spec v c).
    + exists c, (QWork fr :: q). simpl. repeat split; auto; lia.
    + assert (Hcov' : covered fs q) by (destruct fr; simpl in Hcov; tauto).
      destruct (IH c Hch Hv Hcov') as (c' & q' & -> & ? & ? & ? & ? & Hsub).
      exists c', q'. repeat split; auto.
  - destruct Hch as [Hc Hch]. destruct (Z.leb_spec v c).
    + exists c, (QSignal w :: q). simpl. repeat split; auto; lia.
    + destruct (IH w Hch Hv Hcov) as (c' & q' & -> & ? & ? & ? & ? & Hsub).
      exists c', q'. repeat split; auto. lia.
Qed.

(** ** The frame ring keeps its invariant *)

Lemma next_index_mod i : 0 <= i < 3 -> next_index i = (i + 1) mod 3.
Proof.
  intros H. assert (i = 0 \/ i = 1 \/ i = 2) as [->|[->| ->]] by lia; reflexivity.
Qed.

Lemma Forall_fences_lookup (P : Z -> Prop) (fs : list Z) i f :
  Forall P fs -> fs !! i = Some f -> P f.
Proof. intros H Hi. eapply Forall_lookup_1; eauto. Qed.

Lemma ring_gpu_ok v : SyncOK v -> SyncOK (ring_gpu v).
Proof.
  destruct v as [[cf bb [c q]] fs idx cur]. unfold SyncOK, ring_gpu, gpu_step; simpl.
  intros (Hlen & Hidx & Hc & Hcf & Hch & Hcov & Hfs).
  destruct q as [|[fr|w] q]; simpl in *; repeat split; try tauto; try lia.
  destruct fr; simpl in Hcov; tauto.
Qed.

Lemma ring_cycle_ok v :
  SyncOK v ->
  exists v' t,
    ring_cycle v = Some (v', t) /\ SyncOK v' /\
    sv_index v' = (sv_index v + 1) mod 3 /\
    sv_cur v' = Some (Z.to_nat (sv_index v')) /\
    sv_fences v' = sv_fences v /\
    mCurrentFence (sv_base v') = mCurrentFence (sv_base v) /\
    mCurrBackBuffer (sv_base v') = mCurrBackBuffer (sv_base v) /\
    ~ gpu_reads (Z.to_nat (sv_index v')) (mGPU (sv_base v')) /\
    exists fence,
      sv_fences v !! Z.to_nat (sv_index v') = Some fence /\
      t = if must_wait fence (mGPU (sv_base v)) then [EvWait fence] else [].
Proof.
  destruct v as [[cf bb [c q]] fs idx cur]. unfold SyncOK, ring_cycle; simpl.
  intros (Hlen & Hidx & Hc & Hcf & Hch & Hcov & Hfs).
  rewrite (next_index_mod _ Hidx).
  set (i := (idx + 1) mod 3).
  assert (Hi : 0 <= i < 3) by (apply Z.mod_pos_bound; lia).
  destruct (decide (0 <= i < Z.of_nat (length fs))) as [_|]; [|lia].
  destruct (fs !! Z.to_nat i) as [fence|] eqn:Hf;
    [|apply lookup_ge_None in Hf; lia].
  pose proof (Forall_fences_lookup _ _ _ _ Hfs Hf) as Hfence. simpl in Hfence.
  unfold must_wait; simpl.
  destruct (negb (fence =? 0) && (c <? fence)) eqn:Hw.
  - pose proof Hw as Hw'.
    apply andb_true_iff in Hw as [_ Hlt]. apply Z.ltb_lt in Hlt.
    unfold gpu_wait; simpl.
    destruct (wait_items_ends fence c q cf fs Hch ltac:(lia) Hcov)
      as (c' & q' & -> & Hge & Hcc & Hch' & Hcov' & Hsub).
    eexists _, _. split; [reflexivity|]. simpl.
    repeat split; auto; try lia.
    + unfold gpu_reads; simpl. eapply retired; eauto.
    + exists fence. rewrite Hw'. auto.
  - pose proof Hw as Hw'.
    eexists _, _. split; [reflexivity|]. simpl.
    repeat split; auto; try lia.
    + unfold gpu_reads; simpl.
      apply andb_false_iff in Hw as [Hz|Hlt].
      * apply negb_false_iff, Z.eqb_eq in Hz. subst fence.
        eapply retired; eauto.
      * apply Z.ltb_ge in Hlt. eapply retired; eauto.
    + exists fence. rewrite Hw'. auto.
Qed.

Lemma ring_draw_ok env v v' t :
  SyncOK v -> mCurrentFence (sv_base v) + 1 < 2 ^ 64 ->
  ring_draw env v = Some (v', t) ->
  SyncOK v' /\
  mCurrentFence (sv_base v') = mCurrentFence (sv_base v) + 1 /\
  t = [EvSignal (mCurrentFence (sv_base v) + 1)] /\
  sv_index v' = sv_index v /\ sv_cur v' = sv_cur v /\
  exists i, sv_cur v = Some i /\
    sv_fences v' = <[i := mCurrentFence (sv_base v) + 1]> (sv_fences v) /\
    pending (mGPU (sv_base v')) =
      pending (mGPU (sv_base v))
        ++ [QWork (Some i); QSignal (mCurrentFence (sv_base v) + 1)] /\
    completed (mGPU (sv_base v')) = completed (mGPU (sv_base v)).
Proof.
  destruct v as [[cf bb [c q]] fs idx cur]. unfold SyncOK, ring_draw; simpl.
  intros (Hlen & Hidx & Hc & Hcf & Hch & Hcov & Hfs) Hnw.
  destruct cur as [i|]; [|discriminate].
  destruct (fs !! i) as [f|] eqn:Hf; [|discriminate].
  pose proof (chain_le _ _ _ Hch) as Hccf.
  assert (Hv : to_UINT64 (cf + 1) = cf + 1)
    by (unfold to_UINT64; apply Z.mod_small; lia).
  rewrite Hv. intros [= <- <-]. simpl.
  assert (Hup : forall j g, fs !! j = Some g ->
            exists g', <[i := cf + 1]> fs !! j = Some g' /\ g <= g').
  { intros j g Hg. destruct (decide (i = j)) as [->|Hne].
    - exists (cf + 1). split.
      + apply list_lookup_insert_eq. eapply lookup_lt_Some; eauto.
      + pose proof (Forall_fences_lookup _ _ _ _ Hfs Hg) as Hb.
        simpl in Hb. lia.
    - exists g. rewrite list_lookup_insert_ne by auto. split; [auto | lia]. }
  repeat split; auto; try lia.
  - rewrite length_insert. exact Hlen.
  - rewrite <- app_assoc. simpl.
    replace (q ++ [QWork (Some i); QSignal (cf + 1)])
      with ((q ++ [QWork (Some i)]) ++ [QSignal (cf + 1)])
      by (rewrite <- app_assoc; reflexivity).
    apply (chain_app_signal _ _ cf); [|lia]. apply chain_app_work. exact Hch.
  - rewrite <- app_assoc. simpl. apply covered_app.
    + eapply covered_mono; eauto.
    + simpl. split; auto. exists (cf + 1), (cf + 1). split; [left; reflexivity|].
      split; [|lia]. apply list_lookup_insert_eq. eapply lookup_lt_Some; eauto.
  - apply Forall_lookup. intros j g Hj.
    destruct (decide (i = j)) as [->|Hne].
    + rewrite list_lookup_insert_eq in Hj by (eapply lookup_lt_Some; eauto).
      injection Hj as <-. lia.
    + rewrite list_lookup_insert_ne in Hj by auto.
      pose proof (Forall_fences_lookup _ _ _ _ Hfs Hj) as Hb. simpl in Hb. lia.
  - exists i. repeat split; auto. rewrite <- app_assoc. reflexivity.
Qed.

(** ** What the shared methods do to the frame ring *)

Ltac unfold_prims :=
  unfold when, record, emit, emits, this, base, set_this, set_base, ret, crash in *.

Section SharedEffects.
Context {X : Type}.
Implicit Types (st : D3DApp * App X) (a : App X) (b : D3DApp).

Lemma fences_length a : length (fences a) = length (mFrameResources a).
Proof. unfold fences. apply length_map. Qed.

Lemma fences_lookup a i :
  fences a !! i = FrameResource.Fence <$> mFrameResources a !! i.
Proof. unfold fences. apply list_lookup_fmap. Qed.

Lemma CycleFrameResources_eq b a :
  CycleFrameResources (b, a) =
  match ring_cycle (sview (b, a)) with
  | None => None
  | Some (v, t) =>
      Some (match t with [] => false | _ => true end,
            (sv_base v,
             set_mCurrFrameResource (sv_cur v)
               (set_mCurrFrameResourceIndex (sv_index v) a)), t)
  end.
Proof.
  unfold CycleFrameResources, CurrFrameResource, WaitForFence, ring_cycle,
    must_wait, next_index, bind.
  unfold_prims. simpl.
  set (i := int_rem (to_int (mCurrFrameResourceIndex a + 1)) gNumFrameResources).
  rewrite fences_length, fences_lookup.
  destruct (decide (0 <= i < Z.of_nat (length (mFrameResources a)))); [|reflexivity].
  simpl. destruct (mFrameResources a !! Z.to_nat i) as [f|]; [|reflexivity].
  simpl.
  destruct (negb (FrameResource.Fence f =? 0)
            && (completed (mGPU b) <? FrameResource.Fence f)); simpl.
  - destruct (gpu_wait (FrameResource.Fence f) (mGPU b)); reflexivity.
  - reflexivity.
Qed.
End SharedEffects.

Section DirtyLoopFacts.
Context {E T : Type}.
Variables (dirty : E -> Z) (set_dirty : Z -> E -> E).
Variables (index : E -> Z) (constants : E -> T) (buf : Buffer).

Lemma update_dirty_eq fr es cb :
  update_dirty dirty set_dirty index constants buf fr es cb =
  (map (after_visit dirty set_dirty) es,
   foldl (copy_step dirty index constants) cb es,
   flat_map (copy_events dirty index buf fr) es).
Proof.
  revert cb. induction es as [|e es IH]; intros cb; simpl; [reflexivity|].
  unfold copy_if_dirty, after_visit, copy_step, copy_events at 1.
  destruct (0 <? dirty e); rewrite IH; reflexivity.
Qed.

Lemma copy_events_writes fr es :
  forallb (writes_to (Some fr)) (flat_map (copy_events dirty index buf fr) es) = true.
Proof.
  induction es as [|e es IH]; simpl; [reflexivity|].
  rewrite forallb_app, IH, andb_true_r. unfold copy_events.
  destruct (0 <? dirty e); simpl; [|reflexivity].
  rewrite bool_decide_eq_true_2; reflexivity.
Qed.

Lemma copy_step_length cb e :
  length (copy_step dirty index constants cb e) = length cb.
Proof.
  unfold copy_step, CopyData. destruct (0 <? dirty e); [|reflexivity].
  destruct (decide (0 <= index e)); [apply length_insert | reflexivity].
Qed.

Lemma foldl_copy_step_length es cb :
  length (foldl (copy_step dirty index constants) cb es) = length cb.
Proof.
  revert cb. induction es as [|e es IH]; intros cb; simpl; [reflexivity|].
  rewrite IH. apply copy_step_length.
Qed.
End DirtyLoopFacts.

Section SharedEffects2.
Context {X : Type}.
Implicit Types (st : D3DApp * App X) (a : App X) (b : D3DApp).

Lemma fences_insert_same a i f (g : FrameResource.t) :
  mFrameResources a !! i = Some f ->
  FrameResource.Fence g = FrameResource.Fence f ->
  map FrameResource.Fence (<[i := g]> (mFrameResources a)) = fences a.
Proof.
  intros Hi Hg. unfold fences.
  change (map FrameResource.Fence) with (fmap (M:=list) FrameResource.Fence).
  rewrite list_fmap_insert, Hg. apply list_insert_id.
  rewrite list_lookup_fmap, Hi. reflexivity.
Qed.

Lemma UpdateObjectCBs_eq b a :
  UpdateObjectCBs (b, a) =
  match mCurrFrameResource a with
  | None => None
  | Some fr =>
      match mFrameResources a !! fr with
      | None => None
      | Some f =>
          Some (tt,
                (b, set_mFrameResources
                      (<[fr := FrameResource.set_ObjectCB
                                 (foldl (copy_step RenderItem.NumFramesDirty item_index
                                           object_constants)
                                        (FrameResource.ObjectCB f) (mAllRitems a)) f]>
                         (mFrameResources a))
                      (set_mAllRitems (map visit_item (mAllRitems a)) a)),
                flat_map (copy_events RenderItem.NumFramesDirty item_index BufObject fr)
                         (mAllRitems a))
      end
  end.
Proof.
  unfold UpdateObjectCBs, CurrFrameResource, set_frame, update_items, bind.
  unfold_prims. simpl.
  destruct (mCurrFrameResource a) as [fr|]; [|reflexivity].
  destruct (mFrameResources a !! fr) as [f|]; [|reflexivity].
  simpl. rewrite update_dirty_eq. simpl. rewrite ?app_nil_r. reflexivity.
Qed.

Lemma UpdateMaterialCBs_eq b a :
  UpdateMaterialCBs (b, a) =
  match mCurrFrameResource a with
  | None => None
  | Some fr =>
      match mFrameResources a !! fr with
      | None => None
      | Some f =>
          Some (tt,
                (b, set_mFrameResources
                      (<[fr := FrameResource.set_MaterialCB
                                 (foldl (copy_step Material.NumFramesDirty
                                           Material.MatCBIndex material_constants)
                                        (FrameResource.MaterialCB f)
                                        (snd <$> map_to_list (mMaterials a))) f]>
                         (mFrameResources a))
                      (set_mMaterials (visit_material <$> mMaterials a) a)),
                flat_map (copy_events Material.NumFramesDirty Material.MatCBIndex
                                      BufMaterial fr)
                         (snd <$> map_to_list (mMaterials a)))
      end
  end.
Proof.
  unfold UpdateMaterialCBs, CurrFrameResource, set_frame, update_materials, bind.
  unfold_prims. simpl.
  destruct (mCurrFrameResource a) as [fr|]; [|reflexivity].
  destruct (mFrameResources a !! fr) as [f|]; [|reflexivity].
  simpl. rewrite update_dirty_eq. simpl. rewrite ?app_nil_r. reflexivity.
Qed.

Lemma UpdateMainPassCB_eq b a :
  UpdateMainPassCB (b, a) =
  match mCurrFrameResource a with
  | None => None
  | Some fr =>
      match mFrameResources a !! fr with
      | None => None
      | Some f => Some (tt, (b, a), [EvCopyData BufPass (Some fr) 0])
      end
  end.
Proof.
  unfold UpdateMainPassCB, CurrFrameResource, bind. unfold_prims. simpl.
  destruct (mCurrFrameResource a) as [fr|]; [|reflexivity].
  destruct (mFrameResources a !! fr) as [f|]; reflexivity.
Qed.

(** The tail of [Draw]: barrier, [Close], [ExecuteCommandLists],
    [Present], the swap, the new fence value and its [Signal]. *)
Lemma DrawTail_eq env b a :
  (CloseAndExecute ;;; PresentAndSignal env) (b, a) =
  match mCurrFrameResource a with
  | None => None
  | Some i =>
      match mFrameResources a !! i with
      | None => None
      | Some f =>
          let v := to_UINT64 (mCurrentFence b + 1) in
          Some (tt,
                (mkD3DApp v
                   (int_rem (to_int (mCurrBackBuffer b + 1)) (SwapChainBufferCount env))
                   (gpu_submit (QSignal v) (gpu_submit (QWork (Some i)) (mGPU b))),
                 set_mFrameResources
                   (<[i := FrameResource.set_Fence v f]> (mFrameResources a)) a),
                [EvCmd (ResourceBarrier "CurrentBackBuffer"); EvClose; EvExecute;
                 EvPresent; EvSignal v])
      end
  end.
Proof.
  unfold CloseAndExecute, PresentAndSignal, PresentAndSwap, Present,
    ExecuteCommandLists, Signal, CurrFrameResource, set_frame, bind.
  unfold_prims. simpl.
  destruct (mCurrFrameResource a) as [i|] eqn:Hc; [|reflexivity].
  destruct (mFrameResources a !! i) as [f|] eqn:Hf; [|reflexivity].
  simpl. rewrite ?Hc, ?Hf. simpl. rewrite ?Hc, ?Hf. reflexivity.
Qed.

Lemma DrawTail_view env st st' t :
  (CloseAndExecute ;;; PresentAndSignal env) st = Some (tt, st', t) ->
  exists v,
    ring_draw env (sview st) = Some (sview st', [EvSignal v]) /\
    t = [EvCmd (ResourceBarrier "CurrentBackBuffer"); EvClose; EvExecute;
         EvPresent; EvSignal v].
Proof.
  destruct st as [b a]. rewrite DrawTail_eq. unfold ring_draw, sview. simpl.
  destruct (mCurrFrameResource a) as [i|] eqn:Hc; [|discriminate].
  rewrite fences_lookup.
  destruct (mFrameResources a !! i) as [f|] eqn:Hf; [|discriminate].
  simpl. intros [= <- <-]. eexists. split; [|reflexivity]. simpl.
  rewrite Hc. do 3 f_equal. unfold fences. simpl.
  change (map FrameResource.Fence) with (fmap (M:=list) FrameResource.Fence).
  rewrite list_fmap_insert. reflexivity.
Qed.
End SharedEffects2.

Section SharedFills.
Context {X : Type}.

Lemma fills_current_UpdateObjectCBs : fills_current (@UpdateObjectCBs X).
Proof.
  intros [b a] u st' t. rewrite UpdateObjectCBs_eq.
  destruct (mCurrFrameResource a) as [fr|] eqn:Hc; [|discriminate].
  destruct (mFrameResources a !! fr) as [f|] eqn:Hf; [|discriminate].
  intros [= <- <- <-]. simpl. rewrite Hc. split; [|apply copy_events_writes].
  unfold sview. simpl. f_equal.
  unfold fences at 1. simpl. apply (fences_insert_same a fr f); auto.
Qed.

Lemma fills_current_UpdateMaterialCBs : fills_current (@UpdateMaterialCBs X).
Proof.
  intros [b a] u st' t. rewrite UpdateMaterialCBs_eq.
  destruct (mCurrFrameResource a) as [fr|] eqn:Hc; [|discriminate].
  destruct (mFrameResources a !! fr) as [f|] eqn:Hf; [|discriminate].
  intros [= <- <- <-]. simpl. rewrite Hc. split; [|apply copy_events_writes].
  unfold sview. simpl. f_equal.
  unfold fences at 1. simpl. apply (fences_insert_same a fr f); auto.
Qed.

Lemma fills_current_UpdateMainPassCB : fills_current (@UpdateMainPassCB X).
Proof.
  intros [b a] u st' t. rewrite UpdateMainPassCB_eq.
  destruct (mCurrFrameResource a) as [fr|] eqn:Hc; [|discriminate].
  destruct (mFrameResources a !! fr) as [f|] eqn:Hf; [|discriminate].
  intros [= <- <- <-]. simpl. rewrite Hc. split; [reflexivity|].
  rewrite bool_decide_eq_true_2; reflexivity.
Qed.
End SharedFills.

#[export] Hint Resolve fills_current_UpdateObjectCBs fills_current_UpdateMaterialCBs
  fills_current_UpdateMainPassCB : method.

(** ** The per-frame methods of the demos and the frame ring *)

Lemma crate_UpdateBuffers_fills `{DirectXMath} gt :
  fills_current (CrateApp.UpdateBuffers gt).
Proof.
  unfold CrateApp.UpdateBuffers, CrateApp.upd_ext. method.
Qed.

Lemma CurrFrameResource_Some {X} (st st1 : D3DApp * App X) cur t1 :
  CurrFrameResource st = Some (cur, st1, t1) ->
  st1 = st /\ t1 = [] /\
  mCurrFrameResource (snd st) = Some (fst cur) /\
  mFrameResources (snd st) !! fst cur = Some (snd cur).
Proof.
  destruct st as [b a]. unfold CurrFrameResource, bind. unfold_prims. simpl.
  destruct (mCurrFrameResource a) as [fr|]; [|discriminate].
  destruct (mFrameResources a !! fr) as [f|] eqn:Hf; [|discriminate].
  intros [= <- <- <-]. auto.
Qed.

Lemma wave_copies_from_writes fr i n :
  forallb (writes_to (Some fr)) (BlendApp.wave_copies_from fr i n) = true.
Proof.
  revert i. induction n as [|n IH]; intros i; simpl; [reflexivity|].
  rewrite IH, bool_decide_eq_true_2; reflexivity.
Qed.

Lemma blend_UpdateWaves_fills gt : fills_current (BlendApp.UpdateWaves gt).
Proof.
  unfold BlendApp.UpdateWaves, BlendApp.upd_ext.
  apply fills_current_bind; [method|]. intros a.
  apply fills_current_bind; [method|]. intros _.
  intros st u st' t (cur & st1 & t1 & t2 & H1 & H2 & ->)%bind_Some.
  apply CurrFrameResource_Some in H1 as (-> & -> & Hc & Hf).
  destruct (BlendApp.mWaves (ext a)) as [w|]; [|discriminate].
  destruct (BlendApp.mWavesRitem (ext a)); [|discriminate].
  injection H2 as _ <- <-. split; [reflexivity|]. simpl. rewrite Hc.
  apply wave_copies_from_writes.
Qed.

#[export] Hint Resolve blend_UpdateWaves_fills : method.

Lemma blend_UpdateBuffers_fills gt : fills_current (BlendApp.UpdateBuffers gt).
Proof.
  unfold BlendApp.UpdateBuffers, BlendApp.AnimateMaterials, BlendApp.set_material,
    BlendApp.upd_ext.
  method.
Qed.

(** [Update] is the step of the ring followed by writes to the frame
    resource the ring has moved to. *)
Lemma Update_view {X} (rest : M (App X) unit) st st' t :
  fills_current rest ->
  (CycleFrameResources ;;; rest) st = Some (tt, st', t) ->
  exists tw t2,
    ring_cycle (sview st) = Some (sview st', tw) /\
    t = tw ++ t2 /\
    forallb (writes_to (sv_cur (sview st'))) t2 = true.
Proof.
  intros Hrest (r & st1 & t1 & t2 & H1 & H2 & ->)%bind_Some.
  destruct st as [b a]. rewrite CycleFrameResources_eq in H1.
  destruct (ring_cycle (sview (b, a))) as [[v tw]|] eqn:Hv; [|discriminate].
  injection H1 as _ <- <-.
  destruct (Hrest _ _ _ _ H2) as [Hs Hw]. simpl in Hw.
  assert (Hfs : fences (set_mCurrFrameResource (sv_cur v)
                          (set_mCurrFrameResourceIndex (sv_index v) a)) = sv_fences v).
  { unfold ring_cycle in Hv. repeat case_match; try discriminate;
      injection Hv as <- _; reflexivity. }
  exists tw, t2. rewrite Hs. repeat split; auto.
  do 2 f_equal. unfold sview; simpl. rewrite Hfs. destruct v; reflexivity.
Qed.

(** [Draw] is command recording followed by the step of the ring. *)
Lemma Draw_view {X} (pre : M (App X) unit) env st st' t :
  preserves sview pre -> calls is_recording pre ->
  (pre ;;; CloseAndExecute ;;; PresentAndSignal env) st = Some (tt, st', t) ->
  exists rec v,
    ring_draw env (sview st) = Some (sview st', [EvSignal v]) /\
    forallb is_recording rec = true /\
    t = rec ++ [EvCmd (ResourceBarrier "CurrentBackBuffer"); EvClose; EvExecute;
                EvPresent; EvSignal v].
Proof.
  intros Hp Hc (u & st1 & t1 & t2 & H1 & H2 & ->)%bind_Some.
  apply DrawTail_view in H2 as (v & Hv & ->).
  exists t1, v. rewrite <- (Hp _ _ _ _ H1). eauto.
Qed.

Lemma crate_RecordScene_readonly `{DirectXMath} env : readonly (CrateApp.RecordScene env).
Proof. unfold CrateApp.RecordScene, CrateApp.DrawOpaqueItem. method. Qed.

Lemma crate_RecordScene_calls `{DirectXMath} env :
  calls is_recording (CrateApp.RecordScene env).
Proof.
  unfold CrateApp.RecordScene, CrateApp.DrawOpaqueItem, BeginDraw. method.
  all: apply calls_DrawRenderItem; reflexivity.
Qed.

Lemma blend_RecordScene_sview env : preserves sview (BlendApp.RecordScene env).
Proof.
  unfold BlendApp.RecordScene, BlendApp.DrawLayer, BlendApp.DrawOverdrawQuad,
    BlendApp.GetPsoForSceneRendering, BlendApp.CreateResourcesForPixelOverdrawMode,
    BlendApp.BuildPSOsForSceneRendering, CreateDefaultBuffer, BlendApp.upd_ext.
  method.
Qed.

Lemma blend_RecordScene_calls env : calls is_recording (BlendApp.RecordScene env).
Proof.
  unfold BlendApp.RecordScene, BlendApp.DrawLayer, BlendApp.DrawOverdrawQuad,
    BlendApp.GetPsoForSceneRendering, BlendApp.CreateResourcesForPixelOverdrawMode,
    BlendApp.BuildPSOsForSceneRendering, CreateDefaultBuffer, BlendApp.upd_ext,
    BeginDraw.
  method.
  all: apply calls_DrawRenderItems; reflexivity.
Qed.

Lemma filter_no_fence t :
  forallb no_fence_event t = true -> List.filter is_fence_event t = [].
Proof.
  induction t as [|e t IH]; simpl; [reflexivity|].
  unfold no_fence_event at 1. intros [He Ht]%andb_true_iff.
  apply negb_true_iff in He. rewrite He. auto.
Qed.

Lemma forallb_weaken {A} (P Q : A -> bool) l :
  (forall x, P x = true -> Q x = true) -> forallb P l = true -> forallb Q l = true.
Proof. intros H. rewrite !forallb_forall. auto. Qed.

Lemma GpuProgress_eq {S} (b : D3DApp) (s : S) :
  GpuProgress (b, s) = Some (tt, (set_mGPU (gpu_step (mGPU b)) b, s), []).
Proof. reflexivity. Qed.

Lemma ring_cycle_trace v v' tw :
  ring_cycle v = Some (v', tw) -> List.filter is_fence_event tw = tw.
Proof.
  unfold ring_cycle. intros H.
  repeat case_match; try discriminate; injection H as _ <-; reflexivity.
Qed.

Lemma update_refines {X} (rest : M (App X) unit) st st' t :
  fills_current rest ->
  (CycleFrameResources ;;; rest) st = Some (tt, st', t) ->
  exists tv, ring_cycle (sview st) = Some (sview st', tv) /\
             List.filter is_fence_event t = tv.
Proof.
  intros Hrest H. destruct (Update_view _ _ _ _ Hrest H) as (tw & t2 & Hv & -> & Hw).
  exists tw. split; [exact Hv|].
  rewrite List.filter_app, (filter_no_fence t2), app_nil_r.
  - eapply ring_cycle_trace; eauto.
  - eapply forallb_weaken; [|exact Hw]. intros [] He; try discriminate; reflexivity.
Qed.

Lemma draw_refines {X} (pre : M (App X) unit) env st st' t :
  preserves sview pre -> calls is_recording pre ->
  (pre ;;; CloseAndExecute ;;; PresentAndSignal env) st = Some (tt, st', t) ->
  exists tv, ring_draw env (sview st) = Some (sview st', tv) /\
             List.filter is_fence_event t = tv.
Proof.
  intros Hp Hc H. destruct (Draw_view _ _ _ _ _ Hp Hc H) as (rec & v & Hv & Hrec & ->).
  exists [EvSignal v]. split; [exact Hv|].
  rewrite List.filter_app, (filter_no_fence rec); [reflexivity|].
  eapply forallb_weaken; [|exact Hrec]. intros [] He; try discriminate; reflexivity.
Qed.

Lemma quiet_refines {X} (m : M (App X) unit) st st' t :
  preserves sview m -> calls no_fence_event m ->
  m st = Some (tt, st', t) ->
  exists tv, Some (sview st, @nil Event) = Some (sview st', tv) /\
             List.filter is_fence_event t = tv.
Proof.
  intros Hp Hc H. exists []. rewrite (Hp _ _ _ _ H).
  split; [reflexivity|]. apply filter_no_fence. eapply Hc; eauto.
Qed.

Lemma crate_refines `{DirectXMath} env : refines_ring env (crate_step env).
Proof.
  intros [gt|gt|x y|btn x y|w|] st st' t; simpl.
  - apply update_refines, crate_UpdateBuffers_fills.
  - apply draw_refines; [apply readonly_preserves, crate_RecordScene_readonly
                        | apply crate_RecordScene_calls].
  - apply quiet_refines; method.
  - apply quiet_refines; unfold CrateApp.OnMouseMove; method.
  - apply quiet_refines;
      unfold CrateApp.OnKeyDown, CrateApp.ScaleTexTransform, CrateApp.ChangeSamplerFilter,
        CrateApp.ChangeSamplerAddressMode, CrateApp.MarkSamplerDirty, CrateApp.upd_ext;
      method.
  - destruct st as [b a]. rewrite GpuProgress_eq. intros [= <- <-].
    exists []. split; reflexivity.
Qed.

Lemma blend_refines env : refines_ring env (blend_step env).
Proof.
  intros [gt|gt|x y|btn x y|w|] st st' t; simpl.
  - apply update_refines, blend_UpdateBuffers_fills.
  - apply draw_refines; [apply blend_RecordScene_sview | apply blend_RecordScene_calls].
  - apply quiet_refines; method.
  - apply quiet_refines; unfold BlendApp.OnMouseMove; method.
  - apply quiet_refines;
      unfold BlendApp.OnKeyDown, BlendApp.ChangeRenderMode, BlendApp.upd_ext; method.
  - destruct st as [b a]. rewrite GpuProgress_eq. intros [= <- <-].
    exists []. split; reflexivity.
Qed.

Lemma run_refines {X} env (step : Action -> M (App X) unit) acts st st' t :
  refines_ring env step ->
  run step acts st = Some (tt, st', t) ->
  exists tv,
    ring_run env acts (sview st) = Some (sview st', tv) /\
    List.filter is_fence_event t = tv.
Proof.
  intros Hstep. revert st t. induction acts as [|act acts IH]; intros st t; simpl.
  - intros [= <- <-]. exists []. split; reflexivity.
  - intros ([] & st1 & t1 & t2 & H1 & H2 & ->)%bind_Some.
    destruct (Hstep _ _ _ _ H1) as (tv1 & -> & <-).
    destruct (IH _ _ H2) as (tv2 & -> & <-).
    eexists. split; [reflexivity|]. apply List.filter_app.
Qed.

(** ** After [Initialize] *)

Lemma crate_BuildAll_eq env b mouse :
  exists t, CrateApp.BuildAll env (b, CrateApp.construct mouse)
            = Some (tt, (b, crate_built env mouse), t).
Proof. eexists. vm_compute. reflexivity. Qed.

Lemma blend_BuildAll_eq env b mouse :
  exists t, BlendApp.BuildAll env (b, BlendApp.construct mouse)
            = Some (tt, (b, blend_built env mouse), t).
Proof. eexists. vm_compute. reflexivity. Qed.

Lemma to_UINT64_small z : 0 <= z < 2 ^ 64 -> to_UINT64 z = z.
Proof. intros H. unfold to_UINT64. apply Z.mod_small. exact H. Qed.

(** Closing the list, executing it and flushing an idle queue. *)
Lemma submit_and_flush {S} (b : D3DApp) (s : S) :
  idle b -> mCurrentFence b + 1 < 2 ^ 64 ->
  (emit EvClose ;;; ExecuteCommandLists None ;;; FlushCommandQueue) (b, s) =
  Some (tt,
        (mkD3DApp (mCurrentFence b + 1) (mCurrBackBuffer b)
                  (mkGPU (mCurrentFence b + 1) []), s),
        [EvClose; EvExecute; EvSignal (mCurrentFence b + 1);
         EvWait (mCurrentFence b + 1)]).
Proof.
  destruct b as [cf bb [c q]]. unfold idle. simpl. intros (-> & -> & Hcf) Hnw.
  unfold FlushCommandQueue, ExecuteCommandLists, Signal, WaitForFence, bind.
  unfold_prims. simpl. rewrite to_UINT64_small by lia.
  unfold gpu_wait. simpl.
  destruct (Z.ltb_spec cf (cf + 1)); [|lia]. simpl.
  destruct (Z.leb_spec (cf + 1) cf); [lia|].
  destruct (Z.leb_spec (cf + 1) (cf + 1)); [|lia]. reflexivity.
Qed.

Lemma crate_Initialize_eq env b mouse :
  idle b -> mCurrentFence b + 1 < 2 ^ 64 ->
  exists t,
    CrateApp.Initialize env (b, CrateApp.construct mouse) =
    Some (tt, (mkD3DApp (mCurrentFence b + 1) (mCurrBackBuffer b)
                        (mkGPU (mCurrentFence b + 1) []),
               crate_built env mouse), t) /\
    signals t = [mCurrentFence b + 1].
Proof.
  intros Hb Hnw. destruct (crate_BuildAll_eq env b mouse) as [t1 H1].
  unfold CrateApp.Initialize. eexists. split.
  - unfold bind at 1. unfold emit at 1. unfold bind at 1. rewrite H1.
    rewrite (submit_and_flush b _ Hb Hnw). reflexivity.
  - revert H1. vm_compute. intros [= <-]. reflexivity.
Qed.

Lemma blend_Initialize_eq env b mouse :
  idle b -> mCurrentFence b + 1 < 2 ^ 64 ->
  exists t,
    BlendApp.Initialize env (b, BlendApp.construct mouse) =
    Some (tt, (mkD3DApp (mCurrentFence b + 1) (mCurrBackBuffer b)
                        (mkGPU (mCurrentFence b + 1) []),
               blend_built env mouse), t) /\
    signals t = [mCurrentFence b + 1].
Proof.
  intros Hb Hnw. destruct (blend_BuildAll_eq env b mouse) as [t1 H1].
  unfold BlendApp.Initialize. eexists. split.
  - unfold bind at 1. unfold emit at 1. unfold bind at 1. rewrite H1.
    rewrite (submit_and_flush b _ Hb Hnw). reflexivity.
  - revert H1. vm_compute. intros [= <-]. reflexivity.
Qed.

(** A state right after [Initialize]: three frame resources that were
    never used, and an idle queue. *)
Lemma SyncOK_initial {X} (a : App X) cf bb :
  0 <= cf < 2 ^ 64 ->
  fences a = [0; 0; 0] -> mCurrFrameResourceIndex a = 0 ->
  SyncOK (sview (mkD3DApp cf bb (mkGPU cf []), a)).
Proof.
  intros Hcf Hf Hi. unfold SyncOK, sview. simpl. rewrite Hf, Hi. simpl.
  repeat split; try lia.
  repeat constructor; lia.
Qed.

(** ** Runs of the frame ring *)

Lemma count_updates_cons act acts :
  count_updates (act :: acts) =
  (if is_update act then 1 else 0) + count_updates acts.
Proof.
  unfold count_updates. simpl. destruct (is_update act); simpl; lia.
Qed.

Lemma count_draws_cons act acts :
  count_draws (act :: acts) = (if is_draw act then 1 else 0) + count_draws acts.
Proof.
  unfold count_draws. simpl. destruct (is_draw act); simpl; lia.
Qed.

Lemma count_draws_nonneg acts : 0 <= count_draws acts.
Proof. unfold count_draws. lia. Qed.

Lemma count_updates_nonneg acts : 0 <= count_updates acts.
Proof. unfold count_updates. lia. Qed.

Lemma signals_app t1 t2 : signals (t1 ++ t2) = signals t1 ++ signals t2.
Proof. unfold signals. apply omap_app. Qed.

Lemma waits_app t1 t2 : waits (t1 ++ t2) = waits t1 ++ waits t2.
Proof. unfold waits. apply omap_app. Qed.

Lemma signals_filter t : signals (List.filter is_fence_event t) = signals t.
Proof.
  induction t as [|[] t IH]; simpl; auto. unfold signals in *. simpl. congruence.
Qed.

Lemma waits_filter t : waits (List.filter is_fence_event t) = waits t.
Proof.
  induction t as [|[] t IH]; simpl; auto. unfold waits in *. simpl. congruence.
Qed.

Lemma fence_values_increasing c n :
  StronglySorted Z.lt (fence_values c n) /\ Forall (fun v => c < v) (fence_values c n).
Proof.
  revert c. induction n as [|n IH]; intros c; simpl.
  - split; constructor.
  - destruct (IH (c + 1)) as [Hs Hf]. split.
    + constructor; [exact Hs | exact Hf].
    + constructor; [lia|]. eapply Forall_impl; [exact Hf|]. simpl. intros; lia.
Qed.

Lemma fence_values_length c n : length (fence_values c n) = n.
Proof. revert c. induction n; intros; simpl; auto. Qed.

Lemma fences_grow_refl fs : fences_grow fs fs.
Proof. intros i f H. exists f. split; [auto | lia]. Qed.

Lemma fences_grow_trans fs1 fs2 fs3 :
  fences_grow fs1 fs2 -> fences_grow fs2 fs3 -> fences_grow fs1 fs3.
Proof.
  intros H1 H2 i f Hf. destruct (H1 _ _ Hf) as (f' & Hf' & ?).
  destruct (H2 _ _ Hf') as (f'' & ? & ?). exists f''. split; [auto | lia].
Qed.

Lemma ring_run_ok env acts v v' tv :
  SyncOK v ->
  mCurrentFence (sv_base v) + count_draws acts < 2 ^ 64 ->
  ring_run env acts v = Some (v', tv) ->
  SyncOK v' /\
  mCurrentFence (sv_base v') = mCurrentFence (sv_base v) + count_draws acts /\
  sv_index v' = (sv_index v + count_updates acts) mod 3 /\
  signals tv = fence_values (mCurrentFence (sv_base v)) (Z.to_nat (count_draws acts)) /\
  fences_grow (sv_fences v) (sv_fences v').
Proof.
  revert v tv. induction acts as [|act acts IH]; intros v tv Hok Hnw; simpl.
  - intros [= <- <-]. unfold count_draws, count_updates. simpl.
    refine (conj Hok (conj _ (conj _ (conj eq_refl (fences_grow_refl _))))).
    + lia.
    + destruct Hok as (? & Hidx & ?). rewrite Z.add_0_r, Z.mod_small; lia.
  - rewrite count_draws_cons in Hnw. pose proof (count_draws_nonneg acts) as Hn.
    destruct (ring_step env act v) as [[v1 t1]|] eqn:Hstep; [|discriminate].
    destruct (ring_run env acts v1) as [[v2 t2]|] eqn:Hrun; [|discriminate].
    intros [= <- <-].
    rewrite count_draws_cons, count_updates_cons, signals_app.
    assert (Hcase :
      SyncOK v1 /\
      mCurrentFence (sv_base v1)
        = mCurrentFence (sv_base v) + (if is_draw act then 1 else 0) /\
      sv_index v1 = (sv_index v + (if is_update act then 1 else 0)) mod 3 /\
      signals t1 = fence_values (mCurrentFence (sv_base v))
                     (if is_draw act then 1%nat else 0%nat) /\
      fences_grow (sv_fences v) (sv_fences v1)).
    { assert (Hidx : sv_index v = (sv_index v + 0) mod 3).
      { destruct Hok as (? & Hidx & ?). rewrite Z.add_0_r, Z.mod_small; lia. }
      destruct act as [gt|gt|x y|btn x y|w|]; simpl in Hstep |- *.
      - destruct (ring_cycle_ok v Hok)
          as (v1' & t1' & Hc & Hok1 & Hi & _ & Hfs & Hcf & _ & _ & fence & _ & Ht).
        rewrite Hc in Hstep. injection Hstep as <- <-.
        refine (conj Hok1 (conj _ (conj Hi (conj _ _)))).
        + lia.
        + subst t1'. destruct (must_wait _ _); reflexivity.
        + rewrite Hfs. apply fences_grow_refl.
      - destruct (ring_draw_ok env v v1 t1 Hok ltac:(simpl in Hnw; lia) Hstep)
          as (Hok1 & Hcf & -> & Hi & _ & i & _ & Hfs & _).
        refine (conj Hok1 (conj Hcf (conj _ (conj eq_refl _)))).
        + rewrite Hi. exact Hidx.
        + rewrite Hfs. intros j f Hj. destruct (decide (i = j)) as [->|Hne].
          * exists (mCurrentFence (sv_base v) + 1). split.
            -- apply list_lookup_insert_eq. eapply lookup_lt_Some; eauto.
            -- destruct Hok as (_ & _ & _ & _ & _ & _ & HF).
               pose proof (Forall_fences_lookup _ _ _ _ HF Hj) as Hb.
               simpl in Hb. lia.
          * exists f. rewrite list_lookup_insert_ne by auto. split; [auto | lia].
      - injection Hstep as <- <-.
        refine (conj Hok (conj _ (conj Hidx (conj eq_refl (fences_grow_refl _))))). lia.
      - injection Hstep as <- <-.
        refine (conj Hok (conj _ (conj Hidx (conj eq_refl (fences_grow_refl _))))). lia.
      - injection Hstep as <- <-.
        refine (conj Hok (conj _ (conj Hidx (conj eq_refl (fences_grow_refl _))))). lia.
      - injection Hstep as <- <-.
        refine (conj (ring_gpu_ok _ Hok)
                  (conj _ (conj Hidx (conj eq_refl (fences_grow_refl _))))).
        simpl. lia. }
    destruct Hcase as (Hok1 & Hcf1 & Hi1 & Hs1 & Hg1).
    destruct (IH v1 t2 Hok1 ltac:(lia) Hrun) as (Hok2 & Hcf2 & Hi2 & Hs2 & Hg2).
    refine (conj Hok2 (conj _ (conj _ (conj _ _)))).
    + lia.
    + rewrite Hi2, Hi1, Zplus_mod_idemp_l. f_equal. lia.
    + rewrite Hs1, Hs2, Hcf1.
      destruct (is_draw act); simpl.
      * replace (Z.to_nat (1 + count_draws acts)) with (S (Z.to_nat (count_draws acts)))
          by lia.
        reflexivity.
      * rewrite Z.add_0_r. reflexivity.
    + eapply fences_grow_trans; eauto.
Qed.

Lemma ring_step_index env act v v' tv :
  0 <= sv_index v < 3 ->
  ring_step env act v = Some (v', tv) ->
  sv_index v' = (sv_index v + (if is_update act then 1 else 0)) mod 3.
Proof.
  intros Hidx.
  assert (H0 : sv_index v = (sv_index v + 0) mod 3)
    by (rewrite Z.add_0_r, Z.mod_small; lia).
  destruct act; simpl.
  - unfold ring_cycle. rewrite (next_index_mod _ Hidx).
    intros Hc. repeat case_match; try discriminate; injection Hc as <- _; reflexivity.
  - unfold ring_draw. intros Hd.
    repeat case_match; try discriminate; injection Hd as <- _; exact H0.
  - intros [= <- _]. exact H0.
  - intros [= <- _]. exact H0.
  - intros [= <- _]. exact H0.
  - intros [= <- _]. exact H0.
Qed.

Lemma ring_run_index env acts v v' tv :
  0 <= sv_index v < 3 ->
  ring_run env acts v = Some (v', tv) ->
  sv_index v' = (sv_index v + count_updates acts) mod 3.
Proof.
  revert v tv. induction acts as [|act acts IH]; intros v tv Hidx; simpl.
  - intros [= <- _]. unfold count_updates. simpl. rewrite Z.add_0_r, Z.mod_small; lia.
  - destruct (ring_step env act v) as [[v1 t1]|] eqn:Hstep; [|discriminate].
    destruct (ring_run env acts v1) as [[v2 t2]|] eqn:Hrun; [|discriminate].
    intros [= <- _]. pose proof (ring_step_index _ _ _ _ _ Hidx Hstep) as H1.
    rewrite (IH v1 t2), H1, count_updates_cons, Zplus_mod_idemp_l; auto.
    + f_equal. lia.
    + rewrite H1. apply Z.mod_pos_bound. lia.
Qed.

Lemma run_index {X} env (step : Action -> M (App X) unit) acts st st' t :
  refines_ring env step ->
  0 <= mCurrFrameResourceIndex (snd st) < gNumFrameResources ->
  run step acts st = Some (tt, st', t) ->
  mCurrFrameResourceIndex (snd st')
    = (mCurrFrameResourceIndex (snd st) + count_updates acts) mod gNumFrameResources /\
  0 <= mCurrFrameResourceIndex (snd st') < gNumFrameResources /\
  (mCurrFrameResourceIndex (snd st') = mCurrFrameResourceIndex (snd st)
   <-> count_updates acts mod gNumFrameResources = 0).
Proof.
  intros Href Hidx Hrun. unfold gNumFrameResources in *.
  destruct (run_refines _ _ _ _ _ _ Href Hrun) as (tv & Hv & _).
  apply ring_run_index in Hv; [|exact Hidx]. simpl in Hv.
  pose proof (count_updates_nonneg acts) as Hn.
  split; [exact Hv|]. split; [rewrite Hv; apply Z.mod_pos_bound; lia|].
  rewrite Hv. set (i := mCurrFrameResourceIndex (snd st)) in *.
  set (n := count_updates acts) in *.
  rewrite Zplus_mod.
  rewrite (Z.mod_small i 3) by lia.
  pose proof (Z.mod_pos_bound n 3 ltac:(lia)) as Hm.
  assert (i = 0 \/ i = 1 \/ i = 2) as [->|[->| ->]] by lia;
  assert (n mod 3 = 0 \/ n mod 3 = 1 \/ n mod 3 = 2) as [->|[->| ->]] by lia;
  simpl; split; intros; try discriminate; try reflexivity; try lia.
Qed.

Lemma run_single {S} (step : Action -> M S unit) act st :
  run step [act] st = step act st.
Proof.
  simpl. unfold bind, ret. destruct (step act st) as [[[[] st1] t1]|]; [|reflexivity].
  rewrite app_nil_r. reflexivity.
Qed.

(** ** C2: the ring of three frame resources *)

Lemma ring_step_current env act v v' tv :
  0 <= sv_index v < 3 ->
  is_update act = true \/
  (sv_cur v = Some (Z.to_nat (sv_index v)) /\
   is_Some (sv_fences v !! Z.to_nat (sv_index v))) ->
  ring_step env act v = Some (v', tv) ->
  sv_cur v' = Some (Z.to_nat (sv_index v')) /\
  is_Some (sv_fences v' !! Z.to_nat (sv_index v')).
Proof.
  intros Hidx Hc. destruct act as [gt|gt|x y|btn x y|w|]; simpl.
  - unfold ring_cycle. rewrite (next_index_mod _ Hidx).
    destruct (decide _); [|discriminate].
    destruct (sv_fences v !! Z.to_nat ((sv_index v + 1) mod 3)) as [f|] eqn:Hf;
      [|discriminate].
    destruct (must_wait _ _); [destruct (gpu_wait _ _); [|discriminate]|];
      intros [= <- _]; simpl; rewrite Hf; eauto.
  - destruct Hc as [Hc|[Hc Hl]]; [discriminate Hc|].
    unfold ring_draw. rewrite Hc. destruct Hl as [f Hf]. rewrite Hf.
    intros [= <- _]. simpl. split; [reflexivity|].
    apply lookup_lt_is_Some. rewrite length_insert.
    eapply lookup_lt_Some. exact Hf.
  - destruct Hc as [Hc|Hc]; [discriminate Hc|]. intros [= <- _]. exact Hc.
  - destruct Hc as [Hc|Hc]; [discriminate Hc|]. intros [= <- _]. exact Hc.
  - destruct Hc as [Hc|Hc]; [discriminate Hc|]. intros [= <- _]. exact Hc.
  - destruct Hc as [Hc|Hc]; [discriminate Hc|]. intros [= <- _]. exact Hc.
Qed.

Lemma ring_run_current env acts v v' tv :
  0 <= sv_index v < 3 ->
  sv_cur v = Some (Z.to_nat (sv_index v)) /\
  is_Some (sv_fences v !! Z.to_nat (sv_index v)) ->
  ring_run env acts v = Some (v', tv) ->
  sv_cur v' = Some (Z.to_nat (sv_index v')) /\
  is_Some (sv_fences v' !! Z.to_nat (sv_index v')).
Proof.
  revert v tv. induction acts as [|act acts IH]; intros v tv Hidx Hc; simpl.
  - intros [= <- _]. exact Hc.
  - destruct (ring_step env act v) as [[v1 t1]|] eqn:Hstep; [|discriminate].
    destruct (ring_run env acts v1) as [[v2 t2]|] eqn:Hrun; [|discriminate].
    intros [= <- _]. apply (IH v1 t2); [| |exact Hrun].
    + rewrite (ring_step_index _ _ _ _ _ Hidx Hstep). apply Z.mod_pos_bound. lia.
    + apply (ring_step_current env act v v1 t1 Hidx); [right; exact Hc | exact Hstep].
Qed.

Lemma points_at_index_view {X} (st : D3DApp * App X) :
  points_at_index st <->
  sv_cur (sview st) = Some (Z.to_nat (sv_index (sview st))) /\
  is_Some (sv_fences (sview st) !! Z.to_nat (sv_index (sview st))).
Proof.
  unfold points_at_index. simpl. rewrite fences_lookup, fmap_is_Some. reflexivity.
Qed.

(** [Update] sets the pointer to the frame resource at the new index. *)
Lemma update_points_at_index {X} env (step : Action -> M (App X) unit) gt st st' t :
  refines_ring env step ->
  0 <= mCurrFrameResourceIndex (snd st) < gNumFrameResources ->
  step (AUpdate gt) st = Some (tt, st', t) ->
  points_at_index st'.
Proof.
  intros Href Hidx Hs. destruct (Href _ _ _ _ Hs) as (tv & Hv & _).
  apply points_at_index_view.
  apply (ring_step_current env (AUpdate gt) (sview st) _ tv Hidx);
    [left; reflexivity | exact Hv].
Qed.

(** Over a run the pointer follows the index, and is back at a frame
    resource exactly when the index is. *)
Lemma run_points_at_index {X} env (step : Action -> M (App X) unit) acts st st' t :
  refines_ring env step ->
  0 <= mCurrFrameResourceIndex (snd st) < gNumFrameResources ->
  points_at_index st ->
  run step acts st = Some (tt, st', t) ->
  points_at_index st' /\
  (mCurrFrameResource (snd st') = mCurrFrameResource (snd st)
   <-> count_updates acts mod gNumFrameResources = 0).
Proof.
  intros Href Hidx Hp Hrun.
  destruct (run_index env step acts st st' t Href Hidx Hrun) as (_ & Hidx' & Hiff).
  destruct (run_refines _ _ _ _ _ _ Href Hrun) as (tv & Hv & _).
  assert (Hp' : points_at_index st').
  { apply points_at_index_view.
    apply (ring_run_current env acts (sview st) _ tv Hidx); [|exact Hv].
    apply points_at_index_view, Hp. }
  split; [exact Hp'|].
  rewrite (proj1 Hp'), (proj1 Hp), <- Hiff. unfold gNumFrameResources in *.
  split.
  - intros [= H]. apply Z2Nat.inj in H; lia.
  - intros ->. reflexivity.
Qed.

(** C2.  The per-frame loop of CrateApp and BlendApp cycles through a ring
    of exactly [gNumFrameResources = 3] frame resources.  [Initialize]
    builds three of them and leaves the index at 0; every [Update] moves
    [mCurrFrameResourceIndex] to [(mCurrFrameResourceIndex + 1) mod 3]
    and sets the pointer [mCurrFrameResource] to the frame resource at
    that index, which exists; so after any run the index is the start
    index plus the number of Updates, modulo 3, it stays in [[0, 3)],
    the pointer is at the frame resource the index names, and index and
    pointer are back at a frame resource exactly when the number of
    Updates in between is a multiple of 3: each frame resource is used
    again every third frame and not before. *)
Theorem C2_frame_ring_cycles `{DirectXMath} (env : Env) :
  gNumFrameResources = 3 /\
  (forall mouse,
     length (mFrameResources (crate_built env mouse)) = 3%nat /\
     mCurrFrameResourceIndex (crate_built env mouse) = 0 /\
     length (mFrameResources (blend_built env mouse)) = 3%nat /\
     mCurrFrameResourceIndex (blend_built env mouse) = 0) /\
  (forall gt st st' t,
     0 <= mCurrFrameResourceIndex (snd st) < gNumFrameResources ->
     CrateApp.Update gt st = Some (tt, st', t) ->
     mCurrFrameResourceIndex (snd st')
       = (mCurrFrameResourceIndex (snd st) + 1) mod gNumFrameResources) /\
  (forall gt st st' t,
     0 <= mCurrFrameResourceIndex (snd st) < gNumFrameResources ->
     BlendApp.Update gt st = Some (tt, st', t) ->
     mCurrFrameResourceIndex (snd st')
       = (mCurrFrameResourceIndex (snd st) + 1) mod gNumFrameResources) /\
  (forall acts st st' t,
     0 <= mCurrFrameResourceIndex (snd st) < gNumFrameResources ->
     run (crate_step env) acts st = Some (tt, st', t) ->
     mCurrFrameResourceIndex (snd st')
       = (mCurrFrameResourceIndex (snd st) + count_updates acts) mod gNumFrameResources /\
     0 <= mCurrFrameResourceIndex (snd st') < gNumFrameResources /\
     (mCurrFrameResourceIndex (snd st') = mCurrFrameResourceIndex (snd st)
      <-> count_updates acts mod gNumFrameResources = 0)) /\
  (forall acts st st' t,
     0 <= mCurrFrameResourceIndex (snd st) < gNumFrameResources ->
     run (blend_step env) acts st = Some (tt, st', t) ->
     mCurrFrameResourceIndex (snd st')
       = (mCurrFrameResourceIndex (snd st) + count_updates acts) mod gNumFrameResources /\
     0 <= mCurrFrameResourceIndex (snd st') < gNumFrameResources /\
     (mCurrFrameResourceIndex (snd st') = mCurrFrameResourceIndex (snd st)
      <-> count_updates acts mod gNumFrameResources = 0)) /\
  (forall gt st st' t,
     0 <= mCurrFrameResourceIndex (snd st) < gNumFrameResources ->
     CrateApp.Update gt st = Some (tt, st', t) ->
     points_at_index st') /\
  (forall gt st st' t,
     0 <= mCurrFrameResourceIndex (snd st) < gNumFrameResources ->
     BlendApp.Update gt st = Some (tt, st', t) ->
     points_at_index st') /\
  (forall acts st st' t,
     0 <= mCurrFrameResourceIndex (snd st) < gNumFrameResources ->
     points_at_index st ->
     run (crate_step env) acts st = Some (tt, st', t) ->
     points_at_index st' /\
     (mCurrFrameResource (snd st') = mCurrFrameResource (snd st)
      <-> count_updates acts mod gNumFrameResources = 0)) /\
  (forall acts st st' t,
     0 <= mCurrFrameResourceIndex (snd st) < gNumFrameResources ->
     points_at_index st ->
     run (blend_step env) acts st = Some (tt, st', t) ->
     points_at_index st' /\
     (mCurrFrameResource (snd st') = mCurrFrameResource (snd st)
      <-> count_updates acts mod gNumFrameResources = 0)).
Proof.
  split; [reflexivity|]. split; [intros mouse; vm_compute; auto|].
  split; [|split; [|split; [|split; [|split; [|split; [|split]]]]]].
  - intros gt st st' t Hidx Hu.
    change (crate_step env (AUpdate gt) st = Some (tt, st', t)) in Hu.
    rewrite <- run_single in Hu.
    apply (run_index env _ _ _ _ _ (crate_refines env) Hidx) in Hu.
    destruct Hu as [Hu _]. exact Hu.
  - intros gt st st' t Hidx Hu.
    change (blend_step env (AUpdate gt) st = Some (tt, st', t)) in Hu.
    rewrite <- run_single in Hu.
    apply (run_index env _ _ _ _ _ (blend_refines env) Hidx) in Hu.
    destruct Hu as [Hu _]. exact Hu.
  - intros acts st st' t. apply (run_index env), crate_refines.
  - intros acts st st' t. apply (run_index env), blend_refines.
  - intros gt st st' t Hidx Hu.
    exact (update_points_at_index env (crate_step env) gt st st' t
             (crate_refines env) Hidx Hu).
  - intros gt st st' t Hidx Hu.
    exact (update_points_at_index env (blend_step env) gt st st' t
             (blend_refines env) Hidx Hu).
  - intros acts st st' t. apply (run_points_at_index env), crate_refines.
  - intros acts st st' t. apply (run_points_at_index env), blend_refines.
Qed.

(** ** C3 and C1: the fence counter and the wait at the head of Update *)

Lemma run_sync {X} env (step : Action -> M (App X) unit) acts st st' t :
  refines_ring env step ->
  SyncOK (sview st) ->
  mCurrentFence (fst st) + count_draws acts < 2 ^ 64 ->
  run step acts st = Some (tt, st', t) ->
  SyncOK (sview st') /\
  mCurrentFence (fst st') = mCurrentFence (fst st) + count_draws acts /\
  signals t = fence_values (mCurrentFence (fst st)) (Z.to_nat (count_draws acts)) /\
  StronglySorted Z.lt (signals t) /\
  fences_grow (fences (snd st)) (fences (snd st')).
Proof.
  intros Href Hok Hnw Hrun.
  destruct (run_refines _ _ _ _ _ _ Href Hrun) as (tv & Hv & Ht).
  destruct (ring_run_ok _ _ _ _ _ Hok Hnw Hv) as (Hok' & Hcf & _ & Hs & Hg).
  rewrite <- Ht, signals_filter in Hs.
  refine (conj Hok' (conj Hcf (conj Hs (conj _ Hg)))).
  rewrite Hs. apply fence_values_increasing.
Qed.

Lemma draw_fence {X} (pre : M (App X) unit) env st st' t :
  preserves sview pre -> calls is_recording pre ->
  0 <= mCurrentFence (fst st) -> mCurrentFence (fst st) + 1 < 2 ^ 64 ->
  (pre ;;; CloseAndExecute ;;; PresentAndSignal env) st = Some (tt, st', t) ->
  draw_advances_fence st st' t.
Proof.
  intros Hp Hc H0 Hnw H.
  destruct (Draw_view _ _ _ _ _ Hp Hc H) as (rec & v & Hv & Hrec & ->).
  unfold ring_draw in Hv.
  destruct (sv_cur (sview st)) as [i|] eqn:Hcur; [|discriminate].
  destruct (sv_fences (sview st) !! i) as [f0|] eqn:Hf0; [|discriminate].
  change (sv_base (sview st)) with (fst st) in Hv.
  rewrite to_UINT64_small in Hv by lia.
  injection Hv as Hb Hfs _ Hc' <-.
  unfold draw_advances_fence. rewrite <- Hb, <- Hc'. simpl.
  split; [reflexivity|]. split; [|split].
  - assert (Hl : fences (snd st') !! i = Some (mCurrentFence (fst st) + 1)).
    { rewrite <- Hfs. apply list_lookup_insert_eq. eapply lookup_lt_Some; eauto. }
    rewrite fences_lookup in Hl.
    destruct (mFrameResources (snd st') !! i) as [f|] eqn:Hfr; [|discriminate].
    injection Hl as Hl. exists i, f. auto.
  - rewrite signals_app.
    assert (Hr : signals rec = []).
    { clear -Hrec. induction rec as [|[] rec IH]; simpl in *;
        try discriminate; auto. }
    rewrite Hr. reflexivity.
  - unfold gpu_submit. simpl. apply last_snoc.
Qed.

Lemma update_blocks_iff_busy {X} (rest : M (App X) unit) st st' tu :
  fills_current rest ->
  SyncOK (sview st) ->
  (CycleFrameResources ;;; rest) st = Some (tt, st', tu) ->
  update_waits_then_writes st st' tu.
Proof.
  intros Hrest Hok H.
  pose proof H as H0.
  apply bind_Some in H0 as (r & s1 & t1 & tc & H1 & H2 & Htu).
  destruct (Update_view _ _ _ _ Hrest H) as (tw & t2 & Hv & -> & Hw).
  destruct (ring_cycle_ok _ Hok)
    as (v' & t' & Hc & Hok' & Hi & Hcur & Hfs & _ & _ & Hnr & fence & Hf & Ht).
  rewrite Hv in Hc. injection Hc as <- <-.
  simpl in Hi, Hcur, Hnr, Hf.
  assert (Hpos : 0 <= (mCurrFrameResourceIndex (snd st) + 1) mod 3)
    by (apply Z.mod_pos_bound; lia).
  assert (H1' : t1 = tw /\ fst s1 = fst st').
  { destruct st as [b a]. rewrite CycleFrameResources_eq, Hv in H1.
    injection H1 as _ <- <-. auto. }
  destruct H1' as [-> Hbase].
  apply app_inv_head in Htu. subst t2.
  exists (Z.to_nat (mCurrFrameResourceIndex (snd st'))), fence.
  rewrite Hi in *.
  assert (Hw2 : waits tc = []).
  { clear -Hw. induction tc as [|[] tc IH]; simpl in *;
      try discriminate; auto; apply andb_true_iff in Hw as [_ Hw]; auto. }
  split; [lia|]. split; [exact Hcur|]. split; [exact Hf|].
  rewrite waits_app, Hw2, app_nil_r. split; [|split; [|split]].
  - unfold must_wait in Ht. subst tw. simpl.
    destruct (negb (fence =? 0) && (completed (mGPU (fst st)) <? fence)) eqn:Hm;
      simpl.
    + left. apply andb_true_iff in Hm as [Hz Hlt].
      apply negb_true_iff, Z.eqb_neq in Hz. apply Z.ltb_lt in Hlt. auto.
    + right. split; [reflexivity|]. intros [Hz Hlt].
      apply andb_false_iff in Hm as [Hm|Hm].
      * apply negb_false_iff, Z.eqb_eq in Hm. contradiction.
      * apply Z.ltb_ge in Hm. lia.
  - intros buf fr k [Hin|Hin]%in_app_iff.
    + destruct (must_wait _ _); subst tw; simpl in Hin;
        [destruct Hin as [[=]|[]] | destruct Hin].
    + rewrite forallb_forall in Hw. specialize (Hw _ Hin). simpl in Hw.
      apply bool_decide_eq_true in Hw. rewrite Hw. exact Hcur.
  - exact Hnr.
  - exists r, s1, tw, tc. split; [exact H1|]. split; [reflexivity|].
    split; [exact Ht|]. split.
    + simpl in Hw. rewrite Hcur in Hw. exact Hw.
    + rewrite Hbase. split; [exact Hnr | reflexivity].
Qed.

Lemma CycleFrameResources_returns {X} (st : D3DApp * App X) :
  SyncOK (sview st) -> is_Some (CycleFrameResources st).
Proof.
  intros Hok. destruct st as [b a]. rewrite CycleFrameResources_eq.
  destruct (ring_cycle_ok _ Hok) as (v' & t' & -> & _). eauto.
Qed.

(** C3.  The fence counter is monotonically increasing.  Every [Draw] of
    CrateApp and of BlendApp increments [mCurrentFence] by exactly one,
    records it as the current frame resource's [Fence] and signals that
    value on the command queue; so along any run (short of the [UINT64]
    wrap-around of the counter) the signalled values are
    [mCurrentFence + 1, mCurrentFence + 2, ...], strictly increasing, and
    the [Fence] stored in a frame resource never decreases. *)
Theorem C3_fence_counter_monotone `{DirectXMath} (env : Env) :
  (forall gt st st' t,
     0 <= mCurrentFence (fst st) -> mCurrentFence (fst st) + 1 < 2 ^ 64 ->
     CrateApp.Draw env gt st = Some (tt, st', t) ->
     draw_advances_fence st st' t) /\
  (forall gt st st' t,
     0 <= mCurrentFence (fst st) -> mCurrentFence (fst st) + 1 < 2 ^ 64 ->
     BlendApp.Draw env gt st = Some (tt, st', t) ->
     draw_advances_fence st st' t) /\
  (forall acts st st' t,
     SyncOK (sview st) ->
     mCurrentFence (fst st) + count_draws acts < 2 ^ 64 ->
     run (crate_step env) acts st = Some (tt, st', t) ->
     SyncOK (sview st') /\
     mCurrentFence (fst st') = mCurrentFence (fst st) + count_draws acts /\
     signals t = fence_values (mCurrentFence (fst st)) (Z.to_nat (count_draws acts)) /\
     StronglySorted Z.lt (signals t) /\
     fences_grow (fences (snd st)) (fences (snd st'))) /\
  (forall acts st st' t,
     SyncOK (sview st) ->
     mCurrentFence (fst st) + count_draws acts < 2 ^ 64 ->
     run (blend_step env) acts st = Some (tt, st', t) ->
     SyncOK (sview st') /\
     mCurrentFence (fst st') = mCurrentFence (fst st) + count_draws acts /\
     signals t = fence_values (mCurrentFence (fst st)) (Z.to_nat (count_draws acts)) /\
     StronglySorted Z.lt (signals t) /\
     fences_grow (fences (snd st)) (fences (snd st'))).
Proof.
  split; [|split; [|split]].
  - intros gt st st' t. apply draw_fence;
      [apply readonly_preserves, crate_RecordScene_readonly
      | apply crate_RecordScene_calls].
  - intros gt st st' t. apply draw_fence;
      [apply blend_RecordScene_sview | apply blend_RecordScene_calls].
  - intros acts st st' t. apply (run_sync env), crate_refines.
  - intros acts st st' t. apply (run_sync env), blend_refines.
Qed.

(** C1.  At the start of every frame, [Update] (of CrateApp and of
    BlendApp) blocks the CPU on the fence if and only if the [Fence]
    recorded in the frame resource it moves to is nonzero and the fence's
    completed value is still below it; the wait always ends; and
    consequently, in every state reachable by updates, draws, window
    messages and GPU progress from a state satisfying the invariant of
    the ring (short of the wrap-around of the counter), the calls of
    [Update] are that wait, if any, followed by the writes, with no wait
    among them; the constant buffers it overwrites all belong to that
    frame resource; and from the moment the wait has ended until
    [Update] returns, no command list in the GPU's queue reads that
    frame resource. *)
Theorem C1_update_waits_for_frame_resource `{DirectXMath} (env : Env) :
  (forall acts gt st0 st t st' tu,
     SyncOK (sview st0) ->
     mCurrentFence (fst st0) + count_draws acts < 2 ^ 64 ->
     run (crate_step env) acts st0 = Some (tt, st, t) ->
     is_Some (CycleFrameResources st) /\
     (CrateApp.Update gt st = Some (tt, st', tu) ->
      update_waits_then_writes st st' tu)) /\
  (forall acts gt st0 st t st' tu,
     SyncOK (sview st0) ->
     mCurrentFence (fst st0) + count_draws acts < 2 ^ 64 ->
     run (blend_step env) acts st0 = Some (tt, st, t) ->
     is_Some (CycleFrameResources st) /\
     (BlendApp.Update gt st = Some (tt, st', tu) ->
      update_waits_then_writes st st' tu)).
Proof.
  split.
  - intros acts gt st0 st t st' tu Hok Hnw Hrun.
    destruct (run_sync env _ _ _ _ _ (crate_refines env) Hok Hnw Hrun) as (Hok' & _).
    split.
    + apply CycleFrameResources_returns, Hok'.
    + apply update_blocks_iff_busy; [apply crate_UpdateBuffers_fills | exact Hok'].
  - intros acts gt st0 st t st' tu Hok Hnw Hrun.
    destruct (run_sync env _ _ _ _ _ (blend_refines env) Hok Hnw Hrun) as (Hok' & _).
    split.
    + apply CycleFrameResources_returns, Hok'.
    + apply update_blocks_iff_busy; [apply blend_UpdateBuffers_fills | exact Hok'].
Qed.

(** ** C5 and C6: the calls of one frame *)

Lemma next_back_buffer_mod env b :
  0 <= mCurrBackBuffer b < SwapChainBufferCount env ->
  SwapChainBufferCount env < 2 ^ 31 ->
  next_back_buffer env b = (mCurrBackBuffer b + 1) mod SwapChainBufferCount env.
Proof.
  intros Hb Hn. unfold next_back_buffer, int_rem, to_int.
  replace ((mCurrBackBuffer b + 1 + 2 ^ 31) mod 2 ^ 32 - 2 ^ 31)
    with (mCurrBackBuffer b + 1) by (rewrite Z.mod_small; lia).
  apply Z.rem_mod_nonneg; lia.
Qed.

Lemma ring_frame_view {X} (rest pre : M (App X) unit) env st st' t :
  fills_current rest -> preserves sview pre -> calls is_recording pre ->
  ((CycleFrameResources ;;; rest) ;;;
   (pre ;;; CloseAndExecute ;;; PresentAndSignal env)) st = Some (tt, st', t) ->
  exists tw t2 rec,
    t = (tw ++ t2) ++ rec ++ draw_tail (mCurrentFence (fst st')) ++ [] /\
    (tw = [] \/ exists f, tw = [EvWait f]) /\
    forallb is_copy_or_descriptor t2 = true /\
    forallb is_recording rec = true /\
    mCurrBackBuffer (fst st') = next_back_buffer env (fst st).
Proof.
  intros Hrest Hp Hc (u & st1 & tu & td & Hu & Hd & ->)%bind_Some.
  destruct u.
  destruct (Update_view _ _ _ _ Hrest Hu) as (tw & t2 & Hv & -> & Hw).
  destruct (Draw_view _ _ _ _ _ Hp Hc Hd) as (rec & v & Hr & Hrec & ->).
  exists tw, t2, rec.
  assert (Hbb : mCurrBackBuffer (fst st1) = mCurrBackBuffer (fst st)).
  { unfold ring_cycle in Hv. repeat case_match; try discriminate;
      injection Hv as Hv _ _ _; rewrite <- Hv; reflexivity. }
  unfold ring_draw in Hr. repeat case_match; try discriminate.
  injection Hr as Hb _ _ _ Hvv.
  rewrite <- Hb, <- Hvv. simpl.
  split; [reflexivity|]. split; [|split; [|split]].
  - unfold ring_cycle in Hv. repeat case_match; try discriminate;
      injection Hv as _ _ _ _ <-; eauto.
  - eapply forallb_weaken; [|exact Hw]. intros [] He; try discriminate;
      try reflexivity. simpl in He. destruct k; try discriminate; reflexivity.
  - exact Hrec.
  - unfold next_back_buffer. rewrite <- Hbb. reflexivity.
Qed.

Lemma box_frame_view env gt st st' t :
  BoxApp.Frame env gt st = Some (tt, st', t) ->
  exists flush,
    frame_in_order env st st' t flush /\
    (flush = [] \/ flush = [EvWait (mCurrentFence (fst st'))]) /\
    fence_calls t = EvSignal (mCurrentFence (fst st')) :: flush /\
    mCurrentFence (fst st') = to_UINT64 (mCurrentFence (fst st) + 1).
Proof.
  unfold BoxApp.Frame, BoxApp.Draw.
  intros (u1 & st1 & tu & td & Hu & Hd & ->)%bind_Some.
  apply bind_Some in Hd as (u2 & st2 & rec & tl & Hr & Hl & ->).
  assert (Hu1 : readonly (BoxApp.Update gt)) by method.
  assert (Hu2 : calls is_update_call (BoxApp.Update gt)) by method.
  assert (Hr1 : readonly (BoxApp.RecordScene env)) by method.
  assert (Hr2 : calls is_recording (BoxApp.RecordScene env)) by method.
  assert (Hr3 : calls no_fence_event (BoxApp.RecordScene env)) by method.
  assert (Hu3 : calls no_fence_event (BoxApp.Update gt)) by method.
  rewrite (Hr1 _ _ _ _ Hr), (Hu1 _ _ _ _ Hu) in Hl.
  specialize (Hu2 _ _ _ _ Hu). specialize (Hr2 _ _ _ _ Hr).
  specialize (Hu3 _ _ _ _ Hu). specialize (Hr3 _ _ _ _ Hr).
  unfold fence_calls.
  rewrite !List.filter_app, (filter_no_fence _ Hu3), (filter_no_fence _ Hr3).
  clear Hu Hr Hu1 Hr1 Hu3 Hr3 st1 st2.
  destruct st as [[cf bb [c q]] a].
  revert Hl.
  unfold FlushCommandQueue, PresentAndSwap, Present, ExecuteCommandLists, Signal,
    WaitForFence, when, bind.
  unfold_prims. simpl.
  destruct (c <? to_UINT64 (cf + 1)); simpl.
  - destruct (gpu_wait _ _) as [g|]; [|discriminate]. simpl.
    intros [= <- <-]. eexists. split; [|split; [right; reflexivity|]].
    + exists tu, rec. split; [reflexivity|]. repeat split; assumption.
    + split; reflexivity.
  - intros [= <- <-]. exists []. split; [|split; [left; reflexivity|]].
    + exists tu, rec. split; [reflexivity|]. repeat split; assumption.
    + split; reflexivity.
Qed.

Lemma ring_frame_order {X} (rest pre : M (App X) unit) env st st' t :
  fills_current rest -> preserves sview pre -> calls is_recording pre ->
  ((CycleFrameResources ;;; rest) ;;;
   (pre ;;; CloseAndExecute ;;; PresentAndSignal env)) st = Some (tt, st', t) ->
  frame_in_order env st st' t [].
Proof.
  intros Hrest Hp Hc H.
  destruct (ring_frame_view _ _ _ _ _ _ Hrest Hp Hc H)
    as (tw & t2 & rec & -> & Htw & Ht2 & Hrec & Hbb).
  exists (tw ++ t2), rec. split; [reflexivity|]. split; [|split; assumption].
  rewrite forallb_app. apply andb_true_iff. split.
  - destruct Htw as [->|[f ->]]; reflexivity.
  - eapply forallb_weaken; [|exact Ht2]. intros [] He; try discriminate; exact He.
Qed.

Lemma ring_frame_fence_calls {X} (rest pre : M (App X) unit) env st st' t :
  fills_current rest -> preserves sview pre -> calls is_recording pre ->
  ((CycleFrameResources ;;; rest) ;;;
   (pre ;;; CloseAndExecute ;;; PresentAndSignal env)) st = Some (tt, st', t) ->
  (fence_calls t = [EvSignal (mCurrentFence (fst st'))] \/
   exists f, fence_calls t = [EvWait f; EvSignal (mCurrentFence (fst st'))]) /\
  (length (waits t) <= 1)%nat.
Proof.
  intros Hrest Hp Hc H.
  destruct (ring_frame_view _ _ _ _ _ _ Hrest Hp Hc H)
    as (tw & t2 & rec & -> & Htw & Ht2 & Hrec & Hbb).
  assert (H2 : fence_calls t2 = []).
  { apply filter_no_fence. eapply forallb_weaken; [|exact Ht2].
    intros [] He; try discriminate; reflexivity. }
  assert (H3 : fence_calls rec = []).
  { apply filter_no_fence. eapply forallb_weaken; [|exact Hrec].
    intros [] He; try discriminate; reflexivity. }
  assert (Hf : fence_calls ((tw ++ t2) ++ rec ++ draw_tail (mCurrentFence (fst st')) ++ [])
               = fence_calls tw ++ [EvSignal (mCurrentFence (fst st'))]).
  { unfold fence_calls in *. rewrite !List.filter_app, H2, H3. simpl.
    rewrite app_nil_r. reflexivity. }
  rewrite <- (waits_filter (_ ++ _)).
  fold (fence_calls ((tw ++ t2) ++ rec ++ draw_tail (mCurrentFence (fst st')) ++ [])).
  rewrite Hf.
  destruct Htw as [->|[f ->]]; simpl; split; eauto.
Qed.

Lemma box_frame_returns env gt st :
  idle (fst st) -> mCurrentFence (fst st) + 1 < 2 ^ 64 ->
  exists st' t, BoxApp.Frame env gt st = Some (tt, st', t) /\ idle (fst st') /\
                waits t = [mCurrentFence (fst st')].
Proof.
  destruct st as [[cf bb [c q]] a]. unfold idle. simpl. intros (-> & -> & Hcf) Hnw.
  unfold BoxApp.Frame, BoxApp.Update, BoxApp.Draw, BoxApp.RecordScene,
    FlushCommandQueue, PresentAndSwap, Present, ExecuteCommandLists, Signal,
    WaitForFence, when, bind.
  unfold_prims. simpl. rewrite to_UINT64_small by lia.
  replace (cf <? cf + 1) with true by (symmetry; apply Z.ltb_lt; lia).
  unfold gpu_wait. simpl.
  replace (cf + 1 <=? cf) with false by (symmetry; apply Z.leb_gt; lia).
  simpl. rewrite Z.leb_refl. simpl.
  do 2 eexists. split; [reflexivity|]. simpl. repeat split; lia.
Qed.

(** C5.  Each demo's frame follows one fixed order.  With the frame loop
    running [Update] and then [Draw], the calls of a frame of CrateApp,
    BlendApp and BoxApp are: the calls of [Update] (the wait for the frame
    resource, copies into the constant buffers); then the recording of the
    command list, which ends with the barrier back to the present state;
    then [Close], [ExecuteCommandLists], [Present], and only then the
    signal of the new fence value (followed in BoxApp by the wait that
    completes the flush).  [mCurrBackBuffer] becomes
    [(mCurrBackBuffer + 1) % SwapChainBufferCount].  A frame of BoxApp
    started on an idle device always returns, on an idle device. *)
Theorem C5_frame_runs_in_fixed_order `{DirectXMath} (env : Env) :
  (forall gt st st' t,
     CrateApp.Frame env gt st = Some (tt, st', t) ->
     frame_in_order env st st' t []) /\
  (forall gt st st' t,
     BlendApp.Frame env gt st = Some (tt, st', t) ->
     frame_in_order env st st' t []) /\
  (forall gt st st' t,
     BoxApp.Frame env gt st = Some (tt, st', t) ->
     exists flush, frame_in_order env st st' t flush /\
                   (flush = [] \/ flush = [EvWait (mCurrentFence (fst st'))])) /\
  (forall gt st,
     idle (fst st) -> mCurrentFence (fst st) + 1 < 2 ^ 64 ->
     exists st' t, BoxApp.Frame env gt st = Some (tt, st', t) /\ idle (fst st')) /\
  (forall b,
     0 <= mCurrBackBuffer b < SwapChainBufferCount env ->
     SwapChainBufferCount env < 2 ^ 31 ->
     next_back_buffer env b = (mCurrBackBuffer b + 1) mod SwapChainBufferCount env).
Proof.
  split; [|split; [|split; [|split]]].
  - intros gt st st' t. apply ring_frame_order;
      [apply crate_UpdateBuffers_fills
      | apply readonly_preserves, crate_RecordScene_readonly
      | apply crate_RecordScene_calls].
  - intros gt st st' t. apply ring_frame_order;
      [apply blend_UpdateBuffers_fills
      | apply blend_RecordScene_sview
      | apply blend_RecordScene_calls].
  - intros gt st st' t Hf.
    destruct (box_frame_view _ _ _ _ _ Hf) as (flush & Ho & Hfl & _).
    eauto.
  - intros gt st Hi Hnw.
    destruct (box_frame_returns env gt st Hi Hnw) as (st' & t & Hf & Hi' & _).
    eauto.
  - apply next_back_buffer_mod.
Qed.

(** C6.  In every frame of every demo the CPU blocks on the fence at most
    once, and the fence is not touched otherwise than by that wait and the
    one signal of [Draw]: the calls on the fence during a frame of
    CrateApp and of BlendApp are the signal of the new fence value,
    preceded or not by the one wait of [Update]; during a frame of BoxApp
    they are the signal of the new fence value, followed or not (on an
    idle device, followed) by the one wait of the flush that ends
    [Draw]. *)
Theorem C6_one_fence_wait_per_frame `{DirectXMath} (env : Env) :
  (forall gt st st' t,
     CrateApp.Frame env gt st = Some (tt, st', t) ->
     (fence_calls t = [EvSignal (mCurrentFence (fst st'))] \/
      exists f, fence_calls t = [EvWait f; EvSignal (mCurrentFence (fst st'))]) /\
     (length (waits t) <= 1)%nat) /\
  (forall gt st st' t,
     BlendApp.Frame env gt st = Some (tt, st', t) ->
     (fence_calls t = [EvSignal (mCurrentFence (fst st'))] \/
      exists f, fence_calls t = [EvWait f; EvSignal (mCurrentFence (fst st'))]) /\
     (length (waits t) <= 1)%nat) /\
  (forall gt st st' t,
     BoxApp.Frame env gt st = Some (tt, st', t) ->
     (fence_calls t = [EvSignal (mCurrentFence (fst st'))] \/
      fence_calls t = [EvSignal (mCurrentFence (fst st'));
                       EvWait (mCurrentFence (fst st'))]) /\
     (length (waits t) <= 1)%nat) /\
  (forall gt st,
     idle (fst st) -> mCurrentFence (fst st) + 1 < 2 ^ 64 ->
     exists st' t, BoxApp.Frame env gt st = Some (tt, st', t) /\
                   waits t = [mCurrentFence (fst st')]).
Proof.
  split; [|split; [|split]].
  - intros gt st st' t. apply ring_frame_fence_calls;
      [apply crate_UpdateBuffers_fills
      | apply readonly_preserves, crate_RecordScene_readonly
      | apply crate_RecordScene_calls].
  - intros gt st st' t. apply ring_frame_fence_calls;
      [apply blend_UpdateBuffers_fills
      | apply blend_RecordScene_sview
      | apply blend_RecordScene_calls].
  - intros gt st st' t Hf.
    destruct (box_frame_view _ _ _ _ _ Hf) as (flush & _ & Hfl & Hc & _).
    rewrite <- (waits_filter t). fold (fence_calls t). rewrite Hc.
    destruct Hfl as [->| ->]; simpl; split; auto.
  - intros gt st Hi Hnw.
    destruct (box_frame_returns env gt st Hi Hnw) as (st' & t & Hf & _ & Hw).
    eauto.
Qed.

(** ** C4: what is created once the frame loop runs *)

Lemma filter_no_entity t :
  forallb no_entity t = true -> entity_creations t = [].
Proof.
  induction t as [|e t IH]; simpl; [reflexivity|].
  unfold no_entity at 1. intros [He Ht]%andb_true_iff.
  apply negb_true_iff in He. rewrite He. auto.
Qed.

Lemma update_calls {X} (rest : M (App X) unit) :
  fills_current rest -> calls is_update_call (CycleFrameResources ;;; rest).
Proof.
  intros Hrest st [] st' t H.
  destruct (Update_view _ _ _ _ Hrest H) as (tw & t2 & Hv & -> & Hw).
  rewrite forallb_app. apply andb_true_iff. split.
  - unfold ring_cycle in Hv. repeat case_match; try discriminate;
      injection Hv as _ _ _ _ <-; reflexivity.
  - eapply forallb_weaken; [|exact Hw]. intros [] He; try discriminate;
      try reflexivity. exact He.
Qed.

Lemma update_no_entity {X} (rest : M (App X) unit) :
  fills_current rest -> calls no_entity (CycleFrameResources ;;; rest).
Proof.
  intros Hrest. eapply calls_weaken; [|apply update_calls, Hrest].
  intros [] He; try discriminate; try reflexivity.
  destruct k; try discriminate; reflexivity.
Qed.

Lemma DrawTail_no_entity {X} env :
  calls no_entity (@CloseAndExecute X ;;; PresentAndSignal env).
Proof.
  unfold CloseAndExecute, PresentAndSignal, PresentAndSwap, Present,
    ExecuteCommandLists, Signal, set_frame. method.
Qed.

Lemma crate_step_no_entity `{DirectXMath} env act : calls no_entity (crate_step env act).
Proof.
  destruct act as [gt|gt|x y|btn x y|w|]; simpl.
  - apply update_no_entity, crate_UpdateBuffers_fills.
  - unfold CrateApp.Draw. apply calls_bind; [|intros; apply DrawTail_no_entity].
    unfold CrateApp.RecordScene, CrateApp.DrawOpaqueItem, BeginDraw. method.
    all: apply calls_DrawRenderItem; reflexivity.
  - method.
  - unfold CrateApp.OnMouseMove; method.
  - unfold CrateApp.OnKeyDown, CrateApp.ScaleTexTransform, CrateApp.ChangeSamplerFilter,
      CrateApp.ChangeSamplerAddressMode, CrateApp.MarkSamplerDirty, CrateApp.upd_ext;
      method.
  - unfold GpuProgress. method.
Qed.

Lemma box_step_no_entity env act : calls no_entity (box_step env act).
Proof.
  destruct act as [gt|gt|x y|btn x y|w|]; simpl.
  - method.
  - unfold BoxApp.Draw, BoxApp.RecordScene, FlushCommandQueue, PresentAndSwap,
      Present, ExecuteCommandLists, Signal, WaitForFence, when. method.
  - method.
  - unfold BoxApp.OnMouseMove; method.
  - method.
  - unfold GpuProgress. method.
Qed.

Lemma run_calls {S} P (step : Action -> M S unit) acts :
  (forall act, calls P (step act)) -> calls P (run step acts).
Proof.
  intros Hstep. induction acts as [|act acts IH]; simpl.
  - apply calls_ret.
  - apply calls_bind; [apply Hstep | intros; exact IH].
Qed.

Lemma creates_lazily_bind {A B} (m : M BlendApp.t A) (k : A -> M BlendApp.t B) :
  creates_lazily m -> (forall a, creates_lazily (k a)) -> creates_lazily (bind m k).
Proof.
  intros Hm Hk st b st2 t (a & st1 & t1 & t2 & H1 & H2 & ->)%bind_Some.
  destruct (Hm _ _ _ _ H1) as [Hc1 Hs1]. destruct (Hk _ _ _ _ _ H2) as [Hc2 Hs2].
  split; [|tauto].
  unfold entity_creations in *. rewrite List.filter_app, Hc1, Hc2.
  destruct (overdraw_resources st) as [p|], (overdraw_resources st1) as [p1|],
    (overdraw_resources st2) as [p2|]; try reflexivity.
  all: exfalso;
    solve [destruct Hs1 as [? [=]]; eauto | destruct Hs2 as [? [=]]; eauto].
Qed.

Lemma creates_lazily_quiet {A} (m : M BlendApp.t A) :
  preserves overdraw_resources m -> calls no_entity m -> creates_lazily m.
Proof.
  intros Hp Hc st a st' t H.
  rewrite (Hp _ _ _ _ H), (filter_no_entity _ (Hc _ _ _ _ H)).
  split; [|tauto]. destruct (overdraw_resources st); reflexivity.
Qed.

Lemma creates_lazily_CreateResources :
  creates_lazily BlendApp.CreateResourcesForPixelOverdrawMode.
Proof.
  intros [b a] u st' t. unfold BlendApp.CreateResourcesForPixelOverdrawMode.
  unfold bind at 1. unfold this at 1. unfold overdraw_resources at 1 3. simpl.
  destruct (BlendApp.mPixelOverdrawResources (ext a)) as [p|] eqn:Hp.
  - intros [= _ <- <-]. unfold overdraw_resources. simpl. rewrite Hp.
    split; [reflexivity | tauto].
  - unfold BlendApp.BuildPSOsForSceneRendering, CreateDefaultBuffer, BlendApp.upd_ext,
      bind.
    unfold_prims. simpl. intros [= _ <- <-]. unfold overdraw_resources. simpl.
    split; [reflexivity | eauto].
Qed.

Lemma blend_Update_overdraw gt : preserves overdraw_resources (BlendApp.Update gt).
Proof.
  unfold BlendApp.Update, BlendApp.UpdateBuffers, BlendApp.AnimateMaterials,
    BlendApp.UpdateWaves, BlendApp.set_material, BlendApp.upd_ext,
    CycleFrameResources, UpdateObjectCBs, UpdateMaterialCBs, UpdateMainPassCB,
    WaitForFence, set_frame.
  method.
Qed.

Lemma blend_RecordScene_creates env : creates_lazily (BlendApp.RecordScene env).
Proof.
  unfold BlendApp.RecordScene.
  repeat (apply creates_lazily_bind;
          [solve [apply creates_lazily_quiet; unfold BeginDraw; method] | intros]).
  apply creates_lazily_bind.
  - unfold when. case_match.
    + apply creates_lazily_CreateResources.
    + apply creates_lazily_quiet; method.
  - intros _. apply creates_lazily_quiet;
      unfold when, BlendApp.DrawLayer, BlendApp.DrawOverdrawQuad,
        BlendApp.GetPsoForSceneRendering; method;
      apply calls_DrawRenderItems; reflexivity.
Qed.

Lemma blend_step_creates env act : creates_lazily (blend_step env act).
Proof.
  destruct act as [gt|gt|x y|btn x y|w|]; simpl.
  - apply creates_lazily_quiet;
      [apply blend_Update_overdraw | apply update_no_entity, blend_UpdateBuffers_fills].
  - unfold BlendApp.Draw. apply creates_lazily_bind;
      [apply blend_RecordScene_creates|].
    intros _. apply creates_lazily_quiet; [|apply DrawTail_no_entity].
    unfold CloseAndExecute, PresentAndSignal, PresentAndSwap, Present,
      ExecuteCommandLists, Signal, set_frame. method.
  - apply creates_lazily_quiet; method.
  - apply creates_lazily_quiet; unfold BlendApp.OnMouseMove; method.
  - apply creates_lazily_quiet;
      unfold BlendApp.OnKeyDown, BlendApp.ChangeRenderMode, BlendApp.upd_ext; method.
  - apply creates_lazily_quiet; unfold GpuProgress; method.
Qed.

Lemma blend_run_creates env acts : creates_lazily (run (blend_step env) acts).
Proof.
  induction acts as [|act acts IH]; simpl.
  - apply creates_lazily_quiet; method.
  - apply creates_lazily_bind; [apply blend_step_creates | intros; exact IH].
Qed.

Lemma blend_RecordScene_normal env st st' t :
  BlendApp.mRenderMode (ext (snd st)) = BlendApp.Normal ->
  BlendApp.RecordScene env st = Some (tt, st', t) ->
  overdraw_resources st' = overdraw_resources st.
Proof.
  intros Hmode. unfold BlendApp.RecordScene.
  intros (u1 & s1 & t1 & r1 & H1 & H2 & _)%bind_Some.
  apply readonly_BeginDraw in H1 as ->.
  apply bind_Some in H2 as (u2 & s2 & t2 & r2 & H2 & H3 & _).
  apply readonly_record in H2 as ->.
  apply bind_Some in H3 as (u3 & s3 & t3 & r3 & H3 & H4 & _).
  apply readonly_record in H3 as ->.
  apply bind_Some in H4 as (a & s4 & t4 & r4 & H4 & H5 & _).
  injection H4 as <- <- _. rewrite Hmode in H5.
  rewrite bool_decide_eq_false_2 in H5 by discriminate.
  revert H5. generalize (snd st). intros a.
  assert (Hp : preserves overdraw_resources
           (when false BlendApp.CreateResourcesForPixelOverdrawMode ;;;
            when (BlendApp.mDrawTransparentFirst (ext a))
              (BlendApp.DrawLayer env "transparent" BlendApp.Transparent ;;;
               BlendApp.DrawLayer env "animatedBolt" BlendApp.AnimatedBolt) ;;;
            BlendApp.DrawLayer env "opaque" BlendApp.Opaque ;;;
            BlendApp.DrawLayer env "alphaTested" BlendApp.AlphaTested ;;;
            when (negb (BlendApp.mDrawTransparentFirst (ext a)))
              (BlendApp.DrawLayer env "transparent" BlendApp.Transparent ;;;
               BlendApp.DrawLayer env "animatedBolt" BlendApp.AnimatedBolt) ;;;
            when false BlendApp.DrawOverdrawQuad)).
  { unfold when, BlendApp.DrawLayer, BlendApp.GetPsoForSceneRendering. method. }
  intros H5. exact (Hp _ _ _ _ H5).
Qed.

Lemma blend_Draw_normal env gt st st' t :
  BlendApp.mRenderMode (ext (snd st)) = BlendApp.Normal ->
  BlendApp.Draw env gt st = Some (tt, st', t) ->
  overdraw_resources st' = overdraw_resources st.
Proof.
  intros Hmode. unfold BlendApp.Draw.
  intros (u1 & s1 & t1 & r1 & H1 & H2 & _)%bind_Some. destruct u1.
  rewrite <- (blend_RecordScene_normal _ _ _ _ Hmode H1).
  revert H2. generalize s1 tt st' r1.
  change (preserves overdraw_resources
            (@CloseAndExecute BlendApp.Ext ;;; PresentAndSignal env)).
  unfold CloseAndExecute, PresentAndSignal, PresentAndSwap, Present,
    ExecuteCommandLists, Signal, set_frame. method.
Qed.

(** C4, as the code has it.  Once the frame loop runs, BoxApp and CrateApp
    create no data entity (render item, material, mesh geometry, texture,
    frame resource, constant buffer), whatever the updates, draws, window
    messages and GPU progress.  BlendApp creates one: the mesh geometry
    [quadGeo] of the pixel overdraw resources, built by the first [Draw]
    in the [PixelOverdraw] render mode, when [mPixelOverdrawResources] is
    still null; the pointer is set from then on, so in a whole run the
    creations of data entities are that one, if the pointer went from
    null to set, and none otherwise. *)
Theorem C4_entities_created_after_start `{DirectXMath} (env : Env) :
  (forall acts st st' t,
     run (box_step env) acts st = Some (tt, st', t) -> entity_creations t = []) /\
  (forall acts st st' t,
     run (crate_step env) acts st = Some (tt, st', t) -> entity_creations t = []) /\
  (forall acts st st' t,
     run (blend_step env) acts st = Some (tt, st', t) ->
     entity_creations t
       = lazy_creations (overdraw_resources st) (overdraw_resources st') /\
     (is_Some (overdraw_resources st) -> is_Some (overdraw_resources st'))) /\
  (forall act st st' t,
     blend_step env act st = Some (tt, st', t) ->
     entity_creations t <> [] ->
     (exists gt, act = ADraw gt) /\
     BlendApp.mRenderMode (ext (snd st)) = BlendApp.PixelOverdraw /\
     overdraw_resources st = None /\
     is_Some (overdraw_resources st')).
Proof.
  split; [|split; [|split]].
  - intros acts st st' t Hr. apply filter_no_entity.
    exact (run_calls _ _ acts (box_step_no_entity env) _ _ _ _ Hr).
  - intros acts st st' t Hr. apply filter_no_entity.
    exact (run_calls _ _ acts (crate_step_no_entity env) _ _ _ _ Hr).
  - intros acts st st' t. apply blend_run_creates.
  - intros act st st' t Hs Hne.
    destruct (blend_step_creates env act _ _ _ _ Hs) as [Hc _].
    rewrite Hc in Hne.
    assert (Hd : exists gt, act = ADraw gt).
    { destruct act as [gt|gt|x y|btn x y|w|]; eauto; exfalso; apply Hne;
        rewrite <- Hc; apply filter_no_entity; revert Hs; simpl.
      - apply (update_no_entity _ (blend_UpdateBuffers_fills gt)).
      - generalize st tt st' t. change (calls no_entity
          (set_this (fun a : BlendApp.t => set_mCamera (OnMouseDown x y (mCamera a)) a))).
        method.
      - generalize st tt st' t.
        change (calls no_entity (BlendApp.OnMouseMove btn x y)).
        unfold BlendApp.OnMouseMove. method.
      - generalize st tt st' t. change (calls no_entity (BlendApp.OnKeyDown w)).
        unfold BlendApp.OnKeyDown, BlendApp.ChangeRenderMode, BlendApp.upd_ext. method.
      - generalize st tt st' t. change (calls no_entity (@GpuProgress BlendApp.t)).
        unfold GpuProgress. method. }
    split; [exact Hd|]. destruct Hd as [gt ->]. simpl in Hs.
    destruct (BlendApp.mRenderMode (ext (snd st))) eqn:Hmode.
    + rewrite (blend_Draw_normal _ _ _ _ _ Hmode Hs) in Hne.
      destruct (overdraw_resources st); contradiction.
    + split; [reflexivity|].
      destruct (overdraw_resources st), (overdraw_resources st'); try contradiction.
      eauto.
Qed.

(** C4, as the spec has it, fails for BlendApp: after [Initialize], pressing
    F2 and running one frame creates the mesh geometry [quadGeo], so it is
    not true that no data entity is created once the frame loop has
    started. *)
Lemma C4_blend_creates_quad_geometry_in_loop :
  (exists t0, BlendApp.Initialize sample_env (fresh_base, BlendApp.construct (0, 0))
              = Some (tt, blend_start, t0)) /\
  ~ (forall acts st' t,
       run (blend_step sample_env) acts blend_start = Some (tt, st', t) ->
       entity_creations t = []).
Proof.
  split.
  - destruct (blend_Initialize_eq sample_env fresh_base (0, 0)) as (t0 & H0 & _).
    + unfold idle. simpl. repeat split; try reflexivity; lia.
    + simpl. lia.
    + exists t0. exact H0.
  - intros Hclaim.
    remember (run (blend_step sample_env)
                [AKeyDown VK_F2; AUpdate sample_timer; ADraw sample_timer]
                blend_start) as r eqn:E.
    assert (Hr : returns r = true) by (rewrite E; vm_compute; reflexivity).
    assert (Ht : entity_creations (trace_of r) = [EvCreate KMeshGeometry "quadGeo"])
      by (rewrite E; vm_compute; reflexivity).
    destruct r as [[[[] st'] t]|]; [|discriminate Hr]. symmetry in E.
    cbn [trace_of] in Ht. rewrite (Hclaim _ _ _ E) in Ht. discriminate Ht.
Qed.

(** ** The theorems at work on the demos as [Initialize] leaves them *)

Lemma C2_frame_ring_cycles_on_crate :
  mCurrFrameResourceIndex
    (snd (state_after crate_updated
            (run crate_sample_step
                 [ADraw sample_timer; AUpdate sample_timer; ADraw sample_timer]
                 crate_updated)))
  = 2 /\
  mCurrFrameResource
    (snd (state_after crate_updated
            (run crate_sample_step
                 [ADraw sample_timer; AUpdate sample_timer; ADraw sample_timer]
                 crate_updated)))
  = Some 2%nat.
Proof.
  destruct (@C2_frame_ring_cycles sample_math sample_env)
    as (_ & _ & _ & _ & Hrun & _ & _ & _ & Hptr & _).
  set (acts := [ADraw sample_timer; AUpdate sample_timer; ADraw sample_timer]).
  destruct (Hrun acts crate_updated
              (state_after crate_updated (run crate_sample_step acts crate_updated))
              (trace_of (run crate_sample_step acts crate_updated)))
    as (Hi & _).
  - vm_compute. split; [discriminate | reflexivity].
  - vm_compute. reflexivity.
  - destruct (Hptr acts crate_updated
                (state_after crate_updated (run crate_sample_step acts crate_updated))
                (trace_of (run crate_sample_step acts crate_updated)))
      as ((Hp & _) & _).
    + vm_compute. split; [discriminate | reflexivity].
    + split; [vm_compute; reflexivity | eexists; vm_compute; reflexivity].
    + vm_compute. reflexivity.
    + split; [etransitivity; [exact Hi|] | etransitivity; [exact Hp|]];
        vm_compute; reflexivity.
Defined.

Lemma C1_update_waits_on_crate :
  update_waits_then_writes crate_after_three
    (state_after crate_after_three (crate_sample_Update sample_timer crate_after_three))
    (trace_of (crate_sample_Update sample_timer crate_after_three)).
Proof.
  destruct (@C1_update_waits_for_frame_resource sample_math sample_env) as [Hc _].
  destruct (Hc three_frames sample_timer crate_start crate_after_three
              (trace_of (run crate_sample_step three_frames crate_start))
              (state_after crate_after_three
                 (crate_sample_Update sample_timer crate_after_three))
              (trace_of (crate_sample_Update sample_timer crate_after_three)))
    as [_ Hu].
  - unfold SyncOK. vm_compute.
    repeat split; try discriminate; repeat constructor; discriminate.
  - vm_compute. reflexivity.
  - vm_compute. reflexivity.
  - apply Hu. vm_compute. reflexivity.
Defined.

Lemma C3_fence_counter_on_crate :
  signals (trace_of (run crate_sample_step three_frames crate_start)) = [2; 3; 4].
Proof.
  destruct (@C3_fence_counter_monotone sample_math sample_env) as (_ & _ & Hrun & _).
  destruct (Hrun three_frames crate_start crate_after_three
              (trace_of (run crate_sample_step three_frames crate_start)))
    as (_ & _ & Hs & _).
  - unfold SyncOK. vm_compute.
    repeat split; try discriminate; repeat constructor; discriminate.
  - vm_compute. reflexivity.
  - vm_compute. reflexivity.
  - rewrite Hs. vm_compute. reflexivity.
Defined.

Lemma C4_entities_on_blend :
  entity_creations (trace_of (run (blend_step sample_env) overdraw_frames blend_start))
  = [EvCreate KMeshGeometry "quadGeo"].
Proof.
  remember (run (blend_step sample_env) overdraw_frames blend_start) as r eqn:E.
  assert (Hr : returns r = true) by (rewrite E; vm_compute; reflexivity).
  assert (Hn : overdraw_resources blend_start = None) by (vm_compute; reflexivity).
  assert (Hs : negb (bool_decide
                       (overdraw_resources (state_after blend_start r) = None)) = true)
    by (rewrite E; vm_compute; reflexivity).
  destruct r as [[[[] st'] t]|]; [|discriminate Hr]. symmetry in E.
  destruct (@C4_entities_created_after_start sample_math sample_env) as (_ & _ & Hb & _).
  destruct (Hb _ _ _ _ E) as [Hc _].
  cbn [trace_of state_after] in Hs |- *. rewrite Hc, Hn.
  destruct (overdraw_resources st'); [reflexivity | discriminate Hs].
Defined.

Lemma C5_frame_order_on_crate :
  frame_in_order sample_env crate_start
    (state_after crate_start (crate_sample_Frame sample_timer crate_start))
    (trace_of (crate_sample_Frame sample_timer crate_start)) [].
Proof.
  destruct (@C5_frame_runs_in_fixed_order sample_math sample_env) as (Hc & _).
  apply (Hc sample_timer). vm_compute. reflexivity.
Defined.

Lemma C6_one_wait_on_box :
  fence_calls (trace_of (BoxApp.Frame sample_env sample_timer box_start))
  = [EvSignal 2; EvWait 2].
Proof.
  destruct (@C6_one_fence_wait_per_frame sample_math sample_env) as (_ & _ & Hb & _).
  destruct (Hb sample_timer box_start
              (state_after box_start (BoxApp.Frame sample_env sample_timer box_start))
              (trace_of (BoxApp.Frame sample_env sample_timer box_start)))
    as [[Hf|Hf] _].
  - vm_compute. reflexivity.
  - exfalso. revert Hf. vm_compute. discriminate.
  - rewrite Hf. vm_compute. reflexivity.
Defined.

(** ** C7: the indices used at draw time *)

Section IndexViewFacts.
Context {X : Type}.
Implicit Types (a : App X) (b : D3DApp).

Lemma item_view_visit l : item_view <$> map visit_item l = item_view <$> l.
Proof.
  change (map visit_item l) with (visit_item <$> l).
  rewrite <- list_fmap_compose. apply list_fmap_ext. intros i e _. simpl.
  unfold visit_item, after_visit. destruct (0 <? _); reflexivity.
Qed.

Lemma material_view_visit (m : gmap string Material.t) :
  material_view <$> (visit_material <$> m) = material_view <$> m.
Proof.
  rewrite <- map_fmap_compose. apply map_fmap_ext. intros k e _. simpl.
  unfold visit_material, after_visit. destruct (0 <? _); reflexivity.
Qed.

Lemma fmap_insert_same {A B} (f : A -> B) (l : list A) i x y :
  l !! i = Some x -> f y = f x -> f <$> <[i := y]> l = f <$> l.
Proof.
  intros Hi Hf. rewrite list_fmap_insert, Hf. apply list_insert_id.
  rewrite list_lookup_fmap, Hi. reflexivity.
Qed.

Lemma map_fmap_insert_same {A B} (f : A -> B) (m : gmap string A) k x y :
  m !! k = Some x -> f y = f x -> f <$> <[k := y]> m = f <$> m.
Proof.
  intros Hk Hf. rewrite fmap_insert, Hf. apply insert_id.
  rewrite lookup_fmap, Hk. reflexivity.
Qed.

Lemma index_view_CycleFrameResources : preserves index_view (@CycleFrameResources X).
Proof. unfold CycleFrameResources, WaitForFence. method. Qed.

Lemma index_view_UpdateObjectCBs : preserves index_view (@UpdateObjectCBs X).
Proof.
  intros [b a] u st' t. rewrite UpdateObjectCBs_eq.
  destruct (mCurrFrameResource a) as [fr|]; [|discriminate].
  destruct (mFrameResources a !! fr) as [f|] eqn:Hf; [|discriminate].
  intros [= <- <-]. unfold index_view. simpl. f_equal.
  - apply item_view_visit.
  - apply (fmap_insert_same _ _ _ f); [exact Hf|].
    unfold frame_view. simpl. rewrite foldl_copy_step_length. reflexivity.
Qed.

Lemma index_view_UpdateMaterialCBs : preserves index_view (@UpdateMaterialCBs X).
Proof.
  intros [b a] u st' t. rewrite UpdateMaterialCBs_eq.
  destruct (mCurrFrameResource a) as [fr|]; [|discriminate].
  destruct (mFrameResources a !! fr) as [f|] eqn:Hf; [|discriminate].
  intros [= <- <-]. unfold index_view. simpl. f_equal.
  - apply material_view_visit.
  - apply (fmap_insert_same _ _ _ f); [exact Hf|].
    unfold frame_view. simpl. rewrite foldl_copy_step_length. reflexivity.
Qed.

Lemma index_view_UpdateMainPassCB : preserves index_view (@UpdateMainPassCB X).
Proof. unfold UpdateMainPassCB. method. Qed.

Lemma index_view_DrawTail env :
  preserves index_view (@CloseAndExecute X ;;; PresentAndSignal env).
Proof.
  intros [b a] u st' t. rewrite DrawTail_eq.
  destruct (mCurrFrameResource a) as [fr|]; [|discriminate].
  destruct (mFrameResources a !! fr) as [f|] eqn:Hf; [|discriminate].
  intros [= <- <-]. unfold index_view. simpl. f_equal.
  apply (fmap_insert_same _ _ _ f); [exact Hf | reflexivity].
Qed.
End IndexViewFacts.

#[export] Hint Resolve index_view_CycleFrameResources index_view_UpdateObjectCBs
  index_view_UpdateMaterialCBs index_view_UpdateMainPassCB index_view_DrawTail : method.

Lemma index_view_crate_AnimateMaterials `{DirectXMath} gt :
  preserves index_view (CrateApp.AnimateMaterials gt).
Proof.
  intros [b a] u st' t. unfold CrateApp.AnimateMaterials, bind. unfold_prims. simpl.
  destruct (CrateApp.mOpaqueRitems (ext a) !! 1%nat) as [i|]; [|discriminate].
  destruct (mAllRitems a !! i) as [item|] eqn:Hi; [|discriminate].
  intros [= <- <-]. unfold index_view. simpl. f_equal.
  apply (fmap_insert_same _ _ _ item); [exact Hi | reflexivity].
Qed.

Lemma index_view_retransform {X} (h : RenderItem.t -> RenderItem.t) :
  (forall e, item_view (h e) = item_view e) ->
  preserves index_view
    (set_this (fun a : App X => set_mAllRitems (map h (mAllRitems a)) a)).
Proof.
  intros Hh. apply preserves_set_this. intros b s. unfold index_view. simpl. f_equal.
  change (map h (mAllRitems s)) with (h <$> mAllRitems s).
  rewrite <- list_fmap_compose. apply list_fmap_ext. intros i e _. apply Hh.
Qed.

Lemma index_view_crate_ScaleTexTransform d :
  preserves index_view (CrateApp.ScaleTexTransform d).
Proof.
  unfold CrateApp.ScaleTexTransform, CrateApp.upd_ext.
  apply preserves_bind; [method|]. intros a.
  apply preserves_bind; [method|]. intros _.
  apply index_view_retransform. reflexivity.
Qed.

#[export] Hint Resolve index_view_crate_AnimateMaterials
  index_view_crate_ScaleTexTransform : method.

Lemma index_view_crate_step `{DirectXMath} env act :
  preserves index_view (crate_step env act).
Proof.
  destruct act as [gt|gt|x y|btn x y|w|]; simpl.
  - unfold CrateApp.Update, CrateApp.UpdateBuffers, CrateApp.UpdateSampler,
      CrateApp.CreateSamplerDescriptor, CrateApp.upd_ext. method.
  - unfold CrateApp.Draw. apply preserves_bind; [|intros; apply index_view_DrawTail].
    apply readonly_preserves, crate_RecordScene_readonly.
  - method.
  - unfold CrateApp.OnMouseMove. method.
  - unfold CrateApp.OnKeyDown, CrateApp.ChangeSamplerFilter,
      CrateApp.ChangeSamplerAddressMode, CrateApp.MarkSamplerDirty, CrateApp.upd_ext.
    method.
  - unfold GpuProgress. method.
Qed.

Lemma to_UINT_small z : 0 <= z < 2 ^ 32 -> to_UINT z = z.
Proof. intros Hz. unfold to_UINT. apply Z.mod_small. exact Hz. Qed.

Lemma offset_in_bounds idx size n :
  0 <= idx < n -> n <= 256 -> 0 < size < 2 ^ 24 ->
  0 <= to_UINT (idx * size) /\ to_UINT (idx * size) + size <= n * size.
Proof.
  intros Hi Hn Hs. rewrite to_UINT_small by nia. nia.
Qed.

Lemma DrawRenderItem_in_bounds {X} env (st : D3DApp * App X) i :
  buffers_fit (index_view st) = true ->
  item_indices_valid (index_view st) i = true ->
  small_sizes env (index_view st) ->
  exists t, DrawRenderItem env i st = Some (tt, st, t) /\
            forallb (event_in_bounds env (index_view st)) t = true.
Proof.
  destruct st as [b a]. unfold buffers_fit, item_indices_valid, small_sizes, index_view.
  simpl. rewrite list_lookup_fmap, !length_fmap, !map_size_fmap.
  intros Hfit Hv (Ho & Hm & Hd).
  destruct (mAllRitems a !! i) as [ri|] eqn:Hri; [|discriminate]. simpl in Hv.
  unfold item_view in Hv.
  destruct (RenderItem.Mat ri) as [k|] eqn:Hk; [|discriminate].
  destruct (RenderItem.Geo ri) as [geo|] eqn:Hg; [|discriminate].
  rewrite lookup_fmap in Hv.
  destruct (mMaterials a !! k) as [mat|] eqn:Hmat; [|discriminate]. simpl in Hv.
  destruct (mSrvDescriptorHeap a) as [n|] eqn:Hn; [|discriminate].
  apply andb_true_iff in Hv as [[Hv1 Hv2]%andb_true_iff Hv3].
  apply bool_decide_eq_true in Hv1, Hv2, Hv3.
  apply andb_true_iff in Hfit as [[[Hf1 Hf2]%andb_true_iff Hf3]%andb_true_iff Hf4].
  apply bool_decide_eq_true in Hf2, Hf3, Hf4.
  unfold DrawRenderItem, material_of, bind. unfold_prims. simpl.
  rewrite Hri, Hk, Hg, Hmat. simpl. eexists. split; [reflexivity|].
  assert (Ht := offset_in_bounds (Material.DiffuseSrvHeapIndex mat)
                  (mCbvSrvDescriptorSize a) n Hv3 ltac:(lia) Hd).
  unfold forallb at 1, event_in_bounds, cmd_in_bounds, tex_offset, objCB_offset,
    matCB_offset. cbn [ix_heap ix_frames ix_descsize andb].
  destruct (decide ("mSrvDescriptorHeap" = "mSrvDescriptorHeap")); [|congruence].
  rewrite !andb_true_r. repeat (apply andb_true_iff; split).
  - apply bool_decide_eq_true. exact Ht.
  - rewrite forallb_forall in *. intros c Hc. specialize (Hf1 c Hc).
    apply bool_decide_eq_true in Hf1. subst c. simpl.
    apply bool_decide_eq_true. apply offset_in_bounds; lia.
  - rewrite forallb_forall in *. intros c Hc. specialize (Hf1 c Hc).
    apply bool_decide_eq_true in Hf1. subst c. simpl.
    apply bool_decide_eq_true. apply offset_in_bounds; lia.
Qed.

Section MaintainRules.
Context {S : Type}.

Lemma maintains_bind {A B} I P (m : M S A) (k : A -> M S B) :
  maintains I P m -> (forall a, maintains I P (k a)) -> maintains I P (bind m k).
Proof.
  intros Hm Hk st b st2 t HI (a & st1 & t1 & t2 & H1 & H2 & ->)%bind_Some.
  destruct (Hm _ _ _ _ HI H1) as [HI1 Ht1].
  destruct (Hk _ _ _ _ _ HI1 H2) as [HI2 Ht2].
  split; [exact HI2|]. rewrite forallb_app, Ht1, Ht2. reflexivity.
Qed.

Lemma maintains_quiet {A} (I : D3DApp * S -> Prop) P (m : M S A) :
  keeps I m -> calls P m -> maintains I P m.
Proof. intros Hk Hc st a st' t HI H. split; [eapply Hk | eapply Hc]; eauto. Qed.

Lemma maintains_run I P (step : Action -> M S unit) acts :
  (forall act, maintains I P (step act)) -> maintains I P (run step acts).
Proof.
  intros Hstep. induction acts as [|act acts IH]; simpl.
  - apply maintains_quiet; [apply readonly_keeps, readonly_ret | apply calls_ret].
  - apply maintains_bind; [apply Hstep | intros; exact IH].
Qed.
End MaintainRules.

Lemma update_in_bounds {X} env v (rest : M (App X) unit) :
  fills_current rest -> calls (event_in_bounds env v) (CycleFrameResources ;;; rest).
Proof.
  intros Hrest. eapply calls_weaken; [|apply update_calls, Hrest].
  intros [] He; try discriminate; reflexivity.
Qed.

Lemma DrawTail_in_bounds {X} env v :
  calls (event_in_bounds env v) (@CloseAndExecute X ;;; PresentAndSignal env).
Proof.
  unfold CloseAndExecute, PresentAndSignal, PresentAndSwap, Present,
    ExecuteCommandLists, Signal, set_frame. method.
Qed.

Lemma crate_drawn_step `{DirectXMath} env act : preserves crate_drawn (crate_step env act).
Proof.
  destruct act as [gt|gt|x y|btn x y|w|]; simpl.
  - unfold CrateApp.Update, CrateApp.UpdateBuffers, CrateApp.UpdateSampler,
      CrateApp.AnimateMaterials, CrateApp.CreateSamplerDescriptor, CrateApp.upd_ext,
      CycleFrameResources, UpdateObjectCBs, UpdateMaterialCBs, UpdateMainPassCB,
      WaitForFence, set_frame.
    method.
  - unfold CrateApp.Draw. apply preserves_bind.
    + apply readonly_preserves, crate_RecordScene_readonly.
    + intros _. unfold CloseAndExecute, PresentAndSignal, PresentAndSwap, Present,
        ExecuteCommandLists, Signal, set_frame. method.
  - method.
  - unfold CrateApp.OnMouseMove. method.
  - unfold CrateApp.OnKeyDown, CrateApp.ScaleTexTransform, CrateApp.ChangeSamplerFilter,
      CrateApp.ChangeSamplerAddressMode, CrateApp.MarkSamplerDirty, CrateApp.upd_ext.
    method.
  - unfold GpuProgress. method.
Qed.

Lemma crate_draws_step `{DirectXMath} env v l act :
  keeps (crate_draws v l) (crate_step env act).
Proof.
  intros st a st' t [Hv Hl] Hs. split.
  - rewrite (index_view_crate_step env act _ _ _ _ Hs). exact Hv.
  - rewrite (crate_drawn_step env act _ _ _ _ Hs). exact Hl.
Qed.

Lemma crate_DrawOpaqueItem_in_bounds `{DirectXMath} env v l k pso wire sig :
  indices_ok env v l ->
  maintains (crate_draws v l) (event_in_bounds env v)
            (CrateApp.DrawOpaqueItem env k pso wire sig).
Proof.
  intros (Hfit & Hval & Hsz) [b a] u st' t [Hv Hl].
  unfold crate_drawn in Hl. simpl in Hl.
  unfold CrateApp.DrawOpaqueItem. unfold bind at 1. unfold this at 1. simpl.
  rewrite Hl. destruct (l !! k) as [i|] eqn:Hk; [|discriminate].
  assert (Hi : item_indices_valid v i = true).
  { rewrite forallb_forall in Hval. apply Hval.
    apply list_elem_of_In. eapply list_elem_of_lookup_2; eauto. }
  rewrite <- Hv in Hfit, Hi, Hsz.
  destruct (DrawRenderItem_in_bounds env (b, a) i Hfit Hi Hsz) as (td & Hd & Hb).
  unfold bind. unfold_prims. simpl. rewrite Hd. simpl.
  intros [= <- <- <-]. split; [split; assumption|].
  rewrite Hv in Hb.
  match goal with
  | |- forallb ?P (?e1 :: ?e2 :: ?e3 :: ?e4 :: td) = true =>
      change (forallb P ([e1; e2; e3; e4] ++ td) = true)
  end.
  rewrite forallb_app, Hb, andb_true_r. reflexivity.
Qed.

Lemma crate_RecordScene_in_bounds `{DirectXMath} env v l :
  indices_ok env v l ->
  maintains (crate_draws v l) (event_in_bounds env v) (CrateApp.RecordScene env).
Proof.
  intros Hok. unfold CrateApp.RecordScene.
  apply maintains_bind.
  - apply maintains_quiet; [apply readonly_keeps, readonly_BeginDraw|].
    unfold BeginDraw. method.
  - intros _. apply maintains_bind; [|intros _];
      apply crate_DrawOpaqueItem_in_bounds, Hok.
Qed.

Lemma crate_step_in_bounds `{DirectXMath} env v l act :
  indices_ok env v l ->
  maintains (crate_draws v l) (event_in_bounds env v) (crate_step env act).
Proof.
  intros Hok st u st' t HI Hs. split; [exact (crate_draws_step env v l act _ _ _ _ HI Hs)|].
  revert Hs. destruct act as [gt|gt|x y|btn x y|w|]; simpl.
  - apply (update_in_bounds env v _ (crate_UpdateBuffers_fills gt)).
  - unfold CrateApp.Draw. intros (u1 & st1 & t1 & t2 & H1 & H2 & ->)%bind_Some.
    destruct (crate_RecordScene_in_bounds env v l Hok _ _ _ _ HI H1) as [_ Ht1].
    rewrite forallb_app, Ht1. exact (DrawTail_in_bounds env v _ _ _ _ H2).
  - generalize st u st' t. change (calls (event_in_bounds env v)
      (set_this (fun a : CrateApp.t => set_mCamera (OnMouseDown x y (mCamera a)) a))).
    method.
  - generalize st u st' t.
    change (calls (event_in_bounds env v) (CrateApp.OnMouseMove btn x y)).
    unfold CrateApp.OnMouseMove. method.
  - generalize st u st' t. change (calls (event_in_bounds env v) (CrateApp.OnKeyDown w)).
    unfold CrateApp.OnKeyDown, CrateApp.ScaleTexTransform, CrateApp.ChangeSamplerFilter,
      CrateApp.ChangeSamplerAddressMode, CrateApp.MarkSamplerDirty, CrateApp.upd_ext.
    method.
  - generalize st u st' t. change (calls (event_in_bounds env v) (@GpuProgress CrateApp.t)).
    unfold GpuProgress. method.
Qed.

Lemma crate_built_indices_ok env b mouse :
  env_small env ->
  indices_ok env (index_view (b, crate_built env mouse))
                 (crate_drawn (b, crate_built env mouse)).
Proof.
  intros Hs. split; [|split].
  - vm_compute. reflexivity.
  - vm_compute. reflexivity.
  - exact Hs.
Qed.

(** ** C10 and C7 for BlendApp: the bolt animation and the drawn items *)

Lemma next_bolt_offset_eq off n :
  0 < n -> 3 <= off < 3 + n -> 3 + n <= 2 ^ 32 ->
  BlendApp.next_bolt_offset off n = (off - 3 + 1) mod n + 3 /\
  3 <= BlendApp.next_bolt_offset off n < 3 + n /\
  BlendApp.next_bolt_offset off n = (if off + 1 <? 3 + n then off + 1 else 3).
Proof.
  intros Hn Hoff Hmax. unfold BlendApp.next_bolt_offset.
  rewrite (to_UINT_small (off - 3)) by lia.
  rewrite (to_UINT_small (off - 3 + 1)) by lia.
  assert (Hm := Z.mod_pos_bound (off - 3 + 1) n Hn).
  rewrite to_UINT_small by lia.
  split; [reflexivity|]. split; [lia|].
  destruct (off + 1 <? 3 + n) eqn:Hlt.
  - apply Z.ltb_lt in Hlt. rewrite Z.mod_small by lia. lia.
  - apply Z.ltb_ge in Hlt. replace (off - 3 + 1) with n by lia.
    rewrite Z.mod_same by lia. reflexivity.
Qed.

Lemma bolt_after_next off :
  3 <= off < 63 -> BlendApp.next_bolt_offset off 60 = bolt_after 1 off.
Proof.
  intros Hoff. destruct (next_bolt_offset_eq off 60) as (-> & _); try lia.
  unfold bolt_after. lia.
Qed.

Lemma bolt_after_add j k off :
  bolt_after j (bolt_after k off) = bolt_after (k + j) off.
Proof.
  unfold bolt_after. replace (3 + (off - 3 + k) mod 60 - 3 + j)
    with ((off - 3 + k) mod 60 + j) by lia.
  rewrite Zplus_mod_idemp_l. f_equal. f_equal. lia.
Qed.

Lemma bolt_after_0 off : 3 <= off < 63 -> bolt_after 0 off = off.
Proof. intros H. unfold bolt_after. rewrite Z.add_0_r, Z.mod_small; lia. Qed.

Lemma event_in_bounds_with_bolt env off v e :
  event_in_bounds env (with_bolt off v) e = event_in_bounds env v e.
Proof. destruct e; reflexivity. Qed.

Lemma with_bolt_valid env v layers off :
  blend_indices_ok env v layers -> 3 <= off < 63 ->
  buffers_fit (with_bolt off v) = true /\
  small_sizes env (with_bolt off v) /\
  forall l, forallb (item_indices_valid (with_bolt off v)) (layers l) = true.
Proof.
  intros (Hfit & Hval & Hsz & Hbolt & Hheap) Hoff.
  assert (Hsize : size (<["boltAnim" := (3, off)]> (ix_materials v))
                  = size (ix_materials v)).
  { apply map_size_insert_Some. eauto. }
  split; [|split].
  - unfold buffers_fit, with_bolt in *. simpl. rewrite Hsize. exact Hfit.
  - exact Hsz.
  - intros l. specialize (Hval l). rewrite forallb_forall in *.
    intros i Hi. specialize (Hval i Hi).
    unfold item_indices_valid, with_bolt in *. simpl. rewrite Hsize.
    destruct (ix_items v !! i) as [[[obj [k|]] [g|]]|]; try discriminate.
    rewrite Hheap in *.
    destruct (decide (k = "boltAnim")) as [->|Hk].
    + rewrite lookup_insert_eq. rewrite Hbolt in Hval.
      apply andb_true_iff in Hval as [Hv1 _]. rewrite Hv1. simpl.
      apply bool_decide_eq_true. lia.
    + rewrite lookup_insert_ne by congruence. exact Hval.
Qed.

Section ExtFacts.
Context {X V : Type} (g : X -> V).

Lemma ext_CycleFrameResources :
  preserves (fun st => g (ext (snd st))) (@CycleFrameResources X).
Proof. unfold CycleFrameResources, WaitForFence. method. Qed.

Lemma ext_UpdateObjectCBs : preserves (fun st => g (ext (snd st))) (@UpdateObjectCBs X).
Proof. unfold UpdateObjectCBs, set_frame. method. Qed.

Lemma ext_UpdateMaterialCBs :
  preserves (fun st => g (ext (snd st))) (@UpdateMaterialCBs X).
Proof. unfold UpdateMaterialCBs, set_frame. method. Qed.

Lemma ext_UpdateMainPassCB : preserves (fun st => g (ext (snd st))) (@UpdateMainPassCB X).
Proof. unfold UpdateMainPassCB. method. Qed.

Lemma ext_DrawTail env :
  preserves (fun st => g (ext (snd st))) (@CloseAndExecute X ;;; PresentAndSignal env).
Proof.
  unfold CloseAndExecute, PresentAndSignal, PresentAndSwap, Present,
    ExecuteCommandLists, Signal, set_frame. method.
Qed.
End ExtFacts.

Lemma preserves_pair {S A V W} (f : D3DApp * S -> V) (g : D3DApp * S -> W) (m : M S A) :
  preserves f m -> preserves g m -> preserves (fun st => (f st, g st)) m.
Proof. intros Hf Hg st a st' t H. rewrite (Hf _ _ _ _ H), (Hg _ _ _ _ H). reflexivity. Qed.

Lemma blend_draws_static {A} v layers (m : M BlendApp.t A) :
  preserves blend_static m -> keeps (blend_draws v layers) m.
Proof.
  intros Hm st a st' t HI H. specialize (Hm _ _ _ _ H).
  pose proof (f_equal fst Hm) as Hv. pose proof (f_equal snd Hm) as He.
  simpl in Hv, He. unfold blend_members in He. injection He as Ho Ht Hl Hp.
  unfold blend_draws, overdraw_slot_ok, overdraw_resources in *.
  unfold bolt_offset, bolt_count, blend_drawn in *.
  rewrite Hv, Ho, Ht, Hl, Hp. exact HI.
Qed.

Lemma blend_static_UpdateWaves gt : preserves blend_static (BlendApp.UpdateWaves gt).
Proof.
  unfold BlendApp.UpdateWaves, BlendApp.upd_ext, when. method.
Qed.

Lemma blend_static_shared env :
  preserves blend_static (@CycleFrameResources BlendApp.Ext) /\
  preserves blend_static (@UpdateObjectCBs BlendApp.Ext) /\
  preserves blend_static (@UpdateMaterialCBs BlendApp.Ext) /\
  preserves blend_static (@UpdateMainPassCB BlendApp.Ext) /\
  preserves blend_static (@CloseAndExecute BlendApp.Ext ;;; PresentAndSignal env).
Proof.
  split; [|split; [|split; [|split]]]; apply preserves_pair.
  - apply index_view_CycleFrameResources.
  - apply (ext_CycleFrameResources blend_members).
  - apply index_view_UpdateObjectCBs.
  - apply (ext_UpdateObjectCBs blend_members).
  - apply index_view_UpdateMaterialCBs.
  - apply (ext_UpdateMaterialCBs blend_members).
  - apply index_view_UpdateMainPassCB.
  - apply (ext_UpdateMainPassCB blend_members).
  - apply index_view_DrawTail.
  - apply (ext_DrawTail blend_members).
Qed.

#[local] Opaque f32.add f32.sub f32.mul f32.div f32.leb f32.ltb f32.lit f32.of_int.

Lemma blend_AnimateMaterials_bolt v layers gt st st' t :
  blend_draws v layers st ->
  BlendApp.AnimateMaterials gt st = Some (tt, st', t) ->
  blend_draws v layers st' /\
  (bolt_offset st' = bolt_offset st \/
   bolt_offset st' = BlendApp.next_bolt_offset (bolt_offset st) (bolt_count st)).
Proof.
  intros (Hoff & Hcount & Hv & Hl & Hq).
  destruct st as [b a].
  unfold bolt_offset, bolt_count, blend_drawn, overdraw_slot_ok, overdraw_resources,
    bolt_count in *. simpl in *.
  unfold BlendApp.AnimateMaterials, BlendApp.set_material, BlendApp.upd_ext, bind.
  unfold_prims. simpl.
  destruct (mMaterials a !! "water") as [w|] eqn:Hw; [|discriminate]. simpl.
  rewrite lookup_insert_ne by discriminate.
  match goal with
  | |- context [<["water" := ?x]> (mMaterials a)] =>
      assert (HW : material_view x = material_view w) by reflexivity;
      generalize dependent x; intros W HW
  end.
  assert (Hwater : material_view <$> <["water" := W]> (mMaterials a)
                   = material_view <$> mMaterials a)
    by (apply (map_fmap_insert_same _ _ _ w); assumption).
  destruct (f32.leb (f32.div _ _) _).
  - destruct (mMaterials a !! "boltAnim") as [m|] eqn:Hm; [|discriminate].
    rewrite Hcount. simpl. intros [= <- <-].
    unfold blend_draws, overdraw_slot_ok, overdraw_resources.
    unfold bolt_offset, bolt_count, blend_drawn. simpl.
    destruct (next_bolt_offset_eq (BlendApp.mBoltAnimSrvOffsetInHeap (ext a)) 60)
      as (Hn1 & Hn2 & Hn3); [lia | lia | lia |].
    split; [|right; reflexivity].
    split; [lia|]. split; [first [reflexivity | exact Hcount]|].
    split; [|split; assumption].
    unfold index_view in *. simpl in *. injection Hv as Hi Hmat Hfr Hh Hd.
    unfold with_bolt. simpl. f_equal; try assumption.
    rewrite fmap_insert, Hwater, Hmat, insert_insert_eq. f_equal.
    assert (Hlk : (material_view <$> mMaterials a) !! "boltAnim"
                  = Some (material_view m)) by (rewrite lookup_fmap, Hm; reflexivity).
    rewrite Hmat, lookup_insert_eq in Hlk.
    unfold material_view in Hlk. injection Hlk as Hcb _.
    unfold material_view. simpl. rewrite <- Hcb.
    f_equal. unfold to_int. rewrite Z.mod_small; lia.
  - simpl. intros [= <- <-].
    unfold blend_draws, overdraw_slot_ok, overdraw_resources.
    unfold bolt_offset, bolt_count, blend_drawn. simpl.
    split; [|left; reflexivity].
    split; [lia|]. split; [exact Hcount|]. split; [|split; assumption].
    unfold index_view in *. simpl in *. injection Hv as Hi Hmat Hfr Hh Hd.
    unfold with_bolt. simpl. f_equal; try assumption.
    rewrite Hwater. exact Hmat.
Qed.

#[local] Transparent f32.add f32.sub f32.mul f32.div f32.leb f32.ltb f32.lit f32.of_int.

Lemma DrawRenderItems_in_bounds {X} env (st : D3DApp * App X) l :
  buffers_fit (index_view st) = true ->
  forallb (item_indices_valid (index_view st)) l = true ->
  small_sizes env (index_view st) ->
  exists t, DrawRenderItems env l st = Some (tt, st, t) /\
            forallb (event_in_bounds env (index_view st)) t = true.
Proof.
  intros Hfit Hval Hsz. induction l as [|i l IH]; simpl in *.
  - exists []. split; reflexivity.
  - apply andb_true_iff in Hval as [Hi Hl].
    destruct (DrawRenderItem_in_bounds env st i Hfit Hi Hsz) as (t1 & H1 & Hb1).
    destruct (IH Hl) as (t2 & H2 & Hb2).
    exists (t1 ++ t2). unfold bind. rewrite H1, H2. split; [reflexivity|].
    rewrite forallb_app, Hb1, Hb2. reflexivity.
Qed.

Lemma blend_static_offset st st' :
  blend_static st' = blend_static st -> bolt_offset st' = bolt_offset st.
Proof.
  intros H. pose proof (f_equal snd H) as He. simpl in He.
  unfold blend_members in He. injection He as Ho _ _ _. exact Ho.
Qed.

Lemma blend_static_rest gt :
  preserves blend_static
    (@UpdateObjectCBs BlendApp.Ext ;;; UpdateMaterialCBs ;;; UpdateMainPassCB ;;;
     BlendApp.UpdateWaves gt).
Proof.
  destruct (blend_static_shared sample_env) as (_ & Ho & Hm & Hp & _).
  repeat (apply preserves_bind; [assumption | intros _]).
  apply blend_static_UpdateWaves.
Qed.

Lemma blend_Update_bolt v layers gt st st' t :
  blend_draws v layers st ->
  BlendApp.Update gt st = Some (tt, st', t) ->
  blend_draws v layers st' /\
  (bolt_offset st' = bolt_offset st \/
   bolt_offset st' = BlendApp.next_bolt_offset (bolt_offset st) (bolt_count st)).
Proof.
  intros HI. unfold BlendApp.Update, BlendApp.UpdateBuffers.
  intros (r & s1 & t1 & t2 & H1 & H2 & _)%bind_Some.
  apply bind_Some in H2 as (u & s2 & t3 & t4 & H2 & H3 & _). destruct u.
  destruct (blend_static_shared sample_env) as (Hc & _).
  pose proof (Hc _ _ _ _ H1) as Hs1.
  pose proof (blend_draws_static v layers _ Hc _ _ _ _ HI H1) as HI1.
  destruct (blend_AnimateMaterials_bolt v layers gt s1 s2 t3 HI1 H2)
    as [HI2 Hmove].
  pose proof (blend_static_rest gt _ _ _ _ H3) as Hs3.
  pose proof (blend_draws_static v layers _ (blend_static_rest gt) _ _ _ _ HI2 H3) as HI3.
  split; [exact HI3|].
  rewrite (blend_static_offset _ _ Hs3).
  replace (bolt_offset st) with (bolt_offset s1)
    by (apply blend_static_offset, Hs1).
  replace (bolt_count st) with (bolt_count s1); [exact Hmove|].
  pose proof (f_equal snd Hs1) as He. simpl in He. unfold blend_members in He.
  injection He as _ Ht _ _. unfold bolt_count. rewrite Ht. reflexivity.
Qed.

Lemma blend_CreateResources_draws v layers :
  keeps (blend_draws v layers) BlendApp.CreateResourcesForPixelOverdrawMode.
Proof.
  intros [b a] u st' t (Hoff & Hcount & Hv & Hl & Hq).
  unfold BlendApp.CreateResourcesForPixelOverdrawMode.
  unfold bind at 1. unfold this at 1. simpl.
  destruct (BlendApp.mPixelOverdrawResources (ext a)) as [p|] eqn:Hp.
  - intros [= _ <- _]. exact (conj Hoff (conj Hcount (conj Hv (conj Hl Hq)))).
  - unfold BlendApp.BuildPSOsForSceneRendering, CreateDefaultBuffer, BlendApp.upd_ext,
      bind.
    unfold_prims. simpl. intros [= _ <- _].
    unfold blend_draws, overdraw_slot_ok, overdraw_resources in *.
    unfold bolt_offset, bolt_count, blend_drawn in *. simpl in *.
    refine (conj Hoff (conj Hcount (conj Hv (conj Hl _)))).
    intros r [= <-]. simpl. rewrite Hcount. reflexivity.
Qed.

Lemma blend_DrawLayer_in_bounds env v layers name l :
  blend_indices_ok env v layers ->
  maintains (blend_draws v layers) (event_in_bounds env v)
            (BlendApp.DrawLayer env name l).
Proof.
  intros Hok [b a] u st' t HI.
  pose proof HI as (Hoff & Hcount & Hv & Hl & Hq).
  rewrite Hcount in Hoff.
  destruct (with_bolt_valid env v layers _ Hok Hoff) as (Hfit & Hsz & Hval).
  specialize (Hval l). rewrite <- Hv in Hfit, Hsz, Hval.
  destruct (DrawRenderItems_in_bounds env (b, a) (layers l) Hfit Hval Hsz)
    as (td & Hd & Hb).
  rewrite Hv in Hb.
  apply (forallb_weaken _ (event_in_bounds env v)) in Hb;
    [|intros e He; rewrite event_in_bounds_with_bolt in He; exact He].
  unfold blend_drawn in Hl. simpl in Hl.
  unfold BlendApp.DrawLayer, BlendApp.GetPsoForSceneRendering, bind.
  unfold_prims. simpl.
  destruct (decide _); [destruct (BlendApp.mPixelOverdrawResources _); [|discriminate]|];
    simpl; rewrite Hl, Hd; simpl; intros [= <- <- <-]; (split; [exact HI|]);
    simpl; exact Hb.
Qed.

Lemma blend_DrawOverdrawQuad_in_bounds env v layers :
  blend_indices_ok env v layers ->
  maintains (blend_draws v layers) (event_in_bounds env v) BlendApp.DrawOverdrawQuad.
Proof.
  intros (Hfit & Hval & Hsz & Hbolt & Hheap) [b a] u st' t HI.
  pose proof HI as (Hoff & Hcount & Hv & Hl & Hq).
  unfold overdraw_slot_ok, overdraw_resources in Hq. simpl in Hq.
  unfold BlendApp.DrawOverdrawQuad, bind. unfold_prims. simpl.
  destruct (BlendApp.mPixelOverdrawResources (ext a)) as [r|]; [|discriminate].
  simpl. intros [= <- <- <-]. split; [exact HI|].
  specialize (Hq r eq_refl). rewrite Hcount in Hq.
  assert (Hd : mCbvSrvDescriptorSize a = ix_descsize v).
  { change (ix_descsize (index_view (b, a)) = ix_descsize v). rewrite Hv. reflexivity. }
  destruct Hsz as (_ & _ & Hsz).
  destruct (offset_in_bounds (BlendApp.srvOffsetInHeap r) (ix_descsize v) 64)
    as [Hlo Hhi]; [lia | lia | exact Hsz |].
  unfold forallb, event_in_bounds, cmd_in_bounds. rewrite Hheap, Hd.
  destruct (decide ("mSrvDescriptorHeap" = "mSrvDescriptorHeap")); [|congruence].
  rewrite !andb_true_r. apply bool_decide_eq_true. split; assumption.
Qed.

Lemma blend_RecordScene_in_bounds env v layers :
  blend_indices_ok env v layers ->
  maintains (blend_draws v layers) (event_in_bounds env v) (BlendApp.RecordScene env).
Proof.
  intros Hok. unfold BlendApp.RecordScene.
  assert (Hlayer : forall name l,
            maintains (blend_draws v layers) (event_in_bounds env v)
                      (BlendApp.DrawLayer env name l))
    by (intros; apply blend_DrawLayer_in_bounds, Hok).
  assert (Hskip : maintains (blend_draws v layers) (event_in_bounds env v)
                            (ret (S:=BlendApp.t) tt))
    by (apply maintains_quiet; [apply readonly_keeps, readonly_ret | apply calls_ret]).
  apply maintains_bind.
  { apply maintains_quiet; [apply readonly_keeps, readonly_BeginDraw|].
    unfold BeginDraw. method. }
  intros _. apply maintains_bind.
  { apply maintains_quiet; [apply readonly_keeps, readonly_record | method]. }
  intros _. apply maintains_bind.
  { apply maintains_quiet; [apply readonly_keeps, readonly_record | method]. }
  intros _. apply maintains_bind.
  { apply maintains_quiet; [apply readonly_keeps, readonly_this | method]. }
  intros a. apply maintains_bind.
  { unfold when. case_match; [|exact Hskip].
    apply maintains_quiet; [apply blend_CreateResources_draws|].
    unfold BlendApp.CreateResourcesForPixelOverdrawMode,
      BlendApp.BuildPSOsForSceneRendering, CreateDefaultBuffer, BlendApp.upd_ext.
    method. }
  intros _. apply maintains_bind.
  { unfold when. case_match; [|exact Hskip].
    apply maintains_bind; [|intros _]; apply Hlayer. }
  intros _. apply maintains_bind; [apply Hlayer|].
  intros _. apply maintains_bind; [apply Hlayer|].
  intros _. apply maintains_bind.
  { unfold when. case_match; [|exact Hskip].
    apply maintains_bind; [|intros _]; apply Hlayer. }
  intros _. unfold when. case_match; [|exact Hskip].
  apply blend_DrawOverdrawQuad_in_bounds, Hok.
Qed.

Lemma blend_static_quiet env act :
  is_update act = false -> is_draw act = false ->
  preserves blend_static (blend_step env act).
Proof.
  destruct act as [gt|gt|x y|btn x y|w|]; simpl; try discriminate; intros _ _;
    apply preserves_pair.
  - method.
  - method.
  - unfold BlendApp.OnMouseMove. method.
  - unfold BlendApp.OnMouseMove. method.
  - unfold BlendApp.OnKeyDown, BlendApp.ChangeRenderMode, BlendApp.upd_ext. method.
  - unfold BlendApp.OnKeyDown, BlendApp.ChangeRenderMode, BlendApp.upd_ext. method.
  - unfold GpuProgress. method.
  - unfold GpuProgress. method.
Qed.

Lemma blend_Draw_in_bounds env v layers gt :
  blend_indices_ok env v layers ->
  maintains (blend_draws v layers) (event_in_bounds env v) (BlendApp.Draw env gt).
Proof.
  intros Hok. unfold BlendApp.Draw. apply maintains_bind.
  - apply blend_RecordScene_in_bounds, Hok.
  - intros _. destruct (blend_static_shared env) as (_ & _ & _ & _ & Ht).
    apply maintains_quiet;
      [apply blend_draws_static, Ht | apply DrawTail_in_bounds].
Qed.

Lemma blend_Draw_offset env gt : preserves bolt_offset (BlendApp.Draw env gt).
Proof.
  unfold BlendApp.Draw, BlendApp.RecordScene, BlendApp.DrawLayer,
    BlendApp.DrawOverdrawQuad, BlendApp.GetPsoForSceneRendering,
    BlendApp.CreateResourcesForPixelOverdrawMode,
    BlendApp.BuildPSOsForSceneRendering, CreateDefaultBuffer, BlendApp.upd_ext,
    CloseAndExecute, PresentAndSignal, PresentAndSwap, Present,
    ExecuteCommandLists, Signal, set_frame.
  method.
Qed.

Lemma blend_step_in_bounds env v layers act st st' t :
  blend_indices_ok env v layers ->
  blend_draws v layers st ->
  blend_step env act st = Some (tt, st', t) ->
  blend_draws v layers st' /\
  forallb (event_in_bounds env v) t = true /\
  bolt_moves (if is_update act then 1 else 0) st st'.
Proof.
  intros Hok HI Hs.
  pose proof HI as (Hoff & Hcount & _). rewrite Hcount in Hoff.
  destruct (is_update act) eqn:Hu; [|destruct (is_draw act) eqn:Hd].
  - destruct act as [gt| | | | |]; try discriminate. simpl in Hs.
    destruct (blend_Update_bolt v layers gt _ _ _ HI Hs) as [HI' Hm].
    split; [exact HI'|]. split.
    + exact (update_in_bounds env v _ (blend_UpdateBuffers_fills gt) _ _ _ _ Hs).
    + destruct Hm as [Hm|Hm].
      * exists 0. rewrite Hm, bolt_after_0; [lia | exact Hoff].
      * exists 1. rewrite Hm, Hcount, bolt_after_next; [lia | exact Hoff].
  - destruct act as [|gt| | | |]; try discriminate. simpl in Hs.
    destruct (blend_Draw_in_bounds env v layers gt Hok _ _ _ _ HI Hs) as [HI' Ht].
    split; [exact HI'|]. split; [exact Ht|].
    exists 0. rewrite (blend_Draw_offset env gt _ _ _ _ Hs), bolt_after_0;
      [lia | exact Hoff].
  - pose proof (blend_static_quiet env act Hu Hd) as Hp.
    split; [exact (blend_draws_static v layers _ Hp _ _ _ _ HI Hs)|]. split.
    + revert Hs. generalize st tt st' t.
      change (calls (event_in_bounds env v) (blend_step env act)).
      destruct act as [gt|gt|x y|btn x y|w|]; try discriminate; simpl.
      * method.
      * unfold BlendApp.OnMouseMove. method.
      * unfold BlendApp.OnKeyDown, BlendApp.ChangeRenderMode, BlendApp.upd_ext. method.
      * unfold GpuProgress. method.
    + exists 0. rewrite (blend_static_offset _ _ (Hp _ _ _ _ Hs)), bolt_after_0;
        [lia | exact Hoff].
Qed.

Lemma blend_run_in_bounds env v layers acts st st' t :
  blend_indices_ok env v layers ->
  blend_draws v layers st ->
  run (blend_step env) acts st = Some (tt, st', t) ->
  blend_draws v layers st' /\
  forallb (event_in_bounds env v) t = true /\
  bolt_moves (count_updates acts) st st'.
Proof.
  intros Hok. revert st t. induction acts as [|act acts IH]; intros st t HI; simpl.
  - intros [= <- <-]. split; [exact HI|]. split; [reflexivity|].
    destruct HI as (Hoff & Hcount & _). rewrite Hcount in Hoff.
    exists 0. rewrite bolt_after_0; [|exact Hoff]. unfold count_updates. simpl. lia.
  - intros (u & s1 & t1 & t2 & H1 & H2 & ->)%bind_Some. destruct u.
    destruct (blend_step_in_bounds env v layers act _ _ _ Hok HI H1)
      as (HI1 & Ht1 & k1 & Hk1 & Ho1).
    destruct (IH _ _ HI1 H2) as (HI2 & Ht2 & k2 & Hk2 & Ho2).
    split; [exact HI2|]. split; [rewrite forallb_app, Ht1, Ht2; reflexivity|].
    exists (k1 + k2). rewrite Ho2, Ho1, bolt_after_add. split; [|reflexivity].
    rewrite count_updates_cons. destruct (is_update act); lia.
Qed.

Lemma blend_built_indices_ok env b mouse :
  env_small env ->
  blend_indices_ok env (index_view (b, blend_built env mouse))
                       (blend_drawn (b, blend_built env mouse)).
Proof.
  intros Hs.
  split; [vm_compute; reflexivity|]. split.
  - intros []; vm_compute; reflexivity.
  - split; [exact Hs|]. split; vm_compute; reflexivity.
Qed.

Lemma blend_built_draws env b mouse :
  blend_draws (index_view (b, blend_built env mouse))
              (blend_drawn (b, blend_built env mouse)) (b, blend_built env mouse).
Proof.
  split; [vm_compute; split; [discriminate | reflexivity]|].
  split; [vm_compute; reflexivity|]. split; [vm_compute; reflexivity|].
  split; [reflexivity|].
  intros r Hr.
  assert (Hn : overdraw_resources (b, blend_built env mouse) = None)
    by (vm_compute; reflexivity).
  rewrite Hn in Hr. discriminate Hr.
Qed.

Lemma blend_Draw_draws env v layers gt :
  keeps (blend_draws v layers) (BlendApp.Draw env gt).
Proof.
  assert (Hq : forall A (m : M BlendApp.t A),
            preserves index_view m ->
            preserves (fun st => blend_members (ext (snd st))) m ->
            keeps (blend_draws v layers) m).
  { intros A m H1 H2. apply blend_draws_static, preserves_pair; assumption. }
  assert (Hl : forall name l, keeps (blend_draws v layers) (BlendApp.DrawLayer env name l)).
  { intros. apply readonly_keeps.
    unfold BlendApp.DrawLayer, BlendApp.GetPsoForSceneRendering. method. }
  unfold BlendApp.Draw, BlendApp.RecordScene. apply keeps_bind.
  - apply keeps_bind; [apply readonly_keeps, readonly_BeginDraw|]. intros _.
    apply keeps_bind; [apply readonly_keeps, readonly_record|]. intros _.
    apply keeps_bind; [apply readonly_keeps, readonly_record|]. intros _.
    apply keeps_bind; [apply readonly_keeps, readonly_this|]. intros a.
    apply keeps_bind.
    { unfold when. case_match; [apply blend_CreateResources_draws|].
      apply readonly_keeps, readonly_ret. }
    intros _. apply readonly_keeps.
    unfold when, BlendApp.DrawLayer, BlendApp.DrawOverdrawQuad,
      BlendApp.GetPsoForSceneRendering. method.
  - intros _. destruct (blend_static_shared env) as (_ & _ & _ & _ & Ht).
    apply blend_draws_static, Ht.
Qed.

Lemma blend_step_bolt env v layers act st st' t :
  blend_draws v layers st ->
  blend_step env act st = Some (tt, st', t) ->
  blend_draws v layers st' /\
  bolt_moves (if is_update act then 1 else 0) st st'.
Proof.
  intros HI Hs.
  pose proof HI as (Hoff & Hcount & _). rewrite Hcount in Hoff.
  destruct (is_update act) eqn:Hu; [|destruct (is_draw act) eqn:Hd].
  - destruct act as [gt| | | | |]; try discriminate. simpl in Hs.
    destruct (blend_Update_bolt v layers gt _ _ _ HI Hs) as [HI' Hm].
    split; [exact HI'|]. destruct Hm as [Hm|Hm].
    + exists 0. rewrite Hm, bolt_after_0; [lia | exact Hoff].
    + exists 1. rewrite Hm, Hcount, bolt_after_next; [lia | exact Hoff].
  - destruct act as [|gt| | | |]; try discriminate. simpl in Hs.
    split; [exact (blend_Draw_draws env v layers gt _ _ _ _ HI Hs)|].
    exists 0. rewrite (blend_Draw_offset env gt _ _ _ _ Hs), bolt_after_0;
      [lia | exact Hoff].
  - pose proof (blend_static_quiet env act Hu Hd) as Hp.
    split; [exact (blend_draws_static v layers _ Hp _ _ _ _ HI Hs)|].
    exists 0. rewrite (blend_static_offset _ _ (Hp _ _ _ _ Hs)), bolt_after_0;
      [lia | exact Hoff].
Qed.

Lemma blend_run_bolt env v layers acts st st' t :
  blend_draws v layers st ->
  run (blend_step env) acts st = Some (tt, st', t) ->
  blend_draws v layers st' /\
  bolt_moves (count_updates acts) st st'.
Proof.
  revert st t. induction acts as [|act acts IH]; intros st t HI; simpl.
  - intros [= <- <-]. split; [exact HI|].
    destruct HI as (Hoff & Hcount & _). rewrite Hcount in Hoff.
    exists 0. rewrite bolt_after_0; [|exact Hoff]. unfold count_updates. simpl. lia.
  - intros (u & s1 & t1 & t2 & H1 & H2 & ->)%bind_Some. destruct u.
    destruct (blend_step_bolt env v layers act _ _ _ HI H1) as (HI1 & k1 & Hk1 & Ho1).
    destruct (IH _ _ HI1 H2) as (HI2 & k2 & Hk2 & Ho2).
    split; [exact HI2|].
    exists (k1 + k2). rewrite Ho2, Ho1, bolt_after_add. split; [|reflexivity].
    rewrite count_updates_cons. destruct (is_update act); lia.
Qed.

(** ** What the code shows beyond the claims *)

(** X1.  CrateApp: in any run of updates, draws, window messages and GPU
    progress from the state [Initialize] builds, every constant-buffer
    address and every descriptor handle a [Draw] records lies within what
    [BuildFrameResources] and [BuildDescriptorHeaps] allocated (two object
    and two material elements per frame resource, three descriptors), and
    the two render items [Draw] draws keep a geometry, a material and
    indices within these bounds. *)
Theorem X1_crate_draw_addresses_in_bounds `{DirectXMath} env b mouse acts st' t :
  env_small env ->
  run (crate_step env) acts (b, crate_built env mouse) = Some (tt, st', t) ->
  forallb (event_in_bounds env (index_view st')) t = true /\
  ix_frames (index_view st') = [(2, 2); (2, 2); (2, 2)]%nat /\
  ix_heap (index_view st') = Some 3 /\
  length (crate_drawn st') = 2%nat /\
  forallb (item_indices_valid (index_view st')) (crate_drawn st') = true.
Proof.
  intros Hs Hr.
  pose proof (crate_built_indices_ok env b mouse Hs) as Hok.
  destruct (maintains_run _ _ _ acts
              (fun act => crate_step_in_bounds env _ _ act Hok) _ _ _ _
              (conj eq_refl eq_refl) Hr) as [[Hv Hl] Ht].
  rewrite Hv, Hl. split; [exact Ht|].
  destruct Hok as (_ & Hval & _).
  split; [vm_compute; reflexivity|]. split; [vm_compute; reflexivity|].
  split; [vm_compute; reflexivity | exact Hval].
Qed.

Lemma X1_crate_draw_addresses_on_three_frames :
  forallb (event_in_bounds sample_env crate_after_three_view)
          (trace_of (run crate_sample_step three_frames crate_start)) = true.
Proof.
  destruct (@X1_crate_draw_addresses_in_bounds sample_math sample_env
              (mkD3DApp 1 0 (mkGPU 1 [])) (0, 0) three_frames crate_after_three
              (trace_of (run crate_sample_step three_frames crate_start)))
    as (Ht & _).
  - vm_compute. repeat split; discriminate.
  - vm_compute. reflexivity.
  - exact Ht.
Defined.

(** X2.  BlendApp: in any run from the state [Initialize] builds, every
    constant-buffer address and descriptor handle [Draw] records lies
    within what was allocated (four object and four material elements per
    frame resource, 64 descriptors); every render item of every layer
    keeps valid indices although the bolt material changes its texture;
    and the quad texture of the pixel overdraw mode has the last heap
    slot, 63, behind the sixty bolt textures. *)
Theorem X2_blend_draw_addresses_in_bounds env b mouse acts st' t :
  env_small env ->
  run (blend_step env) acts (b, blend_built env mouse) = Some (tt, st', t) ->
  forallb (event_in_bounds env (index_view st')) t = true /\
  ix_frames (index_view st') = [(4, 4); (4, 4); (4, 4)]%nat /\
  ix_heap (index_view st') = Some 64 /\
  (forall l, forallb (item_indices_valid (index_view st')) (blend_drawn st' l) = true) /\
  (forall r, overdraw_resources st' = Some r -> BlendApp.srvOffsetInHeap r = 63).
Proof.
  intros Hs Hr.
  pose proof (blend_built_indices_ok env b mouse Hs) as Hok.
  destruct (blend_run_in_bounds env _ _ acts _ _ _ Hok (blend_built_draws env b mouse) Hr)
    as ((Hoff & Hcount & Hv & Hl & Hq) & Ht & _).
  rewrite Hcount in Hoff.
  destruct (with_bolt_valid env _ _ _ Hok Hoff) as (_ & _ & Hval).
  rewrite Hv, Hl. split; [|split; [|split; [|split]]].
  - eapply forallb_weaken; [|exact Ht].
    intros e He. rewrite event_in_bounds_with_bolt. exact He.
  - vm_compute. reflexivity.
  - vm_compute. reflexivity.
  - exact Hval.
  - intros r Hp. rewrite (Hq r Hp), Hcount. reflexivity.
Qed.

Lemma X2_blend_draw_addresses_on_overdraw :
  forallb (event_in_bounds sample_env
             (index_view (state_after blend_start
                (run (blend_step sample_env) overdraw_frames blend_start))))
          (trace_of (run (blend_step sample_env) overdraw_frames blend_start)) = true.
Proof.
  remember (run (blend_step sample_env) overdraw_frames blend_start) as res eqn:E.
  assert (Hr : returns res = true) by (rewrite E; vm_compute; reflexivity).
  destruct res as [[[[] st'] t]|]; [|discriminate Hr]. symmetry in E.
  cbn [state_after trace_of].
  refine (proj1
    (X2_blend_draw_addresses_in_bounds sample_env _ (0, 0) overdraw_frames st' t _ E)).
  vm_compute. repeat split; discriminate.
Defined.

(** X3.  The rule of [BlendApp::AnimateMaterials] for the next bolt
    texture, [(currentOffset - 3 + 1) % size + 3] in [UINT] arithmetic:
    for [size] textures and an offset in [[3, 3 + size)] it does not wrap,
    stays in that range, and steps to the next slot, from the last one
    back to 3. *)
Theorem X3_next_bolt_offset_cycles off n :
  0 < n -> 3 <= off < 3 + n -> 3 + n <= 2 ^ 32 ->
  BlendApp.next_bolt_offset off n = (off - 3 + 1) mod n + 3 /\
  3 <= BlendApp.next_bolt_offset off n < 3 + n /\
  BlendApp.next_bolt_offset off n = (if off + 1 <? 3 + n then off + 1 else 3).
Proof. apply next_bolt_offset_eq. Qed.

Lemma X3_next_bolt_offset_from_last :
  BlendApp.next_bolt_offset 62 60 = 3.
Proof.
  destruct (X3_next_bolt_offset_cycles 62 60) as (_ & _ & ->);
    [lia | lia | vm_compute; discriminate | reflexivity].
Defined.

(** X4.  BlendApp: in any run from the state [Initialize] builds,
    [mBoltAnimSrvOffsetInHeap] stays in [[3, 63)], the heap slots of the
    sixty bolt textures; it has moved on from 3 by at most one texture
    per [Update], in order and modulo 60; and the material [boltAnim]
    always shows that same slot as its [DiffuseSrvHeapIndex]. *)
Theorem X4_bolt_animation_over_runs env b mouse acts st' t :
  run (blend_step env) acts (b, blend_built env mouse) = Some (tt, st', t) ->
  3 <= bolt_offset st' < 63 /\
  bolt_count st' = 60 /\
  (exists k, 0 <= k <= count_updates acts /\ bolt_offset st' = bolt_after k 3) /\
  (exists m, mMaterials (snd st') !! "boltAnim" = Some m /\
             Material.DiffuseSrvHeapIndex m = bolt_offset st' /\
             Material.MatCBIndex m = 3).
Proof.
  intros Hr.
  destruct (blend_run_bolt env _ _ acts _ _ _ (blend_built_draws env b mouse) Hr)
    as ((Hoff & Hcount & Hv & Hl & Hq) & k & Hk & Hmove).
  rewrite Hcount in Hoff. split; [exact Hoff|]. split; [exact Hcount|]. split.
  - assert (H3 : bolt_offset (b, blend_built env mouse) = 3)
      by (vm_compute; reflexivity).
    exists k. split; [exact Hk|]. rewrite Hmove, H3. reflexivity.
  - assert (Hlk : ix_materials (index_view st') !! "boltAnim"
                  = Some (3, bolt_offset st')).
    { rewrite Hv. unfold with_bolt. cbn [ix_materials]. apply lookup_insert_eq. }
    unfold index_view in Hlk. cbn [ix_materials] in Hlk. rewrite lookup_fmap in Hlk.
    apply fmap_Some in Hlk as (m & Hm & Heq).
    unfold material_view in Heq. injection Heq as Hcb Hd. eauto.
Qed.

Lemma X4_bolt_animation_on_overdraw :
  3 <= bolt_offset (state_after blend_start
                      (run (blend_step sample_env) overdraw_frames blend_start)) < 63.
Proof.
  remember (run (blend_step sample_env) overdraw_frames blend_start) as res eqn:E.
  assert (Hr : returns res = true) by (rewrite E; vm_compute; reflexivity).
  destruct res as [[[[] st'] t]|]; [|discriminate Hr]. symmetry in E.
  cbn [state_after].
  exact (proj1 (X4_bolt_animation_over_runs sample_env _ (0, 0) overdraw_frames st' t E)).
Defined.

(** ** The dirty counters of render items and materials *)

Lemma to_int_small z : - 2 ^ 31 <= z < 2 ^ 31 -> to_int z = z.
Proof. intros Hz. unfold to_int. rewrite Z.mod_small; lia. Qed.

Lemma visit_item_dirty e :
  0 <= RenderItem.NumFramesDirty e <= gNumFrameResources ->
  0 <= RenderItem.NumFramesDirty (visit_item e) <= gNumFrameResources /\
  RenderItem.NumFramesDirty (visit_item e) = Z.max (RenderItem.NumFramesDirty e - 1) 0.
Proof.
  unfold visit_item, after_visit, gNumFrameResources. intros He.
  destruct (0 <? RenderItem.NumFramesDirty e) eqn:Hd.
  - apply Z.ltb_lt in Hd. simpl. rewrite to_int_small; lia.
  - apply Z.ltb_ge in Hd. lia.
Qed.

Lemma visit_material_dirty m :
  0 <= Material.NumFramesDirty m <= gNumFrameResources ->
  0 <= Material.NumFramesDirty (visit_material m) <= gNumFrameResources /\
  Material.NumFramesDirty (visit_material m) = Z.max (Material.NumFramesDirty m - 1) 0.
Proof.
  unfold visit_material, after_visit, gNumFrameResources. intros He.
  destruct (0 <? Material.NumFramesDirty m) eqn:Hd.
  - apply Z.ltb_lt in Hd. simpl. rewrite to_int_small; lia.
  - apply Z.ltb_ge in Hd. lia.
Qed.

Lemma dirty_ok_records {X A} (m : M (App X) A) :
  preserves records m -> keeps dirty_ok m.
Proof.
  intros Hm st a st' t HI H. specialize (Hm _ _ _ _ H).
  unfold records in Hm. injection Hm as Hi Hmat.
  unfold dirty_ok. rewrite Hi, Hmat. exact HI.
Qed.

Section DirtyFacts.
Context {X : Type}.

Lemma dirty_ok_UpdateObjectCBs : keeps dirty_ok (@UpdateObjectCBs X).
Proof.
  intros [b a] u st' t [Hi Hm]. rewrite UpdateObjectCBs_eq.
  destruct (mCurrFrameResource a) as [fr|]; [|discriminate].
  destruct (mFrameResources a !! fr) as [f|]; [|discriminate].
  intros [= <- <-]. split; [|exact Hm]. simpl in *.
  apply Forall_map. eapply Forall_impl; [exact Hi|].
  intros e He. apply visit_item_dirty, He.
Qed.

Lemma dirty_ok_UpdateMaterialCBs : keeps dirty_ok (@UpdateMaterialCBs X).
Proof.
  intros [b a] u st' t [Hi Hm]. rewrite UpdateMaterialCBs_eq.
  destruct (mCurrFrameResource a) as [fr|]; [|discriminate].
  destruct (mFrameResources a !! fr) as [f|]; [|discriminate].
  intros [= <- <-]. split; [exact Hi|]. simpl in *.
  apply map_Forall_fmap. eapply map_Forall_impl; [exact Hm|].
  intros k e He. simpl. apply visit_material_dirty, He.
Qed.

Lemma records_CycleFrameResources : preserves records (@CycleFrameResources X).
Proof. unfold CycleFrameResources, WaitForFence. method. Qed.

Lemma records_UpdateMainPassCB : preserves records (@UpdateMainPassCB X).
Proof. unfold UpdateMainPassCB. method. Qed.

Lemma records_DrawTail env :
  preserves records (@CloseAndExecute X ;;; PresentAndSignal env).
Proof.
  unfold CloseAndExecute, PresentAndSignal, PresentAndSwap, Present,
    ExecuteCommandLists, Signal, set_frame. method.
Qed.
End DirtyFacts.

#[export] Hint Resolve dirty_ok_UpdateObjectCBs dirty_ok_UpdateMaterialCBs : method.

Lemma dirty_ok_crate_AnimateMaterials `{DirectXMath} gt :
  keeps dirty_ok (CrateApp.AnimateMaterials gt).
Proof.
  intros [b a] u st' t [Hi Hm]. unfold CrateApp.AnimateMaterials, bind.
  unfold_prims. simpl.
  destruct (CrateApp.mOpaqueRitems (ext a) !! 1%nat) as [i|]; [|discriminate].
  destruct (mAllRitems a !! i) as [item|] eqn:Hit; [|discriminate].
  intros [= <- <-]. split; [|exact Hm]. simpl in *.
  apply Forall_insert; [exact Hi|]. simpl. unfold gNumFrameResources. lia.
Qed.

Lemma dirty_ok_crate_ScaleTexTransform d : keeps dirty_ok (CrateApp.ScaleTexTransform d).
Proof.
  unfold CrateApp.ScaleTexTransform, CrateApp.upd_ext.
  apply keeps_bind; [method|]. intros a.
  apply keeps_bind; [method|]. intros _.
  apply keeps_set_this. intros b s [Hi Hm]. split; [|exact Hm]. simpl in *.
  apply Forall_map, Forall_forall. intros e _. simpl. unfold gNumFrameResources. lia.
Qed.

#[export] Hint Resolve dirty_ok_crate_AnimateMaterials dirty_ok_crate_ScaleTexTransform
  : method.

Lemma dirty_ok_crate_step `{DirectXMath} env act : keeps dirty_ok (crate_step env act).
Proof.
  destruct act as [gt|gt|x y|btn x y|w|]; simpl.
  - unfold CrateApp.Update, CrateApp.UpdateBuffers, CrateApp.UpdateSampler,
      CrateApp.CreateSamplerDescriptor, CrateApp.upd_ext.
    apply keeps_bind; [apply dirty_ok_records, records_CycleFrameResources|].
    intros _. apply keeps_bind; [apply dirty_ok_crate_AnimateMaterials|].
    intros _. apply keeps_bind; [apply dirty_ok_UpdateObjectCBs|].
    intros _. apply keeps_bind; [apply dirty_ok_UpdateMaterialCBs|].
    intros _. apply keeps_bind; [apply dirty_ok_records, records_UpdateMainPassCB|].
    intros _. method.
  - unfold CrateApp.Draw. apply keeps_bind.
    + apply readonly_keeps, crate_RecordScene_readonly.
    + intros _. apply dirty_ok_records, records_DrawTail.
  - method.
  - unfold CrateApp.OnMouseMove. method.
  - unfold CrateApp.OnKeyDown, CrateApp.ChangeSamplerFilter,
      CrateApp.ChangeSamplerAddressMode, CrateApp.MarkSamplerDirty, CrateApp.upd_ext.
    method.
  - unfold GpuProgress. method.
Qed.

#[local] Opaque f32.add f32.sub f32.mul f32.div f32.leb f32.ltb f32.lit f32.of_int.

Lemma dirty_ok_blend_AnimateMaterials gt : keeps dirty_ok (BlendApp.AnimateMaterials gt).
Proof.
  intros [b a] u st' t [Hi Hm].
  unfold BlendApp.AnimateMaterials, BlendApp.set_material, BlendApp.upd_ext, bind.
  unfold_prims. simpl.
  destruct (mMaterials a !! "water") as [w|] eqn:Hw; [|discriminate]. simpl.
  rewrite lookup_insert_ne by discriminate.
  match goal with
  | |- context [<["water" := ?x]> (mMaterials a)] =>
      assert (HW : Material.NumFramesDirty x = gNumFrameResources) by reflexivity;
      generalize dependent x; intros W HW
  end.
  assert (Hm1 : map_Forall
                  (fun _ m => 0 <= Material.NumFramesDirty m <= gNumFrameResources)
                  (<["water" := W]> (mMaterials a))).
  { apply map_Forall_insert_2; [|exact Hm]. rewrite HW. unfold gNumFrameResources. lia. }
  destruct (f32.leb (f32.div _ _) _).
  - destruct (mMaterials a !! "boltAnim") as [m|] eqn:Hb; [|discriminate].
    destruct (_ =? 0); [discriminate|]. simpl. intros [= <- <-].
    split; [exact Hi|]. simpl. apply map_Forall_insert_2; [|exact Hm1].
    simpl. exact (Hm _ _ Hb).
  - simpl. intros [= <- <-]. split; [exact Hi | exact Hm1].
Qed.

#[local] Transparent f32.add f32.sub f32.mul f32.div f32.leb f32.ltb f32.lit f32.of_int.

Lemma records_blend_UpdateWaves gt : preserves records (BlendApp.UpdateWaves gt).
Proof. unfold BlendApp.UpdateWaves, BlendApp.upd_ext, when. method. Qed.

Lemma records_blend_Draw env gt : preserves records (BlendApp.Draw env gt).
Proof.
  unfold BlendApp.Draw, BlendApp.RecordScene, BlendApp.DrawLayer,
    BlendApp.DrawOverdrawQuad, BlendApp.GetPsoForSceneRendering,
    BlendApp.CreateResourcesForPixelOverdrawMode,
    BlendApp.BuildPSOsForSceneRendering, CreateDefaultBuffer, BlendApp.upd_ext,
    CloseAndExecute, PresentAndSignal, PresentAndSwap, Present,
    ExecuteCommandLists, Signal, set_frame.
  method.
Qed.

Lemma dirty_ok_blend_step env act : keeps dirty_ok (blend_step env act).
Proof.
  destruct act as [gt|gt|x y|btn x y|w|]; simpl.
  - unfold BlendApp.Update, BlendApp.UpdateBuffers.
    apply keeps_bind; [apply dirty_ok_records, records_CycleFrameResources|].
    intros _. apply keeps_bind; [apply dirty_ok_blend_AnimateMaterials|].
    intros _. apply keeps_bind; [apply dirty_ok_UpdateObjectCBs|].
    intros _. apply keeps_bind; [apply dirty_ok_UpdateMaterialCBs|].
    intros _. apply keeps_bind; [apply dirty_ok_records, records_UpdateMainPassCB|].
    intros _. apply dirty_ok_records, records_blend_UpdateWaves.
  - apply dirty_ok_records, records_blend_Draw.
  - method.
  - unfold BlendApp.OnMouseMove. method.
  - unfold BlendApp.OnKeyDown, BlendApp.ChangeRenderMode, BlendApp.upd_ext. method.
  - unfold GpuProgress. method.
Qed.

Lemma keeps_run {S} (I : D3DApp * S -> Prop) (step : Action -> M S unit) acts :
  (forall act, keeps I (step act)) -> keeps I (run step acts).
Proof.
  intros Hstep. induction acts as [|act acts IH]; simpl.
  - apply readonly_keeps, readonly_ret.
  - apply keeps_bind; [apply Hstep | intros; exact IH].
Qed.

Lemma built_dirty_ok env b mouse :
  dirty_ok (b, crate_built env mouse) /\ dirty_ok (b, blend_built env mouse).
Proof.
  split; split.
  - vm_compute. repeat constructor; discriminate.
  - apply map_Forall_to_list. vm_compute. repeat constructor; discriminate.
  - vm_compute. repeat constructor; discriminate.
  - apply map_Forall_to_list. vm_compute. repeat constructor; discriminate.
Qed.

Section DirtyLoopLookup.
Context {E T : Type}.
Variables (dirty : E -> Z) (index : E -> Z) (constants : E -> T) (buf : Buffer).

Lemma copy_step_lookup_ne cb e j :
  Z.to_nat (index e) <> j ->
  copy_step dirty index constants cb e !! j = cb !! j.
Proof.
  intros Hj. unfold copy_step, CopyData. destruct (0 <? dirty e); [|reflexivity].
  destruct (decide (0 <= index e)); [|reflexivity].
  apply list_lookup_insert_ne. exact Hj.
Qed.

Lemma foldl_copy_step_lookup_ne es cb j :
  Forall (fun e => Z.to_nat (index e) <> j) es ->
  foldl (copy_step dirty index constants) cb es !! j = cb !! j.
Proof.
  revert cb. induction es as [|e es IH]; intros cb Hes; simpl; [reflexivity|].
  inversion Hes as [|? ? He Hes']; subst.
  rewrite IH by exact Hes'. apply copy_step_lookup_ne, He.
Qed.

(** With distinct element indices within the buffer, the loop leaves in
    the element of [e] the constants of [e] if [e] was dirty, and what was
    there if not. *)
Lemma foldl_copy_step_lookup es cb e :
  NoDup (index <$> es) ->
  Forall (fun e => 0 <= index e < Z.of_nat (length cb)) es ->
  e ∈ es ->
  foldl (copy_step dirty index constants) cb es !! Z.to_nat (index e) =
  if 0 <? dirty e then Some (Some (constants e)) else cb !! Z.to_nat (index e).
Proof.
  revert cb. induction es as [|e0 es IH]; intros cb Hnd Hin He.
  - inversion He.
  - rewrite fmap_cons in Hnd. apply NoDup_cons in Hnd as [Hnotin Hnd].
    inversion Hin as [|? ? Hin0 Hin']; subst. simpl.
    assert (Hlen : length (copy_step dirty index constants cb e0) = length cb)
      by apply copy_step_length.
    apply elem_of_cons in He as [->|He].
    + rewrite foldl_copy_step_lookup_ne.
      * unfold copy_step, CopyData. destruct (0 <? dirty e0); [|reflexivity].
        destruct (decide (0 <= index e0)); [|lia].
        apply list_lookup_insert_eq. lia.
      * apply Forall_forall. intros e1 He1 Heq. apply Hnotin.
        rewrite Forall_forall in Hin'. specialize (Hin' _ He1).
        replace (index e0) with (index e1) by lia.
        apply list_elem_of_fmap_2. exact He1.
    + rewrite IH; [|exact Hnd | rewrite Hlen; exact Hin' | exact He].
      destruct (0 <? dirty e); [reflexivity|].
      apply copy_step_lookup_ne. intros Heq. apply Hnotin.
      rewrite Forall_forall in Hin'. specialize (Hin' _ He).
      replace (index e0) with (index e) by lia.
      apply list_elem_of_fmap_2. exact He.
Qed.

Lemma copy_events_elem fr es e' :
  e' ∈ flat_map (copy_events dirty index buf fr) es <->
  exists e, e ∈ es /\ 0 < dirty e /\ e' = EvCopyData buf (Some fr) (index e).
Proof.
  rewrite list_elem_of_In, in_flat_map. split.
  - intros (e & He & Hin). exists e. unfold copy_events in Hin.
    destruct (0 <? dirty e) eqn:Hd; [|destruct Hin].
    destruct Hin as [<-|[]]. apply Z.ltb_lt in Hd.
    split; [apply list_elem_of_In; exact He | auto].
  - intros (e & He & Hd & ->). exists e. split; [apply list_elem_of_In; exact He|].
    unfold copy_events. apply Z.ltb_lt in Hd. rewrite Hd. left. reflexivity.
Qed.
End DirtyLoopLookup.

(** X5.  The dirty counters stay within [[0, gNumFrameResources]]: every
    update, draw, window message and GPU step of CrateApp and of BlendApp
    keeps every render item's and every material's [NumFramesDirty]
    between 0 and 3, and they are so in the state [Initialize] builds, so
    they are in every state a run reaches. *)
Theorem X5_dirty_counters_bounded `{DirectXMath} env acts :
  (forall st st' t,
     dirty_ok st -> run (crate_step env) acts st = Some (tt, st', t) -> dirty_ok st') /\
  (forall st st' t,
     dirty_ok st -> run (blend_step env) acts st = Some (tt, st', t) -> dirty_ok st') /\
  (forall b mouse,
     dirty_ok (b, crate_built env mouse) /\ dirty_ok (b, blend_built env mouse)).
Proof.
  split; [|split].
  - intros st st' t HI Hr.
    exact (keeps_run dirty_ok _ acts (dirty_ok_crate_step env) _ _ _ _ HI Hr).
  - intros st st' t HI Hr.
    exact (keeps_run dirty_ok _ acts (dirty_ok_blend_step env) _ _ _ _ HI Hr).
  - intros b mouse. apply built_dirty_ok.
Qed.

Lemma X5_dirty_counters_on_crate : dirty_ok crate_after_three.
Proof.
  destruct (@X5_dirty_counters_bounded sample_math sample_env three_frames)
    as (Hc & _ & Hb).
  apply (Hc crate_start crate_after_three
           (trace_of (run crate_sample_step three_frames crate_start))).
  - exact (proj1 (Hb (mkD3DApp 1 0 (mkGPU 1 [])) (0, 0))).
  - vm_compute. reflexivity.
Defined.

(** X6.  [UpdateObjectCBs], with a current frame resource and render items
    whose [ObjCBIndex] are distinct and within its object buffer: every
    item has been visited once ([NumFramesDirty] one less if it was
    positive); only the object buffer of the current frame resource has
    changed, and it holds, in the element of each item, the constants of
    the item if the item was dirty and what it held before if not; and
    the copies made are exactly those of the dirty items. *)
Theorem X6_UpdateObjectCBs_copies_dirty_items {X} (st st' : D3DApp * App X) t fr f :
  mCurrFrameResource (snd st) = Some fr ->
  mFrameResources (snd st) !! fr = Some f ->
  NoDup (item_index <$> mAllRitems (snd st)) ->
  Forall (fun e => 0 <= item_index e < Z.of_nat (length (FrameResource.ObjectCB f)))
         (mAllRitems (snd st)) ->
  UpdateObjectCBs st = Some (tt, st', t) ->
  mAllRitems (snd st') = visit_item <$> mAllRitems (snd st) /\
  mMaterials (snd st') = mMaterials (snd st) /\
  (exists f',
     mFrameResources (snd st') = <[fr := f']> (mFrameResources (snd st)) /\
     FrameResource.Fence f' = FrameResource.Fence f /\
     FrameResource.MaterialCB f' = FrameResource.MaterialCB f /\
     length (FrameResource.ObjectCB f') = length (FrameResource.ObjectCB f) /\
     forall e, e ∈ mAllRitems (snd st) ->
               FrameResource.ObjectCB f' !! Z.to_nat (item_index e) =
               element_after (RenderItem.NumFramesDirty e) (object_constants e)
                 (FrameResource.ObjectCB f !! Z.to_nat (item_index e))) /\
  (forall ev, ev ∈ t <->
              exists e, e ∈ mAllRitems (snd st) /\ 0 < RenderItem.NumFramesDirty e /\
                        ev = EvCopyData BufObject (Some fr) (item_index e)).
Proof.
  destruct st as [b a]. simpl. intros Hc Hf Hnd Hin. rewrite UpdateObjectCBs_eq, Hc, Hf.
  intros [= <- <-]. simpl. split; [reflexivity|]. split; [reflexivity|]. split.
  - eexists. split; [reflexivity|]. simpl. split; [reflexivity|]. split; [reflexivity|].
    split; [apply foldl_copy_step_length|].
    intros e He. apply foldl_copy_step_lookup; assumption.
  - intros ev. apply copy_events_elem.
Qed.

Lemma X6_UpdateObjectCBs_on_crate :
  mAllRitems (snd (state_after crate_after_three (UpdateObjectCBs crate_after_three)))
  = visit_item <$> mAllRitems (snd crate_after_three).
Proof.
  refine (proj1 (X6_UpdateObjectCBs_copies_dirty_items crate_after_three
            (state_after crate_after_three (UpdateObjectCBs crate_after_three))
            (trace_of (UpdateObjectCBs crate_after_three))
            0%nat (current_frame crate_after_three) _ _ _ _ _)).
  - vm_compute. reflexivity.
  - vm_compute. reflexivity.
  - refine (bool_decide_unpack _ _). vm_compute. exact I.
  - refine (bool_decide_unpack _ _). vm_compute. exact I.
  - vm_compute. reflexivity.
Defined.

Section AnyOrder.
Context {E T : Type}.
Variables (dirty : E -> Z) (index : E -> Z) (constants : E -> T) (buf : Buffer).

(** With distinct indices within the buffer, the order of the walk does
    not matter to what the buffer holds in the end. *)
Lemma foldl_copy_step_Permutation es es' cb :
  es ≡ₚ es' ->
  NoDup (index <$> es) ->
  Forall (fun e => 0 <= index e < Z.of_nat (length cb)) es ->
  foldl (copy_step dirty index constants) cb es
  = foldl (copy_step dirty index constants) cb es'.
Proof.
  intros Hp Hnd Hin.
  assert (Hnd' : NoDup (index <$> es')) by (rewrite <- Hp; exact Hnd).
  assert (Hin' : Forall (fun e => 0 <= index e < Z.of_nat (length cb)) es')
    by (rewrite <- Hp; exact Hin).
  apply list_eq. intros j.
  destruct (decide (Exists (fun e => Z.to_nat (index e) = j) es)) as [Hex|Hno].
  - apply Exists_exists in Hex as (e & He & <-).
    transitivity (if 0 <? dirty e then Some (Some (constants e))
                  else cb !! Z.to_nat (index e)).
    + exact (foldl_copy_step_lookup dirty index constants es cb e Hnd Hin He).
    + symmetry. apply (foldl_copy_step_lookup dirty index constants es' cb e Hnd' Hin').
      rewrite <- Hp. exact He.
  - apply not_Exists_Forall in Hno; [|intros e; apply _].
    transitivity (cb !! j).
    + exact (foldl_copy_step_lookup_ne dirty index constants es cb j Hno).
    + symmetry. apply (foldl_copy_step_lookup_ne dirty index constants es' cb j).
      rewrite <- Hp. exact Hno.
Qed.

Lemma copy_events_Permutation fr es es' :
  es ≡ₚ es' ->
  flat_map (copy_events dirty index buf fr) es
  ≡ₚ flat_map (copy_events dirty index buf fr) es'.
Proof. apply Permutation_flat_map. Qed.
End AnyOrder.

Lemma UpdateMaterialCBs_in_eq {X} order b (a : App X) :
  UpdateMaterialCBs_in order (b, a) =
  match mCurrFrameResource a with
  | None => None
  | Some fr =>
      match mFrameResources a !! fr with
      | None => None
      | Some f =>
          Some (tt,
                (b, set_mFrameResources
                      (<[fr := FrameResource.set_MaterialCB
                                 (foldl (copy_step Material.NumFramesDirty
                                           Material.MatCBIndex material_constants)
                                        (FrameResource.MaterialCB f)
                                        (snd <$> order)) f]>
                         (mFrameResources a))
                      (set_mMaterials (visit_material <$> mMaterials a) a)),
                flat_map (copy_events Material.NumFramesDirty Material.MatCBIndex
                                      BufMaterial fr)
                         (snd <$> order))
      end
  end.
Proof.
  unfold UpdateMaterialCBs_in, CurrFrameResource, set_frame, update_materials, bind.
  unfold_prims. simpl.
  destruct (mCurrFrameResource a) as [fr|]; [|reflexivity].
  destruct (mFrameResources a !! fr) as [f|]; [|reflexivity].
  simpl. rewrite update_dirty_eq. simpl. rewrite ?app_nil_r. reflexivity.
Qed.

Lemma UpdateMaterialCBs_in_map_to_list {X} (st : D3DApp * App X) :
  UpdateMaterialCBs st = UpdateMaterialCBs_in (map_to_list (mMaterials (snd st))) st.
Proof.
  destruct st as [b a]. rewrite UpdateMaterialCBs_eq, UpdateMaterialCBs_in_eq.
  reflexivity.
Qed.

(** X7.  [UpdateMaterialCBs], with a current frame resource and materials
    whose [MatCBIndex] are distinct and within its material buffer,
    whatever the order [order] in which the [unordered_map] is walked:
    every material has been visited once; only the material buffer of the
    current frame resource has changed, and it holds, in the element of
    each material, the constants of the material if it was dirty and what
    it held before if not; the copies made are exactly those of the dirty
    materials; and the walk in the order of [map_to_list], which the runs
    of this development take, ends in the same state with the same
    copies in another order. *)
Theorem X7_UpdateMaterialCBs_copies_dirty_materials {X} (st st' : D3DApp * App X)
    order t fr f :
  walks_materials order st ->
  mCurrFrameResource (snd st) = Some fr ->
  mFrameResources (snd st) !! fr = Some f ->
  NoDup (Material.MatCBIndex <$> (snd <$> map_to_list (mMaterials (snd st)))) ->
  map_Forall (fun _ m => 0 <= Material.MatCBIndex m
                         < Z.of_nat (length (FrameResource.MaterialCB f)))
             (mMaterials (snd st)) ->
  UpdateMaterialCBs_in order st = Some (tt, st', t) ->
  mMaterials (snd st') = visit_material <$> mMaterials (snd st) /\
  mAllRitems (snd st') = mAllRitems (snd st) /\
  (exists f',
     mFrameResources (snd st') = <[fr := f']> (mFrameResources (snd st)) /\
     FrameResource.Fence f' = FrameResource.Fence f /\
     FrameResource.ObjectCB f' = FrameResource.ObjectCB f /\
     length (FrameResource.MaterialCB f') = length (FrameResource.MaterialCB f) /\
     forall k m, mMaterials (snd st) !! k = Some m ->
                 FrameResource.MaterialCB f' !! Z.to_nat (Material.MatCBIndex m) =
                 element_after (Material.NumFramesDirty m) (material_constants m)
                   (FrameResource.MaterialCB f !! Z.to_nat (Material.MatCBIndex m))) /\
  (forall ev, ev ∈ t <->
              exists k m, mMaterials (snd st) !! k = Some m /\
                          0 < Material.NumFramesDirty m /\
                          ev = EvCopyData BufMaterial (Some fr) (Material.MatCBIndex m)) /\
  (exists t0, UpdateMaterialCBs st = Some (tt, st', t0) /\ t0 ≡ₚ t).
Proof.
  destruct st as [b a]. unfold walks_materials. simpl. intros Hp Hc Hf Hnd Hin.
  rewrite UpdateMaterialCBs_in_eq, Hc, Hf.
  assert (Hps : snd <$> order ≡ₚ snd <$> map_to_list (mMaterials a))
    by (rewrite Hp; reflexivity).
  assert (Hel : forall m, m ∈ (snd <$> order) <->
                          exists k, mMaterials a !! k = Some m).
  { intros m. rewrite Hps, list_elem_of_fmap. split.
    - intros ([k m'] & -> & Hkm). exists k. apply elem_of_map_to_list. exact Hkm.
    - intros (k & Hk). exists (k, m). split; [reflexivity|].
      apply elem_of_map_to_list. exact Hk. }
  assert (Hnd' : NoDup (Material.MatCBIndex <$> (snd <$> order)))
    by (rewrite Hps; exact Hnd).
  assert (Hin' : Forall (fun m => 0 <= Material.MatCBIndex m
                                  < Z.of_nat (length (FrameResource.MaterialCB f)))
                        (snd <$> order)).
  { apply Forall_forall. intros m' (k' & Hk')%Hel. exact (Hin _ _ Hk'). }
  intros [= <- <-]. simpl. split; [reflexivity|]. split; [reflexivity|].
  split; [|split].
  - eexists. split; [reflexivity|]. simpl. split; [reflexivity|]. split; [reflexivity|].
    split; [apply foldl_copy_step_length|].
    intros k m Hk. apply foldl_copy_step_lookup; [exact Hnd' | exact Hin' |].
    apply Hel. eauto.
  - intros ev. rewrite copy_events_elem. split.
    + intros (m & (k & Hk)%Hel & Hd & ->). eauto.
    + intros (k & m & Hk & Hd & ->). exists m. split; [apply Hel; eauto | auto].
  - rewrite UpdateMaterialCBs_eq, Hc, Hf. eexists. split.
    + rewrite (foldl_copy_step_Permutation _ _ _ _ _ _ Hps Hnd' Hin'). reflexivity.
    + symmetry. apply copy_events_Permutation. exact Hps.
Qed.

Lemma X7_UpdateMaterialCBs_on_crate :
  mMaterials
    (snd (state_after crate_after_three
            (UpdateMaterialCBs_in
               (reverse (map_to_list (mMaterials (snd crate_after_three))))
               crate_after_three)))
  = visit_material <$> mMaterials (snd crate_after_three).
Proof.
  refine (proj1 (X7_UpdateMaterialCBs_copies_dirty_materials crate_after_three
            (state_after crate_after_three
               (UpdateMaterialCBs_in
                  (reverse (map_to_list (mMaterials (snd crate_after_three))))
                  crate_after_three))
            (reverse (map_to_list (mMaterials (snd crate_after_three))))
            (trace_of (UpdateMaterialCBs_in
                         (reverse (map_to_list (mMaterials (snd crate_after_three))))
                         crate_after_three))
            0%nat (current_frame crate_after_three) _ _ _ _ _ _)).
  - apply reverse_Permutation.
  - vm_compute. reflexivity.
  - vm_compute. reflexivity.
  - refine (bool_decide_unpack _ _). vm_compute. exact I.
  - apply map_Forall_to_list. refine (bool_decide_unpack _ _). vm_compute. exact I.
  - vm_compute. reflexivity.
Defined.

(** ** The window messages *)

Lemma land_pow2_eqb a n :
  0 <= n -> (Z.land a (2 ^ n) =? 0) = negb (Z.testbit a n).
Proof.
  intros Hn. destruct (Z.testbit a n) eqn:Hb; simpl.
  - apply Z.eqb_neq. intros H0.
    assert (Ht : Z.testbit (Z.land a (2 ^ n)) n = true)
      by (rewrite Z.land_spec, Hb, Z.pow2_bits_true; [reflexivity | exact Hn]).
    rewrite H0, Z.bits_0 in Ht. discriminate.
  - apply Z.eqb_eq. apply Z.bits_inj'. intros m Hm.
    rewrite Z.land_spec, Z.bits_0, Z.pow2_bits_eqb by exact Hn.
    destruct (n =? m) eqn:Hnm.
    + apply Z.eqb_eq in Hnm. subst m. rewrite Hb. reflexivity.
    + apply andb_false_r.
Qed.

Lemma OrbitCamera_effect zoom rlow rhigh btnState x y c :
  orbit_effect btnState x y c (OrbitCamera zoom rlow rhigh btnState x y c).
Proof.
  assert (HL : (Z.land btnState MK_LBUTTON =? 0) = negb (Z.testbit btnState 0))
    by (exact (land_pow2_eqb btnState 0 (Z.le_refl 0))).
  assert (HR : (Z.land btnState MK_RBUTTON =? 0) = negb (Z.testbit btnState 1))
    by (exact (land_pow2_eqb btnState 1 Z.le_0_1)).
  unfold orbit_effect, OrbitCamera. rewrite HL, HR.
  destruct (Z.testbit btnState 0), (Z.testbit btnState 1);
    cbn [negb mLastMousePos mRadius mTheta mPhi];
    repeat split; intros; congruence.
Qed.

(** X8.  [OnMouseMove] of the three demos: it always returns, calls
    nothing on the device and changes nothing but the camera; it always
    remembers the position; with the left button down (bit 0 of
    [btnState], whatever the other bits) it leaves the radius alone, also
    when the right button is down as well; without the left button it
    leaves the angles alone, and the radius too unless the right button
    (bit 1) is down. *)
Theorem X8_mouse_move_orbits btnState x y :
  (forall st, exists st',
     BoxApp.OnMouseMove btnState x y st = Some (tt, st', []) /\
     fst st' = fst st /\
     orbit_effect btnState x y (BoxApp.mCamera (snd st)) (BoxApp.mCamera (snd st'))) /\
  (forall st, exists st',
     CrateApp.OnMouseMove btnState x y st = Some (tt, st', []) /\
     st' = (fst st, set_mCamera (mCamera (snd st')) (snd st)) /\
     orbit_effect btnState x y (mCamera (snd st)) (mCamera (snd st'))) /\
  (forall st, exists st',
     BlendApp.OnMouseMove btnState x y st = Some (tt, st', []) /\
     st' = (fst st, set_mCamera (mCamera (snd st')) (snd st)) /\
     orbit_effect btnState x y (mCamera (snd st)) (mCamera (snd st'))).
Proof.
  split; [|split]; intros [b a];
    unfold BoxApp.OnMouseMove, CrateApp.OnMouseMove, BlendApp.OnMouseMove, set_this;
    eexists; (split; [reflexivity|]);
    cbn [fst snd BoxApp.mCamera mCamera set_mCamera];
    (split; [reflexivity|]); apply OrbitCamera_effect.
Qed.

(** ** CrateApp: texture scale and sampler *)

Lemma ltb_leb x y : f32.ltb x y = true -> f32.leb x y = true.
Proof.
  unfold f32.ltb, f32.leb, SFltb, SFleb.
  destruct (SFcompare x y) as [[]|]; try discriminate; reflexivity.
Qed.

Lemma fmax_lower a b : f32.leb b b = true -> f32.leb b (fmax a b) = true.
Proof.
  intros Hb. unfold fmax. destruct (f32.ltb b a) eqn:Hlt; [apply ltb_leb, Hlt | exact Hb].
Qed.

(** X9.  [CrateApp::ScaleTexTransform] (keys 1 and 2) always returns and
    calls nothing on the device; the new [mTexTransformScale] is the old
    one plus the delta or, if that is not above [0.1f] (also when it is a
    NaN), [0.1f], so it is never below [0.1f]; every render item gets the
    scaling by it as [TexTransform] and is marked dirty for all three
    frame resources; nothing else of the items, and no material, changes. *)
Theorem X9_ScaleTexTransform_rescales d (st : D3DApp * CrateApp.t) :
  exists st',
    CrateApp.ScaleTexTransform d st = Some (tt, st', []) /\
    fst st' = fst st /\
    let s := CrateApp.mTexTransformScale (ext (snd st')) in
    f32.leb (f32.lit 1 10) s = true /\
    (s = f32.add (CrateApp.mTexTransformScale (ext (snd st))) d \/ s = f32.lit 1 10) /\
    mAllRitems (snd st') =
      map (fun e => RenderItem.set_NumFramesDirty gNumFrameResources
                      (RenderItem.set_TexTransform (XMMatrixScaling s s f32.one) e))
          (mAllRitems (snd st)) /\
    index_view st' = index_view st /\
    mMaterials (snd st') = mMaterials (snd st) /\
    mFrameResources (snd st') = mFrameResources (snd st).
Proof.
  destruct st as [b a]. eexists. split; [reflexivity|]. cbn [fst snd].
  split; [reflexivity|]. cbv zeta. cbn [ext set_ext CrateApp.mTexTransformScale
    CrateApp.set_mTexTransformScale set_mAllRitems mAllRitems mMaterials
    mFrameResources].
  split; [apply fmax_lower; vm_compute; reflexivity|].
  split; [unfold fmax; destruct (f32.ltb _ _); auto|].
  split; [reflexivity|]. split; [|split; reflexivity].
  unfold index_view. cbn [snd mAllRitems mMaterials mFrameResources mSrvDescriptorHeap
    mCbvSrvDescriptorSize set_mAllRitems set_ext]. f_equal.
  rewrite <- list_fmap_compose. apply list_fmap_ext. reflexivity.
Qed.

Section CopyCalls.
Context {X : Type}.
Variable P : Event -> bool.
Hypothesis P_copy : forall b fr i, P (EvCopyData b fr i) = true.

Lemma forallb_copy_events {E} (dirty index : E -> Z) buf fr es :
  forallb P (flat_map (copy_events dirty index buf fr) es) = true.
Proof.
  induction es as [|e es IH]; simpl; [reflexivity|].
  rewrite forallb_app, IH, andb_true_r. unfold copy_events.
  destruct (0 <? dirty e); simpl; [rewrite P_copy|]; reflexivity.
Qed.

Lemma calls_UpdateObjectCBs : calls P (@UpdateObjectCBs X).
Proof.
  intros [b a] u st' t. rewrite UpdateObjectCBs_eq.
  repeat case_match; try discriminate. intros [= _ _ <-]. apply forallb_copy_events.
Qed.

Lemma calls_UpdateMaterialCBs : calls P (@UpdateMaterialCBs X).
Proof.
  intros [b a] u st' t. rewrite UpdateMaterialCBs_eq.
  repeat case_match; try discriminate. intros [= _ _ <-]. apply forallb_copy_events.
Qed.

Lemma calls_UpdateMainPassCB : calls P (@UpdateMainPassCB X).
Proof.
  intros [b a] u st' t. rewrite UpdateMainPassCB_eq.
  repeat case_match; try discriminate. intros [= _ _ <-]. simpl.
  rewrite P_copy. reflexivity.
Qed.
End CopyCalls.

Lemma calls_CycleFrameResources {X} P :
  (forall v, P (EvWait v) = true) -> calls P (@CycleFrameResources X).
Proof.
  intros HP [b a] r st' t. rewrite CycleFrameResources_eq.
  destruct (ring_cycle (sview (b, a))) as [[v tw]|] eqn:Hv; [|discriminate].
  intros [= _ _ <-]. unfold ring_cycle in Hv.
  repeat case_match; try discriminate; injection Hv as _ <-; simpl;
    rewrite ?HP; reflexivity.
Qed.

Lemma bind_quiet_then {S A B V} (f : D3DApp * S -> V) P
    (m : M S A) (k : A -> M S B) st b st' t :
  preserves f m -> calls P m ->
  bind m k st = Some (b, st', t) ->
  exists a st1 t1 t2,
    k a st1 = Some (b, st', t2) /\ f st1 = f st /\
    forallb P t1 = true /\ t = t1 ++ t2.
Proof.
  intros Hf HP (a & st1 & t1 & t2 & H1 & H2 & ->)%bind_Some.
  exists a, st1, t1, t2.
  split; [exact H2|]. split; [exact (Hf _ _ _ _ H1)|].
  split; [exact (HP _ _ _ _ H1) | reflexivity].
Qed.

Lemma crate_UpdateSampler_eq `{DirectXMath} gt b (a : CrateApp.t) :
  CrateApp.UpdateSampler gt (b, a) =
  Some (tt, (b, set_ext (CrateApp.set_mSamplerDirty false (ext a)) a),
        if CrateApp.mSamplerDirty (ext a) then [EvCreate KDescriptor "sampler"] else [])
  \/ (CrateApp.mSamplerDirty (ext a) = false /\
      CrateApp.UpdateSampler gt (b, a) = Some (tt, (b, a), [])).
Proof.
  unfold CrateApp.UpdateSampler, CrateApp.CreateSamplerDescriptor, CrateApp.upd_ext, bind.
  unfold_prims. simpl. destruct (CrateApp.mSamplerDirty (ext a)); auto.
Qed.

(** X10.  The sampler of CrateApp.  [ChangeSamplerFilter] and
    [ChangeSamplerAddressMode] (keys 3 to 9) always return, call nothing
    on the device, store the new setting and raise [mSamplerDirty] exactly
    when the setting differs from the current one; [Update] writes the
    sampler descriptor once if [mSamplerDirty] was raised and not at all
    otherwise, leaves the settings alone and always ends with
    [mSamplerDirty] lowered. *)
Theorem X10_sampler_rewritten_when_changed `{DirectXMath} :
  (forall f st, exists st',
     CrateApp.ChangeSamplerFilter f st = Some (tt, st', []) /\
     sampler_settings st' = (f, snd (sampler_settings st)) /\
     sampler_dirty st' =
       sampler_dirty st || bool_decide (f <> fst (sampler_settings st)) /\
     records st' = records st /\ fst st' = fst st) /\
  (forall m st, exists st',
     CrateApp.ChangeSamplerAddressMode m st = Some (tt, st', []) /\
     sampler_settings st' = (fst (sampler_settings st), m) /\
     sampler_dirty st' =
       sampler_dirty st || bool_decide (m <> snd (sampler_settings st)) /\
     records st' = records st /\ fst st' = fst st) /\
  (forall gt st st' t,
     CrateApp.Update gt st = Some (tt, st', t) ->
     sampler_dirty st' = false /\
     sampler_settings st' = sampler_settings st /\
     sampler_creations t =
       if sampler_dirty st then [EvCreate KDescriptor "sampler"] else []).
Proof.
  split; [|split].
  - intros f [b a].
    unfold CrateApp.ChangeSamplerFilter, CrateApp.MarkSamplerDirty, CrateApp.upd_ext,
      bind, sampler_settings, sampler_dirty, records.
    unfold_prims. simpl.
    destruct (decide (f <> CrateApp.mCurrentSamplerFilter (ext a))) as [Hne|Heq].
    + eexists. split; [reflexivity|]. simpl.
      rewrite bool_decide_eq_true_2, orb_true_r by exact Hne. auto.
    + eexists. split; [reflexivity|]. simpl.
      rewrite bool_decide_eq_false_2, orb_false_r by exact Heq.
      apply dec_stable in Heq. rewrite Heq. auto.
  - intros m [b a].
    unfold CrateApp.ChangeSamplerAddressMode, CrateApp.MarkSamplerDirty,
      CrateApp.upd_ext, bind, sampler_settings, sampler_dirty, records.
    unfold_prims. simpl.
    destruct (decide (m <> CrateApp.mCurrentSamplerAddressMode (ext a))) as [Hne|Heq].
    + eexists. split; [reflexivity|]. simpl.
      rewrite bool_decide_eq_true_2, orb_true_r by exact Hne. auto.
    + eexists. split; [reflexivity|]. simpl.
      rewrite bool_decide_eq_false_2, orb_false_r by exact Heq.
      apply dec_stable in Heq. rewrite Heq. auto.
  - intros gt st st' t. unfold CrateApp.Update, CrateApp.UpdateBuffers.
    intros Hu.
    apply (bind_quiet_then sampler_state no_sampler_create) in Hu
      as (r1 & s1 & t1 & u1 & Hu & Hs1 & Hp1 & ->);
      [|apply (ext_CycleFrameResources
                 (fun e => (CrateApp.mSamplerDirty e,
                            (CrateApp.mCurrentSamplerFilter e,
                             CrateApp.mCurrentSamplerAddressMode e))))
       |apply calls_CycleFrameResources; reflexivity].
    apply (bind_quiet_then sampler_state no_sampler_create) in Hu
      as (r2 & s2 & t2 & u2 & Hu & Hs2 & Hp2 & ->);
      [|unfold CrateApp.AnimateMaterials; method
       |unfold CrateApp.AnimateMaterials; method].
    apply (bind_quiet_then sampler_state no_sampler_create) in Hu
      as (r3 & s3 & t3 & u3 & Hu & Hs3 & Hp3 & ->);
      [|apply (ext_UpdateObjectCBs
                 (fun e => (CrateApp.mSamplerDirty e,
                            (CrateApp.mCurrentSamplerFilter e,
                             CrateApp.mCurrentSamplerAddressMode e))))
       |apply calls_UpdateObjectCBs; reflexivity].
    apply (bind_quiet_then sampler_state no_sampler_create) in Hu
      as (r4 & s4 & t4 & u4 & Hu & Hs4 & Hp4 & ->);
      [|apply (ext_UpdateMaterialCBs
                 (fun e => (CrateApp.mSamplerDirty e,
                            (CrateApp.mCurrentSamplerFilter e,
                             CrateApp.mCurrentSamplerAddressMode e))))
       |apply calls_UpdateMaterialCBs; reflexivity].
    apply (bind_quiet_then sampler_state no_sampler_create) in Hu
      as (r5 & s5 & t5 & u5 & Hu & Hs5 & Hp5 & ->);
      [|apply (ext_UpdateMainPassCB
                 (fun e => (CrateApp.mSamplerDirty e,
                            (CrateApp.mCurrentSamplerFilter e,
                             CrateApp.mCurrentSamplerAddressMode e))))
       |apply calls_UpdateMainPassCB; reflexivity].
    assert (Hs : sampler_state s5 = sampler_state st) by congruence.
    assert (Hq : forall l, forallb no_sampler_create l = true -> sampler_creations l = []).
    { induction l as [|e l IH]; simpl; [reflexivity|].
      unfold no_sampler_create at 1. intros [He Hl]%andb_true_iff.
      apply negb_true_iff in He. rewrite He. auto. }
    unfold sampler_creations in *. rewrite !List.filter_app.
    rewrite (Hq _ Hp1), (Hq _ Hp2), (Hq _ Hp3), (Hq _ Hp4), (Hq _ Hp5). simpl.
    clear -Hs Hu. destruct s5 as [b a]. unfold sampler_state in Hs.
    pose proof (f_equal fst Hs) as Hd. pose proof (f_equal snd Hs) as Hset.
    cbn [fst snd] in Hd, Hset. rewrite <- Hd, <- Hset. clear Hs Hd Hset.
    revert Hu. unfold CrateApp.UpdateSampler, CrateApp.CreateSamplerDescriptor,
      CrateApp.upd_ext, bind, sampler_dirty, sampler_settings.
    unfold_prims. simpl.
    destruct (CrateApp.mSamplerDirty (ext a)) eqn:Hdirty; intros [= <- <-]; simpl;
      rewrite ?Hdirty; auto.
Qed.

Lemma X10_sampler_rewritten_after_key4 :
  sampler_creations (trace_of (crate_sample_Update sample_timer crate_after_key4))
  = [EvCreate KDescriptor "sampler"].
Proof.
  destruct (@X10_sampler_rewritten_when_changed sample_math) as (_ & _ & Hu).
  destruct (Hu sample_timer crate_after_key4
              (state_after crate_after_key4
                 (crate_sample_Update sample_timer crate_after_key4))
              (trace_of (crate_sample_Update sample_timer crate_after_key4)))
    as (_ & _ & Hc).
  - vm_compute. reflexivity.
  - rewrite Hc. vm_compute. reflexivity.
Defined.

(** ** Methods that return *)

Section SucceedsRules.
Context {S : Type}.

Lemma succeeds_bind {A B} (I J : D3DApp * S -> Prop) (m : M S A) (k : A -> M S B) :
  succeeds I m ->
  (forall st a st' t, I st -> m st = Some (a, st', t) -> J st') ->
  (forall a, succeeds J (k a)) ->
  succeeds I (bind m k).
Proof.
  intros Hm Hj Hk st HI. destruct (Hm st HI) as [[[a st1] t1] H1].
  destruct (Hk a st1 (Hj _ _ _ _ HI H1)) as [[[b st2] t2] H2].
  exists (b, st2, t1 ++ t2). unfold bind. rewrite H1, H2. reflexivity.
Qed.

Lemma succeeds_bind_keeps {A B} (I : D3DApp * S -> Prop) (m : M S A) (k : A -> M S B) :
  succeeds I m -> keeps I m -> (forall a, succeeds I (k a)) -> succeeds I (bind m k).
Proof. intros Hm Hkeep Hk. apply (succeeds_bind I I); auto. Qed.

Lemma succeeds_weaken {A} (I J : D3DApp * S -> Prop) (m : M S A) :
  (forall st, I st -> J st) -> succeeds J m -> succeeds I m.
Proof. intros HIJ Hm st HI. apply Hm, HIJ, HI. Qed.

Lemma total_bind {A B} (m : M S A) (k : A -> M S B) :
  (forall st, is_Some (m st)) -> (forall a st, is_Some (k a st)) ->
  forall st, is_Some (bind m k st).
Proof.
  intros Hm Hk st. destruct (Hm st) as [[[a st1] t1] H1].
  destruct (Hk a st1) as [[[b st2] t2] H2].
  exists (b, st2, t1 ++ t2). unfold bind. rewrite H1, H2. reflexivity.
Qed.

Lemma keeps_and {A} (I J : D3DApp * S -> Prop) (m : M S A) :
  keeps I m -> keeps J m -> keeps (fun st => I st /\ J st) m.
Proof. intros HI HJ st a st' t [H1 H2] Hm. split; eauto. Qed.

Lemma bind_readonly_is_Some {A B} (m : M S A) (k : A -> M S B) st :
  readonly m -> is_Some (m st) -> (forall a, is_Some (k a st)) ->
  is_Some (bind m k st).
Proof.
  intros Hr [[[a st1] t1] H1] Hk. pose proof (Hr _ _ _ _ H1) as ->.
  destruct (Hk a) as [[[b st2] t2] H2].
  exists (b, st2, t1 ++ t2). unfold bind. rewrite H1, H2. reflexivity.
Qed.
End SucceedsRules.

(** Walks through a method that has no failing branch. *)
Ltac total :=
  repeat first
    [ progress intros
    | apply total_bind
    | solve [unfold_prims; eexists; reflexivity]
    | case_match ].

Section SharedSucceeds.
Context {X : Type}.
Implicit Types (st : D3DApp * App X).

Lemma frame_set_lookup st :
  frame_set (sview st) ->
  exists fr f, mCurrFrameResource (snd st) = Some fr /\
               mFrameResources (snd st) !! fr = Some f.
Proof.
  intros (i & Hc & Hi). simpl in Hc, Hi. rewrite fences_length in Hi.
  destruct (lookup_lt_is_Some_2 _ _ Hi) as [f Hf]. eauto.
Qed.

Lemma keeps_frame_set {A} (m : M (App X) A) :
  preserves sview m -> keeps (fun st => frame_set (sview st)) m.
Proof. intros Hp st a st' t HI Hm. rewrite (Hp _ _ _ _ Hm). exact HI. Qed.

Lemma fills_current_sview {A} (m : M (App X) A) :
  fills_current m -> preserves sview m.
Proof. intros Hf st a st' t Hm. apply (Hf _ _ _ _ Hm). Qed.

Lemma CurrFrameResource_succeeds :
  succeeds (fun st => frame_set (sview st)) (@CurrFrameResource X).
Proof.
  intros [b a] (fr & f & Hc & Hf)%frame_set_lookup. simpl in Hc, Hf.
  unfold CurrFrameResource, bind. unfold_prims. simpl. rewrite Hc, Hf. eauto.
Qed.

Lemma UpdateObjectCBs_succeeds :
  succeeds (fun st => frame_set (sview st)) (@UpdateObjectCBs X).
Proof.
  intros [b a] (fr & f & Hc & Hf)%frame_set_lookup. simpl in Hc, Hf.
  rewrite UpdateObjectCBs_eq, Hc, Hf. eauto.
Qed.

Lemma UpdateMaterialCBs_succeeds :
  succeeds (fun st => frame_set (sview st)) (@UpdateMaterialCBs X).
Proof.
  intros [b a] (fr & f & Hc & Hf)%frame_set_lookup. simpl in Hc, Hf.
  rewrite UpdateMaterialCBs_eq, Hc, Hf. eauto.
Qed.

Lemma UpdateMainPassCB_succeeds :
  succeeds (fun st => frame_set (sview st)) (@UpdateMainPassCB X).
Proof.
  intros [b a] (fr & f & Hc & Hf)%frame_set_lookup. simpl in Hc, Hf.
  rewrite UpdateMainPassCB_eq, Hc, Hf. eauto.
Qed.

Lemma DrawTail_succeeds env :
  succeeds (fun st => frame_set (sview st))
           (@CloseAndExecute X ;;; PresentAndSignal env).
Proof.
  intros [b a] (fr & f & Hc & Hf)%frame_set_lookup. simpl in Hc, Hf.
  rewrite DrawTail_eq, Hc, Hf. eauto.
Qed.

Lemma BeginDraw_succeeds :
  succeeds (fun st => frame_set (sview st)) (@BeginDraw X).
Proof.
  intros [b a] (fr & f & Hc & Hf)%frame_set_lookup. simpl in Hc, Hf.
  unfold BeginDraw, CurrFrameResource, bind. unfold_prims. simpl.
  rewrite Hc, Hf. eauto.
Qed.

(** After the head of [Update] a frame resource is current. *)
Lemma CycleFrameResources_frame_set st r st' t :
  SyncOK (sview st) ->
  CycleFrameResources st = Some (r, st', t) ->
  frame_set (sview st').
Proof.
  intros Hok. destruct st as [b a]. rewrite CycleFrameResources_eq.
  destruct (ring_cycle_ok _ Hok)
    as (v' & t' & -> & Hok' & _ & Hcur & Hfs & _).
  intros [= _ <- _]. exists (Z.to_nat (sv_index v')). simpl. split; [exact Hcur|].
  change (fences _) with (fences a).
  change (fences a) with (sv_fences (sview (b, a))). rewrite <- Hfs.
  destruct Hok' as (Hlen & Hidx & _). rewrite Hlen. lia.
Qed.
End SharedSucceeds.

(** One step of a run keeps the frame ring in order. *)
Lemma step_sync {X} env (step : Action -> M (App X) unit) act st st' t :
  refines_ring env step ->
  SyncOK (sview st) ->
  mCurrentFence (fst st) + count_draws [act] < 2 ^ 64 ->
  step act st = Some (tt, st', t) ->
  SyncOK (sview st') /\
  mCurrentFence (fst st') = mCurrentFence (fst st) + count_draws [act] /\
  (frame_set (sview st) \/ is_update act = true -> frame_set (sview st')).
Proof.
  intros Href Hok Hnw Hs.
  assert (Hrun : run step [act] st = Some (tt, st', t)).
  { simpl. unfold bind. rewrite Hs. unfold ret. rewrite app_nil_r. reflexivity. }
  destruct (run_sync env step [act] _ _ _ Href Hok Hnw Hrun) as (Hok' & Hcf & _).
  split; [exact Hok'|]. split; [exact Hcf|].
  destruct (Href _ _ _ _ Hs) as (tv & Hv & _).
  destruct act as [gt|gt|x y|btn x y|w|]; simpl in Hv.
  - intros _. destruct (ring_cycle_ok _ Hok)
      as (v' & t' & Hc & Hok2 & _ & Hcur & _).
    rewrite Hv in Hc. injection Hc as Hvv _. subst v'.
    exists (Z.to_nat (sv_index (sview st'))). split; [exact Hcur|].
    destruct Hok2 as (Hlen & Hidx & _). rewrite Hlen. lia.
  - intros [(i & Hi & Hlt)|Hu]; [|discriminate Hu].
    unfold count_draws in Hnw. simpl in Hnw.
    destruct (ring_draw_ok env _ _ _ Hok ltac:(exact Hnw) Hv)
      as (_ & _ & _ & _ & Hcur & j & Hj & Hfs & _).
    exists i. rewrite Hcur. split; [exact Hi|].
    rewrite Hfs, length_insert. exact Hlt.
  - assert (Hvv : sview st' = sview st) by (clear -Hv; congruence).
    rewrite Hvv. intros [Hf|Hu]; [exact Hf | discriminate Hu].
  - assert (Hvv : sview st' = sview st) by (clear -Hv; congruence).
    rewrite Hvv. intros [Hf|Hu]; [exact Hf | discriminate Hu].
  - assert (Hvv : sview st' = sview st) by (clear -Hv; congruence).
    rewrite Hvv. intros [Hf|Hu]; [exact Hf | discriminate Hu].
  - assert (Hvv : sview st' = ring_gpu (sview st)) by (clear -Hv; congruence).
    rewrite Hvv. intros [Hf|Hu]; [exact Hf | discriminate Hu].
Qed.

(** A run returns when each of its steps does where the invariant
    holds. *)
Lemma run_returns {X} env (step : Action -> M (App X) unit)
    (I : D3DApp * App X -> Prop) acts :
  refines_ring env step ->
  (forall act, keeps I (step act)) ->
  (forall act st, I st -> SyncOK (sview st) -> can_draw act st ->
                  is_Some (step act st)) ->
  forall st,
    I st -> SyncOK (sview st) ->
    mCurrentFence (fst st) + count_draws acts < 2 ^ 64 ->
    frame_set (sview st) \/ update_first acts = true ->
    exists st' t, run step acts st = Some (tt, st', t) /\
                  I st' /\ SyncOK (sview st').
Proof.
  intros Href Hkeep Hstep. induction acts as [|act acts IH]; intros st HI Hok Hnw Hd.
  - exists st, []. auto.
  - rewrite count_draws_cons in Hnw.
    pose proof (count_draws_nonneg acts) as Hn.
    assert (Hcan : can_draw act st).
    { intros Hdr. destruct Hd as [Hf|Hu]; [exact Hf|].
      destruct act; simpl in Hdr, Hu; discriminate. }
    destruct (Hstep act st HI Hok Hcan) as [[[[] st1] t1] H1].
    assert (Hnw1 : mCurrentFence (fst st) + count_draws [act] < 2 ^ 64).
    { rewrite count_draws_cons. change (count_draws []) with 0. lia. }
    destruct (step_sync env step act _ _ _ Href Hok Hnw1 H1) as (Hok1 & Hcf & Hfs).
    rewrite count_draws_cons in Hcf. change (count_draws []) with 0 in Hcf.
    destruct (IH st1) as (st' & t' & Hrun & HI' & Hok').
    + exact (Hkeep act _ _ _ _ HI H1).
    + exact Hok1.
    + rewrite Hcf. lia.
    + destruct Hd as [Hf|Hu]; [left; apply Hfs; left; exact Hf|].
      destruct act; simpl in Hu; try (right; exact Hu);
        try discriminate Hu. left. apply Hfs. right. reflexivity.
    + exists st', (t1 ++ t'). split; [|auto].
      simpl. unfold bind. rewrite H1, Hrun. reflexivity.
Qed.

#[local] Opaque f32.add f32.sub f32.mul f32.div f32.leb f32.ltb f32.lit f32.of_int.

Section CrateReturns.
Context `{DirectXMath}.
Variables (env : Env) (v : IndexView) (l : list nat).
Hypothesis Hok : indices_ok env v l.
Hypothesis Hlen : length l = 2%nat.

Lemma crate_ready_keeps {A} (m : M CrateApp.t A) :
  preserves sview m -> preserves index_view m -> preserves crate_drawn m ->
  keeps (crate_ready v l) m.
Proof.
  intros H1 H2 H3 st a st' t (Hf & Hv & Hl) Hm. unfold crate_ready, crate_draws.
  rewrite (H1 _ _ _ _ Hm), (H2 _ _ _ _ Hm), (H3 _ _ _ _ Hm). auto.
Qed.

Lemma crate_item_lookup (st : D3DApp * CrateApp.t) k :
  crate_draws v l st -> (k < 2)%nat ->
  exists i, CrateApp.mOpaqueRitems (ext (snd st)) !! k = Some i /\
            item_indices_valid (index_view st) i = true /\
            is_Some (mAllRitems (snd st) !! i).
Proof.
  destruct st as [b a]. intros [Hv Hl] Hk. unfold crate_drawn in Hl.
  cbn [snd] in *. rewrite Hl, Hv.
  destruct Hok as (_ & Hval & _).
  destruct (lookup_lt_is_Some_2 l k) as [i Hi]; [lia|].
  exists i. split; [exact Hi|].
  assert (Hvi : item_indices_valid v i = true).
  { rewrite forallb_forall in Hval. apply Hval.
    apply list_elem_of_In. eapply list_elem_of_lookup_2; eauto. }
  split; [exact Hvi|].
  rewrite <- Hv in Hvi. unfold item_indices_valid, index_view in Hvi.
  cbn [ix_items snd] in Hvi. rewrite list_lookup_fmap in Hvi.
  destruct (mAllRitems a !! i); [eauto|]. simpl in Hvi. discriminate Hvi.
Qed.

Lemma crate_AnimateMaterials_succeeds gt :
  succeeds (crate_ready v l) (CrateApp.AnimateMaterials gt).
Proof.
  intros [b a] [_ Hd].
  destruct (crate_item_lookup _ 1 Hd ltac:(lia)) as (i & Hi & _ & [item Hitem]).
  simpl in Hi, Hitem.
  unfold CrateApp.AnimateMaterials, bind. unfold_prims. simpl.
  rewrite Hi, Hitem. eauto.
Qed.

Lemma crate_ready_frame_set {A} (m : M CrateApp.t A) :
  succeeds (fun st => frame_set (sview st)) m -> succeeds (crate_ready v l) m.
Proof. apply succeeds_weaken. intros st [Hf _]. exact Hf. Qed.

Lemma crate_UpdateBuffers_succeeds gt :
  succeeds (crate_ready v l) (CrateApp.UpdateBuffers gt).
Proof.
  unfold CrateApp.UpdateBuffers.
  apply succeeds_bind_keeps; [apply crate_AnimateMaterials_succeeds| |intros _].
  { apply crate_ready_keeps.
    - apply fills_current_sview. unfold CrateApp.AnimateMaterials. method.
    - apply index_view_crate_AnimateMaterials.
    - unfold CrateApp.AnimateMaterials. method. }
  apply succeeds_bind_keeps;
    [apply crate_ready_frame_set, UpdateObjectCBs_succeeds| |intros _].
  { apply crate_ready_keeps.
    - apply fills_current_sview, fills_current_UpdateObjectCBs.
    - apply index_view_UpdateObjectCBs.
    - apply (ext_UpdateObjectCBs CrateApp.mOpaqueRitems). }
  apply succeeds_bind_keeps;
    [apply crate_ready_frame_set, UpdateMaterialCBs_succeeds| |intros _].
  { apply crate_ready_keeps.
    - apply fills_current_sview, fills_current_UpdateMaterialCBs.
    - apply index_view_UpdateMaterialCBs.
    - apply (ext_UpdateMaterialCBs CrateApp.mOpaqueRitems). }
  apply succeeds_bind_keeps;
    [apply crate_ready_frame_set, UpdateMainPassCB_succeeds| |intros _].
  { apply crate_ready_keeps.
    - apply fills_current_sview, fills_current_UpdateMainPassCB.
    - apply index_view_UpdateMainPassCB.
    - apply (ext_UpdateMainPassCB CrateApp.mOpaqueRitems). }
  intros st _. revert st.
  unfold CrateApp.UpdateSampler, CrateApp.CreateSamplerDescriptor, CrateApp.upd_ext.
  total.
Qed.

Lemma crate_Update_succeeds gt :
  succeeds (fun st => SyncOK (sview st) /\ crate_draws v l st) (CrateApp.Update gt).
Proof.
  unfold CrateApp.Update.
  apply (succeeds_bind _ (crate_ready v l)).
  - intros st [Hs _]. apply CycleFrameResources_returns, Hs.
  - intros st r st' t [Hs [Hv Hl]] Hc. split.
    + exact (CycleFrameResources_frame_set _ _ _ _ Hs Hc).
    + split.
      * rewrite (index_view_CycleFrameResources _ _ _ _ Hc). exact Hv.
      * rewrite <- Hl. exact (ext_CycleFrameResources CrateApp.mOpaqueRitems _ _ _ _ Hc).
  - intros _. apply crate_UpdateBuffers_succeeds.
Qed.

Lemma crate_DrawOpaqueItem_succeeds k pso wire sig st :
  crate_draws v l st -> (k < 2)%nat ->
  is_Some (CrateApp.DrawOpaqueItem env k pso wire sig st).
Proof.
  intros Hd Hk. destruct (crate_item_lookup _ k Hd Hk) as (i & Hi & Hvi & _).
  destruct Hok as (Hfit & _ & Hsz). destruct Hd as [Hv Hl].
  rewrite <- Hv in Hfit, Hsz.
  destruct (DrawRenderItem_in_bounds env st i Hfit Hvi Hsz) as (td & Hdr & _).
  destruct st as [b a]. simpl in Hi.
  unfold CrateApp.DrawOpaqueItem, bind. unfold_prims. simpl. rewrite Hi. simpl.
  rewrite Hdr. eauto.
Qed.

Lemma crate_Draw_succeeds gt :
  succeeds (crate_ready v l) (CrateApp.Draw env gt).
Proof.
  intros st [Hf Hd]. unfold CrateApp.Draw.
  apply bind_readonly_is_Some; [apply crate_RecordScene_readonly| |intros _].
  - unfold CrateApp.RecordScene.
    apply bind_readonly_is_Some;
      [apply readonly_BeginDraw | apply BeginDraw_succeeds, Hf | intros _].
    apply bind_readonly_is_Some; [unfold CrateApp.DrawOpaqueItem; method| |intros _];
      apply crate_DrawOpaqueItem_succeeds; auto.
  - apply DrawTail_succeeds, Hf.
Qed.

Lemma crate_step_succeeds act st :
  crate_draws v l st -> SyncOK (sview st) -> can_draw act st ->
  is_Some (crate_step env act st).
Proof.
  intros Hd Hs Hc. destruct act as [gt|gt|x y|btn x y|w|]; simpl.
  - apply crate_Update_succeeds. auto.
  - apply crate_Draw_succeeds. split; [apply Hc; reflexivity | exact Hd].
  - revert st Hd Hs Hc. total.
  - revert st Hd Hs Hc. unfold CrateApp.OnMouseMove. total.
  - revert st Hd Hs Hc.
    unfold CrateApp.OnKeyDown, CrateApp.ScaleTexTransform, CrateApp.ChangeSamplerFilter,
      CrateApp.ChangeSamplerAddressMode, CrateApp.MarkSamplerDirty, CrateApp.upd_ext.
    total.
  - destruct st as [b a]. rewrite GpuProgress_eq. eauto.
Qed.
End CrateReturns.

#[local] Transparent f32.add f32.sub f32.mul f32.div f32.leb f32.ltb f32.lit f32.of_int.

(** X11.  CrateApp, with every Direct3D call succeeding (the embedding
    has no failing [HRESULT]: what can go wrong in it is a null pointer,
    a lookup that finds nothing or a wait for a fence value never
    signalled).  When [Initialize] has returned [true] on an idle device,
    every sequence of [Update], [Draw], mouse and key messages and GPU
    progress in which no [Draw] comes before the first [Update] runs to
    its end (short of the [UINT64] wrap-around of the fence counter):
    [mCurrFrameResource] is not null where it is dereferenced,
    [mOpaqueRitems[0]] and [mOpaqueRitems[1]] exist, every item drawn has
    its geometry and its material, and every fence value [Update] waits
    for is signalled.  A [Draw] right after [Initialize], with no
    [Update] before it, dereferences the null [mCurrFrameResource]. *)
Theorem X11_crate_runs_hit_no_null `{DirectXMath} env b mouse st0 t0 acts :
  env_small env ->
  idle b ->
  mCurrentFence b + 1 + count_draws acts < 2 ^ 64 ->
  CrateApp.Initialize env (b, CrateApp.construct mouse) = Some (tt, st0, t0) ->
  update_first acts = true ->
  (exists st' t,
     run (crate_step env) acts st0 = Some (tt, st', t) /\
     SyncOK (sview st')) /\
  (forall gt, CrateApp.Draw env gt st0 = None).
Proof.
  intros Henv Hb Hnw Hi Hu.
  pose proof (count_draws_nonneg acts) as Hn.
  destruct (crate_Initialize_eq env b mouse Hb ltac:(lia)) as (t1 & Hi1 & _).
  set (b0 := mkD3DApp (mCurrentFence b + 1) (mCurrBackBuffer b)
                      (mkGPU (mCurrentFence b + 1) [])) in *.
  assert (Hst : st0 = (b0, crate_built env mouse)) by (clear -Hi Hi1; congruence).
  subst st0. clear Hi Hi1.
  split; [|intros gt; vm_compute; reflexivity].
  assert (Hs0 : SyncOK (sview (b0, crate_built env mouse))).
  { apply SyncOK_initial; [destruct Hb as (_ & _ & Hcf); lia | |];
      vm_compute; reflexivity. }
  pose proof (crate_built_indices_ok env b0 mouse Henv) as Hok.
  assert (Hlen : length (crate_drawn (b0, crate_built env mouse)) = 2%nat)
    by (vm_compute; reflexivity).
  destruct (run_returns env (crate_step env)
              (crate_draws (index_view (b0, crate_built env mouse))
                           (crate_drawn (b0, crate_built env mouse)))
              acts (crate_refines env)) with (st := (b0, crate_built env mouse))
    as (st' & t & Hrun & _ & Hs').
  - intros act. apply crate_draws_step.
  - intros act st Hd Hs Hc.
    exact (crate_step_succeeds env _ _ Hok Hlen act st Hd Hs Hc).
  - split; reflexivity.
  - exact Hs0.
  - simpl. lia.
  - right. exact Hu.
  - exists st', t. auto.
Qed.

Lemma this_bind_is_Some {S B} (k : S -> M S B) st :
  is_Some (k (snd st) st) -> is_Some (bind this k st).
Proof.
  intros [[[b st2] t2] H2]. exists (b, st2, t2).
  unfold bind, this. rewrite H2. reflexivity.
Qed.

Lemma bind_is_Some {S A B} (m : M S A) (k : A -> M S B) st :
  is_Some (m st) ->
  (forall a st' t, m st = Some (a, st', t) -> is_Some (k a st')) ->
  is_Some (bind m k st).
Proof.
  intros [[[a st1] t1] H1] Hk. destruct (Hk _ _ _ H1) as [[[b st2] t2] H2].
  exists (b, st2, t1 ++ t2). unfold bind. rewrite H1, H2. reflexivity.
Qed.

Lemma waves_set_members (st st' : D3DApp * BlendApp.t) :
  waves_members (ext (snd st')) = waves_members (ext (snd st)) ->
  waves_set st -> waves_set st'.
Proof. unfold waves_set, waves_members. intros [= H1 H2]. rewrite H1, H2. auto. Qed.

#[local] Opaque f32.add f32.sub f32.mul f32.div f32.leb f32.ltb f32.lit f32.of_int.

Lemma blend_waves_step env act :
  preserves (fun st => waves_members (ext (snd st))) (blend_step env act).
Proof.
  destruct act as [gt|gt|x y|btn x y|w|]; simpl.
  - unfold BlendApp.Update, BlendApp.UpdateBuffers.
    apply preserves_bind; [apply (ext_CycleFrameResources waves_members)|intros _].
    apply preserves_bind;
      [unfold BlendApp.AnimateMaterials, BlendApp.set_material, BlendApp.upd_ext; method
      |intros _].
    apply preserves_bind; [apply (ext_UpdateObjectCBs waves_members)|intros _].
    apply preserves_bind; [apply (ext_UpdateMaterialCBs waves_members)|intros _].
    apply preserves_bind; [apply (ext_UpdateMainPassCB waves_members)|intros _].
    unfold BlendApp.UpdateWaves, BlendApp.upd_ext. method.
  - unfold BlendApp.Draw. apply preserves_bind; [|intros _; apply (ext_DrawTail waves_members)].
    unfold BlendApp.RecordScene, BlendApp.DrawLayer, BlendApp.DrawOverdrawQuad,
      BlendApp.GetPsoForSceneRendering, BlendApp.CreateResourcesForPixelOverdrawMode,
      BlendApp.BuildPSOsForSceneRendering, CreateDefaultBuffer, BlendApp.upd_ext.
    method.
  - method.
  - unfold BlendApp.OnMouseMove. method.
  - unfold BlendApp.OnKeyDown, BlendApp.ChangeRenderMode, BlendApp.upd_ext. method.
  - unfold GpuProgress. method.
Qed.

Lemma blend_live_step env v layers act : keeps (blend_live v layers) (blend_step env act).
Proof.
  intros st [] st' t [Hd Hw] Hs. split.
  - exact (proj1 (blend_step_bolt env v layers act _ _ _ Hd Hs)).
  - exact (waves_set_members _ _ (blend_waves_step env act _ _ _ _ Hs) Hw).
Qed.

Section BlendReturns.
Variables (env : Env) (v : IndexView) (layers : BlendApp.RenderLayer -> list nat).
Hypothesis Hok : blend_indices_ok env v layers.
Hypothesis Hwater : is_Some (ix_materials v !! "water").

Lemma blend_ready_keeps {A} (m : M BlendApp.t A) :
  preserves sview m -> keeps (blend_draws v layers) m ->
  preserves (fun st => waves_members (ext (snd st))) m ->
  keeps (blend_ready v layers) m.
Proof.
  intros H1 H2 H3 st a st' t (Hf & Hd & Hw) Hm. split; [|split].
  - rewrite (H1 _ _ _ _ Hm). exact Hf.
  - exact (H2 _ _ _ _ Hd Hm).
  - exact (waves_set_members _ _ (H3 _ _ _ _ Hm) Hw).
Qed.

Lemma blend_ready_frame_set {A} (m : M BlendApp.t A) :
  succeeds (fun st => frame_set (sview st)) m -> succeeds (blend_ready v layers) m.
Proof. apply succeeds_weaken. intros st [Hf _]. exact Hf. Qed.

Lemma blend_material_lookup (st : D3DApp * BlendApp.t) :
  blend_draws v layers st ->
  is_Some (mMaterials (snd st) !! "water") /\
  is_Some (mMaterials (snd st) !! "boltAnim").
Proof.
  destruct st as [b a]. intros (_ & _ & Hv & _).
  pose proof (f_equal ix_materials Hv) as Hm. unfold index_view, with_bolt in Hm.
  cbn [ix_materials snd] in Hm. split.
  - pose proof (f_equal (fun m => m !! "water") Hm) as Hw. cbn beta in Hw.
    rewrite lookup_fmap, lookup_insert_ne in Hw by discriminate.
    destruct Hwater as [x Hx]. rewrite Hx in Hw. cbn [snd].
    destruct (mMaterials a !! "water"); [eauto | discriminate Hw].
  - pose proof (f_equal (fun m => m !! "boltAnim") Hm) as Hw. cbn beta in Hw.
    rewrite lookup_fmap, lookup_insert_eq in Hw. cbn [snd].
    destruct (mMaterials a !! "boltAnim"); [eauto | discriminate Hw].
Qed.

Lemma blend_AnimateMaterials_succeeds gt :
  succeeds (blend_ready v layers) (BlendApp.AnimateMaterials gt).
Proof.
  intros [b a] (_ & Hd & _).
  destruct (blend_material_lookup _ Hd) as [[w Hw] [m Hm]]. cbn [snd] in Hw, Hm.
  destruct Hd as (_ & Hcount & _). unfold bolt_count in Hcount. cbn [snd] in Hcount.
  unfold BlendApp.AnimateMaterials, BlendApp.set_material, BlendApp.upd_ext, bind.
  unfold_prims. simpl. rewrite Hw. simpl.
  rewrite lookup_insert_ne by discriminate. rewrite Hm, Hcount. simpl.
  destruct (f32.leb (f32.div _ _) _); eauto.
Qed.

Lemma blend_UpdateWaves_succeeds gt :
  succeeds (blend_ready v layers) (BlendApp.UpdateWaves gt).
Proof.
  intros [b a] (Hf & _ & [[w Hw] [r Hr]]). cbn [snd] in Hw, Hr.
  apply frame_set_lookup in Hf as (fr & f & Hc & Hfr). cbn [snd] in Hc, Hfr.
  unfold BlendApp.UpdateWaves, BlendApp.upd_ext, CurrFrameResource, bind.
  unfold_prims. simpl.
  destruct (f32.leb _ _); simpl; rewrite Hc, Hfr, Hw, Hr; eauto.
Qed.

Lemma blend_UpdateBuffers_succeeds gt :
  succeeds (blend_ready v layers) (BlendApp.UpdateBuffers gt).
Proof.
  destruct (blend_static_shared env) as (_ & Ho & Hm & Hp & _).
  unfold BlendApp.UpdateBuffers.
  apply succeeds_bind_keeps; [apply blend_AnimateMaterials_succeeds| |intros _].
  { apply blend_ready_keeps.
    - apply fills_current_sview.
      unfold BlendApp.AnimateMaterials, BlendApp.set_material, BlendApp.upd_ext. method.
    - intros st a st' t Hd Hs. destruct a.
      exact (proj1 (blend_AnimateMaterials_bolt v layers gt _ _ _ Hd Hs)).
    - unfold BlendApp.AnimateMaterials, BlendApp.set_material, BlendApp.upd_ext. method. }
  apply succeeds_bind_keeps;
    [apply blend_ready_frame_set, UpdateObjectCBs_succeeds| |intros _].
  { apply blend_ready_keeps.
    - apply fills_current_sview, fills_current_UpdateObjectCBs.
    - apply blend_draws_static, Ho.
    - apply (ext_UpdateObjectCBs waves_members). }
  apply succeeds_bind_keeps;
    [apply blend_ready_frame_set, UpdateMaterialCBs_succeeds| |intros _].
  { apply blend_ready_keeps.
    - apply fills_current_sview, fills_current_UpdateMaterialCBs.
    - apply blend_draws_static, Hm.
    - apply (ext_UpdateMaterialCBs waves_members). }
  apply succeeds_bind_keeps;
    [apply blend_ready_frame_set, UpdateMainPassCB_succeeds| |intros _].
  { apply blend_ready_keeps.
    - apply fills_current_sview, fills_current_UpdateMainPassCB.
    - apply blend_draws_static, Hp.
    - apply (ext_UpdateMainPassCB waves_members). }
  apply blend_UpdateWaves_succeeds.
Qed.

Lemma blend_Update_succeeds gt :
  succeeds (fun st => SyncOK (sview st) /\ blend_live v layers st) (BlendApp.Update gt).
Proof.
  destruct (blend_static_shared env) as (Hc & _).
  unfold BlendApp.Update.
  apply (succeeds_bind _ (blend_ready v layers)).
  - intros st [Hs _]. apply CycleFrameResources_returns, Hs.
  - intros st r st' t [Hs [Hd Hw]] Hcy. split; [|split].
    + exact (CycleFrameResources_frame_set _ _ _ _ Hs Hcy).
    + exact (blend_draws_static v layers _ Hc _ _ _ _ Hd Hcy).
    + exact (waves_set_members _ _
               (ext_CycleFrameResources waves_members _ _ _ _ Hcy) Hw).
  - intros _. apply blend_UpdateBuffers_succeeds.
Qed.

Lemma blend_DrawLayer_readonly name l : readonly (BlendApp.DrawLayer env name l).
Proof. unfold BlendApp.DrawLayer, BlendApp.GetPsoForSceneRendering. method. Qed.

Lemma blend_DrawLayer_succeeds name l st :
  blend_draws v layers st -> overdraw_ready st ->
  is_Some (BlendApp.DrawLayer env name l st).
Proof.
  destruct st as [b a]. intros HI Hr.
  pose proof HI as (Hoff & Hcount & Hv & Hl & Hq).
  rewrite Hcount in Hoff.
  destruct (with_bolt_valid env v layers _ Hok Hoff) as (Hfit & Hsz & Hval).
  specialize (Hval l). rewrite <- Hv in Hfit, Hsz, Hval.
  destruct (DrawRenderItems_in_bounds env (b, a) (layers l) Hfit Hval Hsz)
    as (td & Hd & _).
  unfold blend_drawn in Hl. simpl in Hl.
  unfold overdraw_ready, overdraw_resources in Hr. simpl in Hr.
  unfold BlendApp.DrawLayer, BlendApp.GetPsoForSceneRendering, bind.
  unfold_prims. simpl.
  destruct (decide _) as [Hmode|Hmode].
  - destruct (Hr Hmode) as [r ->]. simpl. rewrite Hl, Hd. eauto.
  - simpl. rewrite Hl, Hd. eauto.
Qed.

Lemma blend_layers_succeed first overdraw st :
  blend_draws v layers st -> overdraw_ready st ->
  (overdraw = true -> is_Some (overdraw_resources st)) ->
  is_Some
    ((when first (BlendApp.DrawLayer env "transparent" BlendApp.Transparent ;;;
                  BlendApp.DrawLayer env "animatedBolt" BlendApp.AnimatedBolt) ;;;
      BlendApp.DrawLayer env "opaque" BlendApp.Opaque ;;;
      BlendApp.DrawLayer env "alphaTested" BlendApp.AlphaTested ;;;
      when (negb first)
           (BlendApp.DrawLayer env "transparent" BlendApp.Transparent ;;;
            BlendApp.DrawLayer env "animatedBolt" BlendApp.AnimatedBolt) ;;;
      when overdraw BlendApp.DrawOverdrawQuad) st).
Proof.
  intros Hd Hr Hq.
  assert (Hlayer : forall name l, is_Some (BlendApp.DrawLayer env name l st))
    by (intros; apply blend_DrawLayer_succeeds; assumption).
  assert (Hpair : is_Some
            ((BlendApp.DrawLayer env "transparent" BlendApp.Transparent ;;;
              BlendApp.DrawLayer env "animatedBolt" BlendApp.AnimatedBolt) st)).
  { apply bind_readonly_is_Some; [apply blend_DrawLayer_readonly|apply Hlayer|].
    intros _. apply Hlayer. }
  assert (Hrpair : readonly
            (BlendApp.DrawLayer env "transparent" BlendApp.Transparent ;;;
             BlendApp.DrawLayer env "animatedBolt" BlendApp.AnimatedBolt)).
  { apply readonly_bind; [|intros _]; apply blend_DrawLayer_readonly. }
  assert (Hskip : is_Some (ret (S:=BlendApp.t) tt st)) by (unfold ret; eauto).
  apply bind_readonly_is_Some; [| |intros _].
  { unfold when. destruct first; [exact Hrpair | apply readonly_ret]. }
  { unfold when. destruct first; [exact Hpair | exact Hskip]. }
  apply bind_readonly_is_Some;
    [apply blend_DrawLayer_readonly | apply Hlayer | intros _].
  apply bind_readonly_is_Some;
    [apply blend_DrawLayer_readonly | apply Hlayer | intros _].
  apply bind_readonly_is_Some; [| |intros _].
  { unfold when. destruct (negb first); [exact Hrpair | apply readonly_ret]. }
  { unfold when. destruct (negb first); [exact Hpair | exact Hskip]. }
  unfold when. destruct overdraw; [|exact Hskip].
  destruct (Hq eq_refl) as [r Hres]. destruct st as [b a].
  unfold overdraw_resources in Hres. simpl in Hres.
  unfold BlendApp.DrawOverdrawQuad, bind. unfold_prims. simpl. rewrite Hres.
  simpl. eauto.
Qed.

Lemma blend_CreateResources_succeeds st :
  exists st' t,
    BlendApp.CreateResourcesForPixelOverdrawMode st = Some (tt, st', t) /\
    is_Some (overdraw_resources st') /\
    sview st' = sview st /\
    BlendApp.mRenderMode (ext (snd st')) = BlendApp.mRenderMode (ext (snd st)).
Proof.
  destruct st as [b a].
  unfold BlendApp.CreateResourcesForPixelOverdrawMode, overdraw_resources.
  unfold bind at 1. unfold this at 1. simpl.
  destruct (BlendApp.mPixelOverdrawResources (ext a)) as [p|] eqn:Hp.
  - exists (b, a), []. simpl. rewrite Hp. eauto.
  - unfold BlendApp.BuildPSOsForSceneRendering, CreateDefaultBuffer, BlendApp.upd_ext,
      bind.
    unfold_prims. simpl. eexists _, _. split; [reflexivity|]. simpl. eauto.
Qed.

Lemma blend_RecordScene_succeeds :
  succeeds (blend_ready v layers) (BlendApp.RecordScene env).
Proof.
  intros st (Hf & Hd & _). unfold BlendApp.RecordScene.
  apply bind_readonly_is_Some;
    [apply readonly_BeginDraw | apply BeginDraw_succeeds, Hf | intros _].
  apply bind_readonly_is_Some;
    [apply readonly_record | unfold_prims; eauto | intros _].
  apply bind_readonly_is_Some;
    [apply readonly_record | unfold_prims; eauto | intros _].
  apply this_bind_is_Some. cbv zeta.
  destruct (bool_decide (BlendApp.mRenderMode (ext (snd st)) = BlendApp.PixelOverdraw))
    eqn:Hmode.
  - destruct (blend_CreateResources_succeeds st) as (st1 & t1 & Hc & Hres & Hsv & Hm).
    apply bind_is_Some; [unfold when; rewrite Hc; eauto|].
    intros [] st2 t2 Hc2. unfold when in Hc2. rewrite Hc in Hc2.
    injection Hc2 as <- _.
    apply blend_layers_succeed.
    + exact (blend_CreateResources_draws v layers _ _ _ _ Hd Hc).
    + intros _. exact Hres.
    + intros _. exact Hres.
  - apply bind_readonly_is_Some; [apply readonly_ret | unfold when, ret; eauto | intros _].
    apply blend_layers_succeed.
    + exact Hd.
    + intros He. apply bool_decide_eq_false in Hmode. contradiction.
    + discriminate.
Qed.

Lemma blend_Draw_succeeds gt :
  succeeds (blend_ready v layers) (BlendApp.Draw env gt).
Proof.
  intros st Hr. unfold BlendApp.Draw.
  apply bind_is_Some; [apply blend_RecordScene_succeeds, Hr|].
  intros [] st1 t1 H1. apply DrawTail_succeeds.
  rewrite (blend_RecordScene_sview env _ _ _ _ H1). exact (proj1 Hr).
Qed.

Lemma blend_step_succeeds act st :
  blend_live v layers st -> SyncOK (sview st) -> can_draw act st ->
  is_Some (blend_step env act st).
Proof.
  intros Hd Hs Hc. destruct act as [gt|gt|x y|btn x y|w|]; simpl.
  - apply blend_Update_succeeds. auto.
  - apply blend_Draw_succeeds. split; [apply Hc; reflexivity | exact Hd].
  - revert st Hd Hs Hc. total.
  - revert st Hd Hs Hc. unfold BlendApp.OnMouseMove. total.
  - revert st Hd Hs Hc.
    unfold BlendApp.OnKeyDown, BlendApp.ChangeRenderMode, BlendApp.upd_ext. total.
  - destruct st as [b a]. rewrite GpuProgress_eq. eauto.
Qed.
End BlendReturns.

#[local] Transparent f32.add f32.sub f32.mul f32.div f32.leb f32.ltb f32.lit f32.of_int.

(** X12.  BlendApp, with every Direct3D call succeeding (the embedding
    has no failing [HRESULT]: what can go wrong in it is a null pointer,
    a lookup that finds nothing, a remainder by zero or a wait for a
    fence value never signalled).  When [Initialize] has returned [true]
    on an idle device, every sequence of [Update], [Draw], mouse and key
    messages and GPU progress in which no [Draw] comes before the first
    [Update] runs to its end (short of the [UINT64] wrap-around of the
    fence counter): [mCurrFrameResource] is not null where it is
    dereferenced, the materials [water] and [boltAnim] exist,
    [mBoltAnimTextures] is not empty where its size divides, the waves
    have their render item, the overdraw resources are created before
    the first draw that uses them, every item drawn has its geometry and
    its material, and every fence value [Update] waits for is signalled.
    A [Draw] right after [Initialize], with no [Update] before it,
    dereferences the null [mCurrFrameResource]. *)
Theorem X12_blend_runs_hit_no_null env b mouse st0 t0 acts :
  env_small env ->
  idle b ->
  mCurrentFence b + 1 + count_draws acts < 2 ^ 64 ->
  BlendApp.Initialize env (b, BlendApp.construct mouse) = Some (tt, st0, t0) ->
  update_first acts = true ->
  (exists st' t,
     run (blend_step env) acts st0 = Some (tt, st', t) /\
     SyncOK (sview st')) /\
  (forall gt, BlendApp.Draw env gt st0 = None).
Proof.
  intros Henv Hb Hnw Hi Hu.
  pose proof (count_draws_nonneg acts) as Hn.
  destruct (blend_Initialize_eq env b mouse Hb ltac:(lia)) as (t1 & Hi1 & _).
  set (b0 := mkD3DApp (mCurrentFence b + 1) (mCurrBackBuffer b)
                      (mkGPU (mCurrentFence b + 1) [])) in *.
  assert (Hst : st0 = (b0, blend_built env mouse)) by (clear -Hi Hi1; congruence).
  subst st0. clear Hi Hi1.
  split; [|intros gt; vm_compute; reflexivity].
  assert (Hs0 : SyncOK (sview (b0, blend_built env mouse))).
  { apply SyncOK_initial; [destruct Hb as (_ & _ & Hcf); lia | |];
      vm_compute; reflexivity. }
  pose proof (blend_built_indices_ok env b0 mouse Henv) as Hok.
  assert (Hwater : is_Some (ix_materials (index_view (b0, blend_built env mouse))
                              !! "water"))
    by (eexists; vm_compute; reflexivity).
  assert (Hw0 : waves_set (b0, blend_built env mouse))
    by (split; eexists; vm_compute; reflexivity).
  destruct (run_returns env (blend_step env)
              (blend_live (index_view (b0, blend_built env mouse))
                          (blend_drawn (b0, blend_built env mouse)))
              acts (blend_refines env)) with (st := (b0, blend_built env mouse))
    as (st' & t & Hrun & _ & Hs').
  - intros act. apply blend_live_step.
  - intros act st Hd Hs Hc.
    exact (blend_step_succeeds env _ _ Hok Hwater act st Hd Hs Hc).
  - split; [apply blend_built_draws | exact Hw0].
  - exact Hs0.
  - simpl. lia.
  - right. exact Hu.
  - exists st', t. auto.
Qed.

Lemma X11_crate_three_frames_run :
  exists t0,
    CrateApp.Initialize sample_env (fresh_base, CrateApp.construct (0, 0))
      = Some (tt, crate_start, t0) /\
    (exists st' t,
       run crate_sample_step three_frames crate_start = Some (tt, st', t) /\
       SyncOK (sview st')) /\
    (forall gt, CrateApp.Draw sample_env gt crate_start = None).
Proof.
  assert (Hi : { t0 | CrateApp.Initialize sample_env (fresh_base, CrateApp.construct (0, 0))
                      = Some (tt, crate_start, t0) })
    by (eexists; vm_compute; reflexivity).
  destruct Hi as [t0 Hi]. exists t0. split; [exact Hi|].
  apply (@X11_crate_runs_hit_no_null sample_math sample_env fresh_base (0, 0)
           crate_start t0 three_frames).
  - unfold env_small. simpl. lia.
  - split; [reflexivity | split; [reflexivity | simpl; lia]].
  - vm_compute. reflexivity.
  - exact Hi.
  - reflexivity.
Defined.

Lemma X12_blend_overdraw_frames_run :
  exists t0,
    BlendApp.Initialize sample_env (fresh_base, BlendApp.construct (0, 0))
      = Some (tt, blend_start, t0) /\
    (exists st' t,
       run (blend_step sample_env) overdraw_frames blend_start = Some (tt, st', t) /\
       SyncOK (sview st')) /\
    (forall gt, BlendApp.Draw sample_env gt blend_start = None).
Proof.
  assert (Hi : { t0 | BlendApp.Initialize sample_env (fresh_base, BlendApp.construct (0, 0))
                      = Some (tt, blend_start, t0) })
    by (eexists; vm_compute; reflexivity).
  destruct Hi as [t0 Hi]. exists t0. split; [exact Hi|].
  apply (X12_blend_runs_hit_no_null sample_env fresh_base (0, 0)
           blend_start t0 overdraw_frames).
  - unfold env_small. simpl. lia.
  - split; [reflexivity | split; [reflexivity | simpl; lia]].
  - vm_compute. reflexivity.
  - exact Hi.
  - reflexivity.
Defined.

(** ** The render items reach every frame resource *)

Lemma object_copies_app t1 t2 :
  object_copies (t1 ++ t2) = object_copies t1 ++ object_copies t2.
Proof. apply List.filter_app. Qed.

Lemma object_copies_none t :
  forallb no_object_copy t = true -> object_copies t = [].
Proof.
  induction t as [|e t IH]; simpl; [reflexivity|].
  unfold no_object_copy at 1. intros [He Ht]%andb_true_iff.
  apply negb_true_iff in He. unfold object_copies in *. simpl. rewrite He. auto.
Qed.

Lemma item_consts_visit l : item_consts (map visit_item l) = item_consts l.
Proof.
  unfold item_consts. change (map visit_item l) with (visit_item <$> l).
  rewrite <- list_fmap_compose. apply list_fmap_ext. intros i e _. simpl.
  unfold visit_item, after_visit. destruct (0 <? _); reflexivity.
Qed.

Section UploadFacts.
Context {X : Type}.
Implicit Types (st : D3DApp * App X).

Lemma uploaded_object_state cs k st st' :
  object_state st' = object_state st -> uploaded cs k st -> uploaded cs k st'.
Proof.
  unfold object_state, uploaded, items_pending, frame_holds. intros [= Hi Hc Hx Hr].
  rewrite Hi, Hc, Hx. auto.
Qed.

Lemma object_state_UpdateMaterialCBs : preserves object_state (@UpdateMaterialCBs X).
Proof.
  intros [b a] u st' t. rewrite UpdateMaterialCBs_eq.
  destruct (mCurrFrameResource a) as [fr|]; [|discriminate].
  destruct (mFrameResources a !! fr) as [f|] eqn:Hf; [|discriminate].
  intros [= <- <-]. unfold object_state, object_cbs. simpl. f_equal. f_equal.
  rewrite list_fmap_insert. simpl. apply list_insert_id.
  rewrite list_lookup_fmap, Hf. reflexivity.
Qed.

Lemma object_state_UpdateMainPassCB : preserves object_state (@UpdateMainPassCB X).
Proof. apply readonly_preserves. unfold UpdateMainPassCB. method. Qed.

Lemma object_state_DrawTail env :
  preserves object_state (@CloseAndExecute X ;;; PresentAndSignal env).
Proof.
  intros [b a] u st' t. rewrite DrawTail_eq.
  destruct (mCurrFrameResource a) as [fr|]; [|discriminate].
  destruct (mFrameResources a !! fr) as [f|] eqn:Hf; [|discriminate].
  intros [= <- <-]. unfold object_state, object_cbs. simpl. f_equal. f_equal.
  rewrite list_fmap_insert. simpl. apply list_insert_id.
  rewrite list_lookup_fmap, Hf. reflexivity.
Qed.

(** The head of [Update] moves on in the ring and touches nothing else. *)
Lemma object_state_CycleFrameResources st r st' t :
  0 <= mCurrFrameResourceIndex (snd st) < 3 ->
  CycleFrameResources st = Some (r, st', t) ->
  object_state st' =
  (mAllRitems (snd st), object_cbs st,
   ((mCurrFrameResourceIndex (snd st) + 1) mod 3,
    Some (Z.to_nat ((mCurrFrameResourceIndex (snd st) + 1) mod 3)))).
Proof.
  destruct st as [b a]. cbn [snd]. intros Hidx. rewrite CycleFrameResources_eq.
  destruct (ring_cycle (sview (b, a))) as [[v tw]|] eqn:Hv; [|discriminate].
  intros [= _ <- _]. unfold ring_cycle in Hv. cbn [sview sv_index snd] in Hv.
  rewrite (next_index_mod _ Hidx) in Hv.
  unfold object_state, object_cbs. cbn [snd].
  repeat case_match; try discriminate; injection Hv as <- _; reflexivity.
Qed.

(** [UpdateObjectCBs] on items that are all dirty, and on items none of
    which is. *)
Lemma UpdateObjectCBs_uploads cs k st st' t fr :
  consts_wf cs -> 0 <= k <= 3 ->
  items_pending cs k st ->
  mCurrFrameResource (snd st) = Some fr ->
  UpdateObjectCBs st = Some (tt, st', t) ->
  item_consts (mAllRitems (snd st')) = cs /\
  Forall (fun e => RenderItem.NumFramesDirty e = Z.max (3 - k - 1) 0)
         (mAllRitems (snd st')) /\
  mCurrFrameResourceIndex (snd st') = mCurrFrameResourceIndex (snd st) /\
  length (object_cbs st') = 3%nat /\
  Forall (fun cb => length cb = length cs) (object_cbs st') /\
  (forall i cb, i <> fr -> object_cbs st !! i = Some cb ->
                object_cbs st' !! i = Some cb) /\
  (k < 3 -> exists cb, object_cbs st' !! fr = Some cb /\ holds_consts cs cb) /\
  (k = 3 -> object_cbs st' = object_cbs st) /\
  object_copies t = t /\
  Z.of_nat (length t) = if k <? 3 then Z.of_nat (length cs) else 0.
Proof.
  destruct st as [b a]. cbn [snd].
  intros [Hnd Hrange] Hk (Hs & Hd & Hidx & Hlen & Hlens) Hc.
  cbn [snd] in *. rewrite UpdateObjectCBs_eq, Hc.
  destruct (mFrameResources a !! fr) as [f|] eqn:Hf; [|discriminate].
  intros [= <- <-]. unfold object_cbs in *. cbn [snd mAllRitems mFrameResources
    set_mFrameResources set_mAllRitems mCurrFrameResourceIndex].
  set (cb' := foldl (copy_step RenderItem.NumFramesDirty item_index object_constants)
                    (FrameResource.ObjectCB f) (mAllRitems a)).
  assert (Hcb : (FrameResource.ObjectCB <$> mFrameResources a) !! fr
                = Some (FrameResource.ObjectCB f))
    by (rewrite list_lookup_fmap, Hf; reflexivity).
  assert (Hlf : length (FrameResource.ObjectCB f) = length cs).
  { rewrite Forall_forall in Hlens. apply Hlens.
    eapply list_elem_of_lookup_2. exact Hcb. }
  assert (Hlc : length cb' = length cs).
  { unfold cb'. rewrite foldl_copy_step_length. exact Hlf. }
  rewrite list_fmap_insert. cbn [FrameResource.ObjectCB FrameResource.set_ObjectCB].
  fold cb'.
  assert (Hnd' : NoDup (item_index <$> mAllRitems a)).
  { rewrite <- Hs in Hnd. unfold item_consts in Hnd.
    rewrite <- list_fmap_compose in Hnd. exact Hnd. }
  assert (Hin : Forall (fun e => 0 <= item_index e
                                 < Z.of_nat (length (FrameResource.ObjectCB f)))
                       (mAllRitems a)).
  { rewrite Hlf. rewrite <- Hs in Hrange. unfold item_consts in Hrange.
    rewrite Forall_fmap in Hrange. rewrite length_fmap in Hrange.
    rewrite <- Hs. unfold item_consts. rewrite length_fmap. exact Hrange. }
  split; [rewrite item_consts_visit; exact Hs|]. split.
  { change (map visit_item (mAllRitems a)) with (visit_item <$> mAllRitems a).
    rewrite Forall_fmap. eapply Forall_impl; [exact Hd|]. intros e He. simpl in *.
    destruct (visit_item_dirty e) as [_ Hv]; [unfold gNumFrameResources; lia|].
    rewrite Hv, He. reflexivity. }
  split; [reflexivity|]. split; [rewrite length_insert; exact Hlen|]. split.
  { apply Forall_insert; [exact Hlens | exact Hlc]. }
  split.
  { intros i cb Hi Hcbi. rewrite list_lookup_insert_ne by auto. exact Hcbi. }
  split.
  { intros Hk3. exists cb'. split.
    - apply list_lookup_insert_eq. rewrite length_fmap.
      eapply lookup_lt_Some. exact Hf.
    - intros i c Hic. rewrite <- Hs in Hic. unfold item_consts in Hic.
      apply list_elem_of_fmap in Hic as (e & [= -> ->] & He).
      unfold cb'. rewrite (foldl_copy_step_lookup _ _ _ _ _ e Hnd' Hin He).
      rewrite Forall_forall in Hd. rewrite (Hd e He).
      destruct (Z.ltb_spec 0 (3 - k)); [reflexivity | lia]. }
  assert (Hev : forall l,
            Forall (fun e => RenderItem.NumFramesDirty e = 3 - k) l ->
            object_copies
              (flat_map (copy_events RenderItem.NumFramesDirty item_index BufObject fr) l)
            = flat_map (copy_events RenderItem.NumFramesDirty item_index BufObject fr) l
            /\ Z.of_nat (length (flat_map (copy_events RenderItem.NumFramesDirty
                                             item_index BufObject fr) l))
               = (if k <? 3 then Z.of_nat (length l) else 0)
            /\ (k = 3 ->
                foldl (copy_step RenderItem.NumFramesDirty item_index object_constants)
                      (FrameResource.ObjectCB f) l = FrameResource.ObjectCB f)).
  { induction l as [|e l IH]; intros Hl.
    - simpl. destruct (k <? 3); auto.
    - apply Forall_cons in Hl as [He Hl]. destruct (IH Hl) as (IH1 & IH2 & IH3).
      cbn [flat_map foldl].
      assert (Hce : copy_events RenderItem.NumFramesDirty item_index BufObject fr e
                    = if k <? 3 then [EvCopyData BufObject (Some fr) (item_index e)]
                      else []).
      { unfold copy_events. rewrite He.
        destruct (Z.ltb_spec 0 (3 - k)), (Z.ltb_spec k 3); (reflexivity || lia). }
      assert (Hcs : k = 3 ->
                copy_step RenderItem.NumFramesDirty item_index object_constants
                          (FrameResource.ObjectCB f) e = FrameResource.ObjectCB f).
      { intros ->. unfold copy_step. rewrite He. reflexivity. }
      rewrite Hce, object_copies_app, length_app, Nat2Z.inj_add, IH1, IH2.
      destruct (Z.ltb_spec k 3).
      + split; [reflexivity|]. split; [simpl length; lia | lia].
      + split; [reflexivity|]. split; [reflexivity|].
        intros Hk3. rewrite (Hcs Hk3). exact (IH3 Hk3). }
  destruct (Hev _ Hd) as (He1 & He2 & He3).
  split; [|split; [exact He1|]].
  - intros ->. fold cb'. unfold cb'. rewrite (He3 eq_refl).
    apply list_insert_id. exact Hcb.
  - rewrite He2. rewrite <- Hs. unfold item_consts. rewrite length_fmap. reflexivity.
Qed.
End UploadFacts.

Lemma uploads_cons k act acts :
  0 <= k <= 3 ->
  uploads k (act :: acts) = uploads (uploads k [act]) acts /\
  0 <= uploads k [act] <= 3 /\ k <= uploads k [act].
Proof.
  intros Hk. unfold uploads. rewrite !count_updates_cons.
  change (count_updates []) with 0.
  pose proof (count_updates_nonneg acts). destruct (is_update act); lia.
Qed.

Lemma ring_position i j :
  0 <= i < 3 -> 0 <= j < 3 ->
  ((i + 1) mod 3 - 0) mod 3 = (i + 1) mod 3 /\
  (0 < j -> ((i + 1) mod 3 - j) mod 3 = (i - (j - 1)) mod 3 /\
            Z.to_nat ((i - (j - 1)) mod 3) <> Z.to_nat ((i + 1) mod 3)) /\
  ((i + 1) mod 3 - 0) mod 3 = (i - 2) mod 3.
Proof.
  intros Hi Hj.
  assert (Hi' : i = 0 \/ i = 1 \/ i = 2) by lia.
  assert (Hj' : j = 0 \/ j = 1 \/ j = 2) by lia.
  destruct Hi' as [-> | [-> | ->]], Hj' as [-> | [-> | ->]];
    (split; [reflexivity|split; [|reflexivity]]); intros H0;
    first [lia | split; [reflexivity | vm_compute; lia]].
Qed.

Lemma wave_copies_from_no_object fr i n :
  forallb no_object_copy (BlendApp.wave_copies_from fr i n) = true.
Proof. revert i. induction n as [|n IH]; intros i; simpl; auto. Qed.

#[local] Opaque f32.add f32.sub f32.mul f32.div f32.leb f32.ltb f32.lit f32.of_int.

Lemma blend_UpdateTail_object_state gt :
  preserves object_state
    (@UpdateMaterialCBs BlendApp.Ext ;;; UpdateMainPassCB ;;; BlendApp.UpdateWaves gt).
Proof.
  apply preserves_bind; [apply object_state_UpdateMaterialCBs|intros _].
  apply preserves_bind; [apply object_state_UpdateMainPassCB|intros _].
  unfold BlendApp.UpdateWaves, BlendApp.upd_ext. method.
Qed.

Lemma blend_UpdateWaves_no_object gt : calls no_object_copy (BlendApp.UpdateWaves gt).
Proof.
  unfold BlendApp.UpdateWaves, BlendApp.upd_ext.
  apply calls_bind; [method|]. intros a.
  apply calls_bind; [method|]. intros _.
  apply calls_bind; [method|]. intros cur.
  destruct (BlendApp.mWaves (ext a)); [|apply calls_crash].
  destruct (BlendApp.mWavesRitem (ext a)); [|apply calls_crash].
  intros st u st' t [= _ _ <-]. apply wave_copies_from_no_object.
Qed.

Lemma blend_UpdateTail_no_object gt :
  calls no_object_copy
    (@UpdateMaterialCBs BlendApp.Ext ;;; UpdateMainPassCB ;;; BlendApp.UpdateWaves gt).
Proof.
  apply calls_bind.
  { intros [b a] u st' t. rewrite UpdateMaterialCBs_eq.
    repeat case_match; try discriminate. intros [= _ _ <-].
    generalize (snd <$> map_to_list (mMaterials a)). intros l.
    induction l as [|m l IH]; simpl; [reflexivity|].
    rewrite forallb_app, IH, andb_true_r. unfold copy_events.
    destruct (0 <? _); reflexivity. }
  intros _. apply calls_bind.
  { intros [b a] u st' t. rewrite UpdateMainPassCB_eq.
    repeat case_match; try discriminate. intros [= _ _ <-]. reflexivity. }
  intros _. apply blend_UpdateWaves_no_object.
Qed.

Lemma blend_AnimateMaterials_object_state gt :
  preserves object_state (BlendApp.AnimateMaterials gt).
Proof.
  unfold BlendApp.AnimateMaterials, BlendApp.set_material, BlendApp.upd_ext. method.
Qed.

Lemma blend_AnimateMaterials_no_object gt :
  calls no_object_copy (BlendApp.AnimateMaterials gt).
Proof.
  unfold BlendApp.AnimateMaterials, BlendApp.set_material, BlendApp.upd_ext. method.
Qed.

Lemma blend_Draw_object_state env gt : preserves object_state (BlendApp.Draw env gt).
Proof.
  unfold BlendApp.Draw. apply preserves_bind; [|intros _; apply object_state_DrawTail].
  unfold BlendApp.RecordScene, BlendApp.DrawLayer, BlendApp.DrawOverdrawQuad,
    BlendApp.GetPsoForSceneRendering, BlendApp.CreateResourcesForPixelOverdrawMode,
    BlendApp.BuildPSOsForSceneRendering, CreateDefaultBuffer, BlendApp.upd_ext.
  method.
Qed.

Lemma blend_Draw_no_object env gt : calls no_object_copy (BlendApp.Draw env gt).
Proof.
  unfold BlendApp.Draw. apply calls_bind.
  - eapply calls_weaken; [|apply blend_RecordScene_calls].
    intros [] He; try discriminate; reflexivity.
  - intros _. unfold CloseAndExecute, PresentAndSignal, PresentAndSwap, Present,
      ExecuteCommandLists, Signal, set_frame. method.
Qed.

(** What is not [Update] leaves the render items and the object buffers
    alone. *)
Lemma blend_quiet_object_state env act :
  is_update act = false ->
  preserves object_state (blend_step env act) /\
  calls no_object_copy (blend_step env act).
Proof.
  destruct act as [gt|gt|x y|btn x y|w|]; simpl; try discriminate; intros _.
  - split; [apply blend_Draw_object_state | apply blend_Draw_no_object].
  - split; method.
  - split; unfold BlendApp.OnMouseMove; method.
  - split; unfold BlendApp.OnKeyDown, BlendApp.ChangeRenderMode, BlendApp.upd_ext;
      method.
  - split; unfold GpuProgress; method.
Qed.

Lemma blend_Update_uploads cs k gt st st' t :
  consts_wf cs -> 0 <= k <= 3 ->
  uploaded cs k st ->
  BlendApp.Update gt st = Some (tt, st', t) ->
  uploaded cs (Z.min (k + 1) 3) st' /\
  Z.of_nat (length (object_copies t)) = (Z.min (k + 1) 3 - k) * Z.of_nat (length cs).
Proof.
  intros Hwf Hk [Hp Hh]. unfold BlendApp.Update, BlendApp.UpdateBuffers.
  intros (r & s1 & t1 & u1 & H1 & Hu & ->)%bind_Some.
  apply bind_Some in Hu as ([] & s2 & t2 & u2 & H2 & Hu & ->).
  apply bind_Some in Hu as ([] & s3 & t3 & t4 & H3 & H4 & ->).
  pose proof Hp as (Hs & Hd & Hidx & Hlen & Hlens).
  pose proof (object_state_CycleFrameResources _ _ _ _ Hidx H1) as Ho1.
  pose proof (blend_AnimateMaterials_object_state gt _ _ _ _ H2) as Ho2.
  rewrite Ho1 in Ho2. clear Ho1.
  set (i := mCurrFrameResourceIndex (snd st)) in *.
  assert (Hi1 : 0 <= (i + 1) mod 3 < 3) by (apply Z.mod_pos_bound; lia).
  unfold object_state in Ho2. injection Ho2 as Hit Hcb Hix Hcur.
  assert (Hp2 : items_pending cs k s2).
  { unfold items_pending. rewrite Hit, Hcb, Hix. auto. }
  destruct (UpdateObjectCBs_uploads cs k s2 s3 t3 _ Hwf Hk Hp2 Hcur H3)
    as (Hs3 & Hd3 & Hix3 & Hlen3 & Hlens3 & Hne & Hnew & Hsame & Hc3 & Hn3).
  pose proof (blend_UpdateTail_object_state gt _ _ _ _ H4) as Ho4.
  assert (Hq1 : object_copies t1 = []).
  { apply object_copies_none.
    exact (calls_CycleFrameResources no_object_copy (fun _ => eq_refl) _ _ _ _ H1). }
  assert (Hq2 : object_copies t2 = [])
    by (apply object_copies_none; exact (blend_AnimateMaterials_no_object gt _ _ _ _ H2)).
  assert (Hq4 : object_copies t4 = [])
    by (apply object_copies_none; exact (blend_UpdateTail_no_object gt _ _ _ _ H4)).
  split.
  - apply (uploaded_object_state cs _ s3 st' Ho4). split.
    + unfold items_pending. rewrite Hix3, Hix.
      refine (conj Hs3 (conj _ (conj Hi1 (conj Hlen3 Hlens3)))).
      eapply Forall_impl; [exact Hd3|]. intros e He. simpl in He. lia.
    + intros j Hj. unfold frame_holds. rewrite Hix3, Hix.
      assert (Hj3 : 0 <= j < 3) by lia.
      destruct (ring_position i j Hidx Hj3) as (R0 & Rj & R3).
      destruct (Z.eq_dec k 3) as [->|Hk3].
      * rewrite (Hsame eq_refl), Hcb.
        destruct (Z.eq_dec j 0) as [->|Hj0].
        -- rewrite R3. apply (Hh 2). lia.
        -- destruct (Rj ltac:(lia)) as [-> _]. apply (Hh (j - 1)). lia.
      * destruct (Z.eq_dec j 0) as [->|Hj0].
        -- rewrite R0. apply Hnew. lia.
        -- destruct (Rj ltac:(lia)) as [-> Hneq].
           destruct (Hh (j - 1) ltac:(lia)) as (cb & Hcbj & Hholds).
           exists cb. split; [|exact Hholds].
           apply Hne; [exact Hneq|]. rewrite Hcb. exact Hcbj.
  - rewrite !object_copies_app, Hq1, Hq2, Hq4, Hc3, app_nil_r. simpl.
    rewrite Hn3. destruct (Z.ltb_spec k 3).
    + rewrite Z.min_l by lia. ring.
    + rewrite Z.min_r by lia. replace k with 3 by lia. reflexivity.
Qed.

#[local] Transparent f32.add f32.sub f32.mul f32.div f32.leb f32.ltb f32.lit f32.of_int.

Lemma blend_step_uploads env cs k act st st' t :
  consts_wf cs -> 0 <= k <= 3 ->
  uploaded cs k st ->
  blend_step env act st = Some (tt, st', t) ->
  uploaded cs (uploads k [act]) st' /\
  Z.of_nat (length (object_copies t)) = (uploads k [act] - k) * Z.of_nat (length cs).
Proof.
  intros Hwf Hk Hu Hs. unfold uploads. rewrite count_updates_cons.
  change (count_updates []) with 0.
  destruct (is_update act) eqn:Hact.
  - destruct act; try discriminate Hact. simpl in Hs.
    replace (k + (1 + 0)) with (k + 1) by lia.
    exact (blend_Update_uploads cs k gt _ _ _ Hwf Hk Hu Hs).
  - destruct (blend_quiet_object_state env act Hact) as [Ho Hc].
    replace (Z.min (k + (0 + 0)) 3) with k by lia. split.
    + exact (uploaded_object_state cs k _ _ (Ho _ _ _ _ Hs) Hu).
    + rewrite (object_copies_none _ (Hc _ _ _ _ Hs)). simpl. ring.
Qed.

Lemma blend_run_uploads env cs acts :
  consts_wf cs ->
  forall k st st' t,
    0 <= k <= 3 ->
    uploaded cs k st ->
    run (blend_step env) acts st = Some (tt, st', t) ->
    uploaded cs (uploads k acts) st' /\
    Z.of_nat (length (object_copies t)) = (uploads k acts - k) * Z.of_nat (length cs).
Proof.
  intros Hwf. induction acts as [|act acts IH]; intros k st st' t Hk Hu; simpl.
  - intros [= <- <-]. unfold uploads. change (count_updates []) with 0.
    replace (Z.min (k + 0) 3) with k by lia. split; [exact Hu | simpl; ring].
  - intros ([] & s1 & t1 & t2 & H1 & H2 & ->)%bind_Some.
    destruct (uploads_cons k act acts Hk) as (-> & Hk1 & Hle).
    destruct (blend_step_uploads env cs k act _ _ _ Hwf Hk Hu H1) as [Hu1 Hn1].
    destruct (IH _ _ _ _ Hk1 Hu1 H2) as [Hu2 Hn2].
    split; [exact Hu2|].
    rewrite object_copies_app, length_app, Nat2Z.inj_add, Hn1, Hn2. ring.
Qed.

Lemma ring_cover i p :
  0 <= i < 3 -> (p < 3)%nat ->
  exists j, 0 <= j < 3 /\ Z.to_nat ((i - j) mod 3) = p.
Proof.
  intros Hi Hp. exists ((i - Z.of_nat p) mod 3).
  assert (Hi' : i = 0 \/ i = 1 \/ i = 2) by lia.
  assert (Hp' : p = 0%nat \/ p = 1%nat \/ p = 2%nat) by lia.
  destruct Hi' as [-> | [-> | ->]], Hp' as [-> | [-> | ->]];
    (split; [vm_compute; split; [discriminate | reflexivity] | reflexivity]).
Qed.

Lemma blend_built_uploaded env b mouse :
  consts_wf (item_consts (mAllRitems (blend_built env mouse))) /\
  uploaded (item_consts (mAllRitems (blend_built env mouse))) 0
           (b, blend_built env mouse).
Proof.
  split; [split|split; [|intros j Hj; lia]].
  - refine (bool_decide_unpack _ _). vm_compute. exact I.
  - refine (bool_decide_unpack _ _). vm_compute. exact I.
  - split; [reflexivity|]. split.
    { refine (bool_decide_unpack _ _). vm_compute. exact I. }
    split.
    { assert (Hi : mCurrFrameResourceIndex (blend_built env mouse) = 0)
        by (vm_compute; reflexivity).
      cbn [snd]. rewrite Hi. lia. }
    split; [vm_compute; reflexivity|].
    refine (bool_decide_unpack _ _). vm_compute. exact I.
Qed.

(** X13.  The constants of BlendApp's render items reach every frame
    resource, once.  In a run from the state [Initialize] builds, with
    [k] the number of [Update]s so far, at most 3: the render items keep
    the constants they were built with and have [NumFramesDirty = 3 - k];
    the object constants copied in the whole run are [k] times the
    number of render items; the current frame resource and the [k - 1]
    before it in the ring hold the constants of every render item at
    the item's [ObjCBIndex]; so after three [Update]s all three frame
    resources do, and no later [Update] copies a render item. *)
Theorem X13_blend_items_reach_every_frame env b mouse acts
    (st' : D3DApp * App BlendApp.Ext) t :
  run (blend_step env) acts (b, blend_built env mouse) = Some (tt, st', t) ->
  item_consts (mAllRitems (snd st')) = item_consts (mAllRitems (blend_built env mouse)) /\
  Forall (fun e => RenderItem.NumFramesDirty e = 3 - uploads 0 acts)
         (mAllRitems (snd st')) /\
  Z.of_nat (length (object_copies t))
    = uploads 0 acts * Z.of_nat (length (mAllRitems (snd st'))) /\
  (forall j, 0 <= j < uploads 0 acts ->
             frame_holds (item_consts (mAllRitems (snd st'))) j st') /\
  (3 <= count_updates acts ->
   Forall (holds_consts (item_consts (mAllRitems (snd st')))) (object_cbs st')).
Proof.
  intros Hr. destruct (blend_built_uploaded env b mouse) as [Hwf Hu0].
  destruct (blend_run_uploads env _ acts Hwf 0 _ _ _ ltac:(lia) Hu0 Hr)
    as [[Hp Hh] Hn].
  pose proof Hp as (Hs & Hd & Hidx & Hlen & Hlens).
  rewrite Hs. split; [reflexivity|]. split; [exact Hd|]. split.
  { rewrite Hn, <- Hs. unfold item_consts. rewrite length_fmap. ring. }
  split; [exact Hh|].
  intros H3. assert (Hk : uploads 0 acts = 3) by (unfold uploads; lia).
  rewrite Hk in Hh. apply Forall_lookup. intros p cb Hpcb.
  assert (Hp3 : (p < 3)%nat) by (rewrite <- Hlen; eapply lookup_lt_Some; eauto).
  destruct (ring_cover _ p Hidx Hp3) as (j & Hj & Hjp).
  destruct (Hh j Hj) as (cb' & Hcb' & Hholds).
  rewrite Hjp, Hpcb in Hcb'. injection Hcb' as <-. exact Hholds.
Qed.

Lemma X13_blend_items_after_three_frames :
  Forall (fun e => RenderItem.NumFramesDirty e = 0)
         (mAllRitems
            (snd (state_after blend_start
                    (run (blend_step sample_env) three_frames blend_start)))).
Proof.
  remember (run (blend_step sample_env) three_frames blend_start) as res eqn:E.
  assert (Hr : returns res = true) by (rewrite E; vm_compute; reflexivity).
  destruct res as [[[[] st'] t]|]; [|discriminate Hr]. symmetry in E.
  cbn [state_after].
  exact (proj1 (proj2
           (X13_blend_items_reach_every_frame sample_env _ (0, 0) three_frames st' t E))).
Defined.

(** ** The pipeline states of [Draw] *)

Lemma pipeline_states_app t1 t2 :
  pipeline_states (t1 ++ t2) = pipeline_states t1 ++ pipeline_states t2.
Proof. apply omap_app. Qed.

Lemma pipeline_states_none t :
  forallb no_pipeline_state t = true -> pipeline_states t = [].
Proof.
  induction t as [|e t IH]; simpl; [reflexivity|].
  unfold no_pipeline_state at 1. intros [He Ht]%andb_true_iff.
  unfold pipeline_states in *. simpl.
  destruct (pipeline_state e); [discriminate He | auto].
Qed.

Section PipelineRules.
Context {S : Type}.

Lemma sets_bind {A B} (I : D3DApp * S -> Prop) l1 l2 (m : M S A) (k : A -> M S B) :
  sets_pipeline_states I l1 m ->
  (forall a, sets_pipeline_states I l2 (k a)) ->
  sets_pipeline_states I (l1 ++ l2) (bind m k).
Proof.
  intros Hm Hk st b st2 t HI (a & st1 & t1 & t2 & H1 & H2 & ->)%bind_Some.
  destruct (Hm _ _ _ _ HI H1) as [HI1 <-].
  destruct (Hk a _ _ _ _ HI1 H2) as [HI2 <-].
  split; [exact HI2 | apply pipeline_states_app].
Qed.

Lemma sets_quiet {A} (I : D3DApp * S -> Prop) (m : M S A) :
  keeps I m -> calls no_pipeline_state m -> sets_pipeline_states I [] m.
Proof.
  intros Hk Hc st a st' t HI Hm. split; [exact (Hk _ _ _ _ HI Hm)|].
  apply pipeline_states_none. exact (Hc _ _ _ _ Hm).
Qed.

Lemma sets_this_bind {B} (I : D3DApp * S -> Prop) l (k : S -> M S B) :
  (forall st, I st -> sets_pipeline_states I l (k (snd st))) ->
  sets_pipeline_states I l (bind this k).
Proof.
  intros Hk st b st2 t HI (a & st1 & t1 & t2 & H1 & H2 & ->)%bind_Some.
  injection H1 as <- <- <-. exact (Hk st HI _ _ _ _ HI H2).
Qed.

Lemma sets_list {A} (I : D3DApp * S -> Prop) l l' (m : M S A) :
  sets_pipeline_states I l m -> l = l' -> sets_pipeline_states I l' m.
Proof. intros Hm <-. exact Hm. Qed.
End PipelineRules.

Section DrawItemsPipeline.
Context {X : Type}.

Lemma DrawRenderItem_no_pipeline_state env i :
  calls no_pipeline_state (@DrawRenderItem X env i).
Proof. unfold DrawRenderItem. method. Qed.

Lemma DrawRenderItems_no_pipeline_state env l :
  calls no_pipeline_state (@DrawRenderItems X env l).
Proof.
  induction l as [|i l IH]; simpl.
  - apply calls_ret.
  - apply calls_bind; [apply DrawRenderItem_no_pipeline_state | intros; exact IH].
Qed.

Lemma DrawTail_no_pipeline_state env :
  calls no_pipeline_state (@CloseAndExecute X ;;; PresentAndSignal env).
Proof.
  unfold CloseAndExecute, PresentAndSignal, PresentAndSwap, Present,
    ExecuteCommandLists, Signal, set_frame. method.
Qed.

Lemma BeginDraw_no_pipeline_state : calls no_pipeline_state (@BeginDraw X).
Proof. unfold BeginDraw. method. Qed.
End DrawItemsPipeline.

Lemma crate_DrawOpaqueItem_pipeline `{DirectXMath} env opaque k pso wire sig :
  sets_pipeline_states (crate_mode opaque) [if opaque then pso else wire]
                       (CrateApp.DrawOpaqueItem env k pso wire sig).
Proof.
  intros [b a] u st' t Hm. unfold crate_mode in Hm. cbn [snd] in Hm.
  unfold CrateApp.DrawOpaqueItem.
  intros (a' & s0 & t0 & t1 & H0 & H1 & ->)%bind_Some. injection H0 as <- <- <-.
  cbn [snd] in H1.
  destruct (CrateApp.mOpaqueRitems (ext a) !! k) as [i|]; [|discriminate H1].
  rewrite Hm in H1.
  apply bind_Some in H1 as (u1 & s1 & t1' & t2 & H1 & H2 & ->).
  injection H1 as _ <- <-.
  apply bind_Some in H2 as (u2 & s2 & t2' & t3 & H2 & H3 & ->).
  injection H2 as _ <- <-.
  apply bind_Some in H3 as (u3 & s3 & t3' & t4 & H3 & H4 & ->).
  injection H3 as _ <- <-.
  apply bind_Some in H4 as (u4 & s4 & t4' & t5 & H4 & H5 & ->).
  injection H4 as _ <- <-.
  pose proof (readonly_DrawRenderItem env i _ _ _ _ H5) as ->.
  split; [exact Hm|].
  pose proof (DrawRenderItem_no_pipeline_state env i _ _ _ _ H5) as Hn.
  apply pipeline_states_none in Hn.
  rewrite !pipeline_states_app, Hn. reflexivity.
Qed.

Lemma crate_Draw_pipeline `{DirectXMath} env gt opaque :
  sets_pipeline_states (crate_mode opaque) (crate_psos opaque) (CrateApp.Draw env gt).
Proof.
  assert (Hkeep : forall A (m : M CrateApp.t A),
            preserves (fun st => CrateApp.mOpaqueDraw (ext (snd st))) m ->
            keeps (crate_mode opaque) m).
  { intros A m Hp st a st' t HI Hm. exact (eq_trans (Hp _ _ _ _ Hm) HI). }
  unfold CrateApp.Draw, CrateApp.RecordScene.
  eapply sets_list.
  - apply sets_bind.
    + apply sets_bind.
      * apply sets_quiet; [apply readonly_keeps, readonly_BeginDraw
                          | apply BeginDraw_no_pipeline_state].
      * intros _. apply sets_bind; [|intros _];
          apply crate_DrawOpaqueItem_pipeline.
    + intros _. apply sets_quiet; [|apply DrawTail_no_pipeline_state].
      apply Hkeep, (ext_DrawTail CrateApp.mOpaqueDraw).
  - destruct opaque; reflexivity.
Qed.

Lemma blend_DrawLayer_pipeline env mode first name l :
  sets_pipeline_states (blend_mode mode first)
    [match mode with
     | BlendApp.PixelOverdraw => "overdraw."
     | BlendApp.Normal => "default."
     end +:+ name]
    (BlendApp.DrawLayer env name l).
Proof.
  intros [b a] u st' t [Hm Hf]. cbn [snd] in Hm, Hf.
  unfold BlendApp.DrawLayer, BlendApp.GetPsoForSceneRendering.
  intros (pso & s0 & t0 & t1 & H0 & H1 & ->)%bind_Some.
  assert (Hpso : s0 = (b, a) /\ t0 = [] /\
                 pso = (match mode with
                        | BlendApp.PixelOverdraw => "overdraw."
                        | BlendApp.Normal => "default."
                        end +:+ name)).
  { revert H0. unfold bind. unfold_prims. cbn [snd]. rewrite Hm.
    destruct mode; simpl.
    - intros [= <- <- <-]. auto.
    - destruct (BlendApp.mPixelOverdrawResources (ext a)); [|discriminate].
      intros [= <- <- <-]. auto. }
  destruct Hpso as (-> & -> & ->).
  apply bind_Some in H1 as (u1 & s1 & t1' & t2 & H1 & H2 & ->).
  injection H1 as _ <- <-.
  apply bind_Some in H2 as (a' & s2 & t2' & t3 & H2 & H3 & ->).
  injection H2 as <- <- <-.
  pose proof (readonly_DrawRenderItems env _ _ _ _ _ H3) as ->.
  split; [split; assumption|].
  pose proof (DrawRenderItems_no_pipeline_state env _ _ _ _ _ H3) as Hn.
  apply pipeline_states_none in Hn.
  rewrite !pipeline_states_app, Hn. reflexivity.
Qed.

Lemma blend_mode_keeps {A} mode first (m : M BlendApp.t A) :
  preserves (fun st => (BlendApp.mRenderMode (ext (snd st)),
                        BlendApp.mDrawTransparentFirst (ext (snd st)))) m ->
  keeps (blend_mode mode first) m.
Proof.
  intros Hp st a st' t [Hm Hf] Hs. specialize (Hp _ _ _ _ Hs).
  injection Hp as H1 H2. exact (conj (eq_trans H1 Hm) (eq_trans H2 Hf)).
Qed.

Lemma blend_DrawOverdrawQuad_pipeline mode first :
  sets_pipeline_states (blend_mode mode first) ["quadPSO"] BlendApp.DrawOverdrawQuad.
Proof.
  intros [b a] u st' t HI. unfold BlendApp.DrawOverdrawQuad, bind. unfold_prims.
  cbn [snd].
  destruct (BlendApp.mPixelOverdrawResources (ext a)); [|discriminate].
  intros [= _ <- <-]. split; [exact HI | reflexivity].
Qed.

Lemma blend_Draw_pipeline env gt mode first :
  sets_pipeline_states (blend_mode mode first) (blend_psos mode first)
                       (BlendApp.Draw env gt).
Proof.
  assert (Hskip : sets_pipeline_states (blend_mode mode first) []
                    (ret (S:=BlendApp.t) tt)).
  { apply sets_quiet; [apply readonly_keeps, readonly_ret | apply calls_ret]. }
  assert (Hblended : sets_pipeline_states (blend_mode mode first)
            ([match mode with
              | BlendApp.PixelOverdraw => "overdraw."
              | BlendApp.Normal => "default."
              end +:+ "transparent"] ++
             [match mode with
              | BlendApp.PixelOverdraw => "overdraw."
              | BlendApp.Normal => "default."
              end +:+ "animatedBolt"])
            (BlendApp.DrawLayer env "transparent" BlendApp.Transparent ;;;
             BlendApp.DrawLayer env "animatedBolt" BlendApp.AnimatedBolt)).
  { apply sets_bind; [|intros _]; apply blend_DrawLayer_pipeline. }
  match type of Hblended with
  | sets_pipeline_states _ ?l _ => set (blended := l) in *
  end.
  unfold BlendApp.Draw, BlendApp.RecordScene.
  eapply sets_list.
  - apply sets_bind.
    + apply sets_bind.
      { apply sets_quiet; [apply readonly_keeps, readonly_BeginDraw
                          | apply BeginDraw_no_pipeline_state]. }
      intros _. apply sets_bind.
      { apply sets_quiet; [apply readonly_keeps, readonly_record
                          | apply calls_record; reflexivity]. }
      intros _. apply sets_bind.
      { apply sets_quiet; [apply readonly_keeps, readonly_record
                          | apply calls_record; reflexivity]. }
      intros _. apply sets_this_bind. intros [b a] [Hm Hf]. cbn [snd] in *.
      cbv zeta. rewrite Hm, Hf.
      apply sets_bind.
      { apply (sets_quiet (blend_mode mode first)).
        - apply blend_mode_keeps.
          unfold when, BlendApp.CreateResourcesForPixelOverdrawMode,
            BlendApp.BuildPSOsForSceneRendering, CreateDefaultBuffer, BlendApp.upd_ext.
          method.
        - unfold when, BlendApp.CreateResourcesForPixelOverdrawMode,
            BlendApp.BuildPSOsForSceneRendering, CreateDefaultBuffer, BlendApp.upd_ext.
          method. }
      intros _. apply (sets_bind _ (if first then blended else [])).
      { unfold when. destruct first; [exact Hblended | exact Hskip]. }
      intros _. apply sets_bind; [apply blend_DrawLayer_pipeline|].
      intros _. apply sets_bind; [apply blend_DrawLayer_pipeline|].
      intros _. apply (sets_bind _ (if negb first then blended else [])).
      { unfold when. destruct (negb first); [exact Hblended | exact Hskip]. }
      intros _.
      apply (sets_list _ (if bool_decide (mode = BlendApp.PixelOverdraw)
                          then ["quadPSO"] else [])); [|reflexivity].
      unfold when. destruct (bool_decide (mode = BlendApp.PixelOverdraw));
        [apply blend_DrawOverdrawQuad_pipeline | exact Hskip].
    + intros _. apply sets_quiet; [|apply DrawTail_no_pipeline_state].
      apply blend_mode_keeps.
      apply (ext_DrawTail (fun e => (BlendApp.mRenderMode e,
                                     BlendApp.mDrawTransparentFirst e))).
  - destruct mode, first; reflexivity.
Qed.

#[local] Opaque f32.add f32.sub f32.mul f32.div f32.leb f32.ltb f32.lit f32.of_int.

Lemma crate_OnKeyDown_mode w (st : D3DApp * App CrateApp.Ext) :
  exists st',
    CrateApp.OnKeyDown w st = Some (tt, st', []) /\
    CrateApp.mOpaqueDraw (ext (snd st')) =
      if w =? VK_F1 then true
      else if w =? VK_F2 then false
      else CrateApp.mOpaqueDraw (ext (snd st)).
Proof.
  destruct st as [b a]. unfold CrateApp.OnKeyDown.
  repeat match goal with
         | |- context [w =? ?c] => destruct (Z.eqb_spec w c) as [->|?]
         end;
    unfold CrateApp.ScaleTexTransform, CrateApp.ChangeSamplerFilter,
      CrateApp.ChangeSamplerAddressMode, CrateApp.MarkSamplerDirty, CrateApp.upd_ext,
      bind;
    unfold_prims; cbn [snd fst];
    try (destruct (decide _));
    eexists; (split; [reflexivity|]); simpl; auto.
Qed.

Lemma blend_OnKeyDown_mode w (st : D3DApp * App BlendApp.Ext) :
  exists st',
    BlendApp.OnKeyDown w st = Some (tt, st', []) /\
    BlendApp.mDrawTransparentFirst (ext (snd st')) =
      (if w =? 49 then negb (BlendApp.mDrawTransparentFirst (ext (snd st)))
       else BlendApp.mDrawTransparentFirst (ext (snd st))) /\
    BlendApp.mRenderMode (ext (snd st')) =
      if w =? 49 then BlendApp.mRenderMode (ext (snd st))
      else if w =? VK_F1 then BlendApp.Normal
      else if w =? VK_F2 then BlendApp.PixelOverdraw
      else BlendApp.mRenderMode (ext (snd st)).
Proof.
  destruct st as [b a]. unfold BlendApp.OnKeyDown.
  repeat match goal with
         | |- context [w =? ?c] => destruct (Z.eqb_spec w c) as [->|?]
         end;
    unfold BlendApp.ChangeRenderMode, BlendApp.upd_ext, bind;
    unfold_prims; cbn [snd fst];
    try (destruct (decide _));
    eexists; (split; [reflexivity|]); simpl; auto.
Qed.

#[local] Transparent f32.add f32.sub f32.mul f32.div f32.leb f32.ltb f32.lit f32.of_int.

(** X15.  The keys choose the pipeline states of [Draw].  [Draw] of
    CrateApp draws the crate and then the flare, with the solid pipeline
    states if [mOpaqueDraw] and the wireframe ones if not; F1 sets
    [mOpaqueDraw], F2 clears it, no other key changes it.  [Draw] of
    BlendApp draws the opaque and the alpha-tested layer and then the
    transparent layer and the bolt, or the last two first if
    [mDrawTransparentFirst]; in the overdraw mode it takes the pipeline
    states of that mode and draws the quad last; key 1 flips
    [mDrawTransparentFirst], F1 and F2 choose the mode, no other key
    changes either.  A key handler calls nothing on the device. *)
Theorem X15_keys_choose_pipeline_states `{DirectXMath} env gt :
  (forall (st st' : D3DApp * App CrateApp.Ext) t,
     CrateApp.Draw env gt st = Some (tt, st', t) ->
     pipeline_states t = crate_psos (CrateApp.mOpaqueDraw (ext (snd st)))) /\
  (forall (st st' : D3DApp * App BlendApp.Ext) t,
     BlendApp.Draw env gt st = Some (tt, st', t) ->
     pipeline_states t = blend_psos (BlendApp.mRenderMode (ext (snd st)))
                                    (BlendApp.mDrawTransparentFirst (ext (snd st)))) /\
  (forall w (st : D3DApp * App CrateApp.Ext),
     exists st',
       CrateApp.OnKeyDown w st = Some (tt, st', []) /\
       CrateApp.mOpaqueDraw (ext (snd st')) =
         if w =? VK_F1 then true
         else if w =? VK_F2 then false
         else CrateApp.mOpaqueDraw (ext (snd st))) /\
  (forall w (st : D3DApp * App BlendApp.Ext),
     exists st',
       BlendApp.OnKeyDown w st = Some (tt, st', []) /\
       BlendApp.mDrawTransparentFirst (ext (snd st')) =
         (if w =? 49 then negb (BlendApp.mDrawTransparentFirst (ext (snd st)))
          else BlendApp.mDrawTransparentFirst (ext (snd st))) /\
       BlendApp.mRenderMode (ext (snd st')) =
         if w =? 49 then BlendApp.mRenderMode (ext (snd st))
         else if w =? VK_F1 then BlendApp.Normal
         else if w =? VK_F2 then BlendApp.PixelOverdraw
         else BlendApp.mRenderMode (ext (snd st))).
Proof.
  split; [|split; [|split]].
  - intros st st' t Hd.
    exact (proj2 (crate_Draw_pipeline env gt _ st _ st' t eq_refl Hd)).
  - intros st st' t Hd.
    exact (proj2 (blend_Draw_pipeline env gt _ _ st _ st' t (conj eq_refl eq_refl) Hd)).
  - apply crate_OnKeyDown_mode.
  - apply blend_OnKeyDown_mode.
Qed.

Lemma X15_crate_draws_solid_at_start :
  pipeline_states (trace_of (CrateApp.Draw sample_env sample_timer crate_updated))
  = ["mOpaquePSO"; "mOpaqueFlarePSO"].
Proof.
  destruct (@X15_keys_choose_pipeline_states sample_math sample_env sample_timer)
    as (Hc & _).
  rewrite (Hc crate_updated
             (state_after crate_updated
                (CrateApp.Draw sample_env sample_timer crate_updated))
             (trace_of (CrateApp.Draw sample_env sample_timer crate_updated))).
  - vm_compute. reflexivity.
  - vm_compute. reflexivity.
Defined.
